(** * Valence: routing facade, path normaliser and archive materialiser

    A shallow embedding of the request-path normaliser and routing
    decision engine of [cmd/valence] and of the archive materialiser of
    [internal/atomembed], with the Go library functions they call
    ([strings], [path]/[path/filepath], [regexp], [strconv], [os])
    modelled next to them.

    Go strings are byte sequences: [str] is [list ascii].  The first half
    of the file holds the definitions, the second half the lemmas. *)

From Stdlib Require Import List Ascii Bool Arith Lia ZArith.
Import ListNotations.

Set Warnings "-via-type-remapping,-via-type-mismatch,-register-all".

(** ** Byte strings *)

Inductive strI := SNil | SCons (a : ascii) (s : strI).

Fixpoint strI_of_bytes (l : list Byte.byte) : strI :=
  match l with
  | [] => SNil
  | b :: l => SCons (ascii_of_byte b) (strI_of_bytes l)
  end.

Fixpoint bytes_of_strI (l : strI) : list Byte.byte :=
  match l with
  | SNil => []
  | SCons b l => byte_of_ascii b :: bytes_of_strI l
  end.

Declare Scope str_scope.
Delimit Scope str_scope with str.
String Notation list strI_of_bytes bytes_of_strI
  (via strI mapping [[nil] => SNil, [cons] => SCons]) : str_scope.
Abbreviation str := (list ascii).
Open Scope str_scope.
Open Scope list_scope.

Fixpoint streq (a b : str) : bool :=
  match a, b with
  | [], [] => true
  | x :: a', y :: b' => Ascii.eqb x y && streq a' b'
  | _, _ => false
  end.

(** The line feed, and the text of some lines, each ended by one. *)
Definition LF : str := [ascii_of_nat 10].

Definition lines (ls : list str) : str := concat (map (fun l => l ++ LF) ls).

(** Results of fallible calls: Go's [(value, error)] pairs where the value
    is meaningful only when the error is nil. *)
Inductive result (E A : Type) : Type :=
| Ok (a : A)
| Err (e : E).
Arguments Ok {E A} a.
Arguments Err {E A} e.

(** ** Package [unicode/utf8] *)

Module utf8.

Definition between (lo hi : nat) (c : ascii) : bool :=
  (lo <=? nat_of_ascii c) && (nat_of_ascii c <=? hi).

(** The library's tables [first] and [acceptRanges]: for a leading byte,
    the length of the sequence it starts and the range its second byte
    must lie in; [None] for an ASCII byte and for a byte that starts no
    sequence. *)
Definition leading (c : ascii) : option (nat * (nat * nat)) :=
  let n := nat_of_ascii c in
  if n <? 194 then None
  else if n <=? 223 then Some (2, (128, 191))
  else if n =? 224 then Some (3, (160, 191))
  else if n <=? 236 then Some (3, (128, 191))
  else if n =? 237 then Some (3, (128, 159))
  else if n <=? 239 then Some (3, (128, 191))
  else if n =? 240 then Some (4, (144, 191))
  else if n <=? 243 then Some (4, (128, 191))
  else if n =? 244 then Some (4, (128, 143))
  else None.

(** The size [DecodeRuneInString] returns: the length of the encoding [s]
    starts with, [1] when it starts with a byte that is not the start of a
    complete valid encoding, [0] when it is empty. *)
Definition runeSize (s : str) : nat :=
  match s with
  | [] => 0
  | s0 :: rest =>
    match leading s0 with
    | None => 1
    | Some (sz, (lo, hi)) =>
      if length s <? sz then 1
      else
        match rest with
        | s1 :: s2 :: s3 :: _ =>
          if negb (between lo hi s1) then 1
          else if sz <=? 2 then 2
          else if negb (between 128 191 s2) then 1
          else if sz <=? 3 then 3
          else if negb (between 128 191 s3) then 1
          else 4
        | [s1; s2] =>
          if negb (between lo hi s1) then 1
          else if sz <=? 2 then 2
          else if negb (between 128 191 s2) then 1
          else 3
        | [s1] => if negb (between lo hi s1) then 1 else 2
        | [] => 1
        end
    end
  end.

End utf8.

(** The case tables of package [unicode] are left to an interface:
    [MapToLower s] is [strings.Map(unicode.ToLower, s)], which
    [strings.ToLower] calls for a string that is not all ASCII. *)
Class Unicode : Type := { MapToLower : str -> str }.

(** ** Package [strings] *)

Module strings.

Fixpoint HasPrefix (s prefix : str) {struct prefix} : bool :=
  match prefix, s with
  | [], _ => true
  | _ :: _, [] => false
  | p :: ps, c :: cs => Ascii.eqb c p && HasPrefix cs ps
  end.

Definition HasSuffix (s suffix : str) : bool :=
  HasPrefix (rev s) (rev suffix).

Definition TrimPrefix (s prefix : str) : str :=
  if HasPrefix s prefix then skipn (length prefix) s else s.

Fixpoint Contains (s substr : str) : bool :=
  HasPrefix s substr
  || match s with
     | [] => false
     | _ :: s' => Contains s' substr
     end.

(** UTF-8 encodings of the code points for which [unicode.IsSpace] holds:
    the six ASCII ones, U+0085, U+00A0, U+1680, U+2000..U+200A, U+2028,
    U+2029, U+202F, U+205F and U+3000. *)
Definition spaceRunes : list str :=
  map (map ascii_of_nat)
    [ [9]; [10]; [11]; [12]; [13]; [32];
      [194; 133]; [194; 160];
      [225; 154; 128];
      [226; 128; 128]; [226; 128; 129]; [226; 128; 130]; [226; 128; 131];
      [226; 128; 132]; [226; 128; 133]; [226; 128; 134]; [226; 128; 135];
      [226; 128; 136]; [226; 128; 137]; [226; 128; 138];
      [226; 128; 168]; [226; 128; 169]; [226; 128; 175];
      [226; 129; 159];
      [227; 128; 128] ].

(** Width of the white-space rune [s] starts with, [0] when there is none. *)
Definition spaceWidth (runes : list str) (s : str) : nat :=
  match find (HasPrefix s) runes with
  | Some r => length r
  | None => 0
  end.

Fixpoint trimLeading (fuel : nat) (runes : list str) (s : str) : str :=
  match fuel with
  | 0 => s
  | S fuel' =>
    match spaceWidth runes s with
    | 0 => s
    | k => trimLeading fuel' runes (skipn k s)
    end
  end.

Definition TrimLeftSpace (s : str) : str :=
  trimLeading (length s) spaceRunes s.

Definition TrimRightSpace (s : str) : str :=
  rev (trimLeading (length s) (map (@rev ascii) spaceRunes) (rev s)).

Definition TrimSpace (s : str) : str :=
  TrimRightSpace (TrimLeftSpace s).

Definition TrimSuffix (s suffix : str) : str :=
  if HasSuffix s suffix then firstn (length s - length suffix) s else s.

(** [strings.Split(s, sep)] for a separator of one byte, the only kind
    the program passes: the pieces between the occurrences of [sep], one
    more than there are occurrences. *)
Fixpoint Split (s : str) (sep : ascii) : list str :=
  match s with
  | [] => [[]]
  | c :: s' =>
    if Ascii.eqb c sep then [] :: Split s' sep
    else match Split s' sep with
         | piece :: pieces => (c :: piece) :: pieces
         | [] => [[c]]
         end
  end.

(** The loop of [genSplit] with [splits] separators still to be used. *)
Fixpoint splitAtMost (splits : nat) (s : str) (sep : ascii) : list str :=
  match splits with
  | 0 => [s]
  | S splits' =>
    match s with
    | [] => [[]]
    | c :: s' =>
      if Ascii.eqb c sep then [] :: splitAtMost splits' s' sep
      else match splitAtMost splits s' sep with
           | piece :: pieces => (c :: piece) :: pieces
           | [] => [[c]]
           end
    end
  end.

(** [strings.SplitN(s, sep, n)], again for a separator of one byte: at
    most [n] pieces, the last one the unsplit rest; no piece at all for
    [n = 0]; every piece for a negative [n]. *)
Definition SplitN (s : str) (sep : ascii) (n : Z) : list str :=
  if (n =? 0)%Z then []
  else if (n <? 0)%Z then Split s sep
  else splitAtMost (Z.to_nat n - 1) s sep.

Fixpoint Join (elems : list str) (sep : str) : str :=
  match elems with
  | [] => []
  | [e] => e
  | e :: rest => e ++ sep ++ Join rest sep
  end.

(** The occurrences of a non-empty [old], leftmost first and not
    overlapping, replaced by [new]; [skip] counts the bytes of the current
    occurrence still to be passed over. *)
Fixpoint replaceFrom (skip : nat) (s old new : str) : str :=
  match s with
  | [] => []
  | c :: s' =>
    match skip with
    | S skip' => replaceFrom skip' s' old new
    | 0 =>
      if HasPrefix s old
      then new ++ replaceFrom (length old - 1) s' old new
      else c :: replaceFrom 0 s' old new
    end
  end.

(** For an empty [old]: [new] after each UTF-8 sequence; [skip] counts the
    bytes of the current sequence still to be copied. *)
Fixpoint insertAfterRunes (skip : nat) (s new : str) : str :=
  match s with
  | [] => []
  | c :: s' =>
    match skip with
    | S (S skip') => c :: insertAfterRunes (S skip') s' new
    | 1 => c :: new ++ insertAfterRunes 0 s' new
    | 0 =>
      match utf8.runeSize s with
      | S (S k) => c :: insertAfterRunes (S k) s' new
      | _ => c :: new ++ insertAfterRunes 0 s' new
      end
    end
  end.

Definition ReplaceAll (s old new : str) : str :=
  match old with
  | [] => new ++ insertAfterRunes 0 s new
  | _ :: _ => replaceFrom 0 s old new
  end.

Definition isASCII (c : ascii) : bool := nat_of_ascii c <? 128.

(** A byte that stands for itself wherever it is: ASCII, and no white
    space. *)
Definition solid (c : ascii) : bool :=
  isASCII c
  && negb (existsb (Ascii.eqb c) (map ascii_of_nat [9; 10; 11; 12; 13; 32])).

(** [c] does not occur in [s]. *)
Definition without (c : ascii) (s : str) : bool :=
  negb (existsb (Ascii.eqb c) s).

Definition lowerByte (c : ascii) : ascii :=
  if utf8.between 65 90 c then ascii_of_nat (nat_of_ascii c + 32) else c.

Definition ToLower `{Unicode} (s : str) : str :=
  if forallb isASCII s then map lowerByte s else MapToLower s.

End strings.

(** ** Package [strconv] *)

Module strconv.

Definition ParseBool (s : str) : option bool :=
  if existsb (streq s) ["1"; "t"; "T"; "TRUE"; "true"; "True"] then Some true
  else if existsb (streq s) ["0"; "f"; "F"; "FALSE"; "false"; "False"] then Some false
  else None.

Definition digitOf (c : ascii) : option Z :=
  if utf8.between 48 57 c then Some (Z.of_nat (nat_of_ascii c - 48)) else None.

Fixpoint parseDigits (acc : Z) (s : str) : option Z :=
  match s with
  | [] => Some acc
  | c :: s' =>
    match digitOf c with
    | Some d => parseDigits (acc * 10 + d) s'
    | None => None
    end
  end.

(** [strconv.Atoi] where [int] has 64 bits: an optional sign and decimal
    digits, at least one, naming a number the type holds; [None] is
    an error of syntax or range. *)
Definition Atoi (s : str) : option Z :=
  let '(neg, digits) :=
    match s with
    | "-"%char :: rest => (true, rest)
    | "+"%char :: rest => (false, rest)
    | _ => (false, s)
    end in
  match digits with
  | [] => None
  | _ :: _ =>
    match parseDigits 0 digits with
    | None => None
    | Some n =>
      let v := if neg then (- n)%Z else n in
      if ((- 2 ^ 63 <=? v) && (v <=? 2 ^ 63 - 1))%Z then Some v else None
    end
  end.

(** The decimal digits of a number that is not negative, least
    significant first. *)
Fixpoint digitsOf (fuel : nat) (n : Z) : str :=
  match fuel with
  | 0 => []
  | S fuel' =>
    let d := ascii_of_nat (48 + Z.to_nat (n mod 10)) in
    if (n <? 10)%Z then [d] else d :: digitsOf fuel' (n / 10)
  end.

(** [strconv.Itoa], which is also what the verb [%d] prints. *)
Definition Itoa (i : Z) : str :=
  if (i <? 0)%Z
  then "-"%char :: rev (digitsOf (S (Z.to_nat (Z.log2 (- i)))) (- i))
  else rev (digitsOf (S (Z.to_nat (Z.log2 i))) i).

End strconv.

(** ** Packages [net] and [net/url] *)

Module net.

(** A host with a colon in it is taken for an IPv6 literal and put in
    brackets. *)
Definition JoinHostPort (host port : str) : str :=
  if existsb (Ascii.eqb ":") host
  then "[" ++ host ++ "]:" ++ port
  else host ++ ":" ++ port.

End net.

Module url.

(** What the program reads of a parsed URL. *)
Record URL : Type := { Host : str }.

(** [strings.LastIndexByte(s, c)], as the pieces before and from the last
    [c]. *)
Fixpoint cutLast (c : ascii) (s : str) : option (str * str) :=
  match s with
  | [] => None
  | x :: s' =>
    match cutLast c s' with
    | Some (before, from) => Some (x :: before, from)
    | None => if Ascii.eqb x c then Some ([], s) else None
    end
  end.

Definition validOptionalPort (port : str) : bool :=
  match port with
  | [] => true
  | c :: digits =>
    Ascii.eqb c ":" && forallb (utf8.between 48 57) digits
  end.

Definition splitHostPort (hostPort : str) : str * str :=
  let '(host, port) :=
    match cutLast ":" hostPort with
    | Some (before, from) =>
      if validOptionalPort from then (before, tl from) else (hostPort, [])
    | None => (hostPort, [])
    end in
  if strings.HasPrefix host "[" && strings.HasSuffix host "]"
  then (firstn (length host - 2) (tl host), port)
  else (host, port).

Definition Hostname (u : URL) : str := fst (splitHostPort (Host u)).
Definition Port (u : URL) : str := snd (splitHostPort (Host u)).

End url.

(** ** Packages [path] and [path/filepath] (Unix)

    [Clean] follows the library's loop: [p] is the unread rest of the path,
    [out] the bytes written so far with the most recent first (the library's
    [lazybuf], whose index [w] is [length out]), [dotdot] the index where
    backtracking must stop.  Every iteration consumes at least one byte, so
    [length path] iterations suffice ([cleanLoop_fuel] below). *)

Module path.

Definition isSlash (c : ascii) : bool := Ascii.eqb c "/".
Definition isDot (c : ascii) : bool := Ascii.eqb c ".".

(** [r+k == n || path[r+k] == '/'] *)
Definition endsElem (p : str) : bool :=
  match p with
  | [] => true
  | c :: _ => isSlash c
  end.

(** [out.w--; for out.w > dotdot && out.index(out.w) != '/' { out.w-- }] *)
Fixpoint backtrack (out : str) (dotdot : nat) : str :=
  match out with
  | [] => []
  | c :: out' =>
    if (dotdot <? length out') && negb (isSlash c)
    then backtrack out' dotdot
    else out'
  end.

(** [for ; r < n && path[r] != '/'; r++ { out.append(path[r]) }] *)
Fixpoint copyElem (p out : str) : str * str :=
  match p with
  | [] => ([], out)
  | c :: rest => if isSlash c then (p, out) else copyElem rest (c :: out)
  end.

Fixpoint cleanLoop (fuel : nat) (rooted : bool) (p out : str) (dotdot : nat) : str :=
  match fuel with
  | 0 => out
  | S fuel' =>
    match p with
    | [] => out
    | c :: p1 =>
      if isSlash c then cleanLoop fuel' rooted p1 out dotdot
      else if isDot c && endsElem p1 then cleanLoop fuel' rooted p1 out dotdot
      else if isDot c
              && match p1 with
                 | c1 :: p2 => isDot c1 && endsElem p2
                 | [] => false
                 end
      then
        let p2 := tl p1 in
        if dotdot <? length out
        then cleanLoop fuel' rooted p2 (backtrack out dotdot) dotdot
        else if negb rooted
        then
          let out1 := if 0 <? length out then "/"%char :: out else out in
          let out2 := "."%char :: "."%char :: out1 in
          cleanLoop fuel' rooted p2 out2 (length out2)
        else cleanLoop fuel' rooted p2 out dotdot
      else
        let out1 :=
          if (rooted && negb (length out =? 1))
             || (negb rooted && negb (length out =? 0))
          then "/"%char :: out else out in
        let '(rest, out2) := copyElem p out1 in
        cleanLoop fuel' rooted rest out2 dotdot
    end
  end.

Definition Clean (p : str) : str :=
  match p with
  | [] => "."
  | c :: p1 =>
    let out :=
      if isSlash c
      then cleanLoop (length p) true p1 ["/"%char] 1
      else cleanLoop (length p) false p [] 0 in
    match out with
    | [] => "."
    | _ :: _ => rev out
    end
  end.

Definition IsAbs (p : str) : bool := strings.HasPrefix p "/".

(** [filepath.Join] of two elements: empty elements before the first
    non-empty one are dropped, the rest is joined with [/] and cleaned. *)
Definition Join (a b : str) : str :=
  match a, b with
  | _ :: _, _ => Clean (a ++ "/" ++ b)
  | [], _ :: _ => Clean b
  | [], [] => []
  end.

(** [filepath.Join] of any number of elements. *)
Fixpoint JoinAll (elem : list str) : str :=
  match elem with
  | [] => []
  | [] :: rest => JoinAll rest
  | _ :: _ => Clean (strings.Join elem "/")
  end.

Fixpoint dropLastElem (rp : str) : str :=
  match rp with
  | [] => []
  | c :: rp' => if isSlash c then rp else dropLastElem rp'
  end.

(** [filepath.Dir]: everything up to and including the last separator,
    cleaned. *)
Definition Dir (p : str) : str :=
  Clean (rev (dropLastElem (rev p))).

(** The elements of a path: the maximal runs of bytes other than [/]. *)
Fixpoint splitElems (cur p : str) : list str :=
  match p with
  | [] => match cur with [] => [] | _ :: _ => [rev cur] end
  | c :: rest =>
    if isSlash c
    then match cur with
         | [] => splitElems [] rest
         | _ :: _ => rev cur :: splitElems [] rest
         end
    else splitElems (c :: cur) rest
  end.

Definition elems (p : str) : list str := splitElems [] p.

(** What [Clean] does, element by element: [stack] holds the elements kept
    so far, the most recent first. *)
Fixpoint reduce (rooted : bool) (es stack : list str) : list str :=
  match es with
  | [] => stack
  | e :: es' =>
    if streq e "." then reduce rooted es' stack
    else if streq e ".." then
      match stack with
      | top :: below =>
        if streq top ".." then reduce rooted es' (e :: stack)
        else reduce rooted es' below
      | [] => if rooted then reduce rooted es' [] else reduce rooted es' [e]
      end
    else reduce rooted es' (e :: stack)
  end.

(** The buffer [Clean] has written for a stack of kept elements. *)
Fixpoint outOf (rooted : bool) (stack : list str) : str :=
  match stack with
  | [] => if rooted then ["/"%char] else []
  | e :: below =>
    rev e ++ match below with
             | [] => []
             | _ :: _ => ["/"%char]
             end ++ outOf rooted below
  end.

(** Index in the buffer below which [..] may not backtrack. *)
Fixpoint dotdotOf (rooted : bool) (stack : list str) : nat :=
  match stack with
  | [] => if rooted then 1 else 0
  | e :: below =>
    if streq e ".." then length (outOf rooted stack) else dotdotOf rooted below
  end.

(** An element: non-empty, no separator inside. *)
Definition isElem (e : str) : bool :=
  match e with
  | [] => false
  | _ :: _ => forallb (fun c => negb (isSlash c)) e
  end.

(** The stacks [Clean] can hold: elements other than [.], and [..] only
    at the bottom of an unrooted path. *)
Fixpoint okStack (rooted : bool) (stack : list str) : bool :=
  match stack with
  | [] => true
  | e :: below =>
    isElem e && negb (streq e ".")
    && (if streq e ".."
        then negb rooted && forallb (fun x => streq x "..") below
        else okStack rooted below)
  end.

Fixpoint takeElem (p : str) : str :=
  match p with
  | [] => []
  | c :: rest => if isSlash c then [] else c :: takeElem rest
  end.

Fixpoint dropElem (p : str) : str :=
  match p with
  | [] => []
  | c :: rest => if isSlash c then p else dropElem rest
  end.

(** Elements joined with [/], and the string [Clean] returns for a stack. *)
Fixpoint joinElems (es : list str) : str :=
  match es with
  | [] => []
  | [e] => e
  | e :: rest => e ++ "/"%char :: joinElems rest
  end.

Definition render (rooted : bool) (stack : list str) : str :=
  if rooted then "/"%char :: joinElems (rev stack)
  else match stack with
       | [] => "."
       | _ :: _ => joinElems (rev stack)
       end.

(** An ordinary element: neither [.] nor [..]. *)
Definition isName (e : str) : bool :=
  isElem e && negb (streq e ".") && negb (streq e "..").

Definition noDot (stack : list str) : bool :=
  forallb (fun x => negb (streq x ".")) stack.

Definition noDotDot (stack : list str) : bool :=
  forallb (fun x => negb (streq x "..")) stack.

(** The kept elements of a path, the most recent first. *)
Definition stackOf (p : str) : list str :=
  reduce (IsAbs p) (elems p) [].

Fixpoint isPrefixOf (a b : list str) : bool :=
  match a, b with
  | [], _ => true
  | x :: a', y :: b' => streq x y && isPrefixOf a' b'
  | _ :: _, [] => false
  end.

(** Lexical containment: the cleaned [p] is the cleaned [root] followed by
    ordinary elements only. *)
Definition within (root p : str) : bool :=
  Bool.eqb (IsAbs root) (IsAbs p)
  && isPrefixOf (rev (stackOf root)) (rev (stackOf p))
  && forallb isName (skipn (length (stackOf root)) (rev (stackOf p))).

End path.

(** ** Package [regexp]

    The patterns of this program all start with [^] and use literals,
    alternation, [.*] and [$] only.  [re] is the body of such a pattern;
    [AnyNotNL] is [.] (any byte but a line feed: the patterns use it under
    [*] only, where bytes and code points give the same language) and
    [EndText] is [$] (no [m] flag: end of text).  A pattern that does not
    end in [$] may match a proper prefix of the text. *)

Module regexp.

Inductive re : Type :=
| Void
| Eps
| Chr (c : ascii)
| AnyNotNL
| EndText
| Seq (a b : re)
| Alt (a b : re)
| Star (a : re).

Fixpoint Lit (s : str) : re :=
  match s with
  | [] => Eps
  | c :: s' => Seq (Chr c) (Lit s')
  end.

Fixpoint OneOf (rs : list re) : re :=
  match rs with
  | [] => Void
  | r :: rs' => Alt r (OneOf rs')
  end.

Fixpoint cat (rs : list re) : re :=
  match rs with
  | [] => Eps
  | r :: rs' => Seq r (cat rs')
  end.

Definition newline : ascii := ascii_of_nat 10.

(** [matches r s rest]: [r] matches [s] when [rest] is the text that
    follows. *)
Inductive matches : re -> str -> str -> Prop :=
| MEps rest : matches Eps [] rest
| MChr c rest : matches (Chr c) [c] rest
| MAny c rest : c <> newline -> matches AnyNotNL [c] rest
| MEnd : matches EndText [] []
| MSeq a b s1 s2 rest :
    matches a s1 (s2 ++ rest) -> matches b s2 rest ->
    matches (Seq a b) (s1 ++ s2) rest
| MAltL a b s rest : matches a s rest -> matches (Alt a b) s rest
| MAltR a b s rest : matches b s rest -> matches (Alt a b) s rest
| MStar0 a rest : matches (Star a) [] rest
| MStarS a c s1 s2 rest :
    matches a (c :: s1) (s2 ++ rest) -> matches (Star a) s2 rest ->
    matches (Star a) ((c :: s1) ++ s2) rest.

(** Does [r] match the empty string, at the end of the text or before
    it? *)
Fixpoint nullable (atEnd : bool) (r : re) : bool :=
  match r with
  | Void => false
  | Eps => true
  | Chr _ => false
  | AnyNotNL => false
  | EndText => atEnd
  | Seq a b => nullable atEnd a && nullable atEnd b
  | Alt a b => nullable atEnd a || nullable atEnd b
  | Star _ => true
  end.

Fixpoint deriv (c : ascii) (r : re) : re :=
  match r with
  | Void => Void
  | Eps => Void
  | Chr d => if Ascii.eqb c d then Eps else Void
  | AnyNotNL => if Ascii.eqb c newline then Void else Eps
  | EndText => Void
  | Seq a b =>
    if nullable false a
    then Alt (Seq (deriv c a) b) (deriv c b)
    else Seq (deriv c a) b
  | Alt a b => Alt (deriv c a) (deriv c b)
  | Star a => Seq (deriv c a) (Star a)
  end.

Fixpoint matchPrefix (r : re) (s : str) : bool :=
  match s with
  | [] => nullable true r
  | c :: s' => nullable false r || matchPrefix (deriv c r) s'
  end.

(** [Regexp.MatchString] for a pattern [^r]. *)
Definition MatchString (r : re) (s : str) : bool := matchPrefix r s.

End regexp.

(** ** Errors *)

Inductive errno : Type :=
| ENOENT | EEXIST | ENOTDIR | EISDIR | EINVAL | EACCES | EIO | ENOSPC | EBADF.

Inductive error : Type :=
| Errno (e : errno)
| ErrorString (msg : str)
| ErrAtomRootExists
| Wrapped (msg : str) (e : error).

Module errors.

Definition New (msg : str) : error := ErrorString msg.

(** [errors.Is(err, os.ErrNotExist)] *)
Fixpoint IsNotExist (e : error) : bool :=
  match e with
  | Errno ENOENT => true
  | Wrapped _ e' => IsNotExist e'
  | _ => false
  end.

(** [errors.Is(err, os.ErrExist)] *)
Fixpoint IsExist (e : error) : bool :=
  match e with
  | Errno EEXIST => true
  | Wrapped _ e' => IsExist e'
  | _ => false
  end.

(** [errors.Is(err, atomembed.ErrAtomRootExists)] *)
Fixpoint IsAtomRootExists (e : error) : bool :=
  match e with
  | ErrAtomRootExists => true
  | Wrapped _ e' => IsAtomRootExists e'
  | _ => false
  end.

End errors.

(** [url.Parse] itself is left to an interface. *)
Class URLParser : Type := { url_Parse : str -> result error url.URL }.

(** ** Package [os]

    The operating system is an interface: a type of worlds and the calls
    the program makes.  Queries read the world; the other calls return the
    next world and their error.  A file opened for writing is named by its
    path. *)

Record FileInfo : Type := { IsDir : bool }.

Class OS (W : Type) : Type := {
  os_Getenv : W -> str -> str;
  os_Getwd : W -> result error str;
  os_Stat : W -> str -> result error FileInfo;
  os_ReadFile : W -> str -> result error str;
  os_ReadDir : W -> str -> result error (list str);
  os_RemoveAll : W -> str -> W * option error;
  os_MkdirAll : W -> str -> Z -> W * option error;
  os_WriteFile : W -> str -> str -> Z -> W * option error;
  os_Symlink : W -> str -> str -> W * option error;
  (** [os.OpenFile(p, O_CREATE|O_TRUNC|O_WRONLY, perm)] *)
  os_OpenFile : W -> str -> Z -> W * option error;
  os_Write : W -> str -> str -> W * option error;
  os_Close : W -> str -> W * option error
}.

(** [os.ReadDir] with the kind of each entry, for the callers that look
    at it. *)
Record DirEntry : Type := { entryName : str; entryIsDir : bool }.

Class OSDirs (W : Type) : Type := {
  os_ReadDirEntries : W -> str -> result error (list DirEntry)
}.

(** The network and the clock of the dependency gate: a dial that, when
    it succeeds, has its connection closed at once, and a sleep. *)
Class Net (W : Type) : Type := {
  net_DialTimeout : W -> str -> str -> Z -> W * option error;
  time_Sleep : W -> Z -> W
}.

(** The calls that change the world, as the program issues them. *)
Inductive syscall : Type :=
| CallRemoveAll (p : str)
| CallMkdirAll (p : str) (perm : Z)
| CallWriteFile (p data : str) (perm : Z)
| CallSymlink (oldname newname : str)
| CallOpenFile (p : str) (perm : Z)
| CallWrite (p data : str)
| CallClose (p : str).

Record state (W : Type) : Type := { world : W; calls : list syscall }.
Arguments world {W} s.
Arguments calls {W} s.

(** The program runs in a state monad over the world and the log of its
    calls. *)
Definition M (W A : Type) : Type := state W -> A * state W.

Definition ret {W A : Type} (a : A) : M W A := fun s => (a, s).

Definition bind {W A B : Type} (m : M W A) (k : A -> M W B) : M W B :=
  fun s => let (a, s') := m s in k a s'.

Notation "x <- m ;; k" := (bind m (fun x => k))
  (at level 61, m at next level, right associativity).

Definition query {W A : Type} (f : W -> A) : M W A :=
  fun s => (f (world s), s).

Definition perform {W : Type} (c : syscall) (f : W -> W * option error)
  : M W (option error) :=
  fun s =>
    let (w', e) := f (world s) in
    (e, {| world := w'; calls := calls s ++ [c] |}).

(** The path at which a call creates or writes a file or a link. *)
Definition writesFileAt (c : syscall) : option str :=
  match c with
  | CallWriteFile p _ _ => Some p
  | CallSymlink _ newname => Some newname
  | CallOpenFile p _ => Some p
  | CallWrite p _ => Some p
  | CallRemoveAll _ | CallMkdirAll _ _ | CallClose _ => None
  end.

Definition isWriteFile (c : syscall) : bool :=
  match c with
  | CallWriteFile _ _ _ => true
  | _ => false
  end.

(** [m] only adds calls to the log, and each call it adds satisfies [P]. *)
Definition traced {W A : Type} (P : syscall -> Prop) (m : M W A) : Prop :=
  forall s, exists new, calls (snd (m s)) = calls s ++ new /\ Forall P new.

(** A call that creates or writes a file does so within [target]. *)
Definition contained (target : str) (c : syscall) : Prop :=
  forall p, writesFileAt c = Some p -> path.within target p = true.

Definition notWriteFile (c : syscall) : Prop := isWriteFile c = false.

Section SystemCalls.
Context {W : Type} `{OS W}.

Definition Getenv (key : str) : M W str := query (fun w => os_Getenv w key).
Definition Getwd : M W (result error str) := query os_Getwd.
Definition Stat (p : str) : M W (result error FileInfo) :=
  query (fun w => os_Stat w p).
Definition ReadFile (p : str) : M W (result error str) :=
  query (fun w => os_ReadFile w p).
Definition ReadDir (p : str) : M W (result error (list str)) :=
  query (fun w => os_ReadDir w p).
Definition RemoveAll (p : str) : M W (option error) :=
  perform (CallRemoveAll p) (fun w => os_RemoveAll w p).
Definition MkdirAll (p : str) (perm : Z) : M W (option error) :=
  perform (CallMkdirAll p perm) (fun w => os_MkdirAll w p perm).
Definition WriteFile (p data : str) (perm : Z) : M W (option error) :=
  perform (CallWriteFile p data perm) (fun w => os_WriteFile w p data perm).
Definition Symlink (oldname newname : str) : M W (option error) :=
  perform (CallSymlink oldname newname) (fun w => os_Symlink w oldname newname).
Definition OpenFile (p : str) (perm : Z) : M W (option error) :=
  perform (CallOpenFile p perm) (fun w => os_OpenFile w p perm).
Definition Write (p data : str) : M W (option error) :=
  perform (CallWrite p data) (fun w => os_Write w p data).
Definition Close (p : str) : M W (option error) :=
  perform (CallClose p) (fun w => os_Close w p).

(** [filepath.Abs] *)
Definition Abs (p : str) : M W (result error str) :=
  if path.IsAbs p then ret (Ok (path.Clean p))
  else
    wd <- Getwd ;;
    match wd with
    | Err err => ret (Err err)
    | Ok wd => ret (Ok (path.Join wd p))
    end.

(** What a logged call does to the world, and what a list of them does
    one after the other (a call that fails still leaves its world). *)
Definition effect (c : syscall) (w : W) : W * option error :=
  match c with
  | CallRemoveAll p => os_RemoveAll w p
  | CallMkdirAll p perm => os_MkdirAll w p perm
  | CallWriteFile p data perm => os_WriteFile w p data perm
  | CallSymlink oldname newname => os_Symlink w oldname newname
  | CallOpenFile p perm => os_OpenFile w p perm
  | CallWrite p data => os_Write w p data
  | CallClose p => os_Close w p
  end.

Definition replay (cs : list syscall) (w : W) : W :=
  fold_left (fun w c => fst (effect c w)) cs w.

End SystemCalls.

(** What the archive materialiser relies on from the file system: a file
    written is read back, and a file written under a directory shows that
    directory to exist and not to be empty. *)
Class OSLaws (W : Type) `{OS W} : Prop := {
  written_is_read :
    forall w p data perm w',
      os_WriteFile w p data perm = (w', None) ->
      os_ReadFile w' p = Ok data;
  written_in_directory :
    forall w dir name data perm w',
      dir <> [] -> path.isName name = true ->
      os_WriteFile w (path.Join dir name) data perm = (w', None) ->
      os_Stat w' dir = Ok {| IsDir := true |};
  written_is_listed :
    forall w dir name data perm w' names,
      dir <> [] -> path.isName name = true ->
      os_WriteFile w (path.Join dir name) data perm = (w', None) ->
      os_ReadDir w' dir = Ok names ->
      names <> []
}.

(** ** Package [internal/atomembed] *)

Module atomembed.

(** [tar.Header.Typeflag] *)
Inductive typeflag : Type :=
| TypeReg | TypeRegA | TypeLink | TypeSymlink | TypeChar | TypeBlock
| TypeDir | TypeFifo | TypeOther (c : ascii).

Record Header : Type := {
  Name : str;
  Typeflag : typeflag;
  Linkname : str;
  Mode : Z
}.

(** An entry of the tar stream: its header, the bytes of its body the
    stream delivers, and the error that ends the body early, if any. *)
Record Entry : Type := {
  hdr : Header;
  body : str;
  bodyErr : option error
}.

(** The embedded archive ([archiveData]) as the code observes it: whether
    it holds any byte, the hex SHA-256 digest of its bytes, the error of
    [gzip.NewReader], the entries [tr.Next] yields, and the error that ends
    the stream in place of [io.EOF], if any. *)
Record Archive : Type := {
  nonEmpty : bool;
  sha256hex : str;
  gzipErr : option error;
  tarEntries : list Entry;
  tarEnd : option error
}.

Definition markerFile : str := ".valence-atom-version".

Definition ArchiveAvailable (a : Archive) : bool := nonEmpty a.

Definition ArchiveHash (a : Archive) : str := sha256hex a.

(** [hdr.FileInfo().Mode().Perm()] *)
Definition Perm (mode : Z) : Z := Z.land mode 511.

(** The entries [extractArchive] rejects. *)
Definition escapes (e : Entry) : bool :=
  strings.HasPrefix (path.Clean (Name (hdr e))) ".."
  || path.IsAbs (path.Clean (Name (hdr e))).

(** What [hex.EncodeToString] of a SHA-256 sum looks like. *)
Definition isHexDigit (c : ascii) : bool :=
  existsb (Ascii.eqb c) "0123456789abcdef".

Definition isHexDigest (h : str) : bool :=
  (length h =? 64) && forallb isHexDigit h.

(** The calls one entry takes when none of them fails, as the arms of the
    switch of [extractArchive] issue them: nothing for an entry without a
    name or of another type. *)
Definition entryCalls (target : str) (e : Entry) : list syscall :=
  if streq (Name (hdr e)) [] then []
  else
    let dstPath := path.Join target (path.Clean (Name (hdr e))) in
    match Typeflag (hdr e) with
    | TypeDir => [CallMkdirAll dstPath (Perm (Mode (hdr e)))]
    | TypeSymlink =>
      [CallMkdirAll (path.Dir dstPath) 493;
       CallSymlink (Linkname (hdr e)) dstPath]
    | TypeReg | TypeRegA =>
      [CallMkdirAll (path.Dir dstPath) 493;
       CallOpenFile dstPath (Perm (Mode (hdr e)));
       CallWrite dstPath (body e);
       CallClose dstPath]
    | _ => []
    end.

(** The calls of an extraction that runs to its end: the target, then
    every entry in the order of the archive. *)
Definition extractionCalls (a : Archive) (target : str) : list syscall :=
  CallMkdirAll target 493 :: flat_map (entryCalls target) (tarEntries a).

Section WithOS.
Context {W : Type} `{OS W}.

Definition markerMatches (a : Archive) (target : str) : M W bool :=
  r <- ReadFile (path.Join target markerFile) ;;
  match r with
  | Err _ => ret false
  | Ok contents => ret (streq (strings.TrimSpace contents) (ArchiveHash a))
  end.

Definition dirEmpty (target : str) : M W bool :=
  r <- ReadDir target ;;
  match r with
  | Err _ => ret false
  | Ok entries => ret (length entries =? 0)
  end.

(** The [TypeReg] arm: open, copy the body, close. *)
Definition writeRegular (dstPath : str) (e : Entry) : M W (option error) :=
  r <- MkdirAll (path.Dir dstPath) 493 ;;
  match r with
  | Some err => ret (Some err)
  | None =>
    r <- OpenFile dstPath (Perm (Mode (hdr e))) ;;
    match r with
    | Some err => ret (Some err)
    | None =>
      r <- Write dstPath (body e) ;;
      match (match r with Some err => Some err | None => bodyErr e end) with
      | Some err =>
        _ <- Close dstPath ;;
        ret (Some err)
      | None => Close dstPath
      end
    end
  end.

(** One iteration of the loop of [extractArchive]; [None] is [continue]. *)
Definition extractEntry (target : str) (e : Entry) : M W (option error) :=
  if streq (Name (hdr e)) [] then ret None
  else
    let cleanName := path.Clean (Name (hdr e)) in
    if strings.HasPrefix cleanName ".." || path.IsAbs cleanName
    then ret (Some (errors.New "archive contains invalid path"))
    else
      let dstPath := path.Join target cleanName in
      match Typeflag (hdr e) with
      | TypeDir => MkdirAll dstPath (Perm (Mode (hdr e)))
      | TypeSymlink =>
        r <- MkdirAll (path.Dir dstPath) 493 ;;
        match r with
        | Some err => ret (Some err)
        | None =>
          r <- Symlink (Linkname (hdr e)) dstPath ;;
          match r with
          | Some err => if negb (errors.IsExist err) then ret (Some err) else ret None
          | None => ret None
          end
        end
      | TypeReg | TypeRegA => writeRegular dstPath e
      | _ => ret None
      end.

Fixpoint extractEntries (target : str) (es : list Entry) (atEnd : option error)
  : M W (option error) :=
  match es with
  | [] => ret atEnd
  | e :: es' =>
    r <- extractEntry target e ;;
    match r with
    | Some err => ret (Some err)
    | None => extractEntries target es' atEnd
    end
  end.

Definition extractArchive (a : Archive) (target : str) : M W (option error) :=
  if negb (ArchiveAvailable a)
  then ret (Some (errors.New "embedded atom archive not available"))
  else
    r <- MkdirAll target 493 ;;
    match r with
    | Some err => ret (Some err)
    | None =>
      match gzipErr a with
      | Some err => ret (Some err)
      | None => extractEntries target (tarEntries a) (tarEnd a)
      end
    end.

(** The tail of [EnsureExtracted]: extract, then write the marker. *)
Definition extractAndMark (a : Archive) (target : str) : M W (bool * option error) :=
  r <- extractArchive a target ;;
  match r with
  | Some err => ret (false, Some err)
  | None =>
    r <- WriteFile (path.Join target markerFile) (ArchiveHash a) 420 ;;
    match r with
    | Some err => ret (true, Some err)
    | None => ret (true, None)
    end
  end.

Definition EnsureExtracted (a : Archive) (target : str) (force : bool)
  : M W (bool * option error) :=
  if streq (strings.TrimSpace target) []
  then ret (false, Some (errors.New "atom root path is empty"))
  else
    st <- Stat target ;;
    match st with
    | Ok info =>
      if negb (IsDir info)
      then ret (false, Some (errors.New "atom root exists and is not a directory"))
      else
        m <- markerMatches a target ;;
        if m then ret (false, None)
        else if force then
          r <- RemoveAll target ;;
          match r with
          | Some err => ret (false, Some err)
          | None => extractAndMark a target
          end
        else
          e <- dirEmpty target ;;
          if e then extractAndMark a target
          else ret (false, Some ErrAtomRootExists)
    | Err err =>
      if negb (errors.IsNotExist err) then ret (false, Some err)
      else extractAndMark a target
    end.

(** The runs of [EnsureExtracted] that reach the extraction, and the state
    [sx] they reach it in: the target does not exist; or it is a directory
    whose marker does not match and which is empty, or which [force] had
    removed. *)
Definition extractsFrom (a : Archive) (target : str) (force : bool)
    (s sx : state W) : Prop :=
  (exists err, os_Stat (world s) target = Err err
               /\ errors.IsNotExist err = true /\ sx = s)
  \/ (os_Stat (world s) target = Ok {| IsDir := true |}
      /\ fst (markerMatches a target s) = false
      /\ ((force = false /\ fst (dirEmpty target s) = true /\ sx = s)
          \/ (force = true /\ RemoveAll target s = (None, sx)))).

End WithOS.

End atomembed.

(** ** Package [cmd/valence] *)

Module valence.

Import regexp.

Definition defaultAddr : str := ":8080".

Record config : Type := {
  addr : str;
  phpRoot : str;
  frontController : str;
  atomDataDir : str
}.

(** *** Routing patterns *)

Definition staticAssetRe : re :=
  cat [ Lit "/";
        OneOf (map Lit ["css"; "dist"; "js"; "images"; "plugins"; "vendor"]);
        Lit "/"; Star AnyNotNL; Lit ".";
        OneOf (map Lit ["css"; "png"; "jpg"; "js"; "svg"; "ico"; "gif"; "pdf";
                        "woff"; "woff2"; "otf"; "ttf"]);
        EndText ].

Definition downloadAssetRe : re :=
  cat [ Lit "/"; OneOf [Lit "downloads"]; Lit "/"; Star AnyNotNL; Lit ".";
        OneOf (map Lit ["pdf"; "xml"; "html"; "csv"; "zip"; "rtf"]);
        EndText ].

Definition publicFileRe : re :=
  cat [ Lit "/";
        OneOf [ Lit "ead.dtd"; Lit "favicon.ico"; Lit "robots.txt";
                Seq (Lit "sitemap") (Star AnyNotNL) ];
        EndText ].

Definition uploadsConfRe : re :=
  cat [ Lit "/uploads/r/"; Star AnyNotNL; Lit "/conf/" ].

Definition uploadsAssetRe : re :=
  cat [ Lit "/uploads/r/"; Star AnyNotNL; EndText ].

Definition privatePathRe : re := Lit "/private/".

Definition phpEntryRe : re :=
  cat [ Lit "/"; OneOf [Lit "index"; Lit "qubit_dev"]; Lit ".php";
        OneOf [Lit "/"; EndText] ].

(** *** The path normaliser *)

Definition cleanPath (requestPath : str) : str :=
  let clean := path.Clean ("/" ++ requestPath) in
  if strings.Contains clean ".." then "/" else clean.

Definition matchesStatic (reqPath : str) : bool :=
  if MatchString staticAssetRe reqPath then true
  else if MatchString downloadAssetRe reqPath then true
  else MatchString publicFileRe reqPath.

Definition stripLegacyFrontController (reqPath : str) : str :=
  if strings.HasPrefix reqPath "/index.php/"
  then "/" ++ strings.TrimPrefix reqPath "/index.php/"
  else if strings.HasPrefix reqPath "/qubit_dev.php/"
  then "/" ++ strings.TrimPrefix reqPath "/qubit_dev.php/"
  else if streq reqPath "/index.php" || streq reqPath "/qubit_dev.php"
  then "/"
  else [].

Definition rewriteStoragePath (reqPath : str) : str :=
  if streq reqPath "/storage/location/list" then "/storage/list" else [].

(** [reqPath] becomes [f reqPath] unless that is empty: the pattern of each
    rewriting step of [ServeHTTP]. *)
Definition rewriteWith (f : str -> str) (reqPath : str) : str :=
  match f reqPath with
  | [] => reqPath
  | rewritten => rewritten
  end.

(** The three rewriting steps at the head of [atomHandler.ServeHTTP]. *)
Definition normalizePath (urlPath : str) : str :=
  let reqPath := cleanPath urlPath in
  let reqPath := rewriteWith stripLegacyFrontController reqPath in
  let reqPath := rewriteWith rewriteStoragePath reqPath in
  reqPath.

(** The paths the normaliser produces: [/] followed by ordinary elements
    joined with [/], without two dots in a row anywhere. *)
Definition normal (q : str) : Prop :=
  exists es, forallb path.isName es = true
             /\ q = "/"%char :: path.joinElems es
             /\ strings.Contains q ".." = false.

(** *** The routing decision *)

Record atomHandler : Type := {
  h_phpRoot : str;
  h_frontController : str;
  h_atomDataDir : str
}.

Definition newAtomHandler (cfg : config) : atomHandler :=
  {| h_phpRoot := phpRoot cfg;
     h_frontController := frontController cfg;
     h_atomDataDir := atomDataDir cfg |}.

(** What of a request the handlers can see. *)
Record Request : Type := {
  Method : str;
  URLPath : str;
  Header : list (str * str);
  Body : str
}.

(** The handlers a decision can carry: [http.NotFoundHandler()],
    [forbiddenHandler], the front controller ([h.fallback]) and the closure
    serving [assetPath] with the static headers. *)
Inductive handler : Type :=
| NotFoundHandler
| forbiddenHandler
| fallback (phpRoot frontController : str)
| serveStatic (assetPath : str).

Record routeDecision : Type := {
  label : str;
  route : handler
}.

(** Status the handler answers with by itself; the front controller and
    [http.ServeFile] decide theirs when they run. *)
Definition fixedStatus (h : handler) : option Z :=
  match h with
  | NotFoundHandler => Some 404%Z
  | forbiddenHandler => Some 403%Z
  | _ => None
  end.

Section WithOS.
Context {W : Type} `{OS W}.

(** The candidate paths of [staticAssetPath], in the order they are
    tried. *)
Definition staticCandidates (h : atomHandler) (requestPath : str) : list str :=
  let rel := strings.TrimPrefix requestPath "/" in
  (if negb (streq (h_atomDataDir h) []) && MatchString downloadAssetRe requestPath
   then [path.Join (h_atomDataDir h) rel] else [])
  ++ [path.Join (h_phpRoot h) rel].

(** [err == nil && !info.IsDir()] *)
Definition regular (w : W) (candidate : str) : bool :=
  match os_Stat w candidate with
  | Err _ => false
  | Ok info => negb (IsDir info)
  end.

Fixpoint firstRegular (w : W) (candidates : list str) : str * bool :=
  match candidates with
  | [] => ([], false)
  | candidate :: rest =>
    match os_Stat w candidate with
    | Err _ => firstRegular w rest
    | Ok info => if IsDir info then firstRegular w rest else (candidate, true)
    end
  end.

Definition staticAssetPath (w : W) (h : atomHandler) (requestPath : str)
  : str * bool :=
  firstRegular w (staticCandidates h requestPath).

Definition existsOnDisk (w : W) (h : atomHandler) (requestPath : str) : bool :=
  let rel := strings.TrimPrefix requestPath "/" in
  let candidate := path.Join (h_phpRoot h) rel in
  regular w candidate.

Definition decideRoute (w : W) (h : atomHandler) (r : Request) (reqPath : str)
  : routeDecision :=
  if MatchString privatePathRe reqPath
  then {| label := "deny_private"; route := NotFoundHandler |}
  else if MatchString uploadsConfRe reqPath
  then {| label := "deny_uploads_conf"; route := forbiddenHandler |}
  else if MatchString phpEntryRe reqPath
  then {| label := "php_entry";
          route := fallback (h_phpRoot h) (h_frontController h) |}
  else if matchesStatic reqPath
  then
    match staticAssetPath w h reqPath with
    | (assetPath, true) => {| label := "static"; route := serveStatic assetPath |}
    | (_, false) => {| label := "static_missing"; route := NotFoundHandler |}
    end
  else if MatchString uploadsAssetRe reqPath
  then {| label := "uploads_front_controller";
          route := fallback (h_phpRoot h) (h_frontController h) |}
  else if existsOnDisk w h reqPath
  then {| label := "deny_direct_file"; route := forbiddenHandler |}
  else {| label := "front_controller";
          route := fallback (h_phpRoot h) (h_frontController h) |}.

(** [atomHandler.ServeHTTP] up to the dispatch: the request with its path
    rewritten, and the decision taken for it. *)
Definition ServeHTTP (w : W) (h : atomHandler) (r : Request)
  : Request * routeDecision :=
  let reqPath := normalizePath (URLPath r) in
  let r' := {| Method := Method r; URLPath := reqPath;
               Header := Header r; Body := Body r |} in
  (r', decideRoute w h r' reqPath).

(** *** Boot *)

Definition envOrDefault (key def : str) : M W str :=
  v <- Getenv key ;;
  match strings.TrimSpace v with
  | [] => ret def
  | val => ret val
  end.

Definition envBool (key : str) (def : bool) : M W bool :=
  v <- Getenv key ;;
  match strings.TrimSpace v with
  | [] => ret def
  | val =>
    match strconv.ParseBool val with
    | None => ret def
    | Some parsed => ret parsed
    end
  end.

Definition ensureAtomRoot (a : atomembed.Archive) (p : str) : M W (option error) :=
  forceExtract <- envBool "VALENCE_ATOM_FORCE_EXTRACT" false ;;
  r <- atomembed.EnsureExtracted a p forceExtract ;;
  match r with
  | (_, Some err) =>
    if errors.IsAtomRootExists err
    then ret None (* logged: atom root exists; skipping embedded extraction *)
    else ret (Some err)
  | (_, None) => ret None
  end.

Definition resolveAtomRoot (a : atomembed.Archive) : M W (result error str) :=
  v <- Getenv "VALENCE_ATOM_SRC_DIR" ;;
  match strings.TrimSpace v with
  | [] => ret (Err (errors.New "VALENCE_ATOM_SRC_DIR is required"))
  | root =>
    r <- Abs root ;;
    match r with
    | Err err => ret (Err err)
    | Ok abs =>
      e <- ensureAtomRoot a abs ;;
      match e with
      | Some err => ret (Err err)
      | None =>
        st <- Stat abs ;;
        match st with
        | Ok info =>
          if IsDir info then ret (Ok abs)
          else ret (Err (errors.New ("atom root not found at " ++ abs)))
        | Err _ => ret (Err (errors.New ("atom root not found at " ++ abs)))
        end
      end
    end
  end.

Definition loadConfig (a : atomembed.Archive) : M W (result error config) :=
  addr <- envOrDefault "VALENCE_ADDR" defaultAddr ;;
  r <- resolveAtomRoot a ;;
  match r with
  | Err err => ret (Err err)
  | Ok absRoot =>
    v <- Getenv "ATOM_DATA_DIR" ;;
    atomDataDir <-
      match strings.TrimSpace v with
      | [] => ret []
      | dir =>
        r <- Abs dir ;;
        match r with
        | Ok abs => ret abs
        | Err _ => ret dir
        end
      end ;;
    let frontController := path.Join absRoot "index.php" in
    st <- Stat frontController ;;
    match (match st with Ok info => negb (IsDir info) | Err _ => false end) with
    | false =>
      ret (Err (errors.New ("front controller not found at " ++ frontController)))
    | true =>
      ret (Ok {| addr := addr; phpRoot := absRoot;
                 frontController := frontController;
                 atomDataDir := atomDataDir |})
    end
  end.

End WithOS.

(** The boot stages that follow [loadConfig] in [run]: configuration
    files, the dependency gate, the cache commands of the legacy
    application and the start of its runtime.  Each takes the application
    root where the program passes it. *)
Class Stages (W : Type) : Type := {
  bootstrap_LoadConfigFromEnv : W -> str -> W * option error;
  bootstrap_Apply : W -> W * option error;
  waitForDependencies : W -> W * option error;
  runSymfonyPurge : W -> str -> W * option error;
  runSymfonyCacheClear : W -> str -> W * option error;
  initPHPRuntime : W -> W * option error
}.

(** How [run] ends: with an error before the server exists, or by handing
    the server listening on [addr] to [serveWithShutdown]. *)
Inductive outcome : Type :=
| Aborted (err : error)
| Listening (addr : str).

Section Boot.
Context {W : Type} `{OS W} `{Stages W}.

Definition stage (f : W -> W * option error) : M W (option error) :=
  fun s => let (w', e) := f (world s) in (e, {| world := w'; calls := calls s |}).

Definition run (a : atomembed.Archive) : M W outcome :=
  c <- loadConfig a ;;
  match c with
  | Err err => ret (Aborted (Wrapped "config error" err))
  | Ok cfg =>
    e <- stage (fun w => bootstrap_LoadConfigFromEnv w (phpRoot cfg)) ;;
    match e with
    | Some err => ret (Aborted (Wrapped "bootstrap config error" err))
    | None =>
    e <- stage bootstrap_Apply ;;
    match e with
    | Some err => ret (Aborted (Wrapped "bootstrap error" err))
    | None =>
    e <- stage waitForDependencies ;;
    match e with
    | Some err => ret (Aborted (Wrapped "dependency check failed" err))
    | None =>
    e <- stage (fun w => runSymfonyPurge w (phpRoot cfg)) ;;
    match e with
    | Some err => ret (Aborted (Wrapped "symfony purge failed" err))
    | None =>
    e <- stage (fun w => runSymfonyCacheClear w (phpRoot cfg)) ;;
    match e with
    | Some err => ret (Aborted (Wrapped "symfony cache clear failed" err))
    | None =>
    e <- stage initPHPRuntime ;;
    match e with
    | Some err => ret (Aborted (Wrapped "frankenphp init" err))
    | None => ret (Listening (addr cfg))
    end end end end end end
  end.

End Boot.

(** *** The dependency gate

    In a module of its own: [waitForDependencies] is also the name of the
    stage of [run] above. *)

Module gate.

(** The body of the loop of [mysqlAddress] over the parts of the DSN. *)
Definition mysqlAddressStep (acc : str * str) (part : str) : str * str :=
  let '(host, port) := acc in
  let part := strings.TrimSpace part in
  if streq part [] then acc
  else
    let kv := strings.SplitN part "=" 2 in
    if negb (length kv =? 2) then acc
    else
      let key := strings.TrimSpace (nth 0 kv []) in
      let value := strings.TrimSpace (nth 1 kv []) in
      if streq key "host" then (value, port)
      else if streq key "port"
      then (if negb (streq value []) then (host, value) else acc)
      else acc.

Definition mysqlAddress (dsn : str) : result error str :=
  if streq dsn [] then Err (errors.New "ATOM_MYSQL_DSN is empty")
  else
    let trimmed := strings.TrimPrefix dsn "mysql:" in
    let parts := strings.Split trimmed ";" in
    let '(host, port) := fold_left mysqlAddressStep parts ([], "3306") in
    if streq host [] then Err (errors.New "mysql host not found in dsn")
    else Ok (net.JoinHostPort host port).

Definition hostPort `{URLParser} (value : str) (defaultPort : Z)
  : result error str :=
  if streq value [] then Err (errors.New "empty host")
  else if strings.Contains value "://" then
    match url_Parse value with
    | Err err => Err err
    | Ok u =>
      let host := url.Hostname u in
      let port := url.Port u in
      let port := if streq port [] then strconv.Itoa defaultPort else port in
      Ok (net.JoinHostPort host port)
    end
  else
    let parts := strings.Split value ":" in
    if length parts =? 1
    then Ok (net.JoinHostPort (nth 0 parts []) (strconv.Itoa defaultPort))
    else Ok (net.JoinHostPort (nth 0 parts []) (nth 1 parts [])).

Section Dependencies.
Context {W : Type} `{OS W} `{Net W} `{URLParser}.

Definition second : Z := 1000000000.

Definition DialTimeout (network address : str) (timeout : Z)
  : M W (option error) :=
  stage (fun w => net_DialTimeout w network address timeout).

Definition Sleep (d : Z) : M W unit :=
  fun s => (tt, {| world := time_Sleep (world s) d; calls := calls s |}).

(** The loop of [waitForTCP] with [left] iterations to go. *)
Fixpoint dialUntil (left : nat) (addr : str) (delay : Z) : M W bool :=
  match left with
  | 0 => ret false
  | S left' =>
    r <- DialTimeout "tcp" addr (2 * second) ;;
    match r with
    | None => ret true
    | Some _ =>
      _ <- Sleep delay ;;
      dialUntil left' addr delay
    end
  end.

Definition waitForTCP (name addr : str) (attempts : Z) (delay : Z)
  : M W (option error) :=
  ok <- dialUntil (Z.to_nat attempts) addr delay ;;
  if ok then ret None
  else ret (Some (errors.New
         (name ++ " not reachable at " ++ addr ++ " after "
          ++ strconv.Itoa attempts ++ " attempts"))).

Definition waitForDependencies : M W (option error) :=
  v <- Getenv "ATOM_MYSQL_DSN" ;;
  let mysqlDSN := strings.TrimSpace v in
  v <- Getenv "ATOM_ELASTICSEARCH_HOST" ;;
  let esHost := strings.TrimSpace v in
  match mysqlAddress mysqlDSN with
  | Err err => ret (Some (Wrapped "parse mysql dsn" err))
  | Ok mysqlAddr =>
    match hostPort esHost 9200 with
    | Err err => ret (Some (Wrapped "parse elasticsearch host" err))
    | Ok esAddr =>
      r <- waitForTCP "mysql" mysqlAddr 30 (2 * second) ;;
      match r with
      | Some err => ret (Some err)
      | None =>
        r <- waitForTCP "elasticsearch" esAddr 30 (2 * second) ;;
        match r with
        | Some err => ret (Some err)
        | None => ret None
        end
      end
    end
  end.

End Dependencies.

End gate.

(** *** The storage API *)

Record storageLocation : Type := {
  ID : str;
  Label : str;
  Type_ : str;
  ParentID : option str
}.

Record storageLocationsResponse : Type := {
  Locations : list storageLocation
}.

Definition seedStorageLocations : list storageLocation :=
  let building := "loc_building_a" in
  let room := "loc_room_101" in
  let rangeID := "loc_range_a" in
  [ {| ID := building; Label := "Building A"; Type_ := "building";
       ParentID := None |};
    {| ID := room; Label := "Room 101"; Type_ := "room";
       ParentID := Some building |};
    {| ID := rangeID; Label := "Range A"; Type_ := "range";
       ParentID := Some room |};
    {| ID := "loc_shelf_3"; Label := "Shelf 3"; Type_ := "shelf";
       ParentID := Some rangeID |};
    {| ID := "loc_shelf_4"; Label := "Shelf 4"; Type_ := "shelf";
       ParentID := Some rangeID |} ].

(** The body of the loop of [filterStorageLocations]: does [location]
    pass both tests? *)
Definition keepLocation `{Unicode} (parentID query : str)
    (location : storageLocation) : bool :=
  (if negb (streq parentID [])
   then match ParentID location with
        | None => false
        | Some parent => streq parent parentID
        end
   else true)
  && (if negb (streq query [])
      then strings.Contains (strings.ToLower (Label location)) query
      else true).

Definition filterStorageLocations `{Unicode}
    (locations : list storageLocation) (parentID query : str)
  : list storageLocation :=
  if streq parentID [] && streq query [] then locations
  else filter (keepLocation parentID query) locations.

(** [http.Header.Get] for a canonical key and [url.Values.Get]: the first
    value stored under the key, empty when there is none. *)
Fixpoint valueOf (key : str) (values : list (str * str)) : str :=
  match values with
  | [] => []
  | (k, v) :: rest => if streq k key then v else valueOf key rest
  end.

(** What a handler writes to its [http.ResponseWriter]: bytes, or the
    line [json.Encoder.Encode] makes of a value. *)
Inductive payload : Type :=
| Plain (data : str)
| EncodedJSON (v : storageLocationsResponse).

(** The state of an [http.ResponseWriter]: the header map, the status
    once it has been written, and what has been written after it. *)
Record ResponseWriter : Type := {
  rwHeader : list (str * str);
  rwStatus : option Z;
  rwWritten : list payload
}.

Definition headerDel (key : str) (w : ResponseWriter) : ResponseWriter :=
  {| rwHeader := filter (fun kv => negb (streq (fst kv) key)) (rwHeader w);
     rwStatus := rwStatus w;
     rwWritten := rwWritten w |}.

Definition headerSet (key value : str) (w : ResponseWriter) : ResponseWriter :=
  {| rwHeader := (key, value) :: rwHeader (headerDel key w);
     rwStatus := rwStatus w;
     rwWritten := rwWritten w |}.

(** Only the first call writes the status. *)
Definition WriteHeader (code : Z) (w : ResponseWriter) : ResponseWriter :=
  match rwStatus w with
  | Some _ => w
  | None =>
    {| rwHeader := rwHeader w; rwStatus := Some code; rwWritten := rwWritten w |}
  end.

(** A write before any status writes status 200 first. *)
Definition rwWrite (data : payload) (w : ResponseWriter) : ResponseWriter :=
  let w := WriteHeader 200 w in
  {| rwHeader := rwHeader w;
     rwStatus := rwStatus w;
     rwWritten := rwWritten w ++ [data] |}.

(** [http.Error] *)
Definition httpError (w : ResponseWriter) (msg : str) (code : Z)
  : ResponseWriter :=
  let w := headerDel "Content-Length" w in
  let w := headerSet "Content-Type" "text/plain; charset=utf-8" w in
  let w := headerSet "X-Content-Type-Options" "nosniff" w in
  let w := WriteHeader code w in
  rwWrite (Plain (msg ++ LF)) w.

Section StorageAPI.
Context {W : Type} `{OS W} `{Unicode}.

Definition authorizeInternalAPI (w : ResponseWriter) (r : Request)
  : M W (ResponseWriter * bool) :=
  v <- Getenv "ATOM_VALENCE_INTERNAL_TOKEN" ;;
  let token := strings.TrimSpace v in
  if streq token [] then ret (w, true)
  else if streq (strings.TrimSpace (valueOf "Authorization" (Header r)))
                ("Bearer " ++ token)
  then ret (w, true)
  else ret (httpError w "unauthorized" 401, false).

(** [values] is [r.URL.Query()], the parsed query string. *)
Definition storageLocationsHandler (w : ResponseWriter) (r : Request)
    (values : list (str * str)) : M W ResponseWriter :=
  if negb (streq (Method r) "GET")
  then
    let w := headerSet "Allow" "GET" w in
    ret (httpError w "method not allowed" 405)
  else
    a <- authorizeInternalAPI w r ;;
    let '(w, ok) := a in
    if negb ok then ret w
    else
      let parentID := strings.TrimSpace (valueOf "parent_id" values) in
      let query := strings.ToLower (strings.TrimSpace (valueOf "query" values)) in
      let locations :=
        filterStorageLocations seedStorageLocations parentID query in
      let w := headerSet "Content-Type" "application/json" w in
      ret (rwWrite (EncodedJSON {| Locations := locations |}) w).

End StorageAPI.

(** *** The PHP runtime *)

Definition backslash : ascii := ascii_of_nat 92.

Definition phpEscape (value : str) : str :=
  let value := strings.ReplaceAll value [backslash] [backslash; backslash] in
  strings.ReplaceAll value "'" [backslash; "'"%char].

(** How PHP reads a single-quoted string literal, from the byte after
    the opening quote: a backslash before a backslash or a quote stands
    for that byte, every other byte for itself, and the literal ends at
    the first quote that is not escaped.  The result is the text read and
    the source that follows the closing quote; [None] when the literal
    does not end. *)
Fixpoint phpSingleQuoted (src : str) : option (str * str) :=
  match src with
  | [] => None
  | c :: rest =>
    if Ascii.eqb c "'" then Some ([], rest)
    else if Ascii.eqb c backslash then
      match rest with
      | d :: rest' =>
        if Ascii.eqb d backslash || Ascii.eqb d "'"
        then option_map (fun r => (d :: fst r, snd r)) (phpSingleQuoted rest')
        else option_map (fun r => (c :: fst r, snd r)) (phpSingleQuoted rest)
      | [] => None
      end
    else option_map (fun r => (c :: fst r, snd r)) (phpSingleQuoted rest)
  end.

(** [frontControllerHandler.frontControllerRequest]: the request sent to
    the runtime and its environment. *)
Definition frontControllerRequest (phpRoot frontController : str) (r : Request)
  : Request * list (str * str) :=
  let originalPath := URLPath r in
  let clone := {| Method := Method r; URLPath := "/index.php";
                  Header := Header r; Body := Body r |} in
  let env := [ ("SCRIPT_FILENAME", frontController);
               ("SCRIPT_NAME", "/index.php");
               ("PATH_INFO", originalPath) ] in
  (clone, env).

Section Extensions.
Context {W : Type} `{OS W} `{OSDirs W}.

Definition ReadDirEntries (p : str) : M W (result error (list DirEntry)) :=
  query (fun w => os_ReadDirEntries w p).

Definition extDirHasSo (dir : str) : M W bool :=
  r <- ReadDirEntries dir ;;
  match r with
  | Err _ => ret false
  | Ok entries =>
    ret (existsb (fun entry => negb (entryIsDir entry)
                               && strings.HasSuffix (entryName entry) ".so")
                 entries)
  end.

(** The loop of [firstExtDirWithSo] over the entries of [base]. *)
Fixpoint firstSubdirWithSo (base : str) (entries : list DirEntry) : M W str :=
  match entries with
  | [] => ret []
  | entry :: rest =>
    if negb (entryIsDir entry) then firstSubdirWithSo base rest
    else
      let p := path.Join base (entryName entry) in
      ok <- extDirHasSo p ;;
      if ok then ret p else firstSubdirWithSo base rest
  end.

Definition firstExtDirWithSo (base : str) : M W str :=
  ok <- extDirHasSo base ;;
  if ok then ret base
  else
    r <- ReadDirEntries base ;;
    match r with
    | Err _ => ret []
    | Ok entries => firstSubdirWithSo base entries
    end.

(** The loop of [detectExtensionDir] over the well-known bases. *)
Fixpoint firstBaseWithSo (bases : list str) : M W str :=
  match bases with
  | [] => ret []
  | base :: rest =>
    dir <- firstExtDirWithSo base ;;
    if negb (streq dir []) then ret dir else firstBaseWithSo rest
  end.

Definition detectExtensionDir : M W str :=
  v <- Getenv "PHP_EXTENSION_DIR" ;;
  let dir := strings.TrimSpace v in
  ok <- (if negb (streq dir []) then extDirHasSo dir else ret false) ;;
  if ok then ret dir
  else firstBaseWithSo [ "/usr/local/lib/php/extensions";
                         "/lib/php/extensions";
                         "/usr/lib/php/extensions" ].

End Extensions.

End valence.

(** ** Package [internal/bootstrap] *)

Module bootstrap.

Record Config : Type := {
  AtomDir : str;
  AtomDataDir : str;
  DevelopmentMode : bool;
  ElasticsearchHost : str;
  MemcachedHost : str;
  GearmandHost : str;
  MySQLDSN : str;
  MySQLUsername : str;
  MySQLPassword : str;
  DebugIP : str
}.

Record Summary : Type := {
  Written : list str;
  Skipped : list str
}.

Definition dataDir (c : Config) : str :=
  if negb (streq (strings.TrimSpace (AtomDataDir c)) []) then AtomDataDir c
  else AtomDir c.

Definition appConfigDir (c : Config) : str :=
  path.Join (dataDir c) "apps/qubit/config".

Definition projectConfigDir (c : Config) : str :=
  path.Join (dataDir c) "config".

Definition sourceAppConfigDir (c : Config) : str :=
  path.Join (AtomDir c) "apps/qubit/config".

Definition sourceProjectConfigDir (c : Config) : str :=
  path.Join (AtomDir c) "config".

Definition validate (c : Config) : option error :=
  let missing := [] in
  let missing := if streq (ElasticsearchHost c) []
                 then missing ++ ["ATOM_ELASTICSEARCH_HOST"] else missing in
  let missing := if streq (MemcachedHost c) []
                 then missing ++ ["ATOM_MEMCACHED_HOST"] else missing in
  let missing := if streq (GearmandHost c) []
                 then missing ++ ["ATOM_GEARMAND_HOST"] else missing in
  let missing := if streq (MySQLDSN c) []
                 then missing ++ ["ATOM_MYSQL_DSN"] else missing in
  let missing := if streq (MySQLUsername c) []
                 then missing ++ ["ATOM_MYSQL_USERNAME"] else missing in
  let missing := if streq (MySQLPassword c) []
                 then missing ++ ["ATOM_MYSQL_PASSWORD"] else missing in
  if 0 <? length missing
  then Some (errors.New ("missing required environment variables: "
                         ++ strings.Join missing ", "))
  else None.

Definition splitHostPort (value : str) (defaultPort : Z) : str * Z :=
  if streq value [] then ([], defaultPort)
  else
    let parts := strings.Split value ":" in
    if length parts =? 1 then (nth 0 parts [], defaultPort)
    else
      match strconv.Atoi (nth 1 parts []) with
      | None => (nth 0 parts [], defaultPort)
      | Some port => (nth 0 parts [], port)
      end.

Definition buildSearchYML (cfg : Config) : str :=
  let '(host, port) := splitHostPort (ElasticsearchHost cfg) 9200 in
  lines
    [ "all:";
      "  server:";
      "    host: " ++ host;
      "    port: " ++ strconv.Itoa port;
      [] ].

Definition phpPathEscape (value : str) : str :=
  let value :=
    strings.ReplaceAll value [valence.backslash]
      [valence.backslash; valence.backslash] in
  strings.ReplaceAll value "'" [valence.backslash; "'"%char].

Section WithOS.
Context {W : Type} `{OS W}.

Definition envOrDefault (key def : str) : M W str :=
  v <- Getenv key ;;
  match strings.TrimSpace v with
  | [] => ret def
  | val => ret val
  end.

Definition mustEnv (key : str) : M W str :=
  v <- Getenv key ;;
  ret (strings.TrimSpace v).

Definition envBool (key : str) (def : bool) : M W bool :=
  v <- Getenv key ;;
  match strings.TrimSpace v with
  | [] => ret def
  | val =>
    match strconv.ParseBool val with
    | None => ret def
    | Some parsed => ret parsed
    end
  end.

Definition LoadConfigFromEnv (atomDir : str) : M W (result error Config) :=
  atomDataDir <- envOrDefault "ATOM_DATA_DIR" [] ;;
  developmentMode <- envBool "ATOM_DEVELOPMENT_MODE" false ;;
  elasticsearchHost <- mustEnv "ATOM_ELASTICSEARCH_HOST" ;;
  memcachedHost <- mustEnv "ATOM_MEMCACHED_HOST" ;;
  gearmandHost <- mustEnv "ATOM_GEARMAND_HOST" ;;
  mySQLDSN <- mustEnv "ATOM_MYSQL_DSN" ;;
  mySQLUsername <- mustEnv "ATOM_MYSQL_USERNAME" ;;
  mySQLPassword <- mustEnv "ATOM_MYSQL_PASSWORD" ;;
  debugIP <- envOrDefault "ATOM_DEBUG_IP" [] ;;
  let cfg := {| AtomDir := atomDir;
                AtomDataDir := atomDataDir;
                DevelopmentMode := developmentMode;
                ElasticsearchHost := elasticsearchHost;
                MemcachedHost := memcachedHost;
                GearmandHost := gearmandHost;
                MySQLDSN := mySQLDSN;
                MySQLUsername := mySQLUsername;
                MySQLPassword := mySQLPassword;
                DebugIP := debugIP |} in
  match validate cfg with
  | Some err => ret (Err err)
  | None => ret (Ok cfg)
  end.

Definition ensureDir (p : str) : M W (option error) := MkdirAll p 493.

(** [exists] in the source. *)
Definition exists_ (p : str) : M W bool :=
  st <- Stat p ;;
  match st with
  | Ok info => ret (negb (IsDir info))
  | Err _ => ret false
  end.

Definition writeFile (summary : Summary) (target contents : str)
  : M W (option error) :=
  r <- ensureDir (path.Dir target) ;;
  match r with
  | Some err => ret (Some err)
  | None => WriteFile target contents 420
  end.

(** The functions that take [summary *Summary] return the summary they
    leave behind the pointer. *)
Definition overwriteFile (summary : Summary) (target contents : str)
  : M W (Summary * option error) :=
  r <- writeFile summary target contents ;;
  match r with
  | Some err => ret (summary, Some err)
  | None =>
    ret ({| Written := Written summary ++ [target];
            Skipped := Skipped summary |}, None)
  end.

Definition writeAppYMLIfMissing (summary : Summary) (cfg : Config)
  : M W (Summary * option error) :=
  let target := path.Join (appConfigDir cfg) "app.yml" in
  e <- exists_ target ;;
  if e
  then ret ({| Written := Written summary;
               Skipped := Skipped summary ++ [target] |}, None)
  else
    let '(host, port) := splitHostPort (MemcachedHost cfg) 11211 in
    let appYML := lines
      [ "all:";
        "  upload_limit: -1";
        "  download_timeout: 10";
        "  cache_engine: sfMemcacheCache";
        "  cache_engine_param:";
        "    host: " ++ host;
        "    port: " ++ strconv.Itoa port;
        "    prefix: atom";
        "    storeCacheInfo: true";
        "    persistent: true";
        "  read_only: false";
        "  htmlpurifier_enabled: false";
        "  csp:";
        "    response_header: Content-Security-Policy";
        "    directives: >";
        "      default-src 'self';";
        "      font-src 'self' https://fonts.gstatic.com;";
        "      form-action 'self';";
        "      img-src 'self' https://*.googleapis.com https://*.gstatic.com *.google.com  *.googleusercontent.com data: https://www.gravatar.com/avatar/ https://*.google-analytics.com https://*.googletagmanager.com blob:;";
        "      script-src 'self' https://*.googletagmanager.com 'nonce' https://*.googleapis.com https://*.gstatic.com *.google.com https://*.ggpht.com *.googleusercontent.com blob:;";
        "      style-src 'self' 'nonce' https://fonts.googleapis.com;";
        "      worker-src 'self' blob:;";
        "      connect-src 'self' https://*.google-analytics.com https://*.analytics.google.com https://*.googletagmanager.com https://*.googleapis.com *.google.com https://*.gstatic.com  data: blob:;";
        "      frame-ancestors 'self';";
        [] ] in
    r <- writeFile summary target appYML ;;
    ret (summary, r).

Definition writeFactoriesYMLIfMissing (summary : Summary) (cfg : Config)
  : M W (Summary * option error) :=
  let target := path.Join (appConfigDir cfg) "factories.yml" in
  e <- exists_ target ;;
  if e
  then ret ({| Written := Written summary;
               Skipped := Skipped summary ++ [target] |}, None)
  else
    let '(host, port) := splitHostPort (MemcachedHost cfg) 11211 in
    let secureCookie := if DevelopmentMode cfg then "false" else "true" in
    let factories := lines
      [ "prod:";
        "  storage:";
        "    class: QubitCacheSessionStorage";
        "    param:";
        "      session_name: symfony";
        "      session_cookie_httponly: true";
        "      session_cookie_secure: " ++ secureCookie;
        "      cache:";
        "        class: sfMemcacheCache";
        "        param:";
        "          host: " ++ host;
        "          port: " ++ strconv.Itoa port;
        "          prefix: atom";
        "          storeCacheInfo: true";
        "          persistent: true";
        [];
        [] ] in
    let factories := factories ++ lines
      [ "dev:";
        "  storage:";
        "    class: QubitCacheSessionStorage";
        "    param:";
        "      session_name: symfony";
        "      session_cookie_httponly: true";
        "      session_cookie_secure: " ++ secureCookie;
        "      cache:";
        "        class: sfMemcacheCache";
        "        param:";
        "          host: " ++ host;
        "          port: " ++ strconv.Itoa port;
        "          prefix: atom";
        "          storeCacheInfo: true";
        "          persistent: true";
        [] ] in
    r <- writeFile summary target factories ;;
    ret (summary, r).

Definition writeProjectConfigurationShim (summary : Summary) (cfg : Config)
  : M W (Summary * option error) :=
  if streq (dataDir cfg) (AtomDir cfg) then ret (summary, None)
  else
    let target :=
      path.Join (projectConfigDir cfg) "ProjectConfiguration.class.php" in
    let source :=
      path.JoinAll [AtomDir cfg; "config"; "ProjectConfiguration.class.php"] in
    let contents := lines
      [ "<?php";
        "// Auto-generated by Valence; delegate to the app's config.";
        "require_once '" ++ phpPathEscape source ++ "';" ] in
    overwriteFile summary target contents.

End WithOS.

End bootstrap.

(** ** Command [atom-archive] *)

Module atomarchive.

Definition defaultExcludes : list str :=
  [ ".git"; "cache"; "log"; "uploads"; "web/uploads" ].

Fixpoint shouldExclude (rel : str) (excludes : list str) : bool :=
  let clean := strings.TrimSuffix rel "/" in
  match excludes with
  | [] => false
  | exclude :: rest =>
    let ex := strings.TrimSuffix exclude "/" in
    if streq clean ex then true
    else if strings.HasPrefix clean (ex ++ "/") then true
    else shouldExclude rel rest
  end.

End atomarchive.

(** ** A reference file system

    An instance of [OS] in which paths are resolved lexically from the
    root: a tree of directories, regular files and symbolic links.  Links
    are leaves whose destination does not exist, so a call that would
    follow one fails the way it does on a dangling link.  No call fails
    for lack of permission or space. *)

Module lexfs.

Inductive node : Type :=
| File (perm : Z) (data : str)
| Link (dest : str)
| Dir (perm : Z) (entries : list (str * node)).

Record fs : Type := {
  cwd : list str;
  root : node;
  environ : list (str * str)
}.

Fixpoint assoc {A : Type} (k : str) (l : list (str * A)) : option A :=
  match l with
  | [] => None
  | (k', v) :: l' => if streq k k' then Some v else assoc k l'
  end.

Fixpoint remove {A : Type} (k : str) (l : list (str * A)) : list (str * A) :=
  match l with
  | [] => []
  | (k', v) :: l' => if streq k k' then remove k l' else (k', v) :: remove k l'
  end.

Definition set {A : Type} (k : str) (v : A) (l : list (str * A)) : list (str * A) :=
  (k, v) :: remove k l.

(** Where a path leads: its elements from the root, [..] stepping back and
    stopping at the root.  The empty path leads nowhere. *)
Definition locOf (w : fs) (p : str) : option (list str) :=
  match p with
  | [] => None
  | _ :: _ =>
    Some (rev (path.reduce true
                 (if path.IsAbs p then path.elems p else cwd w ++ path.elems p)
                 []))
  end.

Fixpoint walk (n : node) (loc : list str) : result errno node :=
  match loc with
  | [] => Ok n
  | x :: rest =>
    match n with
    | Dir _ es =>
      match assoc x es with
      | Some c => walk c rest
      | None => Err ENOENT
      end
    | File _ _ => Err ENOTDIR
    | Link _ => Err ENOENT
    end
  end.

(** Replace, create or delete the child named by the last element of
    [loc], as [f] decides from what is there. *)
Fixpoint alter (f : option node -> result errno (option node))
    (loc : list str) (n : node) : result errno node :=
  match loc with
  | [] => Err EINVAL
  | x :: rest =>
    match n with
    | Dir perm es =>
      match rest with
      | [] =>
        match f (assoc x es) with
        | Ok (Some c) => Ok (Dir perm (set x c es))
        | Ok None => Ok (Dir perm (remove x es))
        | Err e => Err e
        end
      | _ :: _ =>
        match assoc x es with
        | Some c =>
          match alter f rest c with
          | Ok c' => Ok (Dir perm (set x c' es))
          | Err e => Err e
          end
        | None => Err ENOENT
        end
      end
    | File _ _ => Err ENOTDIR
    | Link _ => Err ENOENT
    end
  end.

Fixpoint freshDirs (perm : Z) (loc : list str) : node :=
  match loc with
  | [] => Dir perm []
  | x :: rest => Dir perm [(x, freshDirs perm rest)]
  end.

Fixpoint mkdirAll (perm : Z) (loc : list str) (n : node) : result errno node :=
  match loc with
  | [] =>
    match n with
    | Dir _ _ => Ok n
    | File _ _ => Err ENOTDIR
    | Link _ => Err EEXIST
    end
  | x :: rest =>
    match n with
    | Dir p es =>
      match assoc x es with
      | None => Ok (Dir p (set x (freshDirs perm rest) es))
      | Some c =>
        match mkdirAll perm rest c with
        | Ok c' => Ok (Dir p (set x c' es))
        | Err e => Err e
        end
      end
    | File _ _ => Err ENOTDIR
    | Link _ => Err EEXIST
    end
  end.

Definition withRoot (w : fs) (r : result errno node) : fs * option error :=
  match r with
  | Ok n => ({| cwd := cwd w; root := n; environ := environ w |}, None)
  | Err e => (w, Some (Errno e))
  end.

Definition update (w : fs) (p : str)
    (f : option node -> result errno (option node)) (atRoot : errno)
  : fs * option error :=
  match locOf w p with
  | None => (w, Some (Errno ENOENT))
  | Some [] => (w, Some (Errno atRoot))
  | Some loc => withRoot w (alter f loc (root w))
  end.

Definition lookup (w : fs) (p : str) : result errno node :=
  match locOf w p with
  | None => Err ENOENT
  | Some loc => walk (root w) loc
  end.

(** The bytes of the regular file at [loc], if there is one. *)
Definition fileAt (n : node) (loc : list str) : option str :=
  match walk n loc with
  | Ok (File _ data) => Some data
  | _ => None
  end.

Definition isDirNode (n : node) : bool :=
  match n with
  | Dir _ _ => true
  | _ => false
  end.

(** No regular file at [mloc] holds [hash], white space aside; [cwd0] is
    the working directory [mloc] was resolved in. *)
Definition unmarked (cwd0 mloc : list str) (hash : str) (w : fs) : Prop :=
  cwd w = cwd0
  /\ forall c, fileAt (root w) mloc = Some c -> strings.TrimSpace c <> hash.

Definition getenv (w : fs) (key : str) : str :=
  match assoc key (environ w) with
  | Some v => v
  | None => []
  end.

Definition getwd (w : fs) : result error str :=
  Ok ("/"%char :: path.joinElems (cwd w)).

Definition stat (w : fs) (p : str) : result error FileInfo :=
  match lookup w p with
  | Ok (Dir _ _) => Ok {| IsDir := true |}
  | Ok (File _ _) => Ok {| IsDir := false |}
  | Ok (Link _) => Err (Errno ENOENT)
  | Err e => Err (Errno e)
  end.

Definition readFile (w : fs) (p : str) : result error str :=
  match lookup w p with
  | Ok (File _ data) => Ok data
  | Ok (Dir _ _) => Err (Errno EISDIR)
  | Ok (Link _) => Err (Errno ENOENT)
  | Err e => Err (Errno e)
  end.

Definition readDir (w : fs) (p : str) : result error (list str) :=
  match lookup w p with
  | Ok (Dir _ es) => Ok (map fst es)
  | Ok (File _ _) => Err (Errno ENOTDIR)
  | Ok (Link _) => Err (Errno ENOENT)
  | Err e => Err (Errno e)
  end.

(** [os.RemoveAll] refuses a path ending in [.], and succeeds on the empty
    path and on a path that does not exist. *)
Definition endsWithDot (p : str) : bool :=
  streq p "." || strings.HasSuffix p "/.".

Definition removeAll (w : fs) (p : str) : fs * option error :=
  match p with
  | [] => (w, None)
  | _ :: _ =>
    if endsWithDot p then (w, Some (Errno EINVAL))
    else
      match locOf w p with
      | None => (w, None)
      | Some [] => (w, Some (Errno EINVAL))
      | Some loc =>
        match alter (fun _ => Ok None) loc (root w) with
        | Ok n => withRoot w (Ok n)
        | Err ENOENT => (w, None)
        | Err e => (w, Some (Errno e))
        end
      end
  end.

Definition mkdirAllAt (w : fs) (p : str) (perm : Z) : fs * option error :=
  match locOf w p with
  | None => (w, Some (Errno ENOENT))
  | Some loc => withRoot w (mkdirAll perm loc (root w))
  end.

(** Create the file or truncate it; an existing file keeps its
    permissions. *)
Definition truncated (perm : Z) (data : str) (old : option node)
  : result errno (option node) :=
  match old with
  | None => Ok (Some (File perm data))
  | Some (File perm0 _) => Ok (Some (File perm0 data))
  | Some (Dir _ _) => Err EISDIR
  | Some (Link _) => Err ENOENT
  end.

Definition writeFile (w : fs) (p data : str) (perm : Z) : fs * option error :=
  update w p (truncated perm data) EISDIR.

Definition symlink (w : fs) (oldname newname : str) : fs * option error :=
  update w newname
    (fun old => match old with
                | None => Ok (Some (Link oldname))
                | Some _ => Err EEXIST
                end)
    EEXIST.

Definition openFile (w : fs) (p : str) (perm : Z) : fs * option error :=
  update w p (truncated perm []) EISDIR.

Definition write (w : fs) (p data : str) : fs * option error :=
  update w p
    (fun old => match old with
                | Some (File perm0 d) => Ok (Some (File perm0 (d ++ data)))
                | _ => Err EBADF
                end)
    EBADF.

Definition close (w : fs) (p : str) : fs * option error := (w, None).

#[global] Instance lexOS : OS fs := {
  os_Getenv := getenv;
  os_Getwd := getwd;
  os_Stat := stat;
  os_ReadFile := readFile;
  os_ReadDir := readDir;
  os_RemoveAll := removeAll;
  os_MkdirAll := mkdirAllAt;
  os_WriteFile := writeFile;
  os_Symlink := symlink;
  os_OpenFile := openFile;
  os_Write := write;
  os_Close := close
}.

(** Boot stages that all succeed and leave the world as it is. *)
#[global] Instance quietStages : valence.Stages fs := {
  valence.bootstrap_LoadConfigFromEnv := fun w _ => (w, None);
  valence.bootstrap_Apply := fun w => (w, None);
  valence.waitForDependencies := fun w => (w, None);
  valence.runSymfonyPurge := fun w _ => (w, None);
  valence.runSymfonyCacheClear := fun w _ => (w, None);
  valence.initPHPRuntime := fun w => (w, None)
}.

Definition readDirEntries (w : fs) (p : str) : result error (list DirEntry) :=
  match lookup w p with
  | Ok (Dir _ es) =>
    Ok (map (fun e => {| entryName := fst e; entryIsDir := isDirNode (snd e) |})
            es)
  | Ok (File _ _) => Err (Errno ENOTDIR)
  | Ok (Link _) => Err (Errno ENOENT)
  | Err e => Err (Errno e)
  end.

#[global] Instance lexDirs : OSDirs fs := {
  os_ReadDirEntries := readDirEntries
}.

Definition start (w : fs) : state fs := {| world := w; calls := [] |}.

End lexfs.

(** ** A file system that follows links

    The tree of the reference file system with every path resolved the
    way a POSIX kernel resolves it: a link met on the way is replaced by
    its destination, taken from the root when it is absolute and from the
    directory of the link otherwise; [..] steps back from where the
    resolution stands.  [Symlink] and [RemoveAll] leave a link in the last
    element as it is, the other calls follow it.  A call that creates
    through a link whose destination is missing creates the destination,
    except [MkdirAll], which fails as [mkdir] does on the link. *)

Module linkfs.

Record fs : Type := { tree : lexfs.fs }.

(** The number of links the kernel follows before it gives up. *)
Definition maxLinks : nat := 40.

(** [here] is the directory reached, [es] the elements still to take and
    [linked] how many of them, at the front, come from a link.  With
    [strict], a missing element of a link's destination is an error. *)
Fixpoint resolve (fuel : nat) (root : lexfs.node) (strict : bool)
  : list str -> nat -> list str -> result errno (list str) :=
  fix go (here : list str) (linked : nat) (es : list str) {struct es}
    : result errno (list str) :=
    match es with
    | [] => Ok here
    | e :: rest =>
      if streq e "." then go here (pred linked) rest
      else if streq e ".." then
        match lexfs.walk root here with
        | Ok (lexfs.Dir _ _) => go (removelast here) (pred linked) rest
        | Ok _ => Err ENOTDIR
        | Err err => Err err
        end
      else
        match lexfs.walk root (here ++ [e]) with
        | Ok (lexfs.Link dest) =>
          match fuel with
          | O => Err EINVAL
          | S fuel' =>
            resolve fuel' root strict
              (if path.IsAbs dest then [] else here)
              (length (path.elems dest) + pred linked)
              (path.elems dest ++ rest)
          end
        | Err ENOENT =>
          if strict && (0 <? linked) then Err EEXIST
          else go (here ++ [e]) (pred linked) rest
        | _ => go (here ++ [e]) (pred linked) rest
        end
    end.

Definition base (w : fs) (p : str) : list str :=
  if path.IsAbs p then [] else lexfs.cwd (tree w).

(** Where a path leads, every link followed. *)
Definition whole (strict : bool) (w : fs) (p : str) : result errno (list str) :=
  match p with
  | [] => Err ENOENT
  | _ :: _ =>
    resolve maxLinks (lexfs.root (tree w)) strict (base w p) 0 (path.elems p)
  end.

(** The same with the last element taken as it is. *)
Definition entryOf (w : fs) (p : str) : result errno (list str) :=
  match rev (path.elems p) with
  | name :: front =>
    if path.isName name then
      match resolve maxLinks (lexfs.root (tree w)) false (base w p) 0
              (rev front) with
      | Ok dir => Ok (dir ++ [name])
      | Err e => Err e
      end
    else whole false w p
  | [] => whole false w p
  end.

Definition lookup (w : fs) (p : str) : result errno lexfs.node :=
  match whole false w p with
  | Ok loc => lexfs.walk (lexfs.root (tree w)) loc
  | Err e => Err e
  end.

Definition onTree (w : fs) (r : result errno lexfs.node) : fs * option error :=
  match r with
  | Ok n =>
    ({| tree := {| lexfs.cwd := lexfs.cwd (tree w); lexfs.root := n;
                   lexfs.environ := lexfs.environ (tree w) |} |}, None)
  | Err e => (w, Some (Errno e))
  end.

Definition update (w : fs) (place : result errno (list str))
    (f : option lexfs.node -> result errno (option lexfs.node)) (atRoot : errno)
  : fs * option error :=
  match place with
  | Err e => (w, Some (Errno e))
  | Ok [] => (w, Some (Errno atRoot))
  | Ok loc => onTree w (lexfs.alter f loc (lexfs.root (tree w)))
  end.

Definition stat (w : fs) (p : str) : result error FileInfo :=
  match lookup w p with
  | Ok (lexfs.Dir _ _) => Ok {| IsDir := true |}
  | Ok (lexfs.File _ _) => Ok {| IsDir := false |}
  | Ok (lexfs.Link _) => Err (Errno ENOENT)
  | Err e => Err (Errno e)
  end.

Definition readFile (w : fs) (p : str) : result error str :=
  match lookup w p with
  | Ok (lexfs.File _ data) => Ok data
  | Ok (lexfs.Dir _ _) => Err (Errno EISDIR)
  | Ok (lexfs.Link _) => Err (Errno ENOENT)
  | Err e => Err (Errno e)
  end.

Definition readDir (w : fs) (p : str) : result error (list str) :=
  match lookup w p with
  | Ok (lexfs.Dir _ es) => Ok (map fst es)
  | Ok (lexfs.File _ _) => Err (Errno ENOTDIR)
  | Ok (lexfs.Link _) => Err (Errno ENOENT)
  | Err e => Err (Errno e)
  end.

Definition removeAll (w : fs) (p : str) : fs * option error :=
  match p with
  | [] => (w, None)
  | _ :: _ =>
    if lexfs.endsWithDot p then (w, Some (Errno EINVAL))
    else
      match entryOf w p with
      | Err ENOENT => (w, None)
      | Err e => (w, Some (Errno e))
      | Ok [] => (w, Some (Errno EINVAL))
      | Ok loc =>
        match lexfs.alter (fun _ => Ok None) loc (lexfs.root (tree w)) with
        | Err ENOENT => (w, None)
        | r => onTree w r
        end
      end
  end.

Definition mkdirAllAt (w : fs) (p : str) (perm : Z) : fs * option error :=
  match whole true w p with
  | Ok loc => onTree w (lexfs.mkdirAll perm loc (lexfs.root (tree w)))
  | Err e => (w, Some (Errno e))
  end.

Definition writeFile (w : fs) (p data : str) (perm : Z) : fs * option error :=
  update w (whole false w p) (lexfs.truncated perm data) EISDIR.

Definition symlink (w : fs) (oldname newname : str) : fs * option error :=
  update w (match newname with [] => Err ENOENT | _ :: _ => entryOf w newname end)
    (fun old => match old with
                | None => Ok (Some (lexfs.Link oldname))
                | Some _ => Err EEXIST
                end)
    EEXIST.

Definition openFile (w : fs) (p : str) (perm : Z) : fs * option error :=
  update w (whole false w p) (lexfs.truncated perm []) EISDIR.

Definition write (w : fs) (p data : str) : fs * option error :=
  update w (whole false w p)
    (fun old => match old with
                | Some (lexfs.File perm0 d) => Ok (Some (lexfs.File perm0 (d ++ data)))
                | _ => Err EBADF
                end)
    EBADF.

#[global] Instance linkOS : OS fs := {
  os_Getenv := fun w => lexfs.getenv (tree w);
  os_Getwd := fun w => lexfs.getwd (tree w);
  os_Stat := stat;
  os_ReadFile := readFile;
  os_ReadDir := readDir;
  os_RemoveAll := removeAll;
  os_MkdirAll := mkdirAllAt;
  os_WriteFile := writeFile;
  os_Symlink := symlink;
  os_OpenFile := openFile;
  os_Write := write;
  os_Close := fun w _ => (w, None)
}.

Definition start (w : lexfs.fs) : state fs :=
  {| world := {| tree := w |}; calls := [] |}.

End linkfs.

(** ** A reference network

    The reference file system with a network beside it: [answers] says
    for each dial to come whether it connects, and no dial connects once
    the list is used up; [dialed] and [slept] record the addresses dialed
    and the time slept. *)

Module wired.

Record net : Type := {
  disk : lexfs.fs;
  answers : list bool;
  dialed : list str;
  slept : Z
}.

Definition onDisk (f : lexfs.fs -> lexfs.fs * option error) (w : net)
  : net * option error :=
  let (d, e) := f (disk w) in
  ({| disk := d; answers := answers w; dialed := dialed w; slept := slept w |},
   e).

#[global] Instance wiredOS : OS net := {
  os_Getenv := fun w => lexfs.getenv (disk w);
  os_Getwd := fun w => lexfs.getwd (disk w);
  os_Stat := fun w => lexfs.stat (disk w);
  os_ReadFile := fun w => lexfs.readFile (disk w);
  os_ReadDir := fun w => lexfs.readDir (disk w);
  os_RemoveAll := fun w p => onDisk (fun d => lexfs.removeAll d p) w;
  os_MkdirAll := fun w p perm => onDisk (fun d => lexfs.mkdirAllAt d p perm) w;
  os_WriteFile :=
    fun w p data perm => onDisk (fun d => lexfs.writeFile d p data perm) w;
  os_Symlink :=
    fun w oldname newname => onDisk (fun d => lexfs.symlink d oldname newname) w;
  os_OpenFile := fun w p perm => onDisk (fun d => lexfs.openFile d p perm) w;
  os_Write := fun w p data => onDisk (fun d => lexfs.write d p data) w;
  os_Close := fun w p => onDisk (fun d => lexfs.close d p) w
}.

Definition dial (w : net) (network address : str) (timeout : Z)
  : net * option error :=
  ({| disk := disk w; answers := tl (answers w);
      dialed := dialed w ++ [address]; slept := slept w |},
   match answers w with
   | true :: _ => None
   | _ => Some (errors.New "connection refused")
   end).

Definition sleep (w : net) (d : Z) : net :=
  {| disk := disk w; answers := answers w; dialed := dialed w;
     slept := (slept w + d)%Z |}.

#[global] Instance wiredNet : Net net := {
  net_DialTimeout := dial;
  time_Sleep := sleep
}.

Definition start (d : lexfs.fs) (script : list bool) : state net :=
  {| world := {| disk := d; answers := script; dialed := []; slept := 0 |};
     calls := [] |}.

End wired.

(** ** Sample inputs

    Two snapshots, a crafted archive, and worlds of the reference file
    system, for the examples that follow. *)

Module sample.
Import atomembed valence lexfs.

Definition entry (name : str) (flag : typeflag) (link data : str) : Entry :=
  {| hdr := {| Name := name; Typeflag := flag; Linkname := link; Mode := 420 |};
     body := data; bodyErr := None |}.

Definition digestA : str :=
  "3a7bd3e2360a3d29eea436fcfb7e44c735d117c42d1c1835420b6b9942dd4f1b".

Definition digestB : str :=
  "9f86d081884c7d659a2feaa0c55ad015a3bf4f1b2b0b822cd15d6c15b0f00a08".

Definition snapshotA : Archive :=
  {| nonEmpty := true; sha256hex := digestA; gzipErr := None;
     tarEntries :=
       [ entry "web" TypeDir [] [];
         entry "index.php" TypeReg [] "<?php";
         entry "css/main.css" TypeReg [] "body{}";
         entry "current" TypeSymlink "index.php" [] ];
     tarEnd := None |}.

Definition snapshotB : Archive :=
  {| nonEmpty := true; sha256hex := digestB; gzipErr := None;
     tarEntries :=
       [ entry "index.php" TypeReg [] "<?php echo 2;";
         entry "downloads/guide.pdf" TypeReg [] "%PDF" ];
     tarEnd := None |}.

(** An archive with an entry that names a path outside the target. *)
Definition crafted : Archive :=
  {| nonEmpty := true; sha256hex := digestB; gzipErr := None;
     tarEntries :=
       [ entry "ok.txt" TypeReg [] "fine";
         entry "../../etc/passwd" TypeReg [] "root::0:0";
         entry "late.txt" TypeReg [] "never" ];
     tarEnd := None |}.

Definition env : list (str * str) :=
  [ ("VALENCE_ATOM_SRC_DIR", "/app/atom"); ("ATOM_DATA_DIR", "/data") ].

(** [/app] exists, [/app/atom] does not. *)
Definition fresh : fs :=
  {| cwd := ["app"];
     root := Dir 493 [("app", Dir 493 []); ("data", Dir 493 [])];
     environ := env |}.

(** [/app/atom] holds files of its own and no marker. *)
Definition foreign : fs :=
  {| cwd := ["app"];
     root := Dir 493
       [("app", Dir 493
          [("atom", Dir 493
             [("index.php", File 420 "<?php // local");
              ("css", Dir 493 [])])]);
        ("data", Dir 493
          [("downloads", Dir 493 [("guide.pdf", File 420 "%PDF-overlay")])])];
     environ := env |}.

Definition handlerAtom : atomHandler :=
  {| h_phpRoot := "/app/atom";
     h_frontController := "/app/atom/index.php";
     h_atomDataDir := "/data" |}.

Definition get (p : str) : Request :=
  {| Method := "GET"; URLPath := p; Header := []; Body := [] |}.

Definition post (p : str) : Request :=
  {| Method := "POST"; URLPath := p;
     Header := [("Content-Type", "text/plain")]; Body := "x=1" |}.

(** A configuration as the compose file of the repository sets it. *)
Definition bootConfig : bootstrap.Config :=
  {| bootstrap.AtomDir := "/app/atom";
     bootstrap.AtomDataDir := "/data";
     bootstrap.DevelopmentMode := false;
     bootstrap.ElasticsearchHost := "elasticsearch:9201";
     bootstrap.MemcachedHost := "memcached:11211";
     bootstrap.GearmandHost := "gearmand:4730";
     bootstrap.MySQLDSN := "mysql:host=percona;port=3306;dbname=atom";
     bootstrap.MySQLUsername := "atom";
     bootstrap.MySQLPassword := "atom_012345";
     bootstrap.DebugIP := [] |}.

(** The data directory holds an [app.yml] of the operator's. *)
Definition configured : fs :=
  {| cwd := ["app"];
     root := Dir 493
       [("app", Dir 493 [("atom", Dir 493 [("index.php", File 420 "<?php")])]);
        ("data", Dir 493
          [("apps", Dir 493
             [("qubit", Dir 493
                [("config", Dir 493
                   [("app.yml", File 420 "all: {}")])])])])];
     environ := env |}.

(** The same without a data directory of its own. *)
Definition plainConfig : bootstrap.Config :=
  {| bootstrap.AtomDir := "/app/atom";
     bootstrap.AtomDataDir := [];
     bootstrap.DevelopmentMode := true;
     bootstrap.ElasticsearchHost := "elasticsearch";
     bootstrap.MemcachedHost := "memcached";
     bootstrap.GearmandHost := "gearmand";
     bootstrap.MySQLDSN := "mysql:host=percona;dbname=atom";
     bootstrap.MySQLUsername := "atom";
     bootstrap.MySQLPassword := "atom_012345";
     bootstrap.DebugIP := [] |}.

(** An empty summary. *)
Definition nothingYet : bootstrap.Summary :=
  {| bootstrap.Written := []; bootstrap.Skipped := [] |}.

(** The services as the compose file names them. *)
Definition services : fs :=
  {| cwd := ["app"];
     root := Dir 493 [("app", Dir 493 [])];
     environ :=
       [ ("ATOM_MYSQL_DSN", "mysql:host=percona;port=3306;dbname=atom");
         ("ATOM_ELASTICSEARCH_HOST", "elasticsearch:9200");
         ("ATOM_VALENCE_INTERNAL_TOKEN", " s3cret ") ] |}.

(** A PHP build with its extensions in a directory named after the API
    version. *)
Definition withExtensions : fs :=
  {| cwd := ["app"];
     root := Dir 493
       [("usr", Dir 493
          [("local", Dir 493
             [("lib", Dir 493
                [("php", Dir 493
                   [("extensions", Dir 493
                      [("README", File 420 "see below");
                       ("debug.so", Dir 493 []);
                       ("no-debug-zts-20230831", Dir 493
                          [("opcache.so", File 493 "ELF")])])])])])])];
     environ := [] |}.

(** An archive that lays a link out of the target, writes through it, and
    then names a path outside the target. *)
Definition linked : Archive :=
  {| nonEmpty := true; sha256hex := digestB; gzipErr := None;
     tarEntries :=
       [ entry "x" TypeSymlink "/etc" [];
         entry "x/passwd" TypeReg [] "root::0:0";
         entry "../../etc/passwd" TypeReg [] "root::0:0" ];
     tarEnd := None |}.

(** A machine with [/etc/passwd], and [/app] without [/app/atom]. *)
Definition host : fs :=
  {| cwd := ["app"];
     root := Dir 493
       [("app", Dir 493 []);
        ("etc", Dir 493 [("passwd", File 420 "root:x:0:0")])];
     environ := env |}.

(** An archive whose first entry is a link at the marker's name, and
    whose extraction fails after [index.php]. *)
Definition selfMarked : Archive :=
  {| nonEmpty := true; sha256hex := digestB; gzipErr := None;
     tarEntries :=
       [ entry ".valence-atom-version" TypeSymlink "/srv/release/digest" [];
         entry "index.php" TypeReg [] "<?php";
         entry "../../etc/passwd" TypeReg [] "root::0:0";
         entry "lib/boot.php" TypeReg [] "<?php // never written" ];
     tarEnd := None |}.

(** A machine on which a file outside the target holds that digest. *)
Definition released : fs :=
  {| cwd := ["app"];
     root := Dir 493
       [("app", Dir 493 []);
        ("srv", Dir 493 [("release", Dir 493 [("digest", File 420 digestB)])])];
     environ := env |}.

(** No URL parses: for the values that carry no scheme. *)
Definition noURLs : URLParser :=
  {| url_Parse := fun _ => Err (errors.New "not a URL") |}.

End sample.

(** * Lemmas *)

(** ** Byte strings *)

Lemma streq_spec (a b : str) : reflect (a = b) (streq a b).
Proof.
  revert b; induction a as [|x a IH]; intros [|y b]; simpl;
    try (constructor; congruence).
  destruct (Ascii.eqb_spec x y) as [->|Hxy]; simpl.
  - destruct (IH b) as [->|Hab]; constructor; congruence.
  - constructor; congruence.
Qed.

Lemma streq_refl (a : str) : streq a a = true.
Proof. destruct (streq_spec a a); congruence. Qed.

Lemma streq_eq (a b : str) : streq a b = true -> a = b.
Proof. destruct (streq_spec a b); congruence. Qed.

Lemma streq_neq (a b : str) : streq a b = false -> a <> b.
Proof. destruct (streq_spec a b); congruence. Qed.

Module StringsFacts.
Import strings.

Lemma HasPrefix_app (s p : str) : HasPrefix (p ++ s) p = true.
Proof.
  induction p as [|c p IH]; simpl; [reflexivity|].
  now rewrite Ascii.eqb_refl.
Qed.

Lemma HasPrefix_split (s p : str) :
  HasPrefix s p = true -> s = p ++ skipn (length p) s.
Proof.
  revert s; induction p as [|c p IH]; intros s H; simpl in *; [reflexivity|].
  destruct s as [|d s]; [discriminate|].
  apply andb_true_iff in H as [Hc Hp].
  apply Ascii.eqb_eq in Hc; subst d.
  simpl; f_equal; auto.
Qed.

Lemma HasPrefix_iff (s p : str) :
  HasPrefix s p = true <-> exists t, s = p ++ t.
Proof.
  split.
  - intros H; eexists; apply HasPrefix_split, H.
  - intros [t ->]; apply HasPrefix_app.
Qed.

Lemma Contains_cons (c : ascii) (s sub : str) :
  Contains (c :: s) sub = false -> Contains s sub = false.
Proof. simpl; intros H; apply orb_false_iff in H; tauto. Qed.

Lemma Contains_app_r (a s sub : str) :
  Contains (a ++ s) sub = false -> Contains s sub = false.
Proof.
  induction a as [|c a IH]; simpl; [tauto|].
  intros H; apply orb_false_iff in H as [_ H]; auto.
Qed.

End StringsFacts.

(** ** [path.Clean] *)

Module PathFacts.
Import strings path.

Lemma take_drop_elem (p : str) : takeElem p ++ dropElem p = p.
Proof.
  induction p as [|c p IH]; simpl; [reflexivity|].
  destruct (isSlash c); simpl; congruence.
Qed.

Lemma takeElem_noslash (p : str) :
  forallb (fun c => negb (isSlash c)) (takeElem p) = true.
Proof.
  induction p as [|c p IH]; simpl; [reflexivity|].
  destruct (isSlash c) eqn:E; simpl; [reflexivity|].
  now rewrite E.
Qed.

Lemma dropElem_ends (p : str) : endsElem (dropElem p) = true.
Proof.
  induction p as [|c p IH]; simpl; [reflexivity|].
  destruct (isSlash c) eqn:E; simpl; auto.
Qed.

Lemma dropElem_length (p : str) : length (dropElem p) <= length p.
Proof.
  induction p as [|c p IH]; simpl; [lia|].
  destruct (isSlash c); simpl; lia.
Qed.

Lemma copyElem_spec (p out : str) :
  copyElem p out = (dropElem p, rev (takeElem p) ++ out).
Proof.
  revert out; induction p as [|c p IH]; intros out; simpl; [reflexivity|].
  destruct (isSlash c); [reflexivity|].
  rewrite IH; simpl; now rewrite <- app_assoc.
Qed.

Lemma splitElems_spec (cur p : str) :
  splitElems cur p =
  match rev cur ++ takeElem p with
  | [] => elems (dropElem p)
  | e => e :: elems (dropElem p)
  end.
Proof.
  revert cur; induction p as [|c p IH]; intros cur; simpl.
  - rewrite app_nil_r.
    destruct cur as [|x cur]; simpl; [reflexivity|].
    destruct (rev cur ++ [x]) eqn:E; [now destruct (rev cur)|reflexivity].
  - destruct (isSlash c) eqn:Ec.
    + rewrite app_nil_r.
      assert (E0 : elems (c :: p) = splitElems [] p)
        by (unfold elems; simpl; now rewrite Ec).
      rewrite E0.
      destruct cur as [|x cur]; simpl; [reflexivity|].
      destruct (rev cur ++ [x]) eqn:E; [now destruct (rev cur)|reflexivity].
    + rewrite IH; simpl. now rewrite <- app_assoc.
Qed.

Lemma elems_slash (p : str) : elems ("/"%char :: p) = elems p.
Proof. reflexivity. Qed.

Lemma elems_take_drop (p : str) :
  elems p =
  match takeElem p with
  | [] => elems (dropElem p)
  | e => e :: elems (dropElem p)
  end.
Proof. unfold elems at 1; now rewrite splitElems_spec. Qed.

Lemma dropElem_of_ends (p : str) : endsElem p = true -> dropElem p = p.
Proof. destruct p as [|c p]; simpl; [reflexivity|]. now intros ->. Qed.

Lemma takeElem_of_ends (p : str) : endsElem p = true -> takeElem p = [].
Proof. destruct p as [|c p]; simpl; [reflexivity|]. now intros ->. Qed.

Lemma isSlash_eq (c : ascii) : isSlash c = true -> c = "/"%char.
Proof. apply Ascii.eqb_eq. Qed.

Lemma isDot_eq (c : ascii) : isDot c = true -> c = "."%char.
Proof. apply Ascii.eqb_eq. Qed.

(** *** The buffer of a stack *)

Lemma outOf_cons (rooted : bool) (e : str) (below : list str) :
  outOf rooted (e :: below) =
  rev e ++ (match below with [] => [] | _ :: _ => ["/"%char] end) ++ outOf rooted below.
Proof. reflexivity. Qed.

Lemma dotdotOf_cons (rooted : bool) (e : str) (below : list str) :
  dotdotOf rooted (e :: below) =
  if streq e ".." then length (outOf rooted (e :: below))
  else dotdotOf rooted below.
Proof. reflexivity. Qed.

Lemma okStack_tail (rooted : bool) (e : str) (below : list str) :
  okStack rooted (e :: below) = true -> okStack rooted below = true.
Proof.
  simpl. intros H.
  apply andb_true_iff in H as [_ H].
  destruct (streq e ".."); [|exact H].
  apply andb_true_iff in H as [Hr H].
  clear e. induction below as [|x below IH]; simpl in *; [reflexivity|].
  apply andb_true_iff in H as [Hx H].
  rewrite Hx, Hr, H.
  apply streq_eq in Hx; subst x. reflexivity.
Qed.

Lemma okStack_head (rooted : bool) (e : str) (below : list str) :
  okStack rooted (e :: below) = true -> isElem e = true /\ e <> ".".
Proof.
  simpl. intros H.
  apply andb_true_iff in H as [H _].
  apply andb_true_iff in H as [H1 H2].
  split; [exact H1|].
  apply negb_true_iff in H2. now apply streq_neq.
Qed.

Lemma outOf_length_unrooted (stack : list str) :
  okStack false stack = true ->
  (length (outOf false stack) = 0 <-> stack = []).
Proof.
  destruct stack as [|e below]; simpl; [tauto|].
  intros H. split; [|discriminate].
  apply andb_true_iff in H as [H _].
  apply andb_true_iff in H as [H _].
  destruct e; [discriminate|].
  simpl. rewrite !length_app. simpl. lia.
Qed.

Lemma outOf_length_rooted (stack : list str) :
  okStack true stack = true ->
  1 <= length (outOf true stack) /\
  (length (outOf true stack) = 1 <-> stack = []).
Proof.
  induction stack as [|e below IH]; [simpl; intuition lia|].
  intros H. pose proof (okStack_head _ _ _ H) as [He _].
  specialize (IH (okStack_tail _ _ _ H)).
  rewrite outOf_cons, !length_app, length_rev.
  destruct e; [discriminate|]. simpl length.
  split; [lia|]. split; [|discriminate]. lia.
Qed.

Lemma dotdotOf_le (rooted : bool) (stack : list str) :
  okStack rooted stack = true ->
  dotdotOf rooted stack <= length (outOf rooted stack).
Proof.
  induction stack as [|e below IH]; intros H.
  - destruct rooted; simpl; lia.
  - specialize (IH (okStack_tail _ _ _ H)).
    rewrite dotdotOf_cons. destruct (streq e ".."); [lia|].
    rewrite outOf_cons, !length_app. lia.
Qed.

(** The top of the stack can be backtracked over exactly when it is not
    [..]. *)
Lemma dotdotOf_lt (rooted : bool) (stack : list str) :
  okStack rooted stack = true ->
  (dotdotOf rooted stack <? length (outOf rooted stack)) =
  match stack with
  | [] => false
  | e :: _ => negb (streq e "..")
  end.
Proof.
  destruct stack as [|e below]; intros H.
  - destruct rooted; reflexivity.
  - pose proof (dotdotOf_le _ _ (okStack_tail _ _ _ H)) as Hle.
    pose proof (okStack_head _ _ _ H) as [He _].
    rewrite dotdotOf_cons. destruct (streq e ".."); cbn [negb].
    + apply Nat.ltb_irrefl.
    + apply Nat.ltb_lt.
      rewrite outOf_cons, !length_app, length_rev.
      destruct e; [discriminate|]. simpl. lia.
Qed.

Lemma forallb_rev (A : Type) (f : A -> bool) (l : list A) :
  forallb f (rev l) = forallb f l.
Proof.
  induction l as [|x l IH]; simpl; [reflexivity|].
  rewrite forallb_app, IH. simpl. rewrite andb_true_r. apply andb_comm.
Qed.

Lemma backtrack_sep (r out : str) (dotdot : nat) :
  forallb (fun c => negb (isSlash c)) r = true ->
  dotdot <= length out ->
  backtrack (r ++ "/"%char :: out) dotdot = out.
Proof.
  intros Hr Hd.
  induction r as [|c r IH]; simpl.
  - rewrite andb_false_r. reflexivity.
  - simpl in Hr. apply andb_true_iff in Hr as [Hc Hr].
    rewrite Hc, andb_true_r.
    replace (dotdot <? length (r ++ "/"%char :: out)) with true.
    + apply IH, Hr.
    + symmetry; apply Nat.ltb_lt. rewrite length_app. simpl. lia.
Qed.

Lemma backtrack_stop (r out : str) :
  r <> [] ->
  forallb (fun c => negb (isSlash c)) r = true ->
  backtrack (r ++ out) (length out) = out.
Proof.
  intros Hne Hr.
  induction r as [|c r IH]; simpl; [congruence|].
  simpl in Hr. apply andb_true_iff in Hr as [Hc Hr].
  rewrite Hc, andb_true_r.
  destruct r as [|c' r].
  - simpl. now rewrite Nat.ltb_irrefl.
  - replace (length out <? length ((c' :: r) ++ out)) with true.
    + apply IH; [discriminate|exact Hr].
    + symmetry; apply Nat.ltb_lt. rewrite length_app. simpl. lia.
Qed.

Lemma rev_nonempty (A : Type) (l : list A) : l <> [] -> rev l <> [].
Proof.
  destruct l as [|x l]; [congruence|]. simpl. intros _ H.
  now destruct (rev l).
Qed.

Lemma backtrack_top (rooted : bool) (e : str) (below : list str) :
  okStack rooted (e :: below) = true ->
  streq e ".." = false ->
  backtrack (outOf rooted (e :: below)) (dotdotOf rooted (e :: below))
  = outOf rooted below.
Proof.
  intros H Hdd.
  pose proof (okStack_head _ _ _ H) as [He _].
  pose proof (okStack_tail _ _ _ H) as Hb.
  assert (Hns : forallb (fun c => negb (isSlash c)) e = true)
    by (destruct e; [discriminate|exact He]).
  rewrite dotdotOf_cons. rewrite Hdd. rewrite outOf_cons.
  destruct below as [|e' below'].
  - simpl app.
    destruct rooted; simpl.
    + apply (backtrack_stop (rev e) ["/"%char]);
        [apply rev_nonempty; now destruct e|now rewrite forallb_rev].
    + apply (backtrack_stop (rev e) []);
        [apply rev_nonempty; now destruct e|now rewrite forallb_rev].
  - simpl app. apply backtrack_sep; [now rewrite forallb_rev|].
    apply dotdotOf_le, Hb.
Qed.

(** *** The loop computes [reduce] *)

Lemma takeElem_not_dot (c : ascii) (p1 : str) :
  isSlash c = false ->
  isDot c && endsElem p1 = false ->
  streq (takeElem (c :: p1)) "." = false.
Proof.
  intros Hs Hd. simpl takeElem. rewrite Hs. simpl.
  fold (isDot c). destruct (isDot c); simpl in *; [|reflexivity].
  destruct p1 as [|c1 p1]; simpl in *; [discriminate|].
  rewrite Hd. reflexivity.
Qed.

Lemma takeElem_not_dotdot (c : ascii) (p1 : str) :
  isSlash c = false ->
  isDot c && match p1 with
             | c1 :: p2 => isDot c1 && endsElem p2
             | [] => false
             end = false ->
  streq (takeElem (c :: p1)) ".." = false.
Proof.
  intros Hs Hd. simpl takeElem. rewrite Hs. simpl.
  fold (isDot c). destruct (isDot c); simpl in *; [|reflexivity].
  destruct p1 as [|c1 p1]; simpl in *; [reflexivity|].
  destruct (isSlash c1) eqn:E1; simpl; [reflexivity|].
  fold (isDot c1). destruct (isDot c1); simpl in *; [|reflexivity].
  destruct p1 as [|c2 p2]; simpl in *; [discriminate|].
  rewrite Hd. reflexivity.
Qed.

Lemma okStack_push (rooted : bool) (e : str) (stack : list str) :
  okStack rooted stack = true ->
  isElem e = true -> streq e "." = false -> streq e ".." = false ->
  okStack rooted (e :: stack) = true.
Proof.
  intros H He H1 H2. simpl. now rewrite He, H1, H2.
Qed.

Lemma okStack_dotdot (stack : list str) :
  okStack false stack = true ->
  match stack with [] => true | e :: _ => streq e ".." end = true ->
  okStack false (".." :: stack) = true
  /\ forallb (fun x => streq x "..") stack = true.
Proof.
  intros H Htop.
  assert (Hall : forallb (fun x => streq x "..") stack = true).
  { destruct stack as [|e below]; [reflexivity|].
    simpl in *. rewrite Htop in *. simpl.
    apply andb_true_iff in H as [_ H]. exact H. }
  split; [|exact Hall].
  change (okStack false (".." :: stack))
    with (forallb (fun x => streq x "..") stack).
  exact Hall.
Qed.

Lemma cleanLoop_reduce (fuel : nat) :
  forall (rooted : bool) (p : str) (stack : list str),
    length p <= fuel ->
    okStack rooted stack = true ->
    cleanLoop fuel rooted p (outOf rooted stack) (dotdotOf rooted stack)
    = outOf rooted (reduce rooted (elems p) stack)
    /\ okStack rooted (reduce rooted (elems p) stack) = true.
Proof.
  induction fuel as [|fuel IH]; intros rooted p stack Hlen Hok.
  - destruct p; [|simpl in Hlen; lia]. simpl. auto.
  - destruct p as [|c p1]; [simpl; auto|].
    simpl in Hlen. simpl cleanLoop.
    destruct (isSlash c) eqn:Ec.
    { apply isSlash_eq in Ec; subst c. rewrite elems_slash.
      apply IH; [lia|exact Hok]. }
    destruct (isDot c && endsElem p1) eqn:Edot.
    { apply andb_true_iff in Edot as [Ed Ee].
      apply isDot_eq in Ed; subst c.
      rewrite elems_take_drop. simpl takeElem. simpl dropElem.
      rewrite (takeElem_of_ends _ Ee), (dropElem_of_ends _ Ee).
      simpl reduce. apply IH; [lia|exact Hok]. }
    destruct (isDot c && match p1 with
                         | c1 :: p2 => isDot c1 && endsElem p2
                         | [] => false
                         end) eqn:Edd.
    { apply andb_true_iff in Edd as [Ed E2].
      apply isDot_eq in Ed; subst c.
      destruct p1 as [|c1 p2]; [discriminate|].
      apply andb_true_iff in E2 as [Ed1 Ee].
      apply isDot_eq in Ed1; subst c1.
      simpl tl.
      assert (Hel : elems ("."%char :: "."%char :: p2) = ".." :: elems p2).
      { rewrite elems_take_drop. simpl takeElem. simpl dropElem.
        rewrite (takeElem_of_ends _ Ee), (dropElem_of_ends _ Ee).
        reflexivity. }
      rewrite Hel. simpl in Hlen.
      rewrite (dotdotOf_lt _ _ Hok).
      destruct stack as [|top below].
      - (* nothing to backtrack over *)
        destruct rooted; simpl negb; cbv iota.
        + simpl reduce. apply (IH true p2 []); [lia|reflexivity].
        + simpl reduce. apply (IH false p2 [".."]); [lia|reflexivity].
      - destruct (streq top "..") eqn:Etop; simpl negb; cbv iota.
        + (* the stack is all [..]: unrooted, push another *)
          assert (Hr : rooted = false).
          { simpl in Hok. rewrite Etop in Hok.
            destruct rooted; [|reflexivity].
            rewrite !andb_false_r in Hok; discriminate. }
          subst rooted. simpl negb. cbv iota.
          destruct (okStack_dotdot (top :: below) Hok Etop) as [Hok' _].
          assert (Hpos : (0 <? length (outOf false (top :: below))) = true).
          { apply Nat.ltb_lt.
            pose proof (outOf_length_unrooted _ Hok) as [Hz _].
            destruct (length (outOf false (top :: below))); [|lia].
            specialize (Hz eq_refl); discriminate. }
          rewrite Hpos.
          change (reduce false (".." :: elems p2) (top :: below))
            with (if streq top ".."
                  then reduce false (elems p2) (".." :: top :: below)
                  else reduce false (elems p2) below).
          rewrite Etop.
          specialize (IH false p2 (".." :: top :: below)).
          change (outOf false (".." :: top :: below))
            with ("."%char :: "."%char :: "/"%char :: outOf false (top :: below)) in IH.
          change (dotdotOf false (".." :: top :: below))
            with (length ("."%char :: "."%char :: "/"%char :: outOf false (top :: below))) in IH.
          apply IH; [lia|exact Hok'].
        + (* backtrack over the top element *)
          pose proof Etop as Etop'.
          rewrite (backtrack_top _ _ _ Hok Etop').
          change (reduce rooted (".." :: elems p2) (top :: below))
            with (if streq top ".."
                  then reduce rooted (elems p2) (".." :: top :: below)
                  else reduce rooted (elems p2) below).
          rewrite Etop'.
          replace (dotdotOf rooted (top :: below)) with (dotdotOf rooted below)
            by (rewrite dotdotOf_cons; now rewrite Etop').
          apply IH; [lia|]. apply (okStack_tail _ _ _ Hok). }
    (* a real element *)
    pose proof (takeElem_not_dot c p1 Ec Edot) as Hnd.
    pose proof (takeElem_not_dotdot c p1 Ec Edd) as Hndd.
    rewrite copyElem_spec.
    set (e := takeElem (c :: p1)) in *.
    set (rest := dropElem (c :: p1)) in *.
    assert (He : isElem e = true).
    { pose proof (takeElem_noslash (c :: p1)) as Hns. fold e in Hns.
      subst e. simpl in *. rewrite Ec in *. exact Hns. }
    assert (Hel : elems (c :: p1) = e :: elems rest).
    { rewrite elems_take_drop. fold e. fold rest.
      destruct e; [discriminate|reflexivity]. }
    rewrite Hel.
    change (reduce rooted (e :: elems rest) stack)
      with (if streq e "." then reduce rooted (elems rest) stack
            else if streq e ".." then
              match stack with
              | top :: below =>
                if streq top ".." then reduce rooted (elems rest) (e :: stack)
                else reduce rooted (elems rest) below
              | [] => if rooted then reduce rooted (elems rest) []
                      else reduce rooted (elems rest) [e]
              end
            else reduce rooted (elems rest) (e :: stack)).
    rewrite Hnd, Hndd.
    assert (Hout :
      rev e ++ (if (rooted && negb (length (outOf rooted stack) =? 1))
                   || (negb rooted && negb (length (outOf rooted stack) =? 0))
                then "/"%char :: outOf rooted stack else outOf rooted stack)
      = outOf rooted (e :: stack)).
    { rewrite outOf_cons. f_equal.
      destruct rooted; simpl.
      - pose proof (outOf_length_rooted _ Hok) as [_ Hz].
        rewrite orb_false_r.
        destruct stack as [|top below].
        + reflexivity.
        + destruct (Nat.eqb_spec (length (outOf true (top :: below))) 1) as [E|E];
            [apply Hz in E; discriminate|reflexivity].
      - pose proof (outOf_length_unrooted _ Hok) as Hz.
        destruct stack as [|top below].
        + reflexivity.
        + destruct (Nat.eqb_spec (length (outOf false (top :: below))) 0) as [E|E];
            [apply Hz in E; discriminate|reflexivity]. }
    assert (Ee : e = c :: takeElem p1) by (subst e; simpl; now rewrite Ec).
    assert (Er : dropElem p1 = rest) by (subst rest; simpl; now rewrite Ec).
    assert (Hlr : length rest <= length p1)
      by (rewrite <- Er; apply dropElem_length).
    clearbody e rest.
    rewrite Er.
    rewrite Ee in Hout at 1. simpl rev in Hout.
    rewrite <- app_assoc in Hout. simpl app in Hout.
    rewrite Hout.
    replace (dotdotOf rooted stack) with (dotdotOf rooted (e :: stack))
      by (rewrite dotdotOf_cons; now rewrite Hndd).
    apply IH.
    + lia.
    + apply okStack_push; assumption.
Qed.

(** *** [Clean] in terms of elements *)

Lemma joinElems_snoc (l : list str) (e : str) :
  joinElems (l ++ [e]) =
  match l with
  | [] => e
  | _ :: _ => joinElems l ++ "/"%char :: e
  end.
Proof.
  induction l as [|x l IH]; [reflexivity|].
  destruct l as [|y l]; [reflexivity|].
  change (joinElems ((x :: y :: l) ++ [e]))
    with (x ++ "/"%char :: joinElems ((y :: l) ++ [e])).
  rewrite IH.
  change (joinElems (x :: y :: l)) with (x ++ "/"%char :: joinElems (y :: l)).
  now rewrite <- app_assoc.
Qed.

Lemma rev_outOf (rooted : bool) (stack : list str) :
  rev (outOf rooted stack) =
  (if rooted then ["/"%char] else []) ++ joinElems (rev stack).
Proof.
  induction stack as [|e below IH].
  - destruct rooted; reflexivity.
  - rewrite outOf_cons, !rev_app_distr, rev_involutive, IH.
    simpl (rev (e :: below)). rewrite joinElems_snoc.
    destruct below as [|e' below'].
    + simpl. rewrite !app_nil_r. reflexivity.
    + destruct (rev (e' :: below')) eqn:E.
      * apply (f_equal (@length str)) in E. rewrite length_rev in E. discriminate.
      * simpl (rev ["/"%char]). rewrite <- !app_assoc. reflexivity.
Qed.

Lemma outOf_nonempty (rooted : bool) (stack : list str) :
  okStack rooted stack = true ->
  outOf rooted stack = [] -> rooted = false /\ stack = [].
Proof.
  intros Hok E. destruct rooted.
  - pose proof (outOf_length_rooted _ Hok) as [H _]. rewrite E in H. simpl in H. lia.
  - split; [reflexivity|]. apply (outOf_length_unrooted _ Hok). now rewrite E.
Qed.

Lemma render_outOf (rooted : bool) (stack : list str) :
  okStack rooted stack = true ->
  match outOf rooted stack with
  | [] => "."
  | _ :: _ => rev (outOf rooted stack)
  end = render rooted stack.
Proof.
  intros Hok. unfold render.
  destruct (outOf rooted stack) eqn:E.
  - destruct (outOf_nonempty _ _ Hok E) as [-> ->]. reflexivity.
  - rewrite <- E, rev_outOf. destruct rooted; [reflexivity|].
    destruct stack; [discriminate|reflexivity].
Qed.

Lemma IsAbs_cons (c : ascii) (p : str) : IsAbs (c :: p) = isSlash c.
Proof. unfold IsAbs, isSlash. simpl. apply andb_true_r. Qed.

(** [Clean] keeps exactly the elements [reduce] keeps. *)
Lemma Clean_spec (p : str) :
  Clean p = render (IsAbs p) (stackOf p)
  /\ okStack (IsAbs p) (stackOf p) = true.
Proof.
  destruct p as [|c p1]; [split; reflexivity|].
  unfold Clean, stackOf. rewrite IsAbs_cons.
  destruct (isSlash c) eqn:Ec.
  - apply isSlash_eq in Ec; subst c. rewrite elems_slash.
    destruct (cleanLoop_reduce (length ("/"%char :: p1)) true p1 [] ) as [E Hok];
      [simpl; lia|reflexivity|].
    change (outOf true []) with ["/"%char] in E.
    change (dotdotOf true []) with 1 in E.
    rewrite E. split; [apply render_outOf, Hok|exact Hok].
  - destruct (cleanLoop_reduce (length (c :: p1)) false (c :: p1) []) as [E Hok];
      [simpl; lia|reflexivity|].
    change (outOf false []) with (@nil ascii) in E.
    change (dotdotOf false []) with 0 in E.
    rewrite E. split; [apply render_outOf, Hok|exact Hok].
Qed.

(** The fuel given to the loop is never exhausted: more fuel changes
    nothing. *)
Lemma cleanLoop_fuel (fuel : nat) (rooted : bool) (p : str) (stack : list str) :
  length p <= fuel ->
  okStack rooted stack = true ->
  cleanLoop fuel rooted p (outOf rooted stack) (dotdotOf rooted stack)
  = cleanLoop (length p) rooted p (outOf rooted stack) (dotdotOf rooted stack).
Proof.
  intros Hlen Hok.
  destruct (cleanLoop_reduce fuel rooted p stack Hlen Hok) as [-> _].
  destruct (cleanLoop_reduce (length p) rooted p stack (le_n _) Hok) as [-> _].
  reflexivity.
Qed.

(** *** Elements of joined strings *)

Lemma splitElems_app_slash (cur a b : str) :
  splitElems cur (a ++ "/"%char :: b) = splitElems cur a ++ elems b.
Proof.
  revert cur; induction a as [|c a IH]; intros cur; simpl.
  - destruct cur; reflexivity.
  - destruct (isSlash c); [|apply IH].
    destruct cur; simpl; now rewrite IH.
Qed.

Lemma elems_app_slash (a b : str) :
  elems (a ++ "/"%char :: b) = elems a ++ elems b.
Proof. apply splitElems_app_slash. Qed.

Lemma elems_slash_end (a : str) : elems (a ++ ["/"%char]) = elems a.
Proof. rewrite elems_app_slash. apply app_nil_r. Qed.

Lemma takeElem_elem (e : str) :
  forallb (fun c => negb (isSlash c)) e = true ->
  takeElem e = e /\ dropElem e = [].
Proof.
  induction e as [|c e IH]; simpl; [auto|].
  intros H. apply andb_true_iff in H as [Hc He].
  apply negb_true_iff in Hc. rewrite Hc.
  destruct (IH He) as [-> ->]. auto.
Qed.

Lemma isElem_noslash (e : str) :
  isElem e = true -> forallb (fun c => negb (isSlash c)) e = true.
Proof. destruct e; [discriminate|auto]. Qed.

Lemma elems_elem (e : str) : isElem e = true -> elems e = [e].
Proof.
  intros He. rewrite elems_take_drop.
  destruct (takeElem_elem e (isElem_noslash _ He)) as [-> ->].
  destruct e; [discriminate|reflexivity].
Qed.

Lemma elems_joinElems (es : list str) :
  forallb isElem es = true -> elems (joinElems es) = es.
Proof.
  induction es as [|e es IH]; [reflexivity|].
  simpl forallb. intros H. apply andb_true_iff in H as [He Hes].
  destruct es as [|e' es']; [apply elems_elem, He|].
  change (joinElems (e :: e' :: es')) with (e ++ "/"%char :: joinElems (e' :: es')).
  rewrite elems_app_slash, (elems_elem _ He), (IH Hes). reflexivity.
Qed.

(** *** [reduce] on ordinary elements *)

Lemma reduce_app (rooted : bool) (a b stack : list str) :
  reduce rooted (a ++ b) stack = reduce rooted b (reduce rooted a stack).
Proof.
  revert stack; induction a as [|e a IH]; intros stack; [reflexivity|].
  simpl. destruct (streq e "."); [apply IH|].
  destruct (streq e ".."); [|apply IH].
  destruct stack as [|top below]; [destruct rooted; apply IH|].
  destruct (streq top ".."); apply IH.
Qed.

Lemma isName_elem (e : str) : isName e = true -> isElem e = true.
Proof.
  unfold isName. intros H.
  apply andb_true_iff in H as [H _]. apply andb_true_iff in H as [H _]. exact H.
Qed.

Lemma isName_inv (e : str) :
  isName e = true ->
  isElem e = true /\ streq e "." = false /\ streq e ".." = false.
Proof.
  unfold isName. intros H.
  apply andb_true_iff in H as [H H2]. apply andb_true_iff in H as [H0 H1].
  apply negb_true_iff in H1, H2. auto.
Qed.

Lemma reduce_names (rooted : bool) (es stack : list str) :
  forallb isName es = true ->
  reduce rooted es stack = rev es ++ stack.
Proof.
  revert stack; induction es as [|e es IH]; intros stack H; [reflexivity|].
  simpl in H. apply andb_true_iff in H as [He Hes].
  destruct (isName_inv _ He) as (_ & H1 & H2).
  simpl. rewrite H1, H2, (IH _ Hes), <- app_assoc. reflexivity.
Qed.

Lemma reduce_dotdots (ds stack : list str) :
  forallb (fun x => streq x "..") ds = true ->
  forallb (fun x => streq x "..") stack = true ->
  reduce false ds stack = rev ds ++ stack.
Proof.
  revert stack; induction ds as [|d ds IH]; intros stack Hd Hs; [reflexivity|].
  simpl in Hd. apply andb_true_iff in Hd as [Hd Hds].
  apply streq_eq in Hd; subst d.
  simpl rev. rewrite <- app_assoc. simpl app.
  rewrite <- (IH (".." :: stack) Hds); [|simpl; exact Hs].
  simpl. destruct stack as [|top below]; [reflexivity|].
  simpl in Hs. apply andb_true_iff in Hs as [Ht _]. now rewrite Ht.
Qed.

(** An admissible stack is ordinary elements above a run of [..], the run
    being empty for a rooted path. *)
Lemma okStack_split (rooted : bool) (stack : list str) :
  okStack rooted stack = true ->
  exists names dds,
    stack = names ++ dds
    /\ forallb isName names = true
    /\ forallb (fun x => streq x "..") dds = true
    /\ (rooted = true -> dds = []).
Proof.
  induction stack as [|e below IH]; intros H.
  - exists [], []. auto.
  - pose proof (okStack_head _ _ _ H) as [He Hnd].
    pose proof H as H'. simpl in H'.
    apply andb_true_iff in H' as [H1 H2].
    apply andb_true_iff in H1 as [_ H1]. apply negb_true_iff in H1.
    destruct (streq e "..") eqn:Edd.
    + apply andb_true_iff in H2 as [Hr Hall].
      exists [], (e :: below). simpl. rewrite Edd, Hall.
      repeat split; auto. intros ->; discriminate.
    + destruct (IH H2) as (names & dds & -> & Hn & Hd & Hr).
      exists (e :: names), dds. simpl.
      unfold isName at 1. rewrite He, H1, Edd, Hn. auto.
Qed.

Lemma okStack_elems (rooted : bool) (stack : list str) :
  okStack rooted stack = true -> forallb isElem stack = true.
Proof.
  induction stack as [|e below IH]; intros H; [reflexivity|].
  simpl. destruct (okStack_head _ _ _ H) as [-> _].
  apply IH, (okStack_tail _ _ _ H).
Qed.

Lemma reduce_stack (rooted : bool) (stack : list str) :
  okStack rooted stack = true ->
  reduce rooted (rev stack) [] = stack.
Proof.
  intros H. destruct (okStack_split _ _ H) as (names & dds & -> & Hn & Hd & Hr).
  rewrite rev_app_distr, reduce_app.
  assert (E : reduce rooted (rev dds) [] = dds).
  { destruct rooted.
    - rewrite (Hr eq_refl). reflexivity.
    - rewrite reduce_dotdots; [now rewrite rev_involutive, app_nil_r| |reflexivity].
      now rewrite forallb_rev. }
  rewrite E, reduce_names; [now rewrite rev_involutive|].
  now rewrite forallb_rev.
Qed.

Lemma elems_render (rooted : bool) (stack : list str) :
  okStack rooted stack = true ->
  reduce rooted (elems (render rooted stack)) [] = stack.
Proof.
  intros H. pose proof (okStack_elems _ _ H) as He.
  unfold render. destruct rooted.
  - rewrite elems_slash, elems_joinElems; [apply reduce_stack, H|].
    now rewrite forallb_rev.
  - destruct stack as [|e below]; [reflexivity|].
    rewrite elems_joinElems; [apply reduce_stack, H|].
    now rewrite forallb_rev.
Qed.

Lemma joinElems_head (es : list str) (c : ascii) (s : str) :
  forallb isElem es = true ->
  joinElems es = c :: s -> isSlash c = false.
Proof.
  destruct es as [|e es]; [discriminate|].
  simpl forallb. intros H E. apply andb_true_iff in H as [He _].
  destruct e as [|c0 e]; [discriminate|].
  assert (c0 = c) by (destruct es; simpl in E; congruence). subst c0.
  simpl in He. apply andb_true_iff in He as [Hc _].
  now apply negb_true_iff in Hc.
Qed.

Lemma IsAbs_render (rooted : bool) (stack : list str) :
  okStack rooted stack = true ->
  IsAbs (render rooted stack) = rooted.
Proof.
  intros H. unfold render. destruct rooted; [reflexivity|].
  destruct stack as [|e below]; [reflexivity|].
  destruct (joinElems (rev (e :: below))) as [|c s] eqn:E; [reflexivity|].
  rewrite IsAbs_cons.
  apply (joinElems_head (rev (e :: below)) c s); [|exact E].
  rewrite forallb_rev. apply (okStack_elems _ _ H).
Qed.

Lemma stackOf_render (rooted : bool) (stack : list str) :
  okStack rooted stack = true ->
  stackOf (render rooted stack) = stack.
Proof.
  intros H. unfold stackOf. rewrite (IsAbs_render _ _ H).
  apply elems_render, H.
Qed.

Lemma Clean_render (rooted : bool) (stack : list str) :
  okStack rooted stack = true ->
  Clean (render rooted stack) = render rooted stack.
Proof.
  intros H. destruct (Clean_spec (render rooted stack)) as [-> _].
  now rewrite (IsAbs_render _ _ H), (stackOf_render _ _ H).
Qed.

(** [Clean] is idempotent, as the library documents. *)
Lemma Clean_idem (p : str) : Clean (Clean p) = Clean p.
Proof.
  destruct (Clean_spec p) as [-> Hok]. apply Clean_render, Hok.
Qed.

Lemma IsAbs_Clean (p : str) : IsAbs (Clean p) = IsAbs p.
Proof.
  destruct (Clean_spec p) as [-> Hok]. apply IsAbs_render, Hok.
Qed.

Lemma stackOf_Clean (p : str) : stackOf (Clean p) = stackOf p.
Proof.
  destruct (Clean_spec p) as [-> Hok]. apply stackOf_render, Hok.
Qed.


(** *** Joining a cleaned relative name to a directory *)

Lemma render_nonempty (rooted : bool) (stack : list str) :
  okStack rooted stack = true -> render rooted stack <> [].
Proof.
  intros H. unfold render. destruct rooted; [discriminate|].
  destruct stack as [|e below]; [discriminate|].
  intros E. pose proof (rev_outOf false (e :: below)) as R.
  rewrite E in R.
  apply (f_equal (@length ascii)) in R. rewrite length_rev in R.
  pose proof (outOf_length_unrooted _ H) as [Hz _].
  specialize (Hz R). discriminate.
Qed.

Lemma Clean_nonempty (p : str) : Clean p <> [].
Proof.
  destruct (Clean_spec p) as [-> Hok]. apply render_nonempty, Hok.
Qed.

Lemma joinElems_dotdot (es : list str) :
  strings.HasPrefix (joinElems (".." :: es)) ".." = true.
Proof. destruct es; reflexivity. Qed.

(** A cleaned relative path that does not start with two dots holds
    ordinary elements only. *)
Lemma unrooted_names (stack : list str) :
  okStack false stack = true ->
  strings.HasPrefix (render false stack) ".." = false ->
  forallb isName stack = true.
Proof.
  intros H Hp.
  destruct (okStack_split _ _ H) as (names & dds & -> & Hn & Hd & _).
  destruct dds as [|d dds]; [now rewrite app_nil_r|exfalso].
  unfold render in Hp.
  destruct (names ++ d :: dds) eqn:E; [now destruct names|]. rewrite <- E in Hp.
  rewrite rev_app_distr in Hp.
  assert (Hrev : exists t, rev (d :: dds) = ".." :: t).
  { assert (Hall : forallb (fun x => streq x "..") (rev (d :: dds)) = true)
      by now rewrite forallb_rev.
    destruct (rev (d :: dds)) as [|x t] eqn:Er.
    - apply (f_equal (@length str)) in Er. rewrite length_rev in Er. discriminate.
    - simpl in Hall. apply andb_true_iff in Hall as [Hx _].
      apply streq_eq in Hx; subst. eauto. }
  destruct Hrev as [t Ht]. rewrite Ht in Hp. simpl app in Hp.
  rewrite joinElems_dotdot in Hp. discriminate.
Qed.

Lemma IsAbs_app (a b : str) : a <> [] -> IsAbs (a ++ b) = IsAbs a.
Proof. destruct a; [congruence|]. intros _. simpl. now rewrite !IsAbs_cons. Qed.

Lemma elems_Clean_unrooted (name : str) :
  IsAbs name = false ->
  reduce false (elems (Clean name)) [] = stackOf name
  /\ forall rooted base,
       strings.HasPrefix (Clean name) ".." = false ->
       reduce rooted (elems (Clean name)) base = stackOf name ++ base.
Proof.
  intros Ha. destruct (Clean_spec name) as [E Hok]. rewrite Ha in E, Hok.
  split.
  - rewrite E. apply elems_render, Hok.
  - intros rooted base Hp. rewrite E in *.
    pose proof (unrooted_names _ Hok Hp) as Hn.
    unfold render. destruct (stackOf name) as [|e below] eqn:Es; [reflexivity|].
    rewrite elems_joinElems.
    + rewrite reduce_names by now rewrite forallb_rev.
      now rewrite rev_involutive.
    + rewrite forallb_rev. apply (okStack_elems _ _ Hok).
Qed.

(** The kept elements of [Join dir (Clean name)] are those of [dir]
    followed by those of [name]. *)
Lemma stackOf_Join (dir name : str) :
  dir <> [] ->
  IsAbs (Clean name) = false ->
  strings.HasPrefix (Clean name) ".." = false ->
  stackOf (Join dir (Clean name)) = stackOf name ++ stackOf dir
  /\ IsAbs (Join dir (Clean name)) = IsAbs dir
  /\ forallb isName (stackOf name) = true.
Proof.
  intros Hd Ha Hp.
  assert (Ha' : IsAbs name = false) by now rewrite <- IsAbs_Clean.
  destruct (Clean_spec name) as [E Hok]. rewrite Ha' in E, Hok.
  assert (Hn : forallb isName (stackOf name) = true)
    by (apply unrooted_names; [exact Hok|now rewrite <- E]).
  unfold Join. destruct dir as [|c dir]; [congruence|].
  rewrite stackOf_Clean, IsAbs_Clean.
  change ((c :: dir) ++ "/" ++ Clean name) with ((c :: dir) ++ "/"%char :: Clean name).
  split; [|split; [apply IsAbs_app; discriminate|exact Hn]].
  unfold stackOf at 1. rewrite IsAbs_app by discriminate.
  rewrite elems_app_slash, reduce_app.
  apply (proj2 (elems_Clean_unrooted name Ha')), Hp.
Qed.

Lemma isPrefixOf_app (a b : list str) : isPrefixOf a (a ++ b) = true.
Proof.
  induction a as [|x a IH]; [reflexivity|]. simpl. now rewrite streq_refl.
Qed.

(** An entry whose cleaned name is relative and does not start with two
    dots lands lexically within the target. *)
Lemma within_Join (dir name : str) :
  IsAbs (Clean name) = false ->
  strings.HasPrefix (Clean name) ".." = false ->
  within dir (Join dir (Clean name)) = true.
Proof.
  intros Ha Hp. unfold within.
  destruct dir as [|c dir].
  - assert (Ha' : IsAbs name = false) by now rewrite <- IsAbs_Clean.
    assert (EJ : Join [] (Clean name) = Clean name).
    { unfold Join. destruct (Clean name) eqn:E; [now apply Clean_nonempty in E|].
      rewrite <- E. apply Clean_idem. }
    rewrite EJ, Ha. change (stackOf []) with (@nil str). simpl.
    rewrite forallb_rev, stackOf_Clean.
    destruct (Clean_spec name) as [E Hok]. rewrite Ha' in E, Hok.
    apply unrooted_names; [exact Hok|now rewrite <- E].
  - destruct (stackOf_Join (c :: dir) name) as (Es & Ea & Hn);
      [discriminate|exact Ha|exact Hp|].
    rewrite Es, Ea, eqb_reflx, rev_app_distr, isPrefixOf_app.
    rewrite skipn_app, <- length_rev, skipn_all, Nat.sub_diag.
    simpl. now rewrite forallb_rev.
Qed.


End PathFacts.

(** [Clean] on the cases of the library's own test table. *)
Example Clean_library_cases :
  map (fun t => streq (path.Clean (fst t)) (snd t))
    [ ([], "."); ("abc", "abc"); ("abc/def", "abc/def"); ("a/b/c", "a/b/c");
      (".", "."); ("..", ".."); ("../..", "../.."); ("../../abc", "../../abc");
      ("/abc", "/abc"); ("/", "/");
      ("abc/", "abc"); ("abc/def/", "abc/def"); ("a/b/c/", "a/b/c");
      ("./", "."); ("../", ".."); ("../../", "../.."); ("/abc/", "/abc");
      ("abc//def//ghi", "abc/def/ghi"); ("//abc", "/abc"); ("///abc", "/abc");
      ("//abc//", "/abc"); ("abc//", "abc");
      ("abc/./def", "abc/def"); ("/./abc/def", "/abc/def"); ("abc/.", "abc");
      ("abc/def/ghi/../jkl", "abc/def/jkl");
      ("abc/def/../ghi/../jkl", "abc/jkl");
      ("abc/def/..", "abc"); ("abc/def/../..", "."); ("/abc/def/../..", "/");
      ("abc/def/../../..", ".."); ("/abc/def/../../..", "/");
      ("abc/def/../../../ghi/jkl/../../../mno", "../../mno");
      ("abc/./../def", "def"); ("abc//./../def", "def");
      ("abc/../../././../def", "../../def") ]
  = repeat true 36.
Proof. vm_compute. reflexivity. Qed.

Example Join_Dir_cases :
  path.Join "/app/atom" ".valence-atom-version" = "/app/atom/.valence-atom-version"
  /\ path.Join "/app/atom" "web/../index.php" = "/app/atom/index.php"
  /\ path.Join "/app/atom" "." = "/app/atom"
  /\ path.Join "/" "css/main.css" = "/css/main.css"
  /\ path.Join [] "a" = "a"
  /\ path.Dir "/app/atom/index.php" = "/app/atom"
  /\ path.Dir "/app" = "/"
  /\ path.Dir "index.php" = "."
  /\ path.within "/app/atom" "/app/atom/web/css" = true
  /\ path.within "/app/atom" "/app/other" = false
  /\ path.within "/app/atom" "/etc/passwd" = false.
Proof. repeat split. Qed.


(** ** The matcher against the meaning of patterns *)

Module RegexpFacts.
Import regexp.

Lemma nullable_mid_sound (r : re) (rest : str) :
  nullable false r = true -> matches r [] rest.
Proof.
  induction r; simpl; intros H; try discriminate.
  - constructor.
  - apply andb_true_iff in H as [H1 H2].
    apply (MSeq r1 r2 [] [] rest); auto.
  - apply orb_true_iff in H as [H|H]; [apply MAltL|apply MAltR]; auto.
  - constructor.
Qed.

Lemma nullable_end_sound (r : re) :
  nullable true r = true -> matches r [] [].
Proof.
  induction r; simpl; intros H; try discriminate.
  - constructor.
  - constructor.
  - apply andb_true_iff in H as [H1 H2].
    apply (MSeq r1 r2 [] [] []); auto.
  - apply orb_true_iff in H as [H|H]; [apply MAltL|apply MAltR]; auto.
  - constructor.
Qed.

Lemma deriv_sound (c : ascii) (r : re) :
  forall s rest, matches (deriv c r) s rest -> matches r (c :: s) rest.
Proof.
  induction r; simpl; intros s rest H.
  - inversion H.
  - inversion H.
  - destruct (Ascii.eqb_spec c c0) as [->|]; inversion H; subst. constructor.
  - destruct (Ascii.eqb_spec c newline); inversion H; subst. now constructor.
  - inversion H.
  - destruct (nullable false r1) eqn:En.
    + inversion H; subst.
      * match goal with
        | Hs : matches (Seq _ _) _ _ |- _ => inversion Hs; subst
        end.
        change (c :: s1 ++ s2) with ((c :: s1) ++ s2).
        apply MSeq; auto.
      * change (c :: s) with ([] ++ c :: s).
        apply MSeq; [apply nullable_mid_sound, En|auto].
    + inversion H; subst.
      change (c :: s1 ++ s2) with ((c :: s1) ++ s2).
      apply MSeq; auto.
  - inversion H; subst; [apply MAltL|apply MAltR]; auto.
  - inversion H; subst.
    change (c :: s1 ++ s2) with ((c :: s1) ++ s2).
    apply MStarS; auto.
Qed.

(** What the matcher accepts, the pattern matches: a prefix of the text,
    with [$] holding at the end of the text only. *)
Lemma matchPrefix_sound (s : str) :
  forall r, matchPrefix r s = true ->
  exists s1 s2, s = s1 ++ s2 /\ matches r s1 s2.
Proof.
  induction s as [|c s IH]; simpl; intros r H.
  - exists [], []. split; [reflexivity|]. apply nullable_end_sound, H.
  - apply orb_true_iff in H as [H|H].
    + exists [], (c :: s). split; [reflexivity|]. apply nullable_mid_sound, H.
    + destruct (IH _ H) as (s1 & s2 & -> & Hm).
      exists (c :: s1), s2. split; [reflexivity|]. apply deriv_sound, Hm.
Qed.

Lemma nullable_complete (r : re) (rest : str) :
  matches r [] rest ->
  nullable (match rest with [] => true | _ :: _ => false end) r = true.
Proof.
  intros H. remember [] as s eqn:Es. revert Es.
  induction H; intros Es; simpl; try discriminate; try reflexivity.
  - apply app_eq_nil in Es as [-> ->]. simpl in *.
    rewrite IHmatches2 by reflexivity.
    destruct rest; rewrite IHmatches1; reflexivity.
  - rewrite IHmatches by assumption. reflexivity.
  - rewrite IHmatches by assumption. apply orb_true_r.
Qed.

Lemma deriv_complete (r : re) (s0 rest : str) :
  matches r s0 rest ->
  forall c s, s0 = c :: s -> matches (deriv c r) s rest.
Proof.
  induction 1; intros c0 s0' Es; simpl; try discriminate.
  - injection Es as -> <-. rewrite Ascii.eqb_refl. constructor.
  - injection Es as -> <-.
    destruct (Ascii.eqb_spec c0 newline); [contradiction|constructor].
  - destruct s1 as [|c1 s1].
    + simpl in Es; subst s2.
      pose proof (nullable_complete _ _ H) as Hn. simpl in Hn.
      rewrite Hn. apply MAltR. apply IHmatches2. reflexivity.
    + injection Es as -> <-.
      specialize (IHmatches1 _ _ eq_refl).
      destruct (nullable false a); [apply MAltL|]; apply MSeq; auto.
  - apply MAltL; auto.
  - apply MAltR; auto.
  - injection Es as -> <-. apply MSeq; auto.
Qed.

(** And what the pattern matches, the matcher accepts. *)
Lemma matchPrefix_complete (r : re) (s1 s2 : str) :
  matches r s1 s2 -> matchPrefix r (s1 ++ s2) = true.
Proof.
  revert r; induction s1 as [|c s1 IH]; intros r H.
  - simpl. pose proof (nullable_complete _ _ H) as Hn.
    destruct s2 as [|c s2]; simpl; [exact Hn|]. now rewrite Hn.
  - simpl. rewrite (IH (deriv c r)); [apply orb_true_r|].
    apply (deriv_complete r (c :: s1) s2 H c s1 eq_refl).
Qed.

Theorem MatchString_spec (r : re) (s : str) :
  MatchString r s = true <-> exists s1 s2, s = s1 ++ s2 /\ matches r s1 s2.
Proof.
  split.
  - apply matchPrefix_sound.
  - intros (s1 & s2 & -> & H). now apply matchPrefix_complete.
Qed.

(** *** Literals and what a match starts with *)

Lemma matches_Lit (w s rest : str) : matches (Lit w) s rest -> s = w.
Proof.
  revert s; induction w as [|c w IH]; simpl; intros s H.
  - now inversion H.
  - inversion H; subst.
    match goal with Hc : matches (Chr _) _ _ |- _ => inversion Hc; subst end.
    simpl. f_equal. eauto.
Qed.

Lemma matches_Lit_refl (w rest : str) : matches (Lit w) w rest.
Proof.
  revert rest; induction w as [|c w IH]; intros rest; simpl.
  - constructor.
  - change (c :: w) with ([c] ++ w). apply MSeq; [constructor|apply IH].
Qed.

Lemma matches_OneOf (rs : list re) (s rest : str) :
  matches (OneOf rs) s rest -> exists r, In r rs /\ matches r s rest.
Proof.
  induction rs as [|r rs IH]; simpl; intros H; inversion H; subst.
  - eauto.
  - destruct (IH H4) as (r' & Hin & Hm). eauto.
Qed.

Lemma matches_Seq_inv (a b : re) (s rest : str) :
  matches (Seq a b) s rest ->
  exists s1 s2, s = s1 ++ s2 /\ matches a s1 (s2 ++ rest) /\ matches b s2 rest.
Proof. intros H. inversion H; subst. eauto. Qed.

(** A match of [w r] starts with [w]. *)
Lemma matches_Lit_Seq (w : str) (r : re) (s rest : str) :
  matches (Seq (Lit w) r) s rest -> strings.HasPrefix s w = true.
Proof.
  intros H. apply matches_Seq_inv in H as (s1 & s2 & -> & Hl & _).
  apply matches_Lit in Hl; subst.
  apply StringsFacts.HasPrefix_app.
Qed.

Lemma HasPrefix_app_l (s t w : str) :
  strings.HasPrefix s w = true -> strings.HasPrefix (s ++ t) w = true.
Proof.
  intros H. apply StringsFacts.HasPrefix_iff in H as [u ->].
  rewrite <- app_assoc. apply StringsFacts.HasPrefix_app.
Qed.

Lemma MatchString_Lit_Seq (w : str) (r : re) (s : str) :
  MatchString (Seq (Lit w) r) s = true -> strings.HasPrefix s w = true.
Proof.
  intros H. apply matchPrefix_sound in H as (s1 & s2 & -> & Hm).
  apply HasPrefix_app_l. apply (matches_Lit_Seq w r s1 s2 Hm).
Qed.

Lemma MatchString_Lit (w s : str) :
  MatchString (Lit w) s = true -> strings.HasPrefix s w = true.
Proof.
  intros H. apply matchPrefix_sound in H as (s1 & s2 & -> & Hm).
  apply matches_Lit in Hm; subst. apply StringsFacts.HasPrefix_app.
Qed.

(** A match of [/(w1|...|wn) r] starts with [/wi] for some [i]. *)
Lemma MatchString_slash_OneOf (ws : list str) (r : re) (s : str) :
  MatchString (Seq (Lit "/") (Seq (OneOf (map Lit ws)) r)) s = true ->
  exists w, In w ws /\ strings.HasPrefix s ("/" ++ w) = true.
Proof.
  intros H. apply matchPrefix_sound in H as (s1 & s2 & -> & Hm).
  apply matches_Seq_inv in Hm as (a1 & a2 & -> & Hl & Hm).
  apply matches_Lit in Hl; subst.
  apply matches_Seq_inv in Hm as (b1 & b2 & -> & Ho & _).
  apply matches_OneOf in Ho as (r' & Hin & Hr').
  apply in_map_iff in Hin as (w & <- & Hw).
  apply matches_Lit in Hr'; subst.
  exists w. split; [exact Hw|].
  apply HasPrefix_app_l.
  rewrite app_assoc. apply StringsFacts.HasPrefix_app.
Qed.

End RegexpFacts.

Example MatchString_cases :
  regexp.MatchString valence.staticAssetRe "/css/main.css" = true
  /\ regexp.MatchString valence.staticAssetRe "/css/main.css.bak" = false
  /\ regexp.MatchString valence.staticAssetRe "/private/images/x.png" = false
  /\ regexp.MatchString valence.downloadAssetRe "/downloads/guide.pdf" = true
  /\ regexp.MatchString valence.publicFileRe "/sitemap.xml" = true
  /\ regexp.MatchString valence.publicFileRe "/robots.txt/" = false
  /\ regexp.MatchString valence.uploadsConfRe "/uploads/r/repo/conf/app.yml" = true
  /\ regexp.MatchString valence.uploadsAssetRe "/uploads/r/repo/a.jpg" = true
  /\ regexp.MatchString valence.privatePathRe "/private/images/x.png" = true
  /\ regexp.MatchString valence.phpEntryRe "/index.php/browse" = true
  /\ regexp.MatchString valence.phpEntryRe "/index.phpx" = false.
Proof. repeat split. Qed.


(** ** The path normaliser *)

Module NormalizerFacts.
Import strings path valence PathFacts StringsFacts.

Lemma okStack_rooted_names (stack : list str) :
  okStack true stack = true -> forallb isName stack = true.
Proof.
  intros H. destruct (okStack_split _ _ H) as (names & dds & -> & Hn & _ & Hr).
  rewrite (Hr eq_refl), app_nil_r. exact Hn.
Qed.

Lemma Clean_rooted (p : str) :
  exists es, forallb isName es = true
             /\ Clean ("/"%char :: p) = "/"%char :: joinElems es.
Proof.
  destruct (Clean_spec ("/"%char :: p)) as [E Hok].
  rewrite IsAbs_cons in E, Hok. simpl isSlash in E, Hok.
  exists (rev (stackOf ("/"%char :: p))). split; [|exact E].
  rewrite forallb_rev. apply okStack_rooted_names, Hok.
Qed.

Lemma cleanPath_normal (p : str) : normal (cleanPath p).
Proof.
  unfold cleanPath. change ("/" ++ p) with ("/"%char :: p).
  destruct (Contains (Clean ("/"%char :: p)) "..") eqn:E.
  - exists []. repeat split.
  - destruct (Clean_rooted p) as (es & Hes & Hc).
    exists es. rewrite <- Hc. auto.
Qed.

Lemma names_elems (es : list str) :
  forallb isName es = true -> forallb isElem es = true.
Proof.
  induction es as [|e es IH]; simpl; [reflexivity|].
  intros H. apply andb_true_iff in H as [He Hes].
  now rewrite (isName_elem _ He), IH.
Qed.

(** A normal path is a fixed point of [cleanPath]. *)
Lemma cleanPath_fixed (q : str) : normal q -> cleanPath q = q.
Proof.
  intros (es & Hes & -> & Hc).
  unfold cleanPath.
  change ("/" ++ "/"%char :: joinElems es) with ("/"%char :: "/"%char :: joinElems es).
  assert (E : Clean ("/"%char :: "/"%char :: joinElems es) = "/"%char :: joinElems es).
  { destruct (Clean_spec ("/"%char :: "/"%char :: joinElems es)) as [-> _].
    unfold stackOf. rewrite IsAbs_cons. simpl isSlash. cbv iota.
    rewrite !elems_slash, elems_joinElems by (apply names_elems, Hes).
    rewrite reduce_names by exact Hes.
    unfold render. now rewrite app_nil_r, rev_involutive. }
  rewrite E, Hc. reflexivity.
Qed.

Lemma cleanPath_idempotent (p : str) : cleanPath (cleanPath p) = cleanPath p.
Proof. apply cleanPath_fixed, cleanPath_normal. Qed.

(** *** Stripping a front-controller prefix from a normal path *)

(** If an element followed by a separator or nothing starts with [w/],
    where [w] holds no separator, the element is [w] and a separator
    follows. *)
Lemma elem_prefix (w e t : str) :
  forallb (fun c => negb (isSlash c)) e = true ->
  forallb (fun c => negb (isSlash c)) w = true ->
  endsElem t = true ->
  HasPrefix (e ++ t) (w ++ "/") = true ->
  e = w /\ exists t', t = "/"%char :: t'.
Proof.
  revert e; induction w as [|c w IH]; intros e He Hw Ht H.
  - destruct e as [|d e].
    + split; [reflexivity|]. destruct t as [|x t]; [discriminate|].
      simpl in H. apply andb_true_iff in H as [Hx _].
      apply Ascii.eqb_eq in Hx; subst. eauto.
    + simpl in H, He. apply andb_true_iff in H as [Hd _].
      apply andb_true_iff in He as [Hs _].
      unfold isSlash in Hs. rewrite Hd in Hs. discriminate.
  - simpl in Hw. apply andb_true_iff in Hw as [Hc Hw].
    destruct e as [|d e].
    + destruct t as [|x t]; [discriminate|]. simpl in H, Ht.
      apply andb_true_iff in H as [Hx _].
      apply Ascii.eqb_eq in Hx; subst x. rewrite Ht in Hc. discriminate.
    + simpl in H, He. apply andb_true_iff in H as [Hd H].
      apply andb_true_iff in He as [_ He].
      apply Ascii.eqb_eq in Hd; subst d.
      destruct (IH e He Hw Ht H) as [-> Ht']. auto.
Qed.

Lemma joinElems_cons (e : str) (es : list str) :
  joinElems (e :: es) =
  e ++ match es with [] => [] | _ :: _ => "/"%char :: joinElems es end.
Proof. destruct es; simpl; [now rewrite app_nil_r|reflexivity]. Qed.

Lemma HasPrefix_cons (c : ascii) (s p : str) :
  HasPrefix (c :: s) (c :: p) = HasPrefix s p.
Proof. simpl. now rewrite Ascii.eqb_refl. Qed.

(** Dropping the first element of a normal path leaves a normal path. *)
Lemma normal_strip (w q : str) :
  forallb (fun c => negb (isSlash c)) w = true ->
  normal q ->
  HasPrefix q ("/"%char :: w ++ "/") = true ->
  normal ("/" ++ TrimPrefix q ("/"%char :: w ++ "/")).
Proof.
  intros Hw (es & Hes & -> & Hc) Hp.
  unfold TrimPrefix. rewrite Hp.
  rewrite HasPrefix_cons in Hp.
  destruct es as [|e es]; [destruct w; discriminate|].
  simpl in Hes. apply andb_true_iff in Hes as [He Hes].
  rewrite joinElems_cons in Hp.
  assert (Hends : endsElem (match es with
                            | [] => []
                            | _ :: _ => "/"%char :: joinElems es
                            end) = true) by (destruct es; reflexivity).
  destruct (elem_prefix w e _ (isElem_noslash _ (isName_elem _ He)) Hw Hends Hp)
    as [-> [t' Ht']].
  destruct es as [|e' es']; [discriminate|].
  injection Ht' as <-.
  assert (Hskip : skipn (length ("/"%char :: w ++ "/"))
                    ("/"%char :: joinElems (w :: e' :: es'))
                  = joinElems (e' :: es')).
  { assert (Eq : "/"%char :: joinElems (w :: e' :: es')
                 = ("/"%char :: w ++ "/") ++ joinElems (e' :: es')).
    { rewrite joinElems_cons. simpl. now rewrite <- app_assoc. }
    rewrite Eq, skipn_app, skipn_all, Nat.sub_diag. reflexivity. }
  rewrite Hskip.
  exists (e' :: es'). repeat split; [exact Hes|].
  rewrite joinElems_cons in Hc.
  change ("/" ++ joinElems (e' :: es')) with ("/"%char :: joinElems (e' :: es')).
  apply (Contains_app_r ("/"%char :: w)).
  exact Hc.
Qed.

Lemma normal_root : normal "/".
Proof. exists []. repeat split. Qed.

Lemma strip_step_normal (q : str) :
  normal q -> normal (rewriteWith stripLegacyFrontController q).
Proof.
  intros Hq. unfold rewriteWith, stripLegacyFrontController.
  destruct (HasPrefix q "/index.php/") eqn:E1.
  { pose proof (normal_strip "index.php" q eq_refl Hq E1) as Hn.
    destruct ("/" ++ TrimPrefix q "/index.php/") eqn:E;
      [discriminate|rewrite <- E; exact Hn]. }
  destruct (HasPrefix q "/qubit_dev.php/") eqn:E2.
  { pose proof (normal_strip "qubit_dev.php" q eq_refl Hq E2) as Hn.
    destruct ("/" ++ TrimPrefix q "/qubit_dev.php/") eqn:E;
      [discriminate|rewrite <- E; exact Hn]. }
  destruct (streq q "/index.php" || streq q "/qubit_dev.php");
    [apply normal_root|exact Hq].
Qed.

Lemma alias_step_normal (q : str) :
  normal q -> normal (rewriteWith rewriteStoragePath q).
Proof.
  intros Hq. unfold rewriteWith, rewriteStoragePath.
  destruct (streq q "/storage/location/list"); [|exact Hq].
  exists ["storage"; "list"]. repeat split.
Qed.

Lemma normalizePath_normal (p : str) : normal (normalizePath p).
Proof.
  unfold normalizePath.
  apply alias_step_normal, strip_step_normal, cleanPath_normal.
Qed.

Lemma alias_step_idempotent (q : str) :
  rewriteWith rewriteStoragePath (rewriteWith rewriteStoragePath q)
  = rewriteWith rewriteStoragePath q.
Proof.
  unfold rewriteWith, rewriteStoragePath.
  destruct (streq q "/storage/location/list") eqn:E; [reflexivity|].
  now rewrite E.
Qed.

(** The alias step never fires on its own output. *)
Lemma alias_step_quiet (q : str) :
  rewriteStoragePath (rewriteWith rewriteStoragePath q) = [].
Proof.
  unfold rewriteWith, rewriteStoragePath.
  destruct (streq q "/storage/location/list") eqn:E; [reflexivity|].
  now rewrite E.
Qed.

Lemma rewriteWith_quiet (f : str -> str) (q : str) :
  f q = [] -> rewriteWith f q = q.
Proof. unfold rewriteWith. now intros ->. Qed.

(** What one pass of stripping yields is shorter than its input, or [/]. *)
Lemma strip_shorter (q : str) :
  stripLegacyFrontController q <> [] ->
  length (stripLegacyFrontController q) < length q.
Proof.
  unfold stripLegacyFrontController, TrimPrefix.
  destruct (HasPrefix q "/index.php/") eqn:E1.
  { intros _. apply HasPrefix_split in E1. rewrite E1 at 2.
    simpl. lia. }
  destruct (HasPrefix q "/qubit_dev.php/") eqn:E2.
  { intros _. apply HasPrefix_split in E2. rewrite E2 at 2.
    simpl. lia. }
  destruct (streq q "/index.php") eqn:E3.
  { intros _. apply streq_eq in E3; subst. simpl. lia. }
  destruct (streq q "/qubit_dev.php") eqn:E4.
  { intros _. apply streq_eq in E4; subst. simpl. lia. }
  simpl. congruence.
Qed.

End NormalizerFacts.

(** C4.  For every request path, with [..] segments or without,
    [cleanPath] returns a path that starts with [/] and holds no [..]
    anywhere; it is a total function, and when the lexically cleaned path
    still holds two dots in a row it returns [/]. *)
Theorem cleanPath_rooted_without_dotdot (p : str) :
  strings.HasPrefix (valence.cleanPath p) "/" = true
  /\ strings.Contains (valence.cleanPath p) ".." = false
  /\ (strings.Contains (path.Clean ("/" ++ p)) ".." = true ->
      valence.cleanPath p = "/").
Proof.
  destruct (NormalizerFacts.cleanPath_normal p) as (es & _ & E & Hc).
  repeat split.
  - rewrite E. reflexivity.
  - exact Hc.
  - unfold valence.cleanPath. now intros ->.
Qed.

Example cleanPath_examples :
  valence.cleanPath "/a/../../etc/passwd" = "/etc/passwd"
  /\ valence.cleanPath "../../x" = "/x"
  /\ valence.cleanPath "/a/b..c/d" = "/"
  /\ valence.cleanPath [] = "/".
Proof. repeat split. Qed.

(** C2, as the specification states it, fails: a path that carries the
    legacy entry point twice is stripped once per pass, so a second pass of
    the stripping step, and of the whole pipeline, changes it again. *)
Lemma normalizePath_twice_differs :
  valence.normalizePath (valence.normalizePath "/index.php/index.php/foo")
  <> valence.normalizePath "/index.php/index.php/foo"
  /\ valence.rewriteWith valence.stripLegacyFrontController
       (valence.rewriteWith valence.stripLegacyFrontController
          "/index.php/index.php/foo")
     <> valence.rewriteWith valence.stripLegacyFrontController
          "/index.php/index.php/foo".
Proof. split; vm_compute; discriminate. Qed.

(** C2, amended.  [cleanPath] and the alias step are idempotent on every
    path.  The stripping step removes one leading entry-point name per
    pass: it, and the pipeline as a whole, leave their own output unchanged
    exactly when that output does not start with a legacy entry-point name
    again. *)
Theorem normalizePath_idempotent_iff (p : str) :
  valence.cleanPath (valence.cleanPath p) = valence.cleanPath p
  /\ valence.rewriteWith valence.rewriteStoragePath
       (valence.rewriteWith valence.rewriteStoragePath p)
     = valence.rewriteWith valence.rewriteStoragePath p
  /\ (valence.rewriteWith valence.stripLegacyFrontController
        (valence.rewriteWith valence.stripLegacyFrontController p)
      = valence.rewriteWith valence.stripLegacyFrontController p
      <-> valence.stripLegacyFrontController
            (valence.rewriteWith valence.stripLegacyFrontController p) = [])
  /\ (valence.normalizePath (valence.normalizePath p) = valence.normalizePath p
      <-> valence.stripLegacyFrontController (valence.normalizePath p) = []).
Proof.
  split; [apply NormalizerFacts.cleanPath_idempotent|].
  split; [apply NormalizerFacts.alias_step_idempotent|].
  split.
  - set (q := valence.rewriteWith valence.stripLegacyFrontController p).
    split.
    + intros E.
      destruct (valence.stripLegacyFrontController q) as [|c t] eqn:Es;
        [reflexivity|].
      assert (Hne : valence.stripLegacyFrontController q <> [])
        by (rewrite Es; discriminate).
      apply NormalizerFacts.strip_shorter in Hne.
      unfold valence.rewriteWith in E at 1. rewrite Es in E, Hne.
      rewrite E in Hne. lia.
    + apply NormalizerFacts.rewriteWith_quiet.
  - set (n := valence.normalizePath p).
    assert (Hn : valence.normal n)
      by apply NormalizerFacts.normalizePath_normal.
    assert (Ha : valence.rewriteStoragePath n = [])
      by apply NormalizerFacts.alias_step_quiet.
    unfold valence.normalizePath at 1.
    rewrite (NormalizerFacts.cleanPath_fixed n Hn).
    split.
    + intros E.
      destruct (valence.stripLegacyFrontController n) as [|c t] eqn:Es;
        [reflexivity|].
      assert (Hne : valence.stripLegacyFrontController n <> [])
        by (rewrite Es; discriminate).
      apply NormalizerFacts.strip_shorter in Hne.
      unfold valence.rewriteWith in E at 2. rewrite Es in E, Hne.
      assert (Hle : length (valence.rewriteWith valence.rewriteStoragePath (c :: t))
                    <= length (c :: t)).
      { unfold valence.rewriteWith, valence.rewriteStoragePath.
        destruct (streq (c :: t) "/storage/location/list") eqn:Eq; [|lia].
        apply streq_eq in Eq. rewrite Eq. simpl. lia. }
      rewrite E in Hle. lia.
    + intros Es.
      rewrite (NormalizerFacts.rewriteWith_quiet _ _ Es).
      apply NormalizerFacts.rewriteWith_quiet, Ha.
Qed.

Lemma normalizePath_idempotent_witness :
  valence.normalizePath
    (valence.normalizePath "/index.php/informationobject/browse")
  = valence.normalizePath "/index.php/informationobject/browse".
Proof.
  apply (proj2 (proj2 (proj2 (proj2
           (normalizePath_idempotent_iff "/index.php/informationobject/browse"))))).
  reflexivity.
Defined.

(** ** The routing decision *)

Module RoutingFacts.
Import strings regexp valence RegexpFacts StringsFacts.

Lemma HasPrefix_compat (s a b : str) :
  HasPrefix s a = true -> HasPrefix s b = true ->
  HasPrefix a b || HasPrefix b a = true.
Proof.
  revert s b; induction a as [|x a IH]; intros s b Ha Hb.
  - destruct b; reflexivity.
  - destruct b as [|y b]; [reflexivity|].
    destruct s as [|c s]; [discriminate|].
    simpl in Ha, Hb.
    apply andb_true_iff in Ha as [Hx Ha]. apply andb_true_iff in Hb as [Hy Hb].
    apply Ascii.eqb_eq in Hx, Hy; subst x y.
    simpl. rewrite Ascii.eqb_refl. simpl. eauto.
Qed.

Lemma public_prefix (s : str) :
  MatchString publicFileRe s = true ->
  exists w, In w ["/ead.dtd"; "/favicon.ico"; "/robots.txt"; "/sitemap"]
            /\ HasPrefix s w = true.
Proof.
  intros H. apply matchPrefix_sound in H as (s1 & s2 & -> & Hm).
  apply matches_Seq_inv in Hm as (a1 & a2 & -> & Hl & Hm).
  apply matches_Lit in Hl; subst.
  apply matches_Seq_inv in Hm as (b1 & b2 & -> & Ho & _).
  apply matches_OneOf in Ho as (r' & Hin & Hr').
  assert (Hw : exists w, In w ["ead.dtd"; "favicon.ico"; "robots.txt"; "sitemap"]
                         /\ HasPrefix b1 w = true).
  { simpl in Hin. destruct Hin as [<-|[<-|[<-|[<-|[]]]]].
    - apply (matches_Lit "ead.dtd") in Hr'; subst.
      exists "ead.dtd". simpl; auto 6.
    - apply (matches_Lit "favicon.ico") in Hr'; subst.
      exists "favicon.ico". simpl; auto 6.
    - apply (matches_Lit "robots.txt") in Hr'; subst.
      exists "robots.txt". simpl; auto 6.
    - apply (matches_Lit_Seq "sitemap" (Star AnyNotNL)) in Hr'.
      exists "sitemap". simpl; auto 6. }
  destruct Hw as (w & Hw & Hp).
  exists ("/" ++ w). split.
  - simpl in Hw. destruct Hw as [<-|[<-|[<-|[<-|[]]]]]; simpl; auto 6.
  - apply HasPrefix_app_l.
    change ("/" ++ b1 ++ b2) with ("/"%char :: b1 ++ b2).
    change ("/" ++ w) with ("/"%char :: w).
    simpl. apply HasPrefix_app_l, Hp.
Qed.

(** Every static-family path starts with one of the family prefixes. *)
Lemma static_prefix (s : str) :
  matchesStatic s = true ->
  exists w, In w ["/css"; "/dist"; "/js"; "/images"; "/plugins"; "/vendor";
                  "/downloads";
                  "/ead.dtd"; "/favicon.ico"; "/robots.txt"; "/sitemap"]
            /\ HasPrefix s w = true.
Proof.
  unfold matchesStatic.
  destruct (MatchString staticAssetRe s) eqn:E1.
  { intros _. apply MatchString_slash_OneOf in E1 as (w & Hw & Hp).
    exists ("/" ++ w). split; [|exact Hp].
    simpl in Hw. destruct Hw as [<-|[<-|[<-|[<-|[<-|[<-|[]]]]]]]; simpl; auto 12. }
  destruct (MatchString downloadAssetRe s) eqn:E2.
  { intros _. unfold downloadAssetRe, cat in E2.
    apply (MatchString_slash_OneOf ["downloads"]) in E2 as (w & Hw & Hp).
    exists ("/" ++ w). split; [|exact Hp].
    simpl in Hw. destruct Hw as [<-|[]]; simpl; auto 12. }
  intros E3. apply public_prefix in E3 as (w & Hw & Hp).
  exists w. split; [|exact Hp].
  simpl in Hw. destruct Hw as [<-|[<-|[<-|[<-|[]]]]]; simpl; auto 12.
Qed.

(** Every path the first three rules catch starts with one of theirs. *)
Lemma denied_prefix (s : str) :
  MatchString privatePathRe s || MatchString uploadsConfRe s
  || MatchString phpEntryRe s = true ->
  exists w, In w ["/private/"; "/uploads/r/"; "/index"; "/qubit_dev"]
            /\ HasPrefix s w = true.
Proof.
  intros H. apply orb_true_iff in H as [H|H];
    [apply orb_true_iff in H as [H|H]|].
  - apply MatchString_Lit in H. exists "/private/". simpl; auto.
  - apply MatchString_Lit_Seq in H. exists "/uploads/r/". simpl; auto.
  - unfold phpEntryRe, cat in H.
    apply (MatchString_slash_OneOf ["index"; "qubit_dev"]) in H as (w & Hw & Hp).
    exists ("/" ++ w). split; [|exact Hp].
    simpl in Hw. destruct Hw as [<-|[<-|[]]]; simpl; auto.
Qed.

(** The static families and the first three rules share no path. *)
Lemma static_not_denied (s : str) :
  matchesStatic s = true ->
  MatchString privatePathRe s = false
  /\ MatchString uploadsConfRe s = false
  /\ MatchString phpEntryRe s = false.
Proof.
  intros Hs.
  destruct (MatchString privatePathRe s || MatchString uploadsConfRe s
            || MatchString phpEntryRe s) eqn:E.
  - exfalso.
    apply static_prefix in Hs as (w & Hw & Hp).
    apply denied_prefix in E as (w' & Hw' & Hp').
    pose proof (HasPrefix_compat s w w' Hp Hp') as Hc.
    simpl in Hw, Hw'.
    repeat match goal with
           | H : _ \/ _ |- _ => destruct H as [<-|H]
           | H : False |- _ => destruct H
           end; vm_compute in Hc; discriminate.
  - apply orb_false_iff in E as [E E3]. apply orb_false_iff in E as [E1 E2].
    auto.
Qed.

Section WithOS.
Context {W : Type} `{OS W}.

Lemma firstRegular_step (w : W) (c : str) (rest : list str) :
  firstRegular w (c :: rest) =
  if regular w c then (c, true) else firstRegular w rest.
Proof.
  unfold regular. simpl.
  destruct (os_Stat w c) as [info|e]; [|reflexivity].
  now destruct (IsDir info).
Qed.

Lemma firstRegular_none (w : W) (cs : list str) :
  forallb (fun c => negb (regular w c)) cs = true ->
  firstRegular w cs = ([], false).
Proof.
  induction cs as [|c cs IH]; [reflexivity|].
  simpl forallb. intros Hc. apply andb_true_iff in Hc as [Hc Hcs].
  rewrite firstRegular_step. apply negb_true_iff in Hc. rewrite Hc. auto.
Qed.

Lemma firstRegular_found (w : W) (cs : list str) (c : str) :
  firstRegular w cs = (c, true) <->
  exists before after,
    cs = before ++ c :: after
    /\ forallb (fun c' => negb (regular w c')) before = true
    /\ regular w c = true.
Proof.
  induction cs as [|c0 cs IH].
  - split; [discriminate|]. intros (b & a & E & _). now destruct b.
  - rewrite firstRegular_step. destruct (regular w c0) eqn:E0.
    + split.
      * intros [= <-]. exists [], cs. auto.
      * intros (b & a & E & Hb & Hc).
        destruct b as [|b0 b]; [now injection E as -> _|].
        injection E as -> _. simpl in Hb. rewrite E0 in Hb. discriminate.
    + rewrite IH. split.
      * intros (b & a & -> & Hb & Hc). exists (c0 :: b), a.
        simpl. now rewrite E0.
      * intros (b & a & E & Hb & Hc).
        destruct b as [|b0 b].
        -- injection E as -> _. congruence.
        -- injection E as -> ->. simpl in Hb.
           apply andb_true_iff in Hb as [_ Hb]. eauto.
Qed.

End WithOS.

End RoutingFacts.

(** C3.  A path of a static-asset family that no candidate root holds as a
    regular file is answered [static_missing] by the not-found handler
    (404): the rules after the static one are not reached and the request
    is not forwarded to the front controller. *)
Theorem static_missing_is_not_found {W : Type} `{OS W}
    (w : W) (h : valence.atomHandler) (r : valence.Request) (reqPath : str) :
  valence.matchesStatic reqPath = true ->
  snd (valence.staticAssetPath w h reqPath) = false ->
  valence.decideRoute w h r reqPath
  = {| valence.label := "static_missing";
       valence.route := valence.NotFoundHandler |}
  /\ valence.fixedStatus (valence.route (valence.decideRoute w h r reqPath))
     = Some 404%Z.
Proof.
  intros Hs Hmiss.
  destruct (RoutingFacts.static_not_denied reqPath Hs) as (E1 & E2 & E3).
  assert (E : valence.decideRoute w h r reqPath
              = {| valence.label := "static_missing";
                   valence.route := valence.NotFoundHandler |}).
  { unfold valence.decideRoute. rewrite E1, E2, E3, Hs.
    destruct (valence.staticAssetPath w h reqPath) as [a ok].
    simpl in Hmiss. now subst ok. }
  rewrite E. split; reflexivity.
Qed.

Lemma static_missing_witness :
  valence.decideRoute sample.foreign sample.handlerAtom
    (sample.get "/css/main.css") "/css/main.css"
  = {| valence.label := "static_missing";
       valence.route := valence.NotFoundHandler |}
  /\ valence.fixedStatus
       (valence.route
          (valence.decideRoute sample.foreign sample.handlerAtom
             (sample.get "/css/main.css") "/css/main.css"))
     = Some 404%Z.
Proof.
  apply (static_missing_is_not_found sample.foreign sample.handlerAtom
           (sample.get "/css/main.css") "/css/main.css");
    vm_compute; reflexivity.
Defined.

(** C9.  [staticAssetPath] tries its candidates in order, the overlay
    root first and only for a path of the downloadable-document family
    (and only when an overlay root is configured), then the application
    root, and returns the first candidate that [os.Stat] finds and that is
    not a directory.  So a downloadable document present under both roots
    is served from the overlay, and a path whose candidates are all
    missing or directories is not found. *)
Theorem staticAssetPath_priority {W : Type} `{OS W}
    (w : W) (h : valence.atomHandler) (p : str) :
  let rel := strings.TrimPrefix p "/" in
  let overlay := path.Join (valence.h_atomDataDir h) rel in
  let primary := path.Join (valence.h_phpRoot h) rel in
  (regexp.MatchString valence.downloadAssetRe p = false ->
   valence.staticCandidates h p = [primary])
  /\ (valence.h_atomDataDir h <> [] ->
      regexp.MatchString valence.downloadAssetRe p = true ->
      valence.staticCandidates h p = [overlay; primary])
  /\ (forall c,
        valence.staticAssetPath w h p = (c, true) <->
        exists before after,
          valence.staticCandidates h p = before ++ c :: after
          /\ forallb (fun c' => negb (valence.regular w c')) before = true
          /\ valence.regular w c = true)
  /\ (valence.h_atomDataDir h <> [] ->
      regexp.MatchString valence.downloadAssetRe p = true ->
      valence.regular w overlay = true ->
      valence.regular w primary = true ->
      valence.staticAssetPath w h p = (overlay, true))
  /\ ((forall c, In c (valence.staticCandidates h p) ->
                 exists info, os_Stat w c = Ok info /\ IsDir info = true) ->
      valence.staticAssetPath w h p = ([], false))
  /\ (forallb (fun c => negb (valence.regular w c))
        (valence.staticCandidates h p) = true ->
      valence.staticAssetPath w h p = ([], false)).
Proof.
  intros rel overlay primary.
  assert (Hdl : valence.h_atomDataDir h <> [] ->
                regexp.MatchString valence.downloadAssetRe p = true ->
                valence.staticCandidates h p = [overlay; primary]).
  { intros Hd Hm. unfold valence.staticCandidates. rewrite Hm.
    destruct (streq_spec (valence.h_atomDataDir h) []) as [E|_];
      [contradiction|reflexivity]. }
  repeat split.
  - intros Hm. unfold valence.staticCandidates. rewrite Hm, andb_false_r.
    reflexivity.
  - exact Hdl.
  - apply RoutingFacts.firstRegular_found.
  - apply RoutingFacts.firstRegular_found.
  - intros Hd Hm Ho _. unfold valence.staticAssetPath.
    rewrite (Hdl Hd Hm), RoutingFacts.firstRegular_step, Ho. reflexivity.
  - intros Hall. apply RoutingFacts.firstRegular_none.
    apply forallb_forall. intros c Hc.
    destruct (Hall c Hc) as (info & Hs & Hdir).
    unfold valence.regular. rewrite Hs, Hdir. reflexivity.
  - apply RoutingFacts.firstRegular_none.
Qed.

Example overlay_wins :
  valence.staticAssetPath sample.foreign sample.handlerAtom "/downloads/guide.pdf"
  = ("/data/downloads/guide.pdf", true)
  /\ valence.staticAssetPath sample.foreign sample.handlerAtom "/css"
     = ([], false).
Proof. split; vm_compute; reflexivity. Qed.

(** C10.  The decision is a function of the normalised path and of the
    file system: [decideRoute] gives the same decision whatever request it
    is handed, and two requests whose paths normalise to the same path get
    the same label, whatever their methods, headers and bodies. *)
Theorem route_label_request_independent {W : Type} `{OS W}
    (w : W) (h : valence.atomHandler) (r1 r2 : valence.Request) :
  valence.normalizePath (valence.URLPath r1)
  = valence.normalizePath (valence.URLPath r2) ->
  valence.label (snd (valence.ServeHTTP w h r1))
  = valence.label (snd (valence.ServeHTTP w h r2))
  /\ forall reqPath,
       valence.decideRoute w h r1 reqPath = valence.decideRoute w h r2 reqPath.
Proof.
  intros E. split; [|reflexivity].
  unfold valence.ServeHTTP. simpl. rewrite E. reflexivity.
Qed.

Lemma route_label_witness :
  valence.label
    (snd (valence.ServeHTTP sample.foreign sample.handlerAtom
            (sample.get "/index.php/informationobject/browse")))
  = valence.label
      (snd (valence.ServeHTTP sample.foreign sample.handlerAtom
              (sample.post "//informationobject/./browse"))).
Proof.
  apply (route_label_request_independent sample.foreign sample.handlerAtom
           (sample.get "/index.php/informationobject/browse")
           (sample.post "//informationobject/./browse")).
  vm_compute. reflexivity.
Defined.


(** ** The log of calls *)

Module TraceFacts.

Section WithWorld.
Context {W : Type}.

Lemma traced_ret (A : Type) (P : syscall -> Prop) (a : A) :
  traced P (ret (W := W) a).
Proof. intros s. exists []. simpl. now rewrite app_nil_r. Qed.

Lemma traced_query (A : Type) (P : syscall -> Prop) (f : W -> A) :
  traced P (query f).
Proof. intros s. exists []. simpl. now rewrite app_nil_r. Qed.

Lemma traced_perform (P : syscall -> Prop) (c : syscall)
    (f : W -> W * option error) :
  P c -> traced P (perform c f).
Proof.
  intros HP s. exists [c]. unfold perform.
  destruct (f (world s)) as [w' e]. simpl. auto.
Qed.

Lemma traced_bind (A B : Type) (P : syscall -> Prop)
    (m : M W A) (k : A -> M W B) :
  traced P m -> (forall a, traced P (k a)) -> traced P (bind m k).
Proof.
  intros Hm Hk s. unfold bind.
  destruct (Hm s) as (n1 & E1 & F1).
  destruct (m s) as [a s1]. simpl in E1.
  destruct (Hk a s1) as (n2 & E2 & F2).
  exists (n1 ++ n2). rewrite E2, E1, app_assoc. split; [reflexivity|].
  apply Forall_app. auto.
Qed.

Lemma traced_weaken (A : Type) (P Q : syscall -> Prop) (m : M W A) :
  (forall c, P c -> Q c) -> traced P m -> traced Q m.
Proof.
  intros HPQ Hm s. destruct (Hm s) as (new & E & F).
  exists new. split; [exact E|]. eapply Forall_impl; eauto.
Qed.

End WithWorld.

End TraceFacts.

(** ** The archive materialiser *)

Module AtomembedFacts.
Import strings path atomembed TraceFacts PathFacts.

Section WithOS.
Context {W : Type} `{OS W}.

Ltac traced_steps :=
  repeat first
    [ apply traced_ret
    | apply traced_query
    | apply traced_bind; [|intros ?]
    | match goal with
      | |- traced _ (match ?x with _ => _ end) => destruct x
      | |- traced _ (if ?x then _ else _) => destruct x
      end ].

Lemma contained_dir (target p : str) (perm : Z) :
  contained target (CallMkdirAll p perm).
Proof. intros q Hq. discriminate. Qed.

Lemma contained_close (target p : str) : contained target (CallClose p).
Proof. intros q Hq. discriminate. Qed.

(** [extractEntry] rejects an escaping entry before any call. *)
Lemma extractEntry_rejects (target : str) (e : Entry) (s : state W) :
  escapes e = true ->
  extractEntry target e s
  = (Some (errors.New "archive contains invalid path"), s).
Proof.
  unfold escapes, extractEntry. intros He.
  destruct (streq_spec (Name (hdr e)) []) as [E|_].
  - rewrite E in He. discriminate.
  - rewrite He. reflexivity.
Qed.

Lemma extractEntry_contained (target : str) (e : Entry) :
  traced (contained target) (extractEntry target e).
Proof.
  unfold extractEntry.
  destruct (streq (Name (hdr e)) []); [apply traced_ret|].
  destruct (HasPrefix (Clean (Name (hdr e))) ".." || IsAbs (Clean (Name (hdr e))))
    eqn:Ebad; [apply traced_ret|].
  apply orb_false_iff in Ebad as [Hp Ha].
  pose proof (within_Join target (Name (hdr e)) Ha Hp) as Hin.
  assert (Hc : forall c, writesFileAt c = Some (Join target (Clean (Name (hdr e))))
                         -> contained target c).
  { intros c Hc q Hq. rewrite Hc in Hq. now injection Hq as <-. }
  destruct (Typeflag (hdr e)); try apply traced_ret.
  - (* TypeReg *)
    unfold writeRegular. unfold MkdirAll, OpenFile, Write, Close.
    traced_steps; apply traced_perform;
      first [apply contained_dir|apply contained_close|now apply Hc].
  - (* TypeRegA *)
    unfold writeRegular. unfold MkdirAll, OpenFile, Write, Close.
    traced_steps; apply traced_perform;
      first [apply contained_dir|apply contained_close|now apply Hc].
  - (* TypeSymlink *)
    unfold MkdirAll, Symlink.
    traced_steps; apply traced_perform;
      first [apply contained_dir|now apply Hc].
  - (* TypeDir *)
    apply traced_perform, contained_dir.
Qed.

Lemma extractEntries_contained (target : str) (es : list Entry)
    (atEnd : option error) :
  traced (contained target) (extractEntries target es atEnd).
Proof.
  induction es as [|e es IH]; simpl; [apply traced_ret|].
  apply traced_bind; [apply extractEntry_contained|].
  intros [err|]; [apply traced_ret|exact IH].
Qed.

Lemma extractArchive_contained (a : Archive) (target : str) :
  traced (contained target) (extractArchive a target).
Proof.
  unfold extractArchive.
  destruct (negb (ArchiveAvailable a)); [apply traced_ret|].
  apply traced_bind; [apply traced_perform, contained_dir|].
  intros [err|]; [apply traced_ret|].
  destruct (gzipErr a); [apply traced_ret|apply extractEntries_contained].
Qed.

Lemma extractEntry_notWriteFile (target : str) (e : Entry) :
  traced notWriteFile (extractEntry target e).
Proof.
  unfold extractEntry, writeRegular, MkdirAll, OpenFile, Write, Close, Symlink.
  destruct (streq (Name (hdr e)) []); [apply traced_ret|].
  destruct (HasPrefix (Clean (Name (hdr e))) ".." || IsAbs (Clean (Name (hdr e))));
    [apply traced_ret|].
  destruct (Typeflag (hdr e)); try apply traced_ret;
    traced_steps; apply traced_perform; reflexivity.
Qed.

Lemma extractArchive_notWriteFile (a : Archive) (target : str) :
  traced notWriteFile (extractArchive a target).
Proof.
  unfold extractArchive.
  destruct (negb (ArchiveAvailable a)); [apply traced_ret|].
  apply traced_bind; [apply traced_perform; reflexivity|].
  intros [err|]; [apply traced_ret|].
  destruct (gzipErr a); [apply traced_ret|].
  induction (tarEntries a) as [|e es IH]; simpl; [apply traced_ret|].
  apply traced_bind; [apply extractEntry_notWriteFile|].
  intros [err|]; [apply traced_ret|exact IH].
Qed.

(** The loop stops at an escaping entry, or before it: it returns an
    error and ends in the state the entries before it lead to. *)
Lemma extractEntries_stops (target : str) (pre post : list Entry) (e : Entry)
    (atEnd : option error) (s : state W) :
  escapes e = true ->
  (exists err, fst (extractEntries target (pre ++ e :: post) atEnd s) = Some err)
  /\ snd (extractEntries target (pre ++ e :: post) atEnd s)
     = snd (extractEntries target pre None s).
Proof.
  intros He. revert s. induction pre as [|x pre IH]; intros s.
  - simpl. unfold bind. rewrite (extractEntry_rejects target e s He).
    simpl. eauto.
  - simpl. unfold bind.
    destruct (extractEntry target x s) as [[err|] s1]; simpl; [eauto|].
    apply IH.
Qed.

End WithOS.

End AtomembedFacts.

(** X26.  When the archive holds an entry whose cleaned name starts with
    [..] or is absolute, [extractArchive] returns an error; it issues no
    call for that entry or for any entry after it, ending in the state the
    entries before it lead to; and every path the extraction handed to a
    call that creates or writes a file or a link lies lexically within
    the target.  Where a link on that path leads is the file system's
    matter and is not looked at. *)
Theorem extractArchive_rejects_escaping_entry {W : Type} `{OS W}
    (a : atomembed.Archive) (target : str) (s : state W)
    (pre post : list atomembed.Entry) (e : atomembed.Entry) :
  atomembed.tarEntries a = pre ++ e :: post ->
  atomembed.escapes e = true ->
  (exists err, fst (atomembed.extractArchive a target s) = Some err)
  /\ snd (atomembed.extractArchive a target s)
     = snd (atomembed.extractArchive
              {| atomembed.nonEmpty := atomembed.nonEmpty a;
                 atomembed.sha256hex := atomembed.sha256hex a;
                 atomembed.gzipErr := atomembed.gzipErr a;
                 atomembed.tarEntries := pre;
                 atomembed.tarEnd := None |} target s)
  /\ exists new,
       calls (snd (atomembed.extractArchive a target s)) = calls s ++ new
       /\ Forall (fun c => forall p, writesFileAt c = Some p ->
                                     path.within target p = true) new.
Proof.
  intros Hes He.
  split; [|split; [|apply AtomembedFacts.extractArchive_contained]].
  - unfold atomembed.extractArchive.
    destruct (negb (atomembed.ArchiveAvailable a)); [simpl; eauto|].
    unfold bind.
    destruct (MkdirAll target 493 s) as [[err|] s1]; [simpl; eauto|].
    destruct (atomembed.gzipErr a); [simpl; eauto|].
    rewrite Hes.
    apply (AtomembedFacts.extractEntries_stops target pre post e _ s1 He).
  - unfold atomembed.extractArchive, atomembed.ArchiveAvailable. simpl.
    destruct (negb (atomembed.nonEmpty a)); [reflexivity|].
    unfold bind.
    destruct (MkdirAll target 493 s) as [[err|] s1]; [reflexivity|].
    destruct (atomembed.gzipErr a); [reflexivity|].
    rewrite Hes.
    apply (AtomembedFacts.extractEntries_stops target pre post e _ s1 He).
Qed.

Lemma extractArchive_rejects_witness :
  (exists err,
     fst (atomembed.extractArchive sample.crafted "/app/atom"
            (lexfs.start sample.fresh)) = Some err)
  /\ calls (snd (atomembed.extractArchive sample.crafted "/app/atom"
                   (lexfs.start sample.fresh)))
     = [ CallMkdirAll "/app/atom" 493;
         CallMkdirAll "/app/atom" 493;
         CallOpenFile "/app/atom/ok.txt" 420;
         CallWrite "/app/atom/ok.txt" "fine";
         CallClose "/app/atom/ok.txt" ].
Proof.
  split.
  - apply (extractArchive_rejects_escaping_entry sample.crafted "/app/atom"
             (lexfs.start sample.fresh)
             [sample.entry "ok.txt" atomembed.TypeReg [] "fine"]
             [sample.entry "late.txt" atomembed.TypeReg [] "never"]
             (sample.entry "../../etc/passwd" atomembed.TypeReg [] "root::0:0"));
      reflexivity.
  - vm_compute. reflexivity.
Defined.

(** ** Digests and white space *)

Module DigestFacts.
Import strings atomembed.

(** The trimming loop runs to its end: what it returns starts with no
    white-space rune. *)
Lemma trimLeading_done (runes : list str) (fuel : nat) :
  forallb (fun r => negb (streq r [])) runes = true ->
  forall s, length s <= fuel ->
            spaceWidth runes (trimLeading fuel runes s) = 0.
Proof.
  intros Hr. induction fuel as [|fuel IH]; intros s Hlen.
  - destruct s; [|simpl in Hlen; lia]. simpl. unfold spaceWidth.
    destruct (find (HasPrefix []) runes) as [r|] eqn:Ef; [|reflexivity].
    apply find_some in Ef as [Hin Hp].
    rewrite forallb_forall in Hr. specialize (Hr _ Hin).
    destruct r; [discriminate|discriminate].
  - simpl. destruct (spaceWidth runes s) as [|k] eqn:Ew; [exact Ew|].
    apply IH. destruct s as [|c s']; simpl in *; [lia|].
    rewrite length_skipn. lia.
Qed.

Lemma TrimLeftSpace_done (s : str) :
  spaceWidth spaceRunes (TrimLeftSpace s) = 0.
Proof. apply trimLeading_done; [reflexivity|lia]. Qed.

Lemma hex_cases (c : ascii) :
  isHexDigit c = true ->
  In c (("0123456789abcdef")%str : list ascii).
Proof.
  unfold isHexDigit. intros H. apply existsb_exists in H as (x & Hx & E).
  apply Ascii.eqb_eq in E. now subst x.
Qed.

Lemma hex_not_space (c : ascii) (t : str) :
  isHexDigit c = true ->
  spaceWidth spaceRunes (c :: t) = 0
  /\ spaceWidth (map (@rev ascii) spaceRunes) (c :: t) = 0.
Proof.
  intros H. apply hex_cases in H. simpl in H.
  repeat match goal with
         | H : _ \/ _ |- _ => destruct H as [<-|H]
         | H : False |- _ => destruct H
         end; split; reflexivity.
Qed.

Lemma trimLeading_nil (runes : list str) (fuel : nat) :
  trimLeading fuel runes [] = [].
Proof.
  induction fuel as [|fuel IH]; simpl; [reflexivity|].
  destruct (spaceWidth runes []); [reflexivity|exact IH].
Qed.

Lemma trimLeading_hex (runes : list str) (fuel : nat) (h : str) :
  (forall c t, isHexDigit c = true -> spaceWidth runes (c :: t) = 0) ->
  forallb isHexDigit h = true ->
  trimLeading fuel runes h = h.
Proof.
  intros Hr Hh. destruct h as [|c t]; [apply trimLeading_nil|].
  destruct fuel as [|fuel]; [reflexivity|]. simpl.
  - simpl in Hh. apply andb_true_iff in Hh as [Hc _].
    now rewrite (Hr c t Hc).
Qed.

(** [TrimSpace] leaves a string of hex digits as it is. *)
Lemma TrimSpace_hex (h : str) : forallb isHexDigit h = true -> TrimSpace h = h.
Proof.
  intros Hh. unfold TrimSpace.
  assert (El : TrimLeftSpace h = h).
  { unfold TrimLeftSpace. apply trimLeading_hex; [|exact Hh].
    intros c t Hc. apply (hex_not_space c t Hc). }
  rewrite El. unfold TrimRightSpace.
  rewrite trimLeading_hex; [apply rev_involutive| |now rewrite PathFacts.forallb_rev].
  intros c t Hc. apply (hex_not_space c t Hc).
Qed.

Lemma TrimSpace_digest (h : str) : isHexDigest h = true -> TrimSpace h = h.
Proof.
  unfold isHexDigest. intros H. apply andb_true_iff in H as [_ H].
  now apply TrimSpace_hex.
Qed.

End DigestFacts.


(** ** [EnsureExtracted] *)

Module EnsureFacts.
Import strings path atomembed TraceFacts AtomembedFacts.

Section WithOS.
Context {W : Type} `{OS W}.

Lemma markerMatches_query (a : Archive) (target : str) (s : state W) :
  markerMatches a target s = (fst (markerMatches a target s), s).
Proof.
  unfold markerMatches, bind, ReadFile, query, ret.
  destruct (os_ReadFile (world s) (Join target markerFile)); reflexivity.
Qed.

Lemma dirEmpty_query (target : str) (s : state W) :
  dirEmpty target s = (fst (dirEmpty target s), s).
Proof.
  unfold dirEmpty, bind, ReadDir, query, ret.
  destruct (os_ReadDir (world s) target); reflexivity.
Qed.

Lemma isDir_eta (info : FileInfo) : IsDir info = true -> info = {| IsDir := true |}.
Proof. destruct info as [b]. simpl. now intros ->. Qed.

(** The state is threaded through the checks unchanged. *)
Lemma EnsureExtracted_unfold (a : Archive) (target : str) (force : bool)
    (s : state W) :
  EnsureExtracted a target force s =
  if streq (TrimSpace target) []
  then ((false, Some (errors.New "atom root path is empty")), s)
  else
    match os_Stat (world s) target with
    | Ok info =>
      if negb (IsDir info)
      then ((false, Some (errors.New "atom root exists and is not a directory")), s)
      else if fst (markerMatches a target s) then ((false, None), s)
      else if force then
        match RemoveAll target s with
        | (Some err, s1) => ((false, Some err), s1)
        | (None, s1) => extractAndMark a target s1
        end
      else if fst (dirEmpty target s) then extractAndMark a target s
      else ((false, Some ErrAtomRootExists), s)
    | Err err =>
      if negb (errors.IsNotExist err) then ((false, Some err), s)
      else extractAndMark a target s
    end.
Proof.
  unfold EnsureExtracted.
  destruct (streq (TrimSpace target) []); [reflexivity|].
  unfold bind at 1. unfold Stat, query at 1. simpl.
  destruct (os_Stat (world s) target) as [info|err].
  - destruct (negb (IsDir info)); [reflexivity|].
    unfold bind at 1. rewrite markerMatches_query.
    destruct (fst (markerMatches a target s)); [reflexivity|].
    destruct force.
    + unfold bind at 1. destruct (RemoveAll target s) as [[err|] s1]; reflexivity.
    + unfold bind at 1. rewrite dirEmpty_query.
      destruct (fst (dirEmpty target s)); reflexivity.
  - destruct (negb (errors.IsNotExist err)); reflexivity.
Qed.

Lemma extractAndMark_unfold (a : Archive) (target : str) (s : state W) :
  extractAndMark a target s =
  match extractArchive a target s with
  | (Some err, s1) => ((false, Some err), s1)
  | (None, s1) =>
    match WriteFile (Join target markerFile) (ArchiveHash a) 420 s1 with
    | (Some err, s2) => ((true, Some err), s2)
    | (None, s2) => ((true, None), s2)
    end
  end.
Proof.
  unfold extractAndMark, bind.
  destruct (extractArchive a target s) as [[err|] s1]; [reflexivity|].
  destruct (WriteFile (Join target markerFile) (ArchiveHash a) 420 s1)
    as [[err|] s2]; reflexivity.
Qed.

Lemma WriteFile_unfold (p data : str) (perm : Z) (s : state W) :
  WriteFile p data perm s =
  (snd (os_WriteFile (world s) p data perm),
   {| world := fst (os_WriteFile (world s) p data perm);
      calls := calls s ++ [CallWriteFile p data perm] |}).
Proof.
  unfold WriteFile, perform.
  destruct (os_WriteFile (world s) p data perm); reflexivity.
Qed.

(** A run that reaches the extraction continues with the tail. *)
Lemma EnsureExtracted_extracts (a : Archive) (target : str) (force : bool)
    (s sx : state W) :
  TrimSpace target <> [] ->
  extractsFrom a target force s sx ->
  EnsureExtracted a target force s = extractAndMark a target sx.
Proof.
  intros Hb Hx. rewrite EnsureExtracted_unfold.
  destruct (streq_spec (TrimSpace target) []) as [E|_]; [contradiction|].
  destruct Hx as [(err & Hs & He & ->)|(Hs & Hm & Hx)]; rewrite Hs.
  - now rewrite He.
  - simpl. rewrite Hm.
    destruct Hx as [(-> & Hd & ->)|(-> & Hr)].
    + now rewrite Hd.
    + now rewrite Hr.
Qed.

(** Every run returns early without a call, or fails to remove the
    target, or reaches the extraction. *)
Lemma EnsureExtracted_cases (a : Archive) (target : str) (force : bool)
    (s : state W) :
  (exists err, EnsureExtracted a target force s = ((false, err), s))
  \/ (exists err s1, RemoveAll target s = (Some err, s1)
                     /\ EnsureExtracted a target force s = ((false, Some err), s1))
  \/ (exists sx, TrimSpace target <> []
                 /\ extractsFrom a target force s sx
                 /\ EnsureExtracted a target force s = extractAndMark a target sx).
Proof.
  rewrite EnsureExtracted_unfold.
  destruct (streq_spec (TrimSpace target) []) as [E|Hb]; [eauto|].
  destruct (os_Stat (world s) target) as [info|err] eqn:Hs.
  - destruct (IsDir info) eqn:Hd; simpl; [|eauto].
    apply isDir_eta in Hd; subst info.
    destruct (fst (markerMatches a target s)) eqn:Hm; [eauto|].
    destruct force.
    + destruct (RemoveAll target s) as [[err|] s1] eqn:Hr; [eauto 6|].
      right; right. exists s1. repeat split; auto.
      right. auto.
    + destruct (fst (dirEmpty target s)) eqn:He; [|eauto].
      right; right. exists s. repeat split; auto.
      right. auto 6.
  - destruct (errors.IsNotExist err) eqn:He; simpl; [|eauto].
    right; right. exists s. repeat split; auto.
    left. eauto.
Qed.

(** Only a matching marker makes a run report the tree up to date. *)
Lemma not_up_to_date (a : Archive) (target : str) (force : bool) (s : state W) :
  fst (markerMatches a target s) = false ->
  fst (EnsureExtracted a target force s) <> (false, None).
Proof.
  intros Hm. rewrite EnsureExtracted_unfold.
  destruct (streq (TrimSpace target) []); [discriminate|].
  destruct (os_Stat (world s) target) as [info|err].
  - destruct (negb (IsDir info)); [discriminate|]. rewrite Hm.
    destruct force.
    + destruct (RemoveAll target s) as [[err|] s1]; [discriminate|].
      rewrite extractAndMark_unfold.
      destruct (extractArchive a target s1) as [[err|] s2]; [discriminate|].
      destruct (WriteFile (Join target markerFile) (ArchiveHash a) 420 s2)
        as [[err|] s3]; discriminate.
    + destruct (fst (dirEmpty target s)); [|discriminate].
      rewrite extractAndMark_unfold.
      destruct (extractArchive a target s) as [[err|] s2]; [discriminate|].
      destruct (WriteFile (Join target markerFile) (ArchiveHash a) 420 s2)
        as [[err|] s3]; discriminate.
  - destruct (negb (errors.IsNotExist err)); [discriminate|].
    rewrite extractAndMark_unfold.
    destruct (extractArchive a target s) as [[err'|] s2]; [discriminate|].
    destruct (WriteFile (Join target markerFile) (ArchiveHash a) 420 s2)
      as [[err'|] s3]; discriminate.
Qed.

Lemma Forall_notWriteFile (new : list syscall) :
  Forall notWriteFile new -> existsb isWriteFile new = false.
Proof.
  induction 1 as [|c new Hc _ IH]; [reflexivity|].
  simpl. now rewrite Hc, IH.
Qed.

Lemma extractsFrom_calls (a : Archive) (target : str) (force : bool)
    (s sx : state W) :
  extractsFrom a target force s sx ->
  exists new, calls sx = calls s ++ new /\ Forall notWriteFile new.
Proof.
  intros [(err & _ & _ & ->)|(_ & _ & [(_ & _ & ->)|(_ & Hr)])].
  - exists []. now rewrite app_nil_r.
  - exists []. now rewrite app_nil_r.
  - destruct (traced_perform (W := W) notWriteFile (CallRemoveAll target)
                (fun w => os_RemoveAll w target) eq_refl s) as (new & E & F).
    fold (RemoveAll target) in E. rewrite Hr in E. eauto.
Qed.

End WithOS.

End EnsureFacts.

(** C1, as the specification states it, fails: with a directory of
    foreign files and no marker, [EnsureExtracted] reports the conflict,
    and [run] goes on to listen all the same. *)
Lemma boot_listens_despite_conflict :
  fst (atomembed.EnsureExtracted sample.snapshotB "/app/atom" false
         (lexfs.start sample.foreign))
  = (false, Some ErrAtomRootExists)
  /\ fst (valence.run sample.snapshotB (lexfs.start sample.foreign))
     = valence.Listening ":8080".
Proof. split; vm_compute; reflexivity. Qed.

(** C1, amended.  When the target is a non-empty directory whose marker
    is missing or does not match and force is not requested,
    [EnsureExtracted] returns [ErrAtomRootExists] and leaves everything as
    it is; [ensureAtomRoot] recognises that error, logs that extraction is
    skipped and returns no error; and [resolveAtomRoot] then returns the
    directory as the application root.  The conflict does not abort the
    boot. *)
Theorem ensureAtomRoot_tolerates_conflict {W : Type} `{OS W}
    (a : atomembed.Archive) (target : str) (s : state W) :
  strings.TrimSpace target <> [] ->
  os_Stat (world s) target = Ok {| IsDir := true |} ->
  fst (atomembed.markerMatches a target s) = false ->
  fst (atomembed.dirEmpty target s) = false ->
  fst (valence.envBool "VALENCE_ATOM_FORCE_EXTRACT" false s) = false ->
  atomembed.EnsureExtracted a target false s
  = ((false, Some ErrAtomRootExists), s)
  /\ valence.ensureAtomRoot a target s = (None, s)
  /\ (strings.TrimSpace (os_Getenv (world s) "VALENCE_ATOM_SRC_DIR") <> [] ->
      fst (Abs (strings.TrimSpace (os_Getenv (world s) "VALENCE_ATOM_SRC_DIR")) s)
      = Ok target ->
      valence.resolveAtomRoot a s = (Ok target, s)).
Proof.
  intros Hb Hs Hm He Hf.
  assert (E : atomembed.EnsureExtracted a target false s
              = ((false, Some ErrAtomRootExists), s)).
  { rewrite EnsureFacts.EnsureExtracted_unfold.
    destruct (streq_spec (strings.TrimSpace target) []) as [E|_]; [contradiction|].
    rewrite Hs. simpl. now rewrite Hm, He. }
  assert (E2 : valence.ensureAtomRoot a target s = (None, s)).
  { unfold valence.ensureAtomRoot. unfold bind at 1.
    assert (Eq : valence.envBool "VALENCE_ATOM_FORCE_EXTRACT" false s = (false, s)).
    { revert Hf. unfold valence.envBool, bind, Getenv, query, ret. simpl.
      destruct (strings.TrimSpace
                  (os_Getenv (world s) "VALENCE_ATOM_FORCE_EXTRACT"))
        as [|c v]; [reflexivity|].
      destruct (strconv.ParseBool (c :: v)); simpl; intros Eb; rewrite ?Eb;
        reflexivity. }
    rewrite Eq. unfold bind. rewrite E. reflexivity. }
  split; [exact E|]. split; [exact E2|].
  intros Hroot Habs.
  unfold valence.resolveAtomRoot. unfold bind at 1. unfold Getenv, query at 1.
  destruct (strings.TrimSpace (os_Getenv (world s) "VALENCE_ATOM_SRC_DIR"))
    as [|c root] eqn:Er; [contradiction|].
  assert (Ea : Abs (c :: root) s = (Ok target, s)).
  { revert Habs. unfold Abs.
    destruct (path.IsAbs (c :: root)); [simpl; now intros ->|].
    unfold bind, Getwd, query, ret. simpl.
    destruct (os_Getwd (world s)); simpl; now intros ->. }
  unfold bind at 1. rewrite Ea.
  unfold bind at 1. rewrite E2.
  unfold bind, Stat, query, ret. rewrite Hs. reflexivity.
Qed.

Lemma ensureAtomRoot_conflict_witness :
  atomembed.EnsureExtracted sample.snapshotB "/app/atom" false
    (lexfs.start sample.foreign)
  = ((false, Some ErrAtomRootExists), lexfs.start sample.foreign)
  /\ valence.ensureAtomRoot sample.snapshotB "/app/atom"
       (lexfs.start sample.foreign)
     = (None, lexfs.start sample.foreign)
  /\ valence.resolveAtomRoot sample.snapshotB (lexfs.start sample.foreign)
     = (Ok "/app/atom", lexfs.start sample.foreign).
Proof.
  destruct (ensureAtomRoot_tolerates_conflict sample.snapshotB "/app/atom"
              (lexfs.start sample.foreign)) as (E1 & E2 & E3).
  - vm_compute. discriminate.
  - reflexivity.
  - reflexivity.
  - reflexivity.
  - reflexivity.
  - split; [exact E1|]. split; [exact E2|].
    apply E3; [vm_compute; discriminate|reflexivity].
Defined.


(** ** The calls of an extraction that runs to its end *)

Module ReplayFacts.
Import atomembed.

Section WithOS.
Context {W : Type} `{OS W}.

Lemma replay_app (cs1 cs2 : list syscall) (w : W) :
  replay (cs1 ++ cs2) w = replay cs2 (replay cs1 w).
Proof. apply fold_left_app. Qed.

(** A call is logged with the world it leaves. *)
Lemma perform_effect (c : syscall) (s : state W) :
  perform c (effect c) s
  = (snd (effect c (world s)),
     {| world := replay [c] (world s); calls := calls s ++ [c] |}).
Proof. unfold perform. simpl. now destruct (effect c (world s)). Qed.

(** [s'] is [s] after the calls [cs]. *)
Lemma after_nil (s : state W) :
  calls s = calls s ++ [] /\ world s = replay [] (world s).
Proof. now rewrite app_nil_r. Qed.

Lemma after_step (c : syscall) (cs : list syscall) (s s' : state W) :
  calls s' = calls (snd (perform c (effect c) s)) ++ cs
  /\ world s' = replay cs (world (snd (perform c (effect c) s))) ->
  calls s' = calls s ++ c :: cs /\ world s' = replay (c :: cs) (world s).
Proof.
  rewrite perform_effect. simpl. intros [Ec Ew]. split.
  - now rewrite Ec, <- app_assoc.
  - exact Ew.
Qed.

Lemma extractEntry_calls (target : str) (e : Entry) (s s' : state W) :
  extractEntry target e s = (None, s') ->
  calls s' = calls s ++ entryCalls target e
  /\ world s' = replay (entryCalls target e) (world s).
Proof.
  unfold extractEntry, entryCalls.
  destruct (streq (Name (hdr e)) []).
  { intros E. injection E as <-. apply after_nil. }
  destruct (strings.HasPrefix (path.Clean (Name (hdr e))) ".."
            || path.IsAbs (path.Clean (Name (hdr e)))); [discriminate|].
  set (dst := path.Join target (path.Clean (Name (hdr e)))).
  assert (Hreg : writeRegular dst e s = (None, s') ->
                 calls s' = calls s ++
                   [CallMkdirAll (path.Dir dst) 493;
                    CallOpenFile dst (Perm (Mode (hdr e)));
                    CallWrite dst (body e); CallClose dst]
                 /\ world s' = replay
                   [CallMkdirAll (path.Dir dst) 493;
                    CallOpenFile dst (Perm (Mode (hdr e)));
                    CallWrite dst (body e); CallClose dst] (world s)).
  { unfold writeRegular, bind, ret, MkdirAll, OpenFile, Write, Close.
    change (fun w => os_MkdirAll w (path.Dir dst) 493)
      with (effect (CallMkdirAll (path.Dir dst) 493)).
    change (fun w => os_OpenFile w dst (Perm (Mode (hdr e))))
      with (effect (CallOpenFile dst (Perm (Mode (hdr e))))).
    change (fun w => os_Write w dst (body e))
      with (effect (CallWrite dst (body e))).
    change (fun w => os_Close w dst) with (effect (CallClose dst)).
    intros E. apply after_step. revert E.
    destruct (perform (CallMkdirAll (path.Dir dst) 493) _ s) as [[e1|] s1];
      [discriminate|].
    intros E. apply after_step. revert E. cbn [snd].
    destruct (perform (CallOpenFile dst (Perm (Mode (hdr e)))) _ s1)
      as [[e2|] s2]; [discriminate|].
    intros E. apply after_step. revert E. cbn [snd].
    destruct (perform (CallWrite dst (body e)) _ s2) as [[e3|] s3].
    { destruct (perform (CallClose dst) _ s3); discriminate. }
    destruct (bodyErr e).
    { destruct (perform (CallClose dst) _ s3); discriminate. }
    intros E. apply after_step. cbn [snd]. rewrite E. apply after_nil. }
  destruct (Typeflag (hdr e));
    try (intros E; injection E as <-; apply after_nil);
    try exact Hreg.
  - (* a link *)
    unfold bind, ret, MkdirAll, Symlink.
    change (fun w => os_MkdirAll w (path.Dir dst) 493)
      with (effect (CallMkdirAll (path.Dir dst) 493)).
    change (fun w => os_Symlink w (Linkname (hdr e)) dst)
      with (effect (CallSymlink (Linkname (hdr e)) dst)).
    intros E. apply after_step. revert E.
    destruct (perform (CallMkdirAll (path.Dir dst) 493) _ s) as [[e1|] s1];
      [discriminate|].
    intros E. apply after_step. revert E. cbn [snd].
    destruct (perform (CallSymlink (Linkname (hdr e)) dst) _ s1)
      as [[e2|] s2].
    + destruct (negb (errors.IsExist e2)); [discriminate|].
      intros E. injection E as <-. apply after_nil.
    + intros E. injection E as <-. apply after_nil.
  - (* a directory *)
    unfold MkdirAll.
    change (fun w => os_MkdirAll w dst (Perm (Mode (hdr e))))
      with (effect (CallMkdirAll dst (Perm (Mode (hdr e))))).
    intros E. apply after_step. rewrite E. apply after_nil.
Qed.

Lemma extractEntries_calls (target : str) (es : list Entry)
    (atEnd : option error) (s s' : state W) :
  extractEntries target es atEnd s = (None, s') ->
  calls s' = calls s ++ flat_map (entryCalls target) es
  /\ world s' = replay (flat_map (entryCalls target) es) (world s).
Proof.
  revert s. induction es as [|e es IH]; intros s.
  - simpl. unfold ret. intros E. injection E as _ <-. apply after_nil.
  - simpl. unfold bind.
    destruct (extractEntry target e s) as [[err|] s1] eqn:E1; [discriminate|].
    intros E. destruct (extractEntry_calls target e s s1 E1) as [Ec Ew].
    destruct (IH s1 E) as [Ec' Ew'].
    split.
    + now rewrite Ec', Ec, <- app_assoc.
    + now rewrite Ew', Ew, replay_app.
Qed.

(** An extraction that returns no error has issued the calls of every
    entry, in order, and left the world they make. *)
Lemma extractArchive_calls (a : Archive) (target : str) (s s' : state W) :
  extractArchive a target s = (None, s') ->
  calls s' = calls s ++ extractionCalls a target
  /\ world s' = replay (extractionCalls a target) (world s).
Proof.
  unfold extractArchive, extractionCalls.
  destruct (negb (ArchiveAvailable a)); [discriminate|].
  unfold bind, MkdirAll.
  change (fun w => os_MkdirAll w target 493)
    with (effect (CallMkdirAll target 493)).
  intros E. apply after_step. revert E.
  destruct (perform (CallMkdirAll target 493) _ s) as [[e1|] s1];
    [discriminate|].
  destruct (gzipErr a); [discriminate|].
  cbn [snd]. apply extractEntries_calls.
Qed.

End WithOS.

End ReplayFacts.


(** ** A second call, on a file system that keeps what is written *)

Module MarkerFacts.
Import strings path atomembed EnsureFacts DigestFacts.

Section WithLaws.
Context {W : Type} `{OS W} `{!OSLaws W}.

Lemma nonblank_nonempty (target : str) : TrimSpace target <> [] -> target <> [].
Proof. intros Hb ->. now apply Hb. Qed.

Lemma markerFile_name : isName markerFile = true.
Proof. reflexivity. Qed.

(** A run that returned [(true, nil)] ended with the marker written. *)
Lemma extracted_inv (a : Archive) (target : str) (force : bool)
    (s0 s1 : state W) :
  EnsureExtracted a target force s0 = ((true, None), s1) ->
  TrimSpace target <> []
  /\ exists w, os_WriteFile w (Join target markerFile) (ArchiveHash a) 420
               = (world s1, None).
Proof.
  intros E.
  destruct (EnsureExtracted_cases a target force s0)
    as [(err & E')|[(err & sr & _ & E')|(sx & Hb & _ & E')]];
    rewrite E in E'; try discriminate.
  split; [exact Hb|].
  rewrite extractAndMark_unfold in E'.
  destruct (extractArchive a target sx) as [[err|] s2]; [discriminate|].
  rewrite WriteFile_unfold in E'.
  destruct (os_WriteFile (world s2) (Join target markerFile) (ArchiveHash a) 420)
    as [w' [err|]] eqn:Ew; simpl in E'; [discriminate|].
  injection E' as ->. exists (world s2). exact Ew.
Qed.

Lemma marker_read (a : Archive) (target : str) (w : W) (s1 : state W) :
  os_WriteFile w (Join target markerFile) (ArchiveHash a) 420 = (world s1, None) ->
  forall b, fst (markerMatches b target s1)
            = streq (TrimSpace (ArchiveHash a)) (ArchiveHash b).
Proof.
  intros Ew b. unfold markerMatches, bind, ReadFile, query, ret. simpl.
  now rewrite (written_is_read _ _ _ _ _ Ew).
Qed.

(** Once the marker is written, a call with the same snapshot is a
    no-op. *)
Lemma second_call (a : Archive) (target : str) (force : bool)
    (w : W) (s1 : state W) :
  TrimSpace target <> [] ->
  isHexDigest (ArchiveHash a) = true ->
  os_WriteFile w (Join target markerFile) (ArchiveHash a) 420 = (world s1, None) ->
  EnsureExtracted a target force s1 = ((false, None), s1).
Proof.
  intros Hb Hh Ew. rewrite EnsureExtracted_unfold.
  destruct (streq_spec (TrimSpace target) []) as [E|_]; [contradiction|].
  rewrite (written_in_directory _ _ _ _ _ _ (nonblank_nonempty _ Hb)
             markerFile_name Ew).
  simpl. rewrite (marker_read a target w s1 Ew a), (TrimSpace_digest _ Hh).
  now rewrite streq_refl.
Qed.

(** And a call with another snapshot finds a directory that is not empty
    and whose marker differs. *)
Lemma other_snapshot (a b : Archive) (target : str) (w : W) (s1 : state W) :
  TrimSpace target <> [] ->
  isHexDigest (ArchiveHash a) = true ->
  ArchiveHash a <> ArchiveHash b ->
  os_WriteFile w (Join target markerFile) (ArchiveHash a) 420 = (world s1, None) ->
  os_Stat (world s1) target = Ok {| IsDir := true |}
  /\ fst (markerMatches b target s1) = false
  /\ fst (dirEmpty target s1) = false.
Proof.
  intros Hb Hh Hne Ew.
  pose proof (nonblank_nonempty _ Hb) as Hn.
  split; [apply (written_in_directory _ _ _ _ _ _ Hn markerFile_name Ew)|].
  split.
  - rewrite (marker_read a target w s1 Ew b), (TrimSpace_digest _ Hh).
    destruct (streq_spec (ArchiveHash a) (ArchiveHash b)); [contradiction|reflexivity].
  - unfold dirEmpty, bind, ReadDir, query, ret. simpl.
    destruct (os_ReadDir (world s1) target) as [names|err] eqn:Er; [|reflexivity].
    pose proof (written_is_listed _ _ _ _ _ _ _ Hn markerFile_name Ew Er) as Hl.
    destruct names; [contradiction|reflexivity].
Qed.

End WithLaws.

End MarkerFacts.

(** C6.  For a target that is usable (its path is not blank; it does not
    exist, or is an empty directory, or is a directory that force removes;
    the snapshot unpacks into it and the marker can be written), on a file
    system that keeps what is written: the first call of [EnsureExtracted]
    returns [(true, nil)], and a second call with the same snapshot
    returns [(false, nil)] and leaves the state, so the tree, as it is. *)
Theorem EnsureExtracted_twice {W : Type} `{OS W} {laws : OSLaws W}
    (a : atomembed.Archive) (target : str) (force force' : bool)
    (s0 sx s1 : state W) (w2 : W) :
  strings.TrimSpace target <> [] ->
  atomembed.isHexDigest (atomembed.ArchiveHash a) = true ->
  atomembed.extractsFrom a target force s0 sx ->
  atomembed.extractArchive a target sx = (None, s1) ->
  os_WriteFile (world s1) (path.Join target atomembed.markerFile)
    (atomembed.ArchiveHash a) 420 = (w2, None) ->
  let s2 := {| world := w2;
               calls := calls s1 ++
                        [CallWriteFile (path.Join target atomembed.markerFile)
                           (atomembed.ArchiveHash a) 420] |} in
  atomembed.EnsureExtracted a target force s0 = ((true, None), s2)
  /\ atomembed.EnsureExtracted a target force' s2 = ((false, None), s2).
Proof.
  intros Hb Hh Hfrom Hex Ew s2. split.
  - rewrite (EnsureFacts.EnsureExtracted_extracts a target force s0 sx Hb Hfrom).
    rewrite EnsureFacts.extractAndMark_unfold, Hex, EnsureFacts.WriteFile_unfold, Ew.
    reflexivity.
  - apply (MarkerFacts.second_call a target force' (world s1) s2 Hb Hh). exact Ew.
Qed.

(** C7.  After a call that extracted snapshot A, on a file system that
    keeps what is written: a call with another snapshot B and force off
    fails with [ErrAtomRootExists] and changes nothing; with force on, the
    first call issued is [RemoveAll] of the target, and when the removal,
    the extraction of B and the marker write succeed the call returns
    [(true, nil)] and the marker then reads B's digest.  What the forced
    call did before writing the marker is then exactly this: [RemoveAll]
    of the target, [MkdirAll] of the target, and for every entry of B, in
    the order of the archive, the calls that make its directory, its link
    or its file with its bytes; the tree the marker is written into is
    the tree these calls make of the one the call found. *)
Theorem conflict_then_force {W : Type} `{OS W} {laws : OSLaws W}
    (A B : atomembed.Archive) (target : str) (force0 : bool)
    (s0 s1 : state W) :
  atomembed.isHexDigest (atomembed.ArchiveHash A) = true ->
  atomembed.ArchiveHash A <> atomembed.ArchiveHash B ->
  atomembed.EnsureExtracted A target force0 s0 = ((true, None), s1) ->
  atomembed.EnsureExtracted B target false s1
  = ((false, Some ErrAtomRootExists), s1)
  /\ (exists new,
        calls (snd (atomembed.EnsureExtracted B target true s1))
        = calls s1 ++ CallRemoveAll target :: new)
  /\ (forall s2 s3 w4,
        RemoveAll target s1 = (None, s2) ->
        atomembed.extractArchive B target s2 = (None, s3) ->
        os_WriteFile (world s3) (path.Join target atomembed.markerFile)
          (atomembed.ArchiveHash B) 420 = (w4, None) ->
        atomembed.EnsureExtracted B target true s1
        = ((true, None),
           {| world := w4;
              calls := calls s3 ++
                       [CallWriteFile (path.Join target atomembed.markerFile)
                          (atomembed.ArchiveHash B) 420] |})
        /\ os_ReadFile w4 (path.Join target atomembed.markerFile)
           = Ok (atomembed.ArchiveHash B)
        /\ calls s3
           = calls s1 ++ CallRemoveAll target
                         :: atomembed.extractionCalls B target
        /\ world s3
           = replay (CallRemoveAll target :: atomembed.extractionCalls B target)
               (world s1)).
Proof.
  intros Hh Hne E0.
  destruct (MarkerFacts.extracted_inv A target force0 s0 s1 E0) as (Hb & w & Ew).
  destruct (MarkerFacts.other_snapshot A B target w s1 Hb Hh Hne Ew)
    as (Hs & Hm & Hd).
  assert (Eu : forall force,
             atomembed.EnsureExtracted B target force s1 =
             if force then
               match RemoveAll target s1 with
               | (Some err, s2) => ((false, Some err), s2)
               | (None, s2) => atomembed.extractAndMark B target s2
               end
             else ((false, Some ErrAtomRootExists), s1)).
  { intros force. rewrite EnsureFacts.EnsureExtracted_unfold.
    destruct (streq_spec (strings.TrimSpace target) []) as [E|_]; [contradiction|].
    rewrite Hs. simpl. now rewrite Hm, Hd. }
  split; [apply (Eu false)|]. split.
  - rewrite (Eu true).
    assert (Er : RemoveAll target s1
                 = (snd (os_RemoveAll (world s1) target),
                    {| world := fst (os_RemoveAll (world s1) target);
                       calls := calls s1 ++ [CallRemoveAll target] |})).
    { unfold RemoveAll, perform.
      now destruct (os_RemoveAll (world s1) target). }
    rewrite Er.
    destruct (snd (os_RemoveAll (world s1) target)) as [err|].
    + exists []. reflexivity.
    + assert (Ht : traced (fun _ => True) (atomembed.extractAndMark B target)).
      { unfold atomembed.extractAndMark.
        apply TraceFacts.traced_bind.
        - apply (TraceFacts.traced_weaken _ (contained target)); [auto|].
          apply AtomembedFacts.extractArchive_contained.
        - intros [err|]; [apply TraceFacts.traced_ret|].
          apply TraceFacts.traced_bind; [now apply TraceFacts.traced_perform|].
          intros [err|]; apply TraceFacts.traced_ret. }
      destruct (Ht {| world := fst (os_RemoveAll (world s1) target);
                      calls := calls s1 ++ [CallRemoveAll target] |})
        as (new & En & _).
      exists new. rewrite En. simpl. now rewrite <- app_assoc.
  - intros s2 s3 w4 Hr Hex Ew4.
    rewrite (Eu true), Hr, EnsureFacts.extractAndMark_unfold, Hex,
      EnsureFacts.WriteFile_unfold, Ew4.
    split; [reflexivity|].
    split; [apply (written_is_read _ _ _ _ _ Ew4)|].
    destruct (ReplayFacts.extractArchive_calls B target s2 s3 Hex) as [Ec Ex].
    assert (E2 : s2 = snd (perform (CallRemoveAll target)
                             (effect (CallRemoveAll target)) s1)).
    { change (perform (CallRemoveAll target) (effect (CallRemoveAll target)))
        with (RemoveAll (W := W) target).
      now rewrite Hr. }
    rewrite ReplayFacts.perform_effect in E2. cbn [snd] in E2.
    rewrite Ec, Ex, E2. cbn [calls world]. split.
    + now rewrite <- app_assoc.
    + reflexivity.
Qed.


(** ** The reference file system keeps what is written *)

Module LexfsFacts.
Import strings path lexfs PathFacts.

(** *** Resolution and [Clean] *)

Lemma reduce_noDot (rooted : bool) (es stack : list str) :
  noDot stack = true -> noDot (reduce rooted es stack) = true.
Proof.
  revert stack; induction es as [|e es IH]; intros stack Hs; [exact Hs|].
  simpl. destruct (streq e ".") eqn:E1; [auto|].
  destruct (streq e "..") eqn:E2.
  - apply streq_eq in E2; subst e.
    destruct stack as [|top below].
    + destruct rooted; apply IH; reflexivity.
    + destruct (streq top ".."); apply IH.
      * simpl. exact Hs.
      * simpl in Hs. apply andb_true_iff in Hs. tauto.
  - apply IH. simpl. now rewrite E1.
Qed.

Lemma reduce_noDotDot (es stack : list str) :
  noDotDot stack = true -> noDotDot (reduce true es stack) = true.
Proof.
  revert stack; induction es as [|e es IH]; intros stack Hs; [exact Hs|].
  simpl. destruct (streq e "."); [auto|].
  destruct (streq e "..") eqn:E2.
  - destruct stack as [|top below]; [auto|].
    simpl in Hs. apply andb_true_iff in Hs as [Ht Hb].
    apply negb_true_iff in Ht. rewrite Ht. auto.
  - apply IH. simpl. now rewrite E2.
Qed.

Lemma reduce_snoc (rooted : bool) (es : list str) (e : str) (stack : list str) :
  reduce rooted (es ++ [e]) stack = reduce rooted [e] (reduce rooted es stack).
Proof. apply reduce_app. Qed.

(** Replaying the elements an unrooted [Clean] keeps, from a rooted
    stack, leads where the elements themselves lead. *)
Lemma reduce_replay (es : list str) :
  forall stack base,
    noDot stack = true -> noDotDot base = true ->
    reduce true (rev (reduce false es stack)) base
    = reduce true es (reduce true (rev stack) base).
Proof.
  induction es as [|e es IH]; intros stack base Hs Hb; [reflexivity|].
  assert (HX : noDotDot (reduce true (rev stack) base) = true)
    by now apply reduce_noDotDot.
  assert (ER : reduce true (e :: es) (reduce true (rev stack) base)
               = reduce true es (reduce true [e] (reduce true (rev stack) base)))
    by apply (reduce_app true [e] es).
  rewrite ER. clear ER.
  simpl (reduce false (e :: es) stack).
  destruct (streq e ".") eqn:E1.
  { rewrite IH by auto. simpl. now rewrite E1. }
  destruct (streq e "..") eqn:E2.
  - destruct stack as [|top below].
    + rewrite IH by first [exact Hb|simpl; now rewrite E1]. reflexivity.
    + destruct (streq top "..") eqn:Et.
      * rewrite IH by first [exact Hb|simpl; simpl in Hs; now rewrite E1].
        simpl (rev (e :: top :: below)). now rewrite reduce_snoc.
      * simpl in Hs. apply andb_true_iff in Hs as [Hd Hs].
        apply negb_true_iff in Hd.
        rewrite IH by auto.
        simpl (rev (top :: below)). rewrite reduce_snoc.
        simpl. now rewrite Hd, Et, E1, E2, Et.
  - rewrite IH by first [exact Hb|simpl; now rewrite E1].
    simpl (rev (e :: stack)). now rewrite reduce_snoc.
Qed.

Lemma locOf_Clean (w : fs) (p : str) :
  p <> [] -> locOf w (Clean p) = locOf w p.
Proof.
  intros Hp. unfold locOf.
  destruct (Clean p) as [|c0 q0] eqn:Ec; [now apply Clean_nonempty in Ec|].
  rewrite <- Ec. destruct p as [|c p']; [congruence|].
  f_equal. f_equal. rewrite IsAbs_Clean.
  destruct (Clean_spec (c :: p')) as [E Hok].
  destruct (IsAbs (c :: p')) eqn:Ea.
  - rewrite E, (elems_render _ _ Hok). unfold stackOf. now rewrite Ea.
  - rewrite !reduce_app.
    assert (Hbase : noDotDot (reduce true (cwd w) []) = true)
      by now apply reduce_noDotDot.
    pose proof (reduce_replay (elems (c :: p')) [] (reduce true (cwd w) [])
                  eq_refl Hbase) as R.
    simpl (rev []) in R. simpl (reduce true [] _) in R.
    rewrite <- R. fold (stackOf (c :: p')). rewrite E.
    unfold stackOf in *. rewrite Ea in *.
    unfold render.
    destruct (reduce false (elems (c :: p')) []) as [|e below] eqn:Es;
      [reflexivity|].
    rewrite elems_joinElems; [reflexivity|].
    rewrite forallb_rev. apply (okStack_elems _ _ Hok).
Qed.

(** A name joined to a directory leads to that name in the directory. *)
Lemma locOf_Join (w : fs) (dir name : str) :
  dir <> [] -> isName name = true ->
  exists loc, locOf w dir = Some loc
              /\ locOf w (Join dir name) = Some (loc ++ [name]).
Proof.
  intros Hd Hn. destruct dir as [|c dir]; [congruence|].
  unfold Join.
  rewrite locOf_Clean by discriminate.
  eexists. split; [reflexivity|].
  unfold locOf.
  change ((c :: dir) ++ "/" ++ name) with (c :: dir ++ "/"%char :: name).
  f_equal.
  change (c :: dir ++ "/"%char :: name) with ((c :: dir) ++ "/"%char :: name).
  rewrite IsAbs_app by discriminate.
  rewrite elems_app_slash, (elems_elem _ (isName_elem _ Hn)).
  destruct (isName_inv _ Hn) as (_ & H1 & H2).
  destruct (IsAbs (c :: dir)).
  - rewrite reduce_snoc. simpl. now rewrite H1, H2.
  - rewrite app_assoc, reduce_snoc. simpl. now rewrite H1, H2.
Qed.

(** *** Lookups after an update *)

Lemma assoc_set (A : Type) (k : str) (v : A) (l : list (str * A)) :
  assoc k (set k v l) = Some v.
Proof. unfold set. simpl. now rewrite streq_refl. Qed.

Lemma walk_alter (f : option node -> result errno (option node))
    (loc : list str) :
  forall n n',
    alter f loc n = Ok n' ->
    (forall old r, f old = Ok r -> r <> None) ->
    exists old c, f old = Ok (Some c) /\ walk n' loc = Ok c.
Proof.
  induction loc as [|x rest IH]; intros n n' Ha Hf; [discriminate|].
  simpl in Ha. destruct n as [| |perm es]; try discriminate.
  destruct rest as [|y rest'].
  - destruct (f (assoc x es)) as [[c|]|e] eqn:Ef; try discriminate.
    + injection Ha as <-. exists (assoc x es), c. split; [exact Ef|].
      simpl. now rewrite streq_refl.
    + now apply Hf in Ef.
  - destruct (assoc x es) as [c|]; [|discriminate].
    destruct (alter f (y :: rest') c) as [c'|e] eqn:Ea; [|discriminate].
    injection Ha as <-.
    destruct (IH c c' Ea Hf) as (old & c0 & Ef & Hw).
    exists old, c0. split; [exact Ef|].
    change (walk (Dir perm (set x c' es)) (x :: y :: rest'))
      with (match assoc x (set x c' es) with
            | Some c1 => walk c1 (y :: rest')
            | None => Err ENOENT
            end).
    now rewrite assoc_set.
Qed.

Lemma walk_alter_parent (f : option node -> result errno (option node))
    (name : str) (loc : list str) :
  forall n n',
    alter f (loc ++ [name]) n = Ok n' ->
    (forall old r, f old = Ok r -> r <> None) ->
    exists perm es, walk n' loc = Ok (Dir perm es) /\ es <> [].
Proof.
  induction loc as [|x rest IH]; intros n n' Ha Hf.
  - simpl in Ha. destruct n as [| |perm es]; try discriminate.
    destruct (f (assoc name es)) as [[c|]|e] eqn:Ef; try discriminate.
    + injection Ha as <-. exists perm, (set name c es). split; [reflexivity|].
      discriminate.
    + now apply Hf in Ef.
  - simpl app in Ha. simpl in Ha. destruct n as [| |perm es]; try discriminate.
    destruct (rest ++ [name]) as [|y rest'] eqn:Er; [now destruct rest|].
    destruct (assoc x es) as [c|]; [|discriminate].
    destruct (alter f (y :: rest') c) as [c'|e] eqn:Ea; [|discriminate].
    injection Ha as <-.
    destruct (IH c c' Ea Hf) as (perm' & es' & Hw & Hne).
    exists perm', es'. split; [|exact Hne].
    simpl. now rewrite streq_refl.
Qed.

Lemma truncated_some (perm : Z) (data : str) (old : option node)
    (r : option node) :
  truncated perm data old = Ok r -> exists perm', r = Some (File perm' data).
Proof.
  destruct old as [[| |]|]; simpl; intros E; try discriminate;
    injection E as <-; eauto.
Qed.

Lemma writeFile_inv (w w' : fs) (p data : str) (perm : Z) :
  writeFile w p data perm = (w', None) ->
  exists loc n',
    locOf w p = Some loc
    /\ alter (truncated perm data) loc (root w) = Ok n'
    /\ w' = {| cwd := cwd w; root := n'; environ := environ w |}.
Proof.
  unfold writeFile, update.
  destruct (locOf w p) as [[|x loc]|]; try discriminate.
  destruct (alter (truncated perm data) (x :: loc) (root w)) as [n'|e] eqn:Ea;
    simpl; [|discriminate].
  intros [= <-]. eauto.
Qed.

Lemma locOf_root (w : fs) (n : node) (p : str) :
  locOf {| cwd := cwd w; root := n; environ := environ w |} p = locOf w p.
Proof. reflexivity. Qed.

Lemma lexLaws : OSLaws fs.
Proof.
  assert (Hsome : forall perm data old r,
             truncated perm data old = Ok r -> r <> None).
  { intros perm data old r E. apply truncated_some in E as [perm' ->].
    discriminate. }
  split.
  - intros w p data perm w' E.
    apply writeFile_inv in E as (loc & n' & Hl & Ha & ->).
    destruct (walk_alter _ loc _ _ Ha (Hsome perm data)) as (old & c & Ef & Hw).
    apply truncated_some in Ef as [perm' [= ->]].
    simpl. unfold readFile, lookup. rewrite locOf_root, Hl. simpl. now rewrite Hw.
  - intros w dir name data perm w' Hd Hn E.
    apply writeFile_inv in E as (loc & n' & Hl & Ha & ->).
    destruct (locOf_Join w dir name Hd Hn) as (locT & HT & HJ).
    rewrite HJ in Hl. injection Hl as <-.
    destruct (walk_alter_parent _ name locT _ _ Ha (Hsome perm data))
      as (perm' & es & Hw & _).
    simpl. unfold stat, lookup. rewrite locOf_root, HT. simpl. now rewrite Hw.
  - intros w dir name data perm w' names Hd Hn E Er.
    apply writeFile_inv in E as (loc & n' & Hl & Ha & ->).
    destruct (locOf_Join w dir name Hd Hn) as (locT & HT & HJ).
    rewrite HJ in Hl. injection Hl as <-.
    destruct (walk_alter_parent _ name locT _ _ Ha (Hsome perm data))
      as (perm' & es & Hw & Hne).
    simpl in Er. unfold readDir, lookup in Er.
    rewrite locOf_root, HT in Er. simpl in Er. rewrite Hw in Er.
    injection Er as <-. now destruct es.
Qed.

End LexfsFacts.

Lemma EnsureExtracted_twice_witness :
  fst (atomembed.EnsureExtracted sample.snapshotA "/app/atom" false
         (lexfs.start sample.fresh))
  = (true, None)
  /\ atomembed.EnsureExtracted sample.snapshotA "/app/atom" false
       (snd (atomembed.EnsureExtracted sample.snapshotA "/app/atom" false
               (lexfs.start sample.fresh)))
     = ((false, None),
        snd (atomembed.EnsureExtracted sample.snapshotA "/app/atom" false
               (lexfs.start sample.fresh))).
Proof.
  destruct (EnsureExtracted_twice (laws := LexfsFacts.lexLaws)
              sample.snapshotA "/app/atom" false false
              (lexfs.start sample.fresh) (lexfs.start sample.fresh)
              (snd (atomembed.extractArchive sample.snapshotA "/app/atom"
                      (lexfs.start sample.fresh)))
              (fst (lexfs.writeFile
                      (world (snd (atomembed.extractArchive sample.snapshotA
                                     "/app/atom" (lexfs.start sample.fresh))))
                      "/app/atom/.valence-atom-version" sample.digestA 420)))
    as [E1 E2].
  - vm_compute. discriminate.
  - reflexivity.
  - left. exists (Errno ENOENT). repeat split.
  - vm_compute. reflexivity.
  - vm_compute. reflexivity.
  - rewrite E1. split; [reflexivity|exact E2].
Defined.

Lemma conflict_then_force_witness :
  atomembed.EnsureExtracted sample.snapshotB "/app/atom" false
    (snd (atomembed.EnsureExtracted sample.snapshotA "/app/atom" false
            (lexfs.start sample.fresh)))
  = ((false, Some ErrAtomRootExists),
     snd (atomembed.EnsureExtracted sample.snapshotA "/app/atom" false
            (lexfs.start sample.fresh)))
  /\ fst (atomembed.EnsureExtracted sample.snapshotB "/app/atom" true
            (snd (atomembed.EnsureExtracted sample.snapshotA "/app/atom" false
                    (lexfs.start sample.fresh))))
     = (true, None)
  /\ calls (snd (atomembed.EnsureExtracted sample.snapshotB "/app/atom" true
                   (snd (atomembed.EnsureExtracted sample.snapshotA "/app/atom"
                           false (lexfs.start sample.fresh)))))
     = calls (snd (atomembed.EnsureExtracted sample.snapshotA "/app/atom" false
                     (lexfs.start sample.fresh)))
       ++ [ CallRemoveAll "/app/atom";
            CallMkdirAll "/app/atom" 493;
            CallMkdirAll "/app/atom" 493;
            CallOpenFile "/app/atom/index.php" 420;
            CallWrite "/app/atom/index.php" "<?php echo 2;";
            CallClose "/app/atom/index.php";
            CallMkdirAll "/app/atom/downloads" 493;
            CallOpenFile "/app/atom/downloads/guide.pdf" 420;
            CallWrite "/app/atom/downloads/guide.pdf" "%PDF";
            CallClose "/app/atom/downloads/guide.pdf";
            CallWriteFile "/app/atom/.valence-atom-version" sample.digestB 420 ]
  /\ lexfs.readDir
       (world (snd (atomembed.EnsureExtracted sample.snapshotB "/app/atom" true
                      (snd (atomembed.EnsureExtracted sample.snapshotA
                              "/app/atom" false (lexfs.start sample.fresh))))))
       "/app/atom"
     = Ok [".valence-atom-version"; "downloads"; "index.php"]
  /\ lexfs.readFile
       (world (snd (atomembed.EnsureExtracted sample.snapshotB "/app/atom" true
                      (snd (atomembed.EnsureExtracted sample.snapshotA
                              "/app/atom" false (lexfs.start sample.fresh))))))
       "/app/atom/index.php"
     = Ok "<?php echo 2;"
  /\ lexfs.readFile
       (world (snd (atomembed.EnsureExtracted sample.snapshotB "/app/atom" true
                      (snd (atomembed.EnsureExtracted sample.snapshotA
                              "/app/atom" false (lexfs.start sample.fresh))))))
       "/app/atom/downloads/guide.pdf"
     = Ok "%PDF".
Proof.
  destruct (conflict_then_force (laws := LexfsFacts.lexLaws)
              sample.snapshotA sample.snapshotB "/app/atom" false
              (lexfs.start sample.fresh)
              (snd (atomembed.EnsureExtracted sample.snapshotA "/app/atom" false
                      (lexfs.start sample.fresh))))
    as (E1 & _ & E3).
  - reflexivity.
  - vm_compute. discriminate.
  - vm_compute. reflexivity.
  - split; [exact E1|].
    set (s1 := snd (atomembed.EnsureExtracted sample.snapshotA "/app/atom" false
                      (lexfs.start sample.fresh))) in *.
    destruct (E3 (snd (RemoveAll "/app/atom" s1))
                 (snd (atomembed.extractArchive sample.snapshotB "/app/atom"
                         (snd (RemoveAll "/app/atom" s1))))
                 (fst (lexfs.writeFile
                         (world (snd (atomembed.extractArchive sample.snapshotB
                                        "/app/atom"
                                        (snd (RemoveAll "/app/atom" s1)))))
                         "/app/atom/.valence-atom-version" sample.digestB 420)))
      as (E & _ & Ec & Ew).
    + vm_compute. reflexivity.
    + vm_compute. reflexivity.
    + vm_compute. reflexivity.
    + rewrite E. cbn [fst snd calls world]. rewrite Ec, Ew.
      repeat split; vm_compute; reflexivity.
Defined.

Example forced_replaces_snapshot :
  fst (atomembed.EnsureExtracted sample.snapshotB "/app/atom" true
         (snd (atomembed.EnsureExtracted sample.snapshotA "/app/atom" false
                 (lexfs.start sample.fresh))))
  = (true, None)
  /\ lexfs.readFile
       (world (snd (atomembed.EnsureExtracted sample.snapshotB "/app/atom" true
                      (snd (atomembed.EnsureExtracted sample.snapshotA
                              "/app/atom" false (lexfs.start sample.fresh))))))
       "/app/atom/.valence-atom-version"
     = Ok sample.digestB
  /\ lexfs.readFile
       (world (snd (atomembed.EnsureExtracted sample.snapshotB "/app/atom" true
                      (snd (atomembed.EnsureExtracted sample.snapshotA
                              "/app/atom" false (lexfs.start sample.fresh))))))
       "/app/atom/css/main.css"
     = Err (Errno ENOENT).
Proof. repeat split; vm_compute; reflexivity. Qed.


(** ** What a failed extraction leaves, in the reference file system *)

Module PartialFacts.
Import strings path lexfs atomembed LexfsFacts EnsureFacts.

(** *** Lookups that an update does not reach *)

Lemma assoc_remove_ne (A : Type) (x y : str) (l : list (str * A)) :
  streq y x = false -> assoc y (remove x l) = assoc y l.
Proof.
  intros Hne. induction l as [|[k v] l IH]; [reflexivity|].
  simpl. destruct (streq x k) eqn:Exk.
  - apply streq_eq in Exk; subst k. now rewrite Hne.
  - simpl. now rewrite IH.
Qed.

Lemma assoc_remove_eq (A : Type) (x : str) (l : list (str * A)) :
  assoc x (remove x l) = None.
Proof.
  induction l as [|[k v] l IH]; [reflexivity|].
  simpl. destruct (streq x k) eqn:Exk; [exact IH|].
  simpl. now rewrite Exk.
Qed.

Lemma assoc_set_ne (A : Type) (x y : str) (v : A) (l : list (str * A)) :
  streq y x = false -> assoc y (set x v l) = assoc y l.
Proof.
  intros Hne. unfold set. simpl. rewrite Hne. now apply assoc_remove_ne.
Qed.

Lemma walk_cons (perm : Z) (es : list (str * node)) (x : str) (rest : list str) :
  walk (Dir perm es) (x :: rest) =
  match assoc x es with
  | Some c => walk c rest
  | None => Err ENOENT
  end.
Proof. reflexivity. Qed.

Lemma walk_app (l1 l2 : list str) :
  forall n,
    walk n (l1 ++ l2) =
    match walk n l1 with
    | Ok v => walk v l2
    | Err e => Err e
    end.
Proof.
  induction l1 as [|x l1 IH]; intros n; [reflexivity|].
  simpl. destruct n as [| |perm es]; try reflexivity.
  destruct (assoc x es); [apply IH|reflexivity].
Qed.

Lemma walk_nondir (n : node) (x : str) (rest : list str) :
  isDirNode n = false -> exists e, walk n (x :: rest) = Err e.
Proof. destruct n; simpl; [eauto|eauto|discriminate]. Qed.

Lemma walk_freshDirs (perm : Z) (loc l : list str) (v : node) :
  walk (freshDirs perm loc) l = Ok v -> isDirNode v = true.
Proof.
  revert l; induction loc as [|x loc IH]; intros l.
  - destruct l; simpl; [now intros [= <-]|discriminate].
  - destruct l as [|y l]; simpl; [now intros [= <-]|].
    destruct (streq y x); [apply IH|discriminate].
Qed.

(** [mkdirAll] creates directories only. *)
Lemma mkdirAll_file (perm : Z) (loc : list str) :
  forall n n' l q c,
    mkdirAll perm loc n = Ok n' ->
    walk n' l = Ok (File q c) -> walk n l = Ok (File q c).
Proof.
  induction loc as [|x rest IH]; intros n n' l q c Hm Hw.
  - destruct n; simpl in Hm; try discriminate. now injection Hm as <-.
  - simpl in Hm. destruct n as [| |p es]; try discriminate.
    destruct l as [|y l']; [|rewrite walk_cons].
    { destruct (assoc x es) as [c0|]; [destruct (mkdirAll perm rest c0)|];
        try discriminate; injection Hm as <-; discriminate. }
    destruct (assoc x es) as [c0|] eqn:Ex.
    + destruct (mkdirAll perm rest c0) as [c'|e] eqn:Em; [|discriminate].
      injection Hm as <-. rewrite walk_cons in Hw.
      destruct (streq_spec y x) as [->|Hne].
      * rewrite assoc_set in Hw. rewrite Ex. eapply IH; eauto.
      * rewrite assoc_set_ne in Hw; [exact Hw|].
        destruct (streq_spec y x); [contradiction|reflexivity].
    + injection Hm as <-. rewrite walk_cons in Hw.
      destruct (streq_spec y x) as [->|Hne].
      * rewrite assoc_set in Hw. apply walk_freshDirs in Hw. discriminate.
      * rewrite assoc_set_ne in Hw; [exact Hw|].
        destruct (streq_spec y x); [contradiction|reflexivity].
Qed.

(** An update that puts no directory in place changes the regular file
    found at [l] only when [l] is the place updated. *)
Lemma alter_file (f : option node -> result errno (option node))
    (loc : list str) :
  (forall old r, f old = Ok (Some r) -> isDirNode r = false) ->
  forall n n' l q c,
    alter f loc n = Ok n' ->
    walk n' l = Ok (File q c) ->
    (l = loc
     /\ exists old, f old = Ok (Some (File q c))
                    /\ forall v, old = Some v -> walk n loc = Ok v)
    \/ walk n l = Ok (File q c).
Proof.
  intros Hf. induction loc as [|x rest IH]; intros n n' l q c Ha Hw;
    [discriminate|].
  simpl in Ha. destruct n as [| |p es]; try discriminate.
  assert (Hne : forall y l' (m : node) es',
             streq y x = false ->
             walk (Dir p es') (y :: l') = Ok (File q c) ->
             assoc y es' = assoc y es ->
             walk (Dir p es) (y :: l') = Ok (File q c)).
  { intros y l' m es' _ Hw' Eas. rewrite walk_cons in *. now rewrite <- Eas. }
  destruct rest as [|z rest'].
  - destruct (f (assoc x es)) as [[c0|]|e] eqn:Ef; try discriminate;
      injection Ha as <-.
    + destruct l as [|y l']; [discriminate|].
      destruct (streq_spec y x) as [->|Hyx].
      * rewrite walk_cons, assoc_set in Hw.
        destruct l' as [|y' l''].
        -- simpl in Hw. injection Hw as ->. left. split; [reflexivity|].
           exists (assoc x es). split; [exact Ef|].
           intros v Ev. rewrite walk_cons, Ev. reflexivity.
        -- destruct (walk_nondir c0 y' l'' (Hf _ _ Ef)) as [e He].
           rewrite He in Hw. discriminate.
      * right. apply (Hne y l' c0 (set x c0 es)); auto.
        -- destruct (streq_spec y x); [contradiction|reflexivity].
        -- apply assoc_set_ne.
           destruct (streq_spec y x); [contradiction|reflexivity].
    + destruct l as [|y l']; [discriminate|].
      destruct (streq_spec y x) as [->|Hyx].
      * rewrite walk_cons, assoc_remove_eq in Hw. discriminate.
      * right. apply (Hne y l' (Dir p es) (remove x es)); auto.
        -- destruct (streq_spec y x); [contradiction|reflexivity].
        -- apply assoc_remove_ne.
           destruct (streq_spec y x); [contradiction|reflexivity].
  - destruct (assoc x es) as [c1|] eqn:Ex; [|discriminate].
    destruct (alter f (z :: rest') c1) as [c'|e] eqn:Ea; [|discriminate].
    injection Ha as <-.
    destruct l as [|y l']; [discriminate|].
    destruct (streq_spec y x) as [->|Hyx].
    + rewrite walk_cons, assoc_set in Hw.
      destruct (IH c1 c' l' q c Ea Hw) as [(-> & old & Ef & Hold)|Hw'].
      * left. split; [reflexivity|]. exists old. split; [exact Ef|].
        intros v Ev. rewrite walk_cons, Ex. now apply Hold.
      * right. now rewrite walk_cons, Ex.
    + right. apply (Hne y l' c' (set x c' es)); auto.
      * destruct (streq_spec y x); [contradiction|reflexivity].
      * apply assoc_set_ne.
        destruct (streq_spec y x); [contradiction|reflexivity].
Qed.

(** Removal leaves nothing at the place removed or below it; and when it
    finds the place missing, nothing was there. *)
Lemma alter_remove (loc l : list str) :
  forall n,
    match alter (fun _ => Ok None) loc n with
    | Ok n' => exists e, walk n' (loc ++ l) = Err e
    | Err ENOENT => exists e, walk n (loc ++ l) = Err e
    | Err _ => True
    end.
Proof.
  induction loc as [|x rest IH]; intros n; [exact I|].
  simpl alter. destruct n as [| |p es]; [simpl; eauto|simpl; eauto|].
  destruct rest as [|z rest'].
  - simpl. rewrite assoc_remove_eq. eauto.
  - destruct (assoc x es) as [c1|] eqn:Ex; [|simpl; rewrite ?Ex; eauto].
    specialize (IH c1).
    destruct (alter (fun _ => Ok None) (z :: rest') c1) as [c'|e].
    + change ((x :: z :: rest') ++ l) with (x :: (z :: rest') ++ l).
      rewrite walk_cons, assoc_set. exact IH.
    + destruct e; try exact I.
      change ((x :: z :: rest') ++ l) with (x :: (z :: rest') ++ l).
      rewrite walk_cons, Ex. exact IH.
Qed.

(** *** Calls that keep the marker unwritten *)

Lemma update_cases (w w' : fs) (p : str)
    (f : option node -> result errno (option node)) (atRoot : errno)
    (r : option error) :
  update w p f atRoot = (w', r) ->
  (w' = w /\ r <> None)
  \/ exists loc, locOf w p = Some loc
                 /\ alter f loc (root w) = Ok (root w')
                 /\ cwd w' = cwd w /\ r = None.
Proof.
  unfold update.
  destruct (locOf w p) as [[|x loc]|];
    try (intros [= <- <-]; left; split; [reflexivity|discriminate]).
  destruct (alter f (x :: loc) (root w)) as [n'|e] eqn:Ea; simpl;
    intros [= <- <-]; [|left; split; [reflexivity|discriminate]].
  right. exists (x :: loc). auto.
Qed.

Lemma fileAt_alter (f : option node -> result errno (option node))
    (loc l : list str) (n n' : node) (c : str) :
  (forall old r, f old = Ok (Some r) -> isDirNode r = false) ->
  alter f loc n = Ok n' ->
  fileAt n' l = Some c ->
  (l = loc
   /\ exists old q, f old = Ok (Some (File q c))
                    /\ forall v, old = Some v -> walk n loc = Ok v)
  \/ fileAt n l = Some c.
Proof.
  intros Hf Ha Hc. unfold fileAt in *.
  destruct (walk n' l) as [[q d| |]|] eqn:Hw; try discriminate.
  injection Hc as ->.
  destruct (alter_file f loc Hf n n' l q c Ha Hw) as [(-> & old & Ef & Hold)|Hw'].
  - left. split; [reflexivity|]. eauto.
  - right. now rewrite Hw'.
Qed.

Section Marker.
Variables (cwd0 mloc : list str) (hash : str).
Hypothesis hash_nonempty : hash <> [].

Lemma unmarked_same (w w' : fs) :
  unmarked cwd0 mloc hash w -> w' = w -> unmarked cwd0 mloc hash w'.
Proof. now intros H ->. Qed.

Lemma unmarked_mkdirAllAt (w : fs) (p : str) (perm : Z) :
  unmarked cwd0 mloc hash w ->
  unmarked cwd0 mloc hash (fst (mkdirAllAt w p perm)).
Proof.
  intros [Hc Hm]. unfold mkdirAllAt.
  destruct (locOf w p) as [loc|]; [|now split].
  destruct (mkdirAll perm loc (root w)) as [n'|e] eqn:Em; simpl; [|now split].
  split; [exact Hc|]. intros c Hf. apply Hm.
  unfold fileAt in *. simpl in Hf.
  destruct (walk n' mloc) as [[q d| |]|] eqn:Hw; try discriminate.
  now rewrite (mkdirAll_file perm loc _ _ _ _ _ Em Hw).
Qed.

Lemma unmarked_update (w : fs) (p : str)
    (f : option node -> result errno (option node)) (atRoot : errno) :
  (forall old r, f old = Ok (Some r) -> isDirNode r = false) ->
  (forall old q c, f old = Ok (Some (File q c)) -> TrimSpace c <> hash) ->
  unmarked cwd0 mloc hash w ->
  unmarked cwd0 mloc hash (fst (update w p f atRoot)).
Proof.
  intros Hf Hc [Hcwd Hm].
  destruct (update w p f atRoot) as [w' r] eqn:Eu. simpl.
  apply update_cases in Eu as [[-> _]|(loc & Hl & Ha & Ecwd & _)]; [now split|].
  split; [congruence|]. intros c Hfile.
  destruct (fileAt_alter f loc mloc _ _ c Hf Ha Hfile)
    as [(_ & old & q & Ef & _)|Hold]; eauto.
Qed.

Lemma unmarked_symlink (w : fs) (oldname newname : str) :
  unmarked cwd0 mloc hash w ->
  unmarked cwd0 mloc hash (fst (symlink w oldname newname)).
Proof.
  apply unmarked_update.
  - intros [v|] r; [discriminate|]. now intros [= <-].
  - intros [v|] q c; discriminate.
Qed.

Lemma TrimSpace_nil : TrimSpace [] = [].
Proof. reflexivity. Qed.

Lemma unmarked_openFile (w : fs) (p : str) (perm : Z) :
  unmarked cwd0 mloc hash w ->
  unmarked cwd0 mloc hash (fst (openFile w p perm)).
Proof.
  apply unmarked_update.
  - intros old r E. apply truncated_some in E as [perm' [= ->]]. reflexivity.
  - intros old q c E. apply truncated_some in E as [perm' [= _ ->]].
    rewrite TrimSpace_nil. congruence.
Qed.

(** Writing into a file just opened leaves the bytes written. *)
Lemma unmarked_write (w0 w1 : fs) (p data : str) (perm : Z) :
  unmarked cwd0 mloc hash w0 ->
  openFile w0 p perm = (w1, None) ->
  TrimSpace data <> hash ->
  unmarked cwd0 mloc hash (fst (write w1 p data)).
Proof.
  intros H0 Eo Hd.
  pose proof (unmarked_openFile w0 p perm H0) as H1. rewrite Eo in H1.
  simpl in H1.
  unfold openFile in Eo.
  apply update_cases in Eo as [[_ Hr]|(loc & Hl & Ha & Ecwd & _)];
    [now contradiction Hr|].
  destruct (walk_alter _ loc _ _ Ha) as (old0 & c0 & Ef0 & Hw0).
  { intros old r E. apply truncated_some in E as [perm' ->]. discriminate. }
  apply truncated_some in Ef0 as [perm' [= ->]].
  unfold write.
  match goal with |- context [update w1 p ?g EBADF] => set (f := g) end.
  assert (Hf : forall old r', f old = Ok (Some r') -> isDirNode r' = false).
  { intros [[q d| |]|] r' E; try discriminate. now injection E as <-. }
  destruct (update w1 p f EBADF) as [w2 r] eqn:Eu. simpl.
  apply update_cases in Eu as [[-> _]|(loc' & Hl' & Ha' & Ecwd' & _)]; [exact H1|].
  assert (loc' = loc).
  { unfold locOf in Hl, Hl'. rewrite Ecwd in Hl'. congruence. }
  subst loc'. destruct H1 as [Hc1 Hm1].
  split; [congruence|]. intros c Hfile.
  destruct (fileAt_alter f loc mloc _ _ c Hf Ha' Hfile)
    as [(_ & old & q & Ef & Hold)|Hold]; [|now apply Hm1].
  destruct old as [[q0 d| |]|]; try discriminate.
  injection Ef as -> <-.
  specialize (Hold _ eq_refl). rewrite Hw0 in Hold.
  injection Hold as _ <-. exact Hd.
Qed.

End Marker.

(** *** The extraction keeps the marker unwritten *)

Lemma perform_eq (c : syscall) (f : fs -> fs * option error) (s : state fs) :
  perform c f s
  = (snd (f (world s)),
     {| world := fst (f (world s)); calls := calls s ++ [c] |}).
Proof. unfold perform. now destruct (f (world s)). Qed.

Lemma locOf_cwd (w w' : fs) (p : str) : cwd w' = cwd w -> locOf w' p = locOf w p.
Proof. unfold locOf. now intros ->. Qed.

Section Extraction.
Variables (cwd0 mloc : list str) (hash : str).
Hypothesis hash_nonempty : hash <> [].

Local Abbreviation ok := (unmarked cwd0 mloc hash).

Lemma writeRegular_unmarked (dstPath : str) (e : Entry) (s : state fs) :
  TrimSpace (body e) <> hash ->
  ok (world s) -> ok (world (snd (writeRegular dstPath e s))).
Proof.
  intros Hb H0. unfold writeRegular, bind, MkdirAll, OpenFile, Write, Close, ret.
  rewrite perform_eq.
  pose proof (unmarked_mkdirAllAt cwd0 mloc hash (world s) (path.Dir dstPath) 493 H0)
    as H1.
  change (os_MkdirAll (world s) (path.Dir dstPath) 493)
    with (mkdirAllAt (world s) (path.Dir dstPath) 493).
  destruct (mkdirAllAt (world s) (path.Dir dstPath) 493) as [w1 [err|]]; simpl in *;
    [exact H1|].
  rewrite perform_eq. simpl.
  change (os_OpenFile w1 dstPath (Perm (Mode (hdr e))))
    with (openFile w1 dstPath (Perm (Mode (hdr e)))).
  pose proof (unmarked_openFile cwd0 mloc hash hash_nonempty w1 dstPath
                (Perm (Mode (hdr e))) H1) as H2.
  destruct (openFile w1 dstPath (Perm (Mode (hdr e)))) as [w2 [err|]] eqn:Eo;
    simpl in *; [exact H2|].
  rewrite perform_eq. simpl.
  change (os_Write w2 dstPath (body e)) with (write w2 dstPath (body e)).
  pose proof (unmarked_write cwd0 mloc hash hash_nonempty w1 w2 dstPath (body e)
                (Perm (Mode (hdr e))) H1 Eo Hb) as H3.
  destruct (write w2 dstPath (body e)) as [w3 r3]; simpl in *.
  destruct (match r3 with Some err => Some err | None => bodyErr e end);
    rewrite ?perform_eq; simpl; exact H3.
Qed.

Lemma extractEntry_unmarked (target : str) (e : Entry) (s : state fs) :
  TrimSpace (body e) <> hash ->
  ok (world s) -> ok (world (snd (extractEntry target e s))).
Proof.
  intros Hb H0. unfold extractEntry.
  destruct (streq (Name (hdr e)) []); [exact H0|].
  destruct (HasPrefix (Clean (Name (hdr e))) ".." || IsAbs (Clean (Name (hdr e))));
    [exact H0|].
  destruct (Typeflag (hdr e)); try exact H0.
  - now apply writeRegular_unmarked.
  - now apply writeRegular_unmarked.
  - unfold bind, MkdirAll, Symlink, ret. rewrite perform_eq.
    pose proof (unmarked_mkdirAllAt cwd0 mloc hash (world s)
                  (path.Dir (Join target (Clean (Name (hdr e))))) 493 H0) as H1.
    change (os_MkdirAll (world s) (path.Dir (Join target (Clean (Name (hdr e))))) 493)
      with (mkdirAllAt (world s) (path.Dir (Join target (Clean (Name (hdr e))))) 493).
    destruct (mkdirAllAt (world s) (path.Dir (Join target (Clean (Name (hdr e))))) 493)
      as [w1 [err|]]; simpl in *; [exact H1|].
    rewrite perform_eq. simpl.
    change (os_Symlink w1 (Linkname (hdr e)) (Join target (Clean (Name (hdr e)))))
      with (symlink w1 (Linkname (hdr e)) (Join target (Clean (Name (hdr e))))).
    pose proof (unmarked_symlink cwd0 mloc hash w1 (Linkname (hdr e))
                  (Join target (Clean (Name (hdr e)))) H1) as H2.
    destruct (symlink w1 (Linkname (hdr e)) (Join target (Clean (Name (hdr e)))))
      as [w2 [err|]]; simpl in *; [|exact H2].
    destruct (negb (errors.IsExist err)); exact H2.
  - unfold MkdirAll. rewrite perform_eq. simpl.
    apply (unmarked_mkdirAllAt cwd0 mloc hash (world s)), H0.
Qed.

Lemma extractEntries_unmarked (target : str) (es : list Entry)
    (atEnd : option error) :
  (forall e, In e es -> TrimSpace (body e) <> hash) ->
  forall s, ok (world s) -> ok (world (snd (extractEntries target es atEnd s))).
Proof.
  induction es as [|e es IH]; intros Hes s H0; [exact H0|].
  simpl. unfold bind.
  pose proof (extractEntry_unmarked target e s (Hes e (or_introl eq_refl)) H0) as H1.
  destruct (extractEntry target e s) as [[err|] s1]; simpl in *; [exact H1|].
  apply IH; [|exact H1]. intros e' He'. apply Hes. now right.
Qed.

Lemma extractArchive_unmarked (a : Archive) (target : str) (s : state fs) :
  (forall e, In e (tarEntries a) -> TrimSpace (body e) <> hash) ->
  ok (world s) -> ok (world (snd (extractArchive a target s))).
Proof.
  intros Hes H0. unfold extractArchive.
  destruct (negb (ArchiveAvailable a)); [exact H0|].
  unfold bind, MkdirAll. rewrite perform_eq.
  pose proof (unmarked_mkdirAllAt cwd0 mloc hash (world s) target 493 H0) as H1.
  change (os_MkdirAll (world s) target 493) with (mkdirAllAt (world s) target 493).
  destruct (mkdirAllAt (world s) target 493) as [w1 [err|]]; simpl in *;
    [exact H1|].
  destruct (gzipErr a); [exact H1|].
  now apply extractEntries_unmarked.
Qed.

End Extraction.

(** *** Where the extraction starts *)

Lemma nothing_below (n : node) (locT : list str) (name : str) :
  (exists e, walk n (locT ++ [name]) = Err e) ->
  forall c, fileAt n (locT ++ [name]) = Some c -> False.
Proof. intros [e He] c. unfold fileAt. now rewrite He. Qed.

Lemma extractsFrom_unmarked (a : Archive) (target : str) (force : bool)
    (s sx : state fs) (locT : list str) (hash : str) :
  locOf (world s) target = Some locT ->
  extractsFrom a target force s sx ->
  unmarked (cwd (world s)) (locT ++ [markerFile]) hash (world sx).
Proof.
  intros Hl Hx.
  assert (Hstat : forall w, cwd w = cwd (world s) -> root w = root (world s) ->
                  (exists e, walk (root (world s)) (locT ++ [markerFile]) = Err e) ->
                  unmarked (cwd (world s)) (locT ++ [markerFile]) hash w).
  { intros w Hc Hr He. split; [exact Hc|]. rewrite Hr. intros c Hf.
    exfalso. eapply nothing_below; eauto. }
  destruct Hx as [(err & Hs & He & ->)|(Hs & Hm & [(_ & Hd & ->)|(_ & Hr)])].
  - (* the target does not exist *)
    apply Hstat; try reflexivity.
    simpl in Hs. unfold stat, lookup in Hs. rewrite Hl in Hs.
    rewrite walk_app.
    destruct (walk (root (world s)) locT) as [[| |]|e]; try discriminate;
      simpl; eauto.
  - (* the target is an empty directory *)
    apply Hstat; try reflexivity.
    revert Hd. unfold dirEmpty, bind, ReadDir, query, ret. simpl.
    unfold readDir, lookup. rewrite Hl, walk_app.
    destruct (walk (root (world s)) locT) as [[| |p es]|e]; simpl;
      try discriminate.
    destruct es as [|[k v] es]; [simpl; eauto|discriminate].
  - (* the target was removed *)
    unfold RemoveAll in Hr. rewrite perform_eq in Hr.
    change (os_RemoveAll (world s) target) with (removeAll (world s) target) in Hr.
    injection Hr as Hnone <-. simpl.
    revert Hnone. unfold removeAll.
    destruct target as [|c0 t0]; [discriminate|].
    destruct (endsWithDot (c0 :: t0)); [discriminate|].
    rewrite Hl. destruct locT as [|x locT']; [discriminate|].
    pose proof (alter_remove (x :: locT') [markerFile] (root (world s))) as Hrm.
    destruct (alter (fun _ => Ok None) (x :: locT') (root (world s)))
      as [n'|e]; simpl.
    + intros _. split; [reflexivity|]. simpl. intros c Hf.
      exfalso. eapply nothing_below; eauto.
    + destruct e; try discriminate. intros _.
      apply Hstat; try reflexivity. exact Hrm.
Qed.

(** In the reference file system, whatever state an extraction ends in,
    the marker does not match when the archive does not hold its own
    digest. *)
Lemma extraction_leaves_unmarked (a : Archive) (target : str) (force : bool)
    (s sx : state fs) :
  TrimSpace target <> [] ->
  ArchiveHash a <> [] ->
  (forall e, In e (tarEntries a) -> TrimSpace (body e) <> ArchiveHash a) ->
  extractsFrom a target force s sx ->
  fst (markerMatches a target (snd (extractArchive a target sx))) = false.
Proof.
  intros Hb Hh Hes Hx.
  destruct (locOf_Join (world s) target markerFile
              (MarkerFacts.nonblank_nonempty _ Hb) eq_refl)
    as (locT & HT & HJ).
  pose proof (extractsFrom_unmarked a target force s sx locT (ArchiveHash a) HT Hx)
    as H0.
  pose proof (extractArchive_unmarked (cwd (world s)) (locT ++ [markerFile])
                (ArchiveHash a) Hh a target sx Hes H0) as [Hc Hm].
  set (s2 := snd (extractArchive a target sx)) in *.
  unfold markerMatches, bind, ReadFile, query, ret. simpl.
  unfold readFile, lookup. rewrite (locOf_cwd (world s) (world s2) _ Hc), HJ.
  specialize (Hm). unfold fileAt in Hm.
  destruct (walk (root (world s2)) (locT ++ [markerFile])) as [[q c| |]|e];
    simpl; try reflexivity.
  destruct (streq_spec (TrimSpace c) (ArchiveHash a)) as [E|_]; [|reflexivity].
  now apply Hm in E.
Qed.

End PartialFacts.

(** X27.  The marker is written last, after an extraction that returned
    no error.  A run of [EnsureExtracted] whose extraction fails returns
    [didExtract = false] with that error in the state the extraction
    ended in, without a [WriteFile] call; every run that returns
    [didExtract = false] has issued no [WriteFile] call; and a run that
    returns [didExtract = true] has extracted without error, from the
    state it reached the extraction in, and then called [WriteFile] on the
    marker, once, as its last call.  In the reference file system, which
    follows no link, and when no entry of the archive holds the archive's
    digest, the tree a failed extraction leaves has no matching marker,
    so no later call reports it up to date. *)
Theorem marker_written_after_extraction {W : Type} `{OS W}
    (a : atomembed.Archive) (target : str) (force : bool) (s : state W) :
  let r := atomembed.EnsureExtracted a target force s in
  (forall sx err s2,
     strings.TrimSpace target <> [] ->
     atomembed.extractsFrom a target force s sx ->
     atomembed.extractArchive a target sx = (Some err, s2) ->
     r = ((false, Some err), s2)
     /\ exists new, calls s2 = calls s ++ new /\ existsb isWriteFile new = false)
  /\ (fst (fst r) = false ->
      exists new, calls (snd r) = calls s ++ new
                  /\ existsb isWriteFile new = false)
  /\ (fst (fst r) = true ->
      exists sx s2 body,
        atomembed.extractsFrom a target force s sx
        /\ atomembed.extractArchive a target sx = (None, s2)
        /\ snd r = snd (WriteFile (path.Join target atomembed.markerFile)
                          (atomembed.ArchiveHash a) 420 s2)
        /\ calls s2 = calls s ++ body
        /\ existsb isWriteFile body = false)
  /\ (forall (t tx t2 : state lexfs.fs) (force1 force2 : bool) err,
        strings.TrimSpace target <> [] ->
        atomembed.isHexDigest (atomembed.ArchiveHash a) = true ->
        (forall e, In e (atomembed.tarEntries a) ->
                   strings.TrimSpace (atomembed.body e) <> atomembed.ArchiveHash a) ->
        atomembed.extractsFrom a target force1 t tx ->
        atomembed.extractArchive a target tx = (Some err, t2) ->
        fst (atomembed.markerMatches a target t2) = false
        /\ fst (atomembed.EnsureExtracted a target force2 t2) <> (false, None)).
Proof.
  intros r.
  assert (Hx : forall sx s2 e,
             atomembed.extractsFrom a target force s sx ->
             atomembed.extractArchive a target sx = (e, s2) ->
             exists new, calls s2 = calls s ++ new
                         /\ existsb isWriteFile new = false).
  { intros sx s2 e Hfrom Hex.
    destruct (EnsureFacts.extractsFrom_calls a target force s sx Hfrom)
      as (n1 & E1 & F1).
    destruct (AtomembedFacts.extractArchive_notWriteFile a target sx)
      as (n2 & E2 & F2).
    rewrite Hex in E2. simpl in E2.
    exists (n1 ++ n2). rewrite E2, E1, app_assoc. split; [reflexivity|].
    apply EnsureFacts.Forall_notWriteFile, Forall_app. auto. }
  split; [|split; [|split]].
  - intros sx err s2 Hb Hfrom Hex. split; [|apply (Hx sx s2 _ Hfrom Hex)].
    unfold r. rewrite (EnsureFacts.EnsureExtracted_extracts a target force s sx Hb Hfrom).
    rewrite EnsureFacts.extractAndMark_unfold, Hex. reflexivity.
  - intros Hf.
    destruct (EnsureFacts.EnsureExtracted_cases a target force s)
      as [(err & E)|[(err & s1 & Hr & E)|(sx & Hb & Hfrom & E)]];
      fold r in E.
    + rewrite E. exists []. simpl. now rewrite app_nil_r.
    + rewrite E. simpl.
      destruct (TraceFacts.traced_perform (W := W) notWriteFile
                  (CallRemoveAll target) (fun w => os_RemoveAll w target)
                  eq_refl s) as (new & En & F).
      fold (RemoveAll target) in En. rewrite Hr in En.
      exists new. split; [exact En|].
      apply EnsureFacts.Forall_notWriteFile, F.
    + rewrite E in Hf |- *. rewrite EnsureFacts.extractAndMark_unfold in Hf |- *.
      destruct (atomembed.extractArchive a target sx) as [[err|] s2] eqn:Hex.
      * simpl. apply (Hx sx s2 _ Hfrom Hex).
      * destruct (WriteFile (path.Join target atomembed.markerFile)
                    (atomembed.ArchiveHash a) 420 s2) as [[err|] s3];
          discriminate.
  - intros Ht.
    destruct (EnsureFacts.EnsureExtracted_cases a target force s)
      as [(err & E)|[(err & s1 & Hr & E)|(sx & Hb & Hfrom & E)]];
      fold r in E; try (rewrite E in Ht; discriminate).
    rewrite E in Ht |- *. rewrite EnsureFacts.extractAndMark_unfold in Ht |- *.
    destruct (atomembed.extractArchive a target sx) as [[err|] s2] eqn:Hex;
      [discriminate|].
    destruct (Hx sx s2 _ Hfrom Hex) as (body & Eb & Fb).
    exists sx, s2, body. repeat split; auto.
    destruct (WriteFile (path.Join target atomembed.markerFile)
                (atomembed.ArchiveHash a) 420 s2) as [[err|] s3]; reflexivity.
  - intros t tx t2 force1 force2 err Hb Hh Hes Hfrom Hex.
    assert (Hne : atomembed.ArchiveHash a <> []).
    { intros E. rewrite E in Hh. discriminate. }
    pose proof (PartialFacts.extraction_leaves_unmarked a target force1 t tx
                  Hb Hne Hes Hfrom) as Hm.
    rewrite Hex in Hm. simpl in Hm.
    split; [exact Hm|]. now apply EnsureFacts.not_up_to_date.
Qed.

Lemma marker_not_written_witness :
  atomembed.EnsureExtracted sample.crafted "/app/atom" false
    (lexfs.start sample.fresh)
  = ((false, Some (errors.New "archive contains invalid path")),
     snd (atomembed.extractArchive sample.crafted "/app/atom"
            (lexfs.start sample.fresh)))
  /\ fst (atomembed.EnsureExtracted sample.crafted "/app/atom" false
            (snd (atomembed.extractArchive sample.crafted "/app/atom"
                    (lexfs.start sample.fresh))))
     <> (false, None).
Proof.
  pose proof (marker_written_after_extraction sample.crafted "/app/atom" false
                (lexfs.start sample.fresh)) as (H1 & _ & _ & H4).
  assert (Hfrom : atomembed.extractsFrom sample.crafted "/app/atom" false
                    (lexfs.start sample.fresh) (lexfs.start sample.fresh)).
  { left. exists (Errno ENOENT). repeat split. }
  split.
  - apply (H1 (lexfs.start sample.fresh)
              (errors.New "archive contains invalid path"));
      [vm_compute; discriminate|exact Hfrom|vm_compute; reflexivity].
  - apply (H4 (lexfs.start sample.fresh) (lexfs.start sample.fresh)
              (snd (atomembed.extractArchive sample.crafted "/app/atom"
                      (lexfs.start sample.fresh)))
              false false (errors.New "archive contains invalid path")).
    + vm_compute. discriminate.
    + reflexivity.
    + simpl. intros e [<-|[<-|[<-|[]]]]; vm_compute; discriminate.
    + exact Hfrom.
    + vm_compute. reflexivity.
Defined.


(** ** Links laid by the archive, on a file system that follows them *)

(** C5.  An archive with an escaping entry whose extraction does write a
    file outside the target.  The archive holds a link [x] to [/etc], a
    regular file [x/passwd] and the entry [../../etc/passwd]; it is
    extracted into [/app/atom] on a file system that follows links.  The
    extraction returns the error of the invalid path, having issued no
    call for the third entry, and every path it handed to a call lies
    lexically within the target; yet [/etc/passwd], which is not within
    the target, no longer holds what it held: it holds the bytes of the
    second entry, written through the link the first entry laid. *)
Theorem extractArchive_escapes_through_link :
  let s := linkfs.start sample.host in
  let r := atomembed.extractArchive sample.linked "/app/atom" s in
  map atomembed.escapes (atomembed.tarEntries sample.linked)
  = [false; false; true]
  /\ fst r = Some (errors.New "archive contains invalid path")
  /\ calls (snd r)
     = [ CallMkdirAll "/app/atom" 493;
         CallMkdirAll "/app/atom" 493;
         CallSymlink "/etc" "/app/atom/x";
         CallMkdirAll "/app/atom/x" 493;
         CallOpenFile "/app/atom/x/passwd" 420;
         CallWrite "/app/atom/x/passwd" "root::0:0";
         CallClose "/app/atom/x/passwd" ]
  /\ forallb (fun c => match writesFileAt c with
                       | Some p => path.within "/app/atom" p
                       | None => true
                       end) (calls (snd r)) = true
  /\ path.within "/app/atom" "/etc/passwd" = false
  /\ os_ReadFile (world s) "/etc/passwd" = Ok "root:x:0:0"
  /\ os_ReadFile (world (snd r)) "/etc/passwd" = Ok "root::0:0".
Proof.
  intros s r. repeat (split; [vm_compute; reflexivity|]).
  vm_compute. reflexivity.
Qed.

(** C8.  A partial tree that a later call reports up to date.  The
    archive holds a link at the marker's name to a file outside the
    target that holds the archive's digest, then [index.php], then the
    entry [../../etc/passwd] and one more file.  On a file system that
    follows links, [EnsureExtracted] on the missing target [/app/atom]
    returns [didExtract = false] with the error of the invalid path and
    has issued no [WriteFile] call; the last file of the archive is not
    in the tree; and every later call, forced or not, returns
    [(false, nil)] and leaves that tree as it is. *)
Theorem partial_tree_reported_up_to_date :
  let s := linkfs.start sample.released in
  let r := atomembed.EnsureExtracted sample.selfMarked "/app/atom" false s in
  fst r = (false, Some (errors.New "archive contains invalid path"))
  /\ calls (snd r)
     = [ CallMkdirAll "/app/atom" 493;
         CallMkdirAll "/app/atom" 493;
         CallSymlink "/srv/release/digest" "/app/atom/.valence-atom-version";
         CallMkdirAll "/app/atom" 493;
         CallOpenFile "/app/atom/index.php" 420;
         CallWrite "/app/atom/index.php" "<?php";
         CallClose "/app/atom/index.php" ]
  /\ existsb isWriteFile (calls (snd r)) = false
  /\ os_Stat (world (snd r)) "/app/atom/lib/boot.php" = Err (Errno ENOENT)
  /\ forall force,
       atomembed.EnsureExtracted sample.selfMarked "/app/atom" force (snd r)
       = ((false, None), snd r).
Proof.
  intros s r. repeat (split; [vm_compute; reflexivity|]).
  intros [|]; vm_compute; reflexivity.
Qed.


(** ** Text: splitting, trimming, replacing, numbers *)

Module TextFacts.
Import strings StringsFacts.

(** *** Bytes that are no white space *)

Lemma solid_not_space (c : ascii) (t : str) :
  solid c = true ->
  spaceWidth spaceRunes (c :: t) = 0
  /\ spaceWidth (map (@rev ascii) spaceRunes) (c :: t) = 0.
Proof.
  destruct c as [[] [] [] [] [] [] [] []]; intros Hc;
    try discriminate Hc; split; reflexivity.
Qed.

Lemma trimLeading_head (runes : list str) (fuel : nat) (s : str) :
  spaceWidth runes s = 0 -> trimLeading fuel runes s = s.
Proof. intros E. destruct fuel; simpl; [reflexivity|now rewrite E]. Qed.

(** [TrimSpace] looks at the two ends only. *)
Lemma TrimSpace_ends (s : str) :
  spaceWidth spaceRunes s = 0 ->
  spaceWidth (map (@rev ascii) spaceRunes) (rev s) = 0 ->
  TrimSpace s = s.
Proof.
  intros Hl Hr. unfold TrimSpace, TrimLeftSpace, TrimRightSpace.
  rewrite (trimLeading_head _ _ _ Hl), (trimLeading_head _ _ _ Hr).
  apply rev_involutive.
Qed.

Lemma TrimSpace_solid (s : str) : forallb solid s = true -> TrimSpace s = s.
Proof.
  intros Hs. destruct s as [|c t]; [reflexivity|].
  apply TrimSpace_ends.
  - simpl in Hs. apply andb_true_iff in Hs as [Hc _].
    apply (solid_not_space c t Hc).
  - assert (Hr : forallb solid (rev (c :: t)) = true)
      by now rewrite PathFacts.forallb_rev.
    destruct (rev (c :: t)) as [|d u] eqn:Er.
    + apply (f_equal (@length ascii)) in Er. rewrite length_rev in Er.
      discriminate.
    + simpl in Hr. apply andb_true_iff in Hr as [Hd _].
      apply (solid_not_space d u Hd).
Qed.

(** *** Splitting *)

Lemma without_cons (c x : ascii) (s : str) :
  without c (x :: s) = negb (Ascii.eqb c x) && without c s.
Proof. unfold without. simpl. now rewrite negb_orb. Qed.

Lemma without_app (c : ascii) (a b : str) :
  without c (a ++ b) = without c a && without c b.
Proof.
  unfold without. rewrite existsb_app. now rewrite negb_orb.
Qed.

Lemma Split_cons (s : str) (sep : ascii) :
  exists piece pieces, Split s sep = piece :: pieces.
Proof.
  induction s as [|c s IH]; simpl; [eauto|].
  destruct (Ascii.eqb c sep); [eauto|].
  destruct IH as (piece & pieces & ->). eauto.
Qed.

(** A string without the separator is its own single piece. *)
Lemma Split_whole (s : str) (sep : ascii) :
  without sep s = true -> Split s sep = [s].
Proof.
  induction s as [|c s IH]; [reflexivity|].
  rewrite without_cons. intros H. apply andb_true_iff in H as [Hc Hs].
  simpl. rewrite Ascii.eqb_sym. apply negb_true_iff in Hc. rewrite Hc.
  now rewrite (IH Hs).
Qed.

(** The first piece ends at the first separator. *)
Lemma Split_app (a b : str) (sep : ascii) :
  without sep a = true ->
  Split (a ++ sep :: b) sep = a :: Split b sep.
Proof.
  induction a as [|c a IH]; intros H.
  - simpl. now rewrite Ascii.eqb_refl.
  - rewrite without_cons in H. apply andb_true_iff in H as [Hc Ha].
    simpl. rewrite Ascii.eqb_sym. apply negb_true_iff in Hc. rewrite Hc.
    now rewrite (IH Ha).
Qed.

(** [Split] undoes [Join] on pieces that do not hold the separator. *)
Lemma Split_Join (piece : str) (pieces : list str) (sep : ascii) :
  forallb (without sep) (piece :: pieces) = true ->
  Split (Join (piece :: pieces) [sep]) sep = piece :: pieces.
Proof.
  revert piece. induction pieces as [|q pieces IH]; intros piece H.
  - simpl in H. apply andb_true_iff in H as [H _]. now apply Split_whole.
  - change (forallb (without sep) (piece :: q :: pieces))
      with (without sep piece && forallb (without sep) (q :: pieces)) in H.
    apply andb_true_iff in H as [Hp Hq].
    change (Join (piece :: q :: pieces) [sep])
      with (piece ++ sep :: Join (q :: pieces) [sep]).
    rewrite (Split_app _ _ _ Hp). now rewrite (IH q Hq).
Qed.

Lemma Split_pieces (s : str) (sep : ascii) :
  forallb (without sep) (Split s sep) = true.
Proof.
  induction s as [|c s IH]; [reflexivity|]. simpl.
  destruct (Ascii.eqb c sep) eqn:E; [exact IH|].
  destruct (Split s sep) as [|piece pieces]; simpl.
  - rewrite without_cons, Ascii.eqb_sym, E. reflexivity.
  - simpl in IH. rewrite without_cons, Ascii.eqb_sym, E. exact IH.
Qed.

(** [SplitN] with [n = 2] cuts at the first separator. *)
Lemma splitAtMost_step (k : nat) (c : ascii) (s : str) (sep : ascii) :
  splitAtMost (S k) (c :: s) sep
  = if Ascii.eqb c sep then [] :: splitAtMost k s sep
    else match splitAtMost (S k) s sep with
         | piece :: pieces => (c :: piece) :: pieces
         | [] => [[c]]
         end.
Proof. reflexivity. Qed.

Lemma splitAtMost_0 (s : str) (sep : ascii) : splitAtMost 0 s sep = [s].
Proof. now destruct s. Qed.

Lemma SplitN2 (s : str) (sep : ascii) : SplitN s sep 2 = splitAtMost 1 s sep.
Proof. reflexivity. Qed.

Lemma SplitN2_app (a b : str) (sep : ascii) :
  without sep a = true -> SplitN (a ++ sep :: b) sep 2 = [a; b].
Proof.
  rewrite SplitN2. induction a as [|c a IH]; intros H.
  - change ([] ++ sep :: b) with (sep :: b).
    rewrite splitAtMost_step, Ascii.eqb_refl, splitAtMost_0. reflexivity.
  - rewrite without_cons in H. apply andb_true_iff in H as [Hc Ha].
    change ((c :: a) ++ sep :: b) with (c :: (a ++ sep :: b)).
    rewrite splitAtMost_step, Ascii.eqb_sym.
    apply negb_true_iff in Hc. rewrite Hc. now rewrite (IH Ha).
Qed.

Lemma SplitN2_whole (s : str) (sep : ascii) :
  without sep s = true -> SplitN s sep 2 = [s].
Proof.
  rewrite SplitN2. induction s as [|c s IH]; intros H; [reflexivity|].
  rewrite without_cons in H. apply andb_true_iff in H as [Hc Hs].
  rewrite splitAtMost_step, Ascii.eqb_sym.
  apply negb_true_iff in Hc. rewrite Hc. now rewrite (IH Hs).
Qed.

(** *** Replacing one byte *)

Lemma ReplaceAll_byte (s : str) (c : ascii) (new : str) :
  ReplaceAll s [c] new
  = flat_map (fun x => if Ascii.eqb x c then new else [x]) s.
Proof.
  unfold ReplaceAll. induction s as [|x s IH]; [reflexivity|].
  simpl. destruct (Ascii.eqb x c); simpl; now rewrite IH.
Qed.

(** *** Decimal numbers *)

Import strconv.

Lemma digitOf_digit (m : nat) :
  m < 10 -> digitOf (ascii_of_nat (48 + m)) = Some (Z.of_nat m).
Proof.
  intros H. do 10 (destruct m as [|m]; [reflexivity|]). lia.
Qed.

Lemma parseDigits_app (a b : str) (acc : Z) :
  parseDigits acc (a ++ b)
  = match parseDigits acc a with
    | Some x => parseDigits x b
    | None => None
    end.
Proof.
  revert acc. induction a as [|c a IH]; intros acc; [reflexivity|].
  simpl. destruct (digitOf c); [apply IH|reflexivity].
Qed.

(** Reading back the digits written for [n] continues the number read so
    far with the digits of [n]. *)
Lemma parseDigits_digitsOf (fuel : nat) :
  forall n acc, (0 <= n < 2 ^ Z.of_nat fuel)%Z ->
    exists k, parseDigits acc (rev (digitsOf fuel n)) = Some (acc * 10 ^ k + n)%Z
              /\ (0 <= k)%Z.
Proof.
  induction fuel as [|fuel IH]; intros n acc Hn.
  - exists 0%Z. simpl in *. split; [f_equal; lia|lia].
  - assert (Hd : digitOf (ascii_of_nat (48 + Z.to_nat (n mod 10)))
                 = Some (n mod 10)%Z).
    { rewrite digitOf_digit.
      - f_equal. apply Z2Nat.id. apply Z.mod_pos_bound. lia.
      - pose proof (Z.mod_pos_bound n 10). lia. }
    cbn [digitsOf]. destruct (n <? 10)%Z eqn:E10.
    + apply Z.ltb_lt in E10. exists 1%Z. cbn [rev app parseDigits].
      rewrite Hd. rewrite Z.mod_small by lia. split; [f_equal; lia|lia].
    + apply Z.ltb_ge in E10. cbn [rev].
      rewrite parseDigits_app.
      destruct (IH (n / 10)%Z acc) as (k & -> & Hk).
      { split; [apply Z.div_pos; lia|].
        apply Z.div_lt_upper_bound; [lia|].
        rewrite Nat2Z.inj_succ, Z.pow_succ_r in Hn by lia. lia. }
      exists (k + 1)%Z. cbn [parseDigits]. rewrite Hd.
      split; [|lia]. f_equal.
      rewrite Z.pow_add_r by lia.
      pose proof (Z.div_mod n 10 ltac:(lia)). lia.
Qed.

Lemma digitsOf_fuel (n : Z) :
  (0 <= n)%Z -> (0 <= n < 2 ^ Z.of_nat (S (Z.to_nat (Z.log2 n))))%Z.
Proof.
  intros H. split; [exact H|].
  rewrite Nat2Z.inj_succ, Z2Nat.id by apply Z.log2_nonneg.
  destruct (Z.eq_dec n 0) as [->|Hz]; [reflexivity|].
  apply Z.log2_spec. lia.
Qed.

Lemma digitsOf_digits (fuel : nat) (n : Z) :
  (0 <= n)%Z -> forallb (utf8.between 48 57) (digitsOf fuel n) = true.
Proof.
  revert n. induction fuel as [|fuel IH]; intros n Hn; [reflexivity|].
  assert (Hd : utf8.between 48 57 (ascii_of_nat (48 + Z.to_nat (n mod 10)))
               = true).
  { pose proof (Z.mod_pos_bound n 10 ltac:(lia)) as Hm.
    assert (Hlt : Z.to_nat (n mod 10) < 10) by lia.
    revert Hlt. generalize (Z.to_nat (n mod 10)). intros m Hm'.
    do 10 (destruct m as [|m]; [reflexivity|]). lia. }
  cbn [digitsOf]. destruct (n <? 10)%Z.
  - cbn [forallb]. now rewrite Hd.
  - cbn [forallb]. rewrite Hd. apply IH. apply Z.div_pos; lia.
Qed.

Lemma digitsOf_nonempty (fuel : nat) (n : Z) : digitsOf (S fuel) n <> [].
Proof. cbn [digitsOf]. destruct (n <? 10)%Z; discriminate. Qed.

(** A string that starts with a digit carries no sign. *)
Lemma Atoi_unsigned (c : ascii) (t : str) :
  utf8.between 48 57 c = true ->
  Atoi (c :: t)
  = match parseDigits 0 (c :: t) with
    | None => None
    | Some n =>
      if ((- 2 ^ 63 <=? n) && (n <=? 2 ^ 63 - 1))%Z then Some n else None
    end.
Proof.
  destruct c as [[] [] [] [] [] [] [] []]; intros Hc;
    try discriminate Hc; reflexivity.
Qed.

Lemma Atoi_negative (t : str) :
  Atoi ("-"%char :: t)
  = match t with
    | [] => None
    | _ :: _ =>
      match parseDigits 0 t with
      | None => None
      | Some n =>
        if ((- 2 ^ 63 <=? - n) && (- n <=? 2 ^ 63 - 1))%Z
        then Some (- n)%Z else None
      end
    end.
Proof. reflexivity. Qed.

Lemma digits_shape (n : Z) :
  (0 <= n)%Z ->
  exists c t, rev (digitsOf (S (Z.to_nat (Z.log2 n))) n) = c :: t
              /\ utf8.between 48 57 c = true
              /\ parseDigits 0 (c :: t) = Some n.
Proof.
  intros Hn.
  destruct (parseDigits_digitsOf _ n 0%Z (digitsOf_fuel n Hn)) as (k & Hp & _).
  pose proof (digitsOf_digits (S (Z.to_nat (Z.log2 n))) n Hn) as Hd.
  rewrite <- PathFacts.forallb_rev in Hd.
  destruct (rev (digitsOf (S (Z.to_nat (Z.log2 n))) n)) as [|c t] eqn:Er.
  - exfalso. apply (digitsOf_nonempty (Z.to_nat (Z.log2 n)) n).
    apply (f_equal (@rev ascii)) in Er. rewrite rev_involutive in Er.
    exact Er.
  - exists c, t. cbn [forallb] in Hd. apply andb_true_iff in Hd as [Hc _].
    split; [reflexivity|split; [exact Hc|]]. rewrite Hp. f_equal; lia.
Qed.

(** [Atoi] reads back what [Itoa] writes, for every number an [int]
    holds. *)
Lemma Atoi_Itoa (i : Z) :
  (- 2 ^ 63 <= i <= 2 ^ 63 - 1)%Z -> Atoi (Itoa i) = Some i.
Proof.
  intros Hi. unfold Itoa. destruct (i <? 0)%Z eqn:Eneg.
  - apply Z.ltb_lt in Eneg.
    destruct (digits_shape (- i)%Z ltac:(lia)) as (c & t & -> & _ & Hp).
    rewrite Atoi_negative, Hp, Z.opp_involutive.
    assert (E : ((- 2 ^ 63 <=? i) && (i <=? 2 ^ 63 - 1))%Z = true).
    { apply andb_true_iff. split; apply Z.leb_le; lia. }
    now rewrite E.
  - apply Z.ltb_ge in Eneg.
    destruct (digits_shape i Eneg) as (c & t & -> & Hc & Hp).
    rewrite (Atoi_unsigned c t Hc), Hp.
    assert (E : ((- 2 ^ 63 <=? i) && (i <=? 2 ^ 63 - 1))%Z = true).
    { apply andb_true_iff. split; apply Z.leb_le; lia. }
    now rewrite E.
Qed.

(** What [Itoa] writes holds digits and, in front, at most a minus
    sign. *)
Lemma Itoa_bytes (i : Z) (c : ascii) :
  In c (Itoa i) -> c = "-"%char \/ utf8.between 48 57 c = true.
Proof.
  unfold Itoa. destruct (i <? 0)%Z eqn:Eneg; intros Hin.
  - destruct Hin as [<-|Hin]; [now left|right].
    apply Z.ltb_lt in Eneg.
    pose proof (digitsOf_digits (S (Z.to_nat (Z.log2 (- i)))) (- i)%Z
                  ltac:(lia)) as Hd.
    rewrite forallb_forall in Hd. apply Hd. now apply in_rev.
  - right. apply Z.ltb_ge in Eneg.
    pose proof (digitsOf_digits (S (Z.to_nat (Z.log2 i))) i Eneg) as Hd.
    rewrite forallb_forall in Hd. apply Hd. now apply in_rev.
Qed.

Lemma Itoa_nonempty (i : Z) : Itoa i <> [].
Proof.
  unfold Itoa. destruct (i <? 0)%Z; [discriminate|].
  intros E. apply (f_equal (@rev ascii)) in E. rewrite rev_involutive in E.
  now apply digitsOf_nonempty in E.
Qed.

End TextFacts.


(** ** The dependency gate: addresses *)

Module GateFacts.
Import strings StringsFacts TextFacts valence.gate.

Lemma solid_app (a b : str) :
  forallb solid a = true -> forallb solid b = true ->
  forallb solid (a ++ b) = true.
Proof. intros Ha Hb. rewrite forallb_app. now rewrite Ha, Hb. Qed.

(** One [key=value] part of a DSN, as the loop reads it. *)
Lemma step_pair (acc : str * str) (k v : str) :
  k <> [] ->
  forallb solid k = true -> forallb solid v = true ->
  without "=" k = true ->
  mysqlAddressStep acc (k ++ "=" ++ v)
  = (if streq k "host" then (v, snd acc)
     else if streq k "port"
     then (if negb (streq v []) then (fst acc, v) else acc)
     else acc).
Proof.
  intros Hk Hsk Hsv Hek. destruct acc as [host port].
  unfold mysqlAddressStep.
  assert (Hs : forallb solid (k ++ "=" ++ v) = true)
    by (apply solid_app; [exact Hsk|apply (solid_app "=" v); [reflexivity|exact Hsv]]).
  rewrite (TrimSpace_solid _ Hs).
  assert (Hne : streq (k ++ "=" ++ v) [] = false) by (destruct k; [congruence|reflexivity]).
  rewrite Hne.
  change (k ++ "=" ++ v) with (k ++ "="%char :: v).
  rewrite (SplitN2_app k v "=" Hek).
  cbn [length Nat.eqb negb nth].
  rewrite (TrimSpace_solid _ Hsk), (TrimSpace_solid _ Hsv).
  reflexivity.
Qed.

Lemma without_skipn (c : ascii) (k : nat) (s : str) :
  without c s = true -> without c (skipn k s) = true.
Proof.
  revert s. induction k as [|k IH]; intros s H; [exact H|].
  destruct s as [|x s]; [reflexivity|].
  rewrite without_cons in H. apply andb_true_iff in H as [_ H].
  simpl. now apply IH.
Qed.

Lemma without_rev (c : ascii) (s : str) : without c (rev s) = without c s.
Proof.
  unfold without. f_equal.
  induction s as [|x s IH]; [reflexivity|].
  simpl. rewrite existsb_app, IH. simpl. rewrite orb_false_r. apply orb_comm.
Qed.

Lemma without_trimLeading (c : ascii) (runes : list str) (fuel : nat) (s : str) :
  without c s = true -> without c (trimLeading fuel runes s) = true.
Proof.
  revert s. induction fuel as [|fuel IH]; intros s H; [exact H|].
  cbn [trimLeading]. destruct (spaceWidth runes s) as [|k]; [exact H|].
  apply IH. now apply without_skipn.
Qed.

(** Trimming brings in no byte. *)
Lemma without_TrimSpace (c : ascii) (s : str) :
  without c s = true -> without c (TrimSpace s) = true.
Proof.
  intros H. unfold TrimSpace, TrimRightSpace, TrimLeftSpace.
  rewrite without_rev. apply without_trimLeading.
  rewrite without_rev. now apply without_trimLeading.
Qed.

Lemma without_Split (c sep : ascii) (s : str) :
  without c s = true -> forallb (without c) (Split s sep) = true.
Proof.
  induction s as [|x s IH]; intros H; [reflexivity|].
  rewrite without_cons in H. apply andb_true_iff in H as [Hx Hs].
  specialize (IH Hs). simpl.
  destruct (Ascii.eqb x sep); [exact IH|].
  destruct (Split s sep) as [|piece pieces]; simpl.
  - now rewrite without_cons, Hx.
  - simpl in IH. now rewrite without_cons, Hx.
Qed.

(** A part without [=] leaves the host and the port as they are. *)
Lemma step_skip (acc : str * str) (part : str) :
  without "=" part = true -> mysqlAddressStep acc part = acc.
Proof.
  intros H. destruct acc as [host port]. unfold mysqlAddressStep.
  destruct (streq (TrimSpace part) []); [reflexivity|].
  now rewrite (SplitN2_whole _ _ (without_TrimSpace _ _ H)).
Qed.

Lemma fold_skip (acc : str * str) (parts : list str) :
  forallb (without "=") parts = true ->
  fold_left mysqlAddressStep parts acc = acc.
Proof.
  revert acc. induction parts as [|part parts IH]; intros acc H; [reflexivity|].
  simpl in H. apply andb_true_iff in H as [Hp Hr].
  simpl. rewrite (step_skip _ _ Hp). now apply IH.
Qed.

Lemma JoinHostPort_plain (h p : str) :
  without ":" h = true -> net.JoinHostPort h p = h ++ ":" ++ p.
Proof.
  unfold without, net.JoinHostPort. intros H.
  apply negb_true_iff in H. now rewrite H.
Qed.

(** A pattern starts where its first byte is. *)
Lemma Contains_without (c : ascii) (a s pat : str) :
  without c a = true ->
  Contains (a ++ s) (c :: pat) = Contains s (c :: pat).
Proof.
  induction a as [|x a IH]; intros H; [reflexivity|].
  rewrite without_cons in H. apply andb_true_iff in H as [Hx Ha].
  change ((x :: a) ++ s) with (x :: (a ++ s)).
  cbn [Contains]. rewrite (IH Ha).
  cbn [HasPrefix]. rewrite Ascii.eqb_sym. apply negb_true_iff in Hx.
  rewrite Hx. simpl. now destruct s.
Qed.

Lemma Contains_none (c : ascii) (a pat : str) :
  without c a = true -> Contains a (c :: pat) = false.
Proof.
  intros H. rewrite <- (app_nil_r a). now rewrite (Contains_without c a [] pat H).
Qed.

Lemma Itoa_without_colon (i : Z) : without ":" (strconv.Itoa i) = true.
Proof.
  unfold without. apply negb_true_iff.
  destruct (existsb (Ascii.eqb ":") (strconv.Itoa i)) eqn:E; [|reflexivity].
  apply existsb_exists in E as (c & Hin & Hc). apply Ascii.eqb_eq in Hc. subst c.
  apply Itoa_bytes in Hin as [Hin|Hin]; discriminate.
Qed.

Lemma Itoa_no_slash (i : Z) : HasPrefix (strconv.Itoa i) "//" = false.
Proof.
  pose proof (Itoa_nonempty i) as Hne.
  destruct (strconv.Itoa i) as [|c t] eqn:E; [congruence|].
  assert (Hin : In c (strconv.Itoa i)) by (rewrite E; now left).
  apply Itoa_bytes in Hin as [->|Hc]; [reflexivity|].
  cbn [HasPrefix]. destruct (Ascii.eqb c "/") eqn:Ec; [|reflexivity].
  apply Ascii.eqb_eq in Ec. subst c. discriminate.
Qed.

(** No scheme in [h:n]. *)
Lemma no_scheme (h : str) (i : Z) :
  without ":" h = true ->
  Contains (h ++ ":" ++ strconv.Itoa i) "://" = false.
Proof.
  intros Hh. rewrite (Contains_without ":" h _ "//" Hh).
  change (":" ++ strconv.Itoa i) with (":"%char :: strconv.Itoa i).
  cbn [Contains]. rewrite (Contains_none ":" _ "//" (Itoa_without_colon i)).
  change (HasPrefix (":"%char :: strconv.Itoa i) "://")
    with (Ascii.eqb ":" ":" && HasPrefix (strconv.Itoa i) "//").
  now rewrite Itoa_no_slash.
Qed.

Lemma hostPort_pieces {U : URLParser} (h p : str) (more : list str) (d : Z) :
  forallb (without ":") (h :: p :: more) = true ->
  Contains (Join (h :: p :: more) ":") "://" = false ->
  hostPort (Join (h :: p :: more) ":") d = Ok (h ++ ":" ++ p).
Proof.
  intros Hw Hs.
  assert (Hh : without ":" h = true)
    by (simpl in Hw; now apply andb_true_iff in Hw as [Hw _]).
  unfold hostPort. rewrite Hs.
  rewrite (Split_Join h (p :: more) ":" Hw).
  assert (Hne : streq (Join (h :: p :: more) ":") [] = false).
  { change (Join (h :: p :: more) ":")
      with (h ++ ":" ++ Join (p :: more) ":").
    now destruct h. }
  rewrite Hne. cbn [length Nat.eqb nth].
  now rewrite (JoinHostPort_plain h p Hh).
Qed.

Lemma hostPort_host {U : URLParser} (h : str) (d : Z) :
  h <> [] -> without ":" h = true ->
  hostPort h d = Ok (h ++ ":" ++ strconv.Itoa d).
Proof.
  intros Hne Hh. unfold hostPort.
  destruct h as [|c h]; [congruence|]. cbn [streq].
  rewrite (Contains_none ":" (c :: h) "//" Hh).
  rewrite (Split_whole _ _ Hh). cbn [length Nat.eqb nth].
  now rewrite (JoinHostPort_plain _ _ Hh).
Qed.

End GateFacts.

(** X1.  From a DSN of the documented shape, [mysqlAddress] returns the
    host and the port joined: [host=] and [port=] are read whatever their
    order and whatever other keys stand between them, a [port=] that is
    missing or empty gives 3306, and the prefix [mysql:] may be left out.
    The host, the port and the database name are any texts of ASCII bytes
    other than white space and [;]. *)
Theorem mysqlAddress_reads_host_and_port (h p d : str) :
  h <> [] ->
  forallb strings.solid (h ++ p ++ d) = true ->
  strings.without ";" (h ++ p ++ d) = true ->
  let address :=
    Ok (net.JoinHostPort h (if streq p [] then "3306" else p)) in
  valence.gate.mysqlAddress
    ("mysql:host=" ++ h ++ ";port=" ++ p ++ ";dbname=" ++ d) = address
  /\ valence.gate.mysqlAddress
       ("dbname=" ++ d ++ ";port=" ++ p ++ ";host=" ++ h) = address
  /\ valence.gate.mysqlAddress ("mysql:host=" ++ h ++ ";dbname=" ++ d)
     = Ok (net.JoinHostPort h "3306").
Proof.
  intros Hh Hs Hw address.
  rewrite !forallb_app in Hs.
  apply andb_true_iff in Hs as [Hsh Hs]. apply andb_true_iff in Hs as [Hsp Hsd].
  rewrite !TextFacts.without_app in Hw.
  apply andb_true_iff in Hw as [Hwh Hw]. apply andb_true_iff in Hw as [Hwp Hwd].
  assert (Hhost : forall acc,
            valence.gate.mysqlAddressStep acc ("host=" ++ h) = (h, snd acc))
    by (intros acc;
        exact (GateFacts.step_pair acc "host" h ltac:(discriminate)
                 eq_refl Hsh eq_refl)).
  assert (Hport : forall acc,
            valence.gate.mysqlAddressStep acc ("port=" ++ p)
            = if negb (streq p []) then (fst acc, p) else acc)
    by (intros acc;
        exact (GateFacts.step_pair acc "port" p ltac:(discriminate)
                 eq_refl Hsp eq_refl)).
  assert (Hdb : forall acc,
            valence.gate.mysqlAddressStep acc ("dbname=" ++ d) = acc)
    by (intros acc;
        exact (GateFacts.step_pair acc "dbname" d ltac:(discriminate)
                 eq_refl Hsd eq_refl)).
  assert (Hhne : streq h [] = false) by (destruct h; [congruence|reflexivity]).
  assert (Wh : strings.without ";" ("host=" ++ h) = true)
    by (rewrite (TextFacts.without_app ";" "host=" h), Hwh; reflexivity).
  assert (Wp : strings.without ";" ("port=" ++ p) = true)
    by (rewrite (TextFacts.without_app ";" "port=" p), Hwp; reflexivity).
  assert (Wd : strings.without ";" ("dbname=" ++ d) = true)
    by (rewrite (TextFacts.without_app ";" "dbname=" d), Hwd; reflexivity).
  assert (Hrun : forall dsn parts,
            dsn <> [] ->
            strings.Split (strings.TrimPrefix dsn "mysql:") ";" = parts ->
            fold_left valence.gate.mysqlAddressStep parts ([], "3306")
            = (h, if streq p [] then "3306" else p) ->
            valence.gate.mysqlAddress dsn = address).
  { intros dsn parts Hne Hparts Hfold. unfold valence.gate.mysqlAddress.
    destruct dsn as [|c dsn]; [congruence|]. cbn [streq].
    rewrite Hparts, Hfold. now rewrite Hhne. }
  split; [|split].
  - apply (Hrun _ ["host=" ++ h; "port=" ++ p; "dbname=" ++ d]);
      [discriminate| |].
    + change (strings.TrimPrefix
                ("mysql:host=" ++ h ++ ";port=" ++ p ++ ";dbname=" ++ d) "mysql:")
        with (("host=" ++ h) ++ ";"%char :: ("port=" ++ p) ++ ";"%char
              :: ("dbname=" ++ d)).
      now rewrite (TextFacts.Split_app _ _ _ Wh), (TextFacts.Split_app _ _ _ Wp),
        (TextFacts.Split_whole _ _ Wd).
    + cbn [fold_left]. rewrite Hhost, Hport, Hdb.
      now destruct (streq p []).
  - apply (Hrun _ ["dbname=" ++ d; "port=" ++ p; "host=" ++ h]);
      [discriminate| |].
    + change (strings.TrimPrefix
                ("dbname=" ++ d ++ ";port=" ++ p ++ ";host=" ++ h) "mysql:")
        with ("dbname=" ++ d ++ ";port=" ++ p ++ ";host=" ++ h).
      assert (E : "dbname=" ++ d ++ ";port=" ++ p ++ ";host=" ++ h
                  = ("dbname=" ++ d) ++ ";"%char :: ("port=" ++ p) ++ ";"%char
                    :: ("host=" ++ h))
        by (rewrite <- !app_assoc; reflexivity).
      rewrite E.
      now rewrite (TextFacts.Split_app _ _ _ Wd), (TextFacts.Split_app _ _ _ Wp),
        (TextFacts.Split_whole _ _ Wh).
    + cbn [fold_left]. rewrite Hdb, Hport, Hhost.
      now destruct (streq p []).
  - unfold valence.gate.mysqlAddress.
    change (strings.TrimPrefix ("mysql:host=" ++ h ++ ";dbname=" ++ d) "mysql:")
      with (("host=" ++ h) ++ ";"%char :: ("dbname=" ++ d)).
    rewrite (TextFacts.Split_app _ _ _ Wh), (TextFacts.Split_whole _ _ Wd).
    cbn [fold_left]. rewrite Hhost, Hdb. cbn [fst snd streq app].
    now rewrite Hhne.
Qed.

Lemma mysqlAddress_reads_witness :
  valence.gate.mysqlAddress "mysql:host=percona;port=3307;dbname=atom"
  = Ok "percona:3307".
Proof.
  apply (proj1 (mysqlAddress_reads_host_and_port "percona" "3307" "atom"
                  ltac:(discriminate) eq_refl eq_refl)).
Defined.

(** X2.  [mysqlAddress] fails on the empty DSN, and on every DSN that
    holds no [=] at all, a bare [host:port] among them: no part of such a
    DSN is a pair, so no host is found. *)
Theorem mysqlAddress_rejects_bare_address (dsn : str) :
  strings.without "=" dsn = true ->
  valence.gate.mysqlAddress dsn
  = Err (errors.New (if streq dsn [] then "ATOM_MYSQL_DSN is empty"
                     else "mysql host not found in dsn")).
Proof.
  intros Hw. unfold valence.gate.mysqlAddress.
  destruct (streq dsn []); [reflexivity|].
  rewrite GateFacts.fold_skip; [reflexivity|].
  apply GateFacts.without_Split.
  unfold strings.TrimPrefix.
  destruct (strings.HasPrefix dsn "mysql:"); [|exact Hw].
  now apply GateFacts.without_skipn.
Qed.

Lemma mysqlAddress_rejects_witness :
  valence.gate.mysqlAddress "percona:3306"
  = Err (errors.New "mysql host not found in dsn").
Proof.
  apply (mysqlAddress_rejects_bare_address "percona:3306"). reflexivity.
Defined.

(** X3.  For a value without a scheme, [hostPort] cuts at the colons:
    the first piece is the host, the second the port, later pieces are
    dropped, and a value without a colon gets the default port.  It never
    fails on such a value unless the value is empty. *)
Theorem hostPort_without_scheme {U : URLParser} (h p : str) (more : list str)
    (defaultPort : Z) :
  forallb (strings.without ":") (h :: p :: more) = true ->
  strings.Contains (strings.Join (h :: p :: more) ":") "://" = false ->
  valence.gate.hostPort (strings.Join (h :: p :: more) ":") defaultPort
  = Ok (h ++ ":" ++ p)
  /\ (h <> [] ->
      valence.gate.hostPort h defaultPort
      = Ok (h ++ ":" ++ strconv.Itoa defaultPort))
  /\ valence.gate.hostPort [] defaultPort = Err (errors.New "empty host").
Proof.
  intros Hw Hs.
  assert (Hh : strings.without ":" h = true)
    by (simpl in Hw; now apply andb_true_iff in Hw as [Hw _]).
  split; [|split; [|reflexivity]].
  - now apply GateFacts.hostPort_pieces.
  - intros Hne. now apply GateFacts.hostPort_host.
Qed.

Lemma hostPort_without_scheme_witness :
  @valence.gate.hostPort sample.noURLs "elasticsearch:9200:ignored" 9200
  = Ok "elasticsearch:9200".
Proof.
  apply (proj1 (@hostPort_without_scheme sample.noURLs
                  "elasticsearch" "9200" ["ignored"] 9200 eq_refl eq_refl)).
Defined.


(** ** Bootstrap: configuration from the environment *)

Module BootstrapFacts.
Import strings StringsFacts TextFacts GateFacts bootstrap.

Lemma splitHostPort_pair (h p : str) (d : Z) :
  without ":" h = true -> without ":" p = true ->
  splitHostPort (h ++ ":" ++ p) d
  = (h, match strconv.Atoi p with Some port => port | None => d end).
Proof.
  intros Hh Hp. unfold splitHostPort.
  assert (Hne : streq (h ++ ":" ++ p) [] = false) by now destruct h.
  rewrite Hne.
  change (h ++ ":" ++ p) with (h ++ ":"%char :: p).
  rewrite (Split_app h p ":" Hh), (Split_whole p ":" Hp).
  cbn [length Nat.eqb nth]. now destruct (strconv.Atoi p).
Qed.

Lemma splitHostPort_host (h : str) (d : Z) :
  without ":" h = true -> splitHostPort h d = (h, d).
Proof.
  intros Hh. unfold splitHostPort.
  destruct (streq h []) eqn:E; [apply streq_eq in E; now subst h|].
  now rewrite (Split_whole h ":" Hh).
Qed.

Section WithOS.
Context {W : Type} `{OS W}.

Lemma envOrDefault_empty (key : str) (s : state W) :
  envOrDefault key [] s = (TrimSpace (os_Getenv (world s) key), s).
Proof.
  unfold envOrDefault, Getenv, bind, query, ret. cbn [fst snd].
  now destruct (TrimSpace (os_Getenv (world s) key)).
Qed.

Lemma envBool_false (key : str) (s : state W) :
  envBool key false s
  = (match strconv.ParseBool (TrimSpace (os_Getenv (world s) key)) with
     | Some parsed => parsed
     | None => false
     end, s).
Proof.
  unfold envBool, Getenv, bind, query, ret. cbn [fst snd].
  destruct (TrimSpace (os_Getenv (world s) key)) as [|c t]; [reflexivity|].
  now destruct (strconv.ParseBool (c :: t)).
Qed.

Lemma mustEnv_run (key : str) (s : state W) :
  mustEnv key s = (TrimSpace (os_Getenv (world s) key), s).
Proof. reflexivity. Qed.

End WithOS.

End BootstrapFacts.

(** X4.  [splitHostPort] reads back the host and the port that
    [net.JoinHostPort] and [strconv.Itoa] wrote, for a host without a
    colon and any port an [int] holds; a value without a colon, the empty
    one included, and a value whose port is no number get the default
    port.  It never fails. *)
Theorem splitHostPort_reads_back (h p : str) (n d : Z) :
  strings.without ":" h = true ->
  ((- 2 ^ 63 <= n <= 2 ^ 63 - 1)%Z ->
   bootstrap.splitHostPort (net.JoinHostPort h (strconv.Itoa n)) d = (h, n))
  /\ bootstrap.splitHostPort h d = (h, d)
  /\ (strings.without ":" p = true -> strconv.Atoi p = None ->
      bootstrap.splitHostPort (h ++ ":" ++ p) d = (h, d)).
Proof.
  intros Hh. split; [|split].
  - intros Hn. rewrite (GateFacts.JoinHostPort_plain h _ Hh).
    rewrite (BootstrapFacts.splitHostPort_pair h _ d Hh
               (GateFacts.Itoa_without_colon n)).
    now rewrite (TextFacts.Atoi_Itoa n Hn).
  - now apply BootstrapFacts.splitHostPort_host.
  - intros Hp Hnone.
    rewrite (BootstrapFacts.splitHostPort_pair h p d Hh Hp). now rewrite Hnone.
Qed.

Lemma splitHostPort_reads_back_witness :
  bootstrap.splitHostPort "memcached:11211" 11211 = ("memcached", 11211%Z)
  /\ bootstrap.splitHostPort "memcached:http" 11211 = ("memcached", 11211%Z).
Proof.
  split.
  - apply (proj1 (splitHostPort_reads_back "memcached" [] 11211 11211 eq_refl)).
    split; vm_compute; discriminate.
  - apply (proj2 (proj2 (splitHostPort_reads_back "memcached" "http" 0 11211
                           eq_refl))); reflexivity.
Defined.

(** X5.  For a search host given as [host] or as [host:port], the
    dependency gate dials the address that [buildSearchYML] writes into
    [search.yml]: the same host, and the same port, 9200 when none is
    given. *)
Theorem gate_dials_what_search_yml_names {U : URLParser}
    (cfg : bootstrap.Config) (h : str) (n : Z) :
  h <> [] ->
  strings.without ":" h = true ->
  (- 2 ^ 63 <= n <= 2 ^ 63 - 1)%Z ->
  (bootstrap.ElasticsearchHost cfg = h ++ ":" ++ strconv.Itoa n ->
   valence.gate.hostPort (bootstrap.ElasticsearchHost cfg) 9200
   = Ok (h ++ ":" ++ strconv.Itoa n)
   /\ bootstrap.buildSearchYML cfg
      = lines [ "all:"; "  server:"; "    host: " ++ h;
                "    port: " ++ strconv.Itoa n; [] ])
  /\ (bootstrap.ElasticsearchHost cfg = h ->
      valence.gate.hostPort (bootstrap.ElasticsearchHost cfg) 9200
      = Ok (h ++ ":" ++ "9200")
      /\ bootstrap.buildSearchYML cfg
         = lines [ "all:"; "  server:"; "    host: " ++ h;
                   "    port: " ++ "9200"; [] ]).
Proof.
  intros Hne Hh Hn. split; intros E; rewrite E; split.
  - apply (GateFacts.hostPort_pieces h (strconv.Itoa n) [] 9200).
    + cbn [forallb]. now rewrite Hh, (GateFacts.Itoa_without_colon n).
    + apply (GateFacts.no_scheme h n Hh).
  - unfold bootstrap.buildSearchYML. rewrite E.
    rewrite (BootstrapFacts.splitHostPort_pair h _ 9200 Hh
               (GateFacts.Itoa_without_colon n)).
    now rewrite (TextFacts.Atoi_Itoa n Hn).
  - now apply GateFacts.hostPort_host.
  - unfold bootstrap.buildSearchYML. rewrite E.
    now rewrite (BootstrapFacts.splitHostPort_host h 9200 Hh).
Qed.

Lemma gate_dials_witness :
  @valence.gate.hostPort sample.noURLs "elasticsearch:9201" 9200
  = Ok "elasticsearch:9201"
  /\ bootstrap.buildSearchYML sample.bootConfig
     = lines [ "all:"; "  server:"; "    host: elasticsearch";
               "    port: 9201"; [] ].
Proof.
  exact (proj1 (@gate_dials_what_search_yml_names sample.noURLs
                  sample.bootConfig "elasticsearch" 9201
                  ltac:(discriminate) eq_refl
                  ltac:(split; vm_compute; discriminate))
               eq_refl).
Defined.

(** X6.  [LoadConfigFromEnv] succeeds exactly when each of the six
    required variables has a value that is not blank; it then returns the
    trimmed values.  Otherwise its error names every variable that is
    unset or blank, in the order of the list below.  It only reads the
    environment: the state is left as it was. *)
Theorem LoadConfigFromEnv_requires {W : Type} `{OS W} (atomDir : str)
    (s : state W) :
  let env key := strings.TrimSpace (os_Getenv (world s) key) in
  let missing :=
    filter (fun key => streq (env key) [])
      [ "ATOM_ELASTICSEARCH_HOST"; "ATOM_MEMCACHED_HOST"; "ATOM_GEARMAND_HOST";
        "ATOM_MYSQL_DSN"; "ATOM_MYSQL_USERNAME"; "ATOM_MYSQL_PASSWORD" ] in
  bootstrap.LoadConfigFromEnv atomDir s
  = (match missing with
     | [] =>
       Ok {| bootstrap.AtomDir := atomDir;
             bootstrap.AtomDataDir := env "ATOM_DATA_DIR";
             bootstrap.DevelopmentMode :=
               match strconv.ParseBool (env "ATOM_DEVELOPMENT_MODE") with
               | Some parsed => parsed
               | None => false
               end;
             bootstrap.ElasticsearchHost := env "ATOM_ELASTICSEARCH_HOST";
             bootstrap.MemcachedHost := env "ATOM_MEMCACHED_HOST";
             bootstrap.GearmandHost := env "ATOM_GEARMAND_HOST";
             bootstrap.MySQLDSN := env "ATOM_MYSQL_DSN";
             bootstrap.MySQLUsername := env "ATOM_MYSQL_USERNAME";
             bootstrap.MySQLPassword := env "ATOM_MYSQL_PASSWORD";
             bootstrap.DebugIP := env "ATOM_DEBUG_IP" |}
     | _ :: _ =>
       Err (errors.New ("missing required environment variables: "
                        ++ strings.Join missing ", "))
     end, s).
Proof.
  intros env missing. subst missing.
  unfold bootstrap.LoadConfigFromEnv, bind.
  repeat (first [ rewrite BootstrapFacts.envOrDefault_empty
                | rewrite BootstrapFacts.envBool_false
                | rewrite BootstrapFacts.mustEnv_run ];
          cbv beta iota).
  unfold bootstrap.validate, ret.
  cbn [bootstrap.ElasticsearchHost bootstrap.MemcachedHost
       bootstrap.GearmandHost bootstrap.MySQLDSN bootstrap.MySQLUsername
       bootstrap.MySQLPassword filter].
  fold (env "ATOM_ELASTICSEARCH_HOST") (env "ATOM_MEMCACHED_HOST")
    (env "ATOM_GEARMAND_HOST") (env "ATOM_MYSQL_DSN")
    (env "ATOM_MYSQL_USERNAME") (env "ATOM_MYSQL_PASSWORD").
  destruct (streq (env "ATOM_ELASTICSEARCH_HOST") []),
    (streq (env "ATOM_MEMCACHED_HOST") []),
    (streq (env "ATOM_GEARMAND_HOST") []),
    (streq (env "ATOM_MYSQL_DSN") []),
    (streq (env "ATOM_MYSQL_USERNAME") []),
    (streq (env "ATOM_MYSQL_PASSWORD") []); reflexivity.
Qed.


(** ** Values written into PHP source *)

Module PhpFacts.
Import strings TextFacts valence.

(** The two replacements of [phpEscape] amount to one pass over the
    value. *)
Lemma phpEscape_pass (v : str) :
  phpEscape v
  = flat_map (fun c => if Ascii.eqb c backslash then [backslash; backslash]
                       else if Ascii.eqb c "'" then [backslash; "'"%char]
                       else [c]) v.
Proof.
  unfold phpEscape. rewrite !ReplaceAll_byte.
  induction v as [|c v IH]; [reflexivity|].
  cbn [flat_map]. rewrite flat_map_app, IH. f_equal.
  destruct (Ascii.eqb c backslash) eqn:Eb.
  - reflexivity.
  - cbn [flat_map]. rewrite app_nil_r. reflexivity.
Qed.

Lemma read_backslash (d : ascii) (s : str) :
  Ascii.eqb d backslash || Ascii.eqb d "'" = true ->
  phpSingleQuoted (backslash :: d :: s)
  = option_map (fun r => (d :: fst r, snd r)) (phpSingleQuoted s).
Proof.
  intros Hd. cbn [phpSingleQuoted]. rewrite Hd.
  change (Ascii.eqb backslash "'") with false.
  change (Ascii.eqb backslash backslash) with true.
  reflexivity.
Qed.

Lemma read_plain (c : ascii) (s : str) :
  Ascii.eqb c "'" = false -> Ascii.eqb c backslash = false ->
  phpSingleQuoted (c :: s)
  = option_map (fun r => (c :: fst r, snd r)) (phpSingleQuoted s).
Proof. intros Hq Hb. cbn [phpSingleQuoted]. now rewrite Hq, Hb. Qed.

Lemma phpSingleQuoted_escaped (v rest : str) :
  phpSingleQuoted (phpEscape v ++ "'" ++ rest) = Some (v, rest).
Proof.
  rewrite phpEscape_pass. change ("'" ++ rest) with ("'"%char :: rest).
  induction v as [|c v IH].
  - reflexivity.
  - cbn [flat_map]. destruct (Ascii.eqb c backslash) eqn:Eb.
    + cbn [app]. rewrite read_backslash by reflexivity. rewrite IH.
      apply Ascii.eqb_eq in Eb. now subst c.
    + destruct (Ascii.eqb c "'") eqn:Eq.
      * cbn [app]. rewrite read_backslash by reflexivity. rewrite IH.
        apply Ascii.eqb_eq in Eq. now subst c.
      * cbn [app]. rewrite (read_plain c _ Eq Eb), IH. reflexivity.
Qed.

End PhpFacts.

(** X7.  A value escaped by [phpEscape], or by [phpPathEscape] of the
    bootstrap package, and put between single quotes is read by PHP as that
    value, whatever bytes it holds, and the literal ends at the quote the
    program wrote: no byte of the value closes the literal early or
    changes what follows it. *)
Theorem phpEscape_round_trip (value rest : str) :
  valence.phpSingleQuoted (valence.phpEscape value ++ "'" ++ rest)
  = Some (value, rest)
  /\ valence.phpSingleQuoted (bootstrap.phpPathEscape value ++ "'" ++ rest)
     = Some (value, rest).
Proof. split; apply PhpFacts.phpSingleQuoted_escaped. Qed.


(** ** Bootstrap: the files it writes *)

Module FilesFacts.
Import strings path TraceFacts bootstrap.

Section WithOS.
Context {W : Type} `{OS W}.

Lemma exists_regular (p : str) (s : state W) :
  exists_ p s = (valence.regular (world s) p, s).
Proof.
  unfold exists_, valence.regular, Stat, bind, query, ret. cbn [fst snd].
  now destruct (os_Stat (world s) p).
Qed.

Lemma exists_traced (P : syscall -> Prop) (p : str) : traced P (exists_ p).
Proof.
  unfold exists_. apply traced_bind; [apply traced_query|].
  intros [info|err]; apply traced_ret.
Qed.

(** [writeFile] makes the directory of its target, then writes the
    target, and nothing else. *)
Lemma writeFile_traced (summary : Summary) (target contents : str) :
  traced (fun c => c = CallMkdirAll (path.Dir target) 493
                   \/ c = CallWriteFile target contents 420)
         (writeFile summary target contents).
Proof.
  unfold writeFile, ensureDir. apply traced_bind.
  - apply traced_perform. now left.
  - intros [err|]; [apply traced_ret|]. apply traced_perform. now right.
Qed.

Lemma overwriteFile_traced (summary : Summary) (target contents : str) :
  traced (fun c => c = CallMkdirAll (path.Dir target) 493
                   \/ c = CallWriteFile target contents 420)
         (overwriteFile summary target contents).
Proof.
  unfold overwriteFile. apply traced_bind; [apply writeFile_traced|].
  intros [err|]; apply traced_ret.
Qed.

End WithOS.

End FilesFacts.

(** X8.  [writeAppYMLIfMissing] and [writeFactoriesYMLIfMissing] leave a
    file that is there alone: when the target is an existing file, no call
    is issued and the target is recorded as skipped.  In every case the
    calls they issue are at most the making of the target's directory and
    one write of the target itself. *)
Theorem yml_kept_if_present {W : Type} `{OS W}
    (summary : bootstrap.Summary) (cfg : bootstrap.Config) (s : state W) :
  let app := path.Join (bootstrap.appConfigDir cfg) "app.yml" in
  let factories := path.Join (bootstrap.appConfigDir cfg) "factories.yml" in
  (valence.regular (world s) app = true ->
   bootstrap.writeAppYMLIfMissing summary cfg s
   = (({| bootstrap.Written := bootstrap.Written summary;
          bootstrap.Skipped := bootstrap.Skipped summary ++ [app] |}, None), s))
  /\ (valence.regular (world s) factories = true ->
      bootstrap.writeFactoriesYMLIfMissing summary cfg s
      = (({| bootstrap.Written := bootstrap.Written summary;
             bootstrap.Skipped := bootstrap.Skipped summary ++ [factories] |},
          None), s))
  /\ traced (fun c => c = CallMkdirAll (path.Dir app) 493
                      \/ exists data, c = CallWriteFile app data 420)
            (bootstrap.writeAppYMLIfMissing summary cfg)
  /\ traced (fun c => c = CallMkdirAll (path.Dir factories) 493
                      \/ exists data, c = CallWriteFile factories data 420)
            (bootstrap.writeFactoriesYMLIfMissing summary cfg).
Proof.
  intros app factories. split; [|split; [|split]].
  - intros Hreg. unfold bootstrap.writeAppYMLIfMissing, bind.
    fold app. rewrite FilesFacts.exists_regular, Hreg. reflexivity.
  - intros Hreg. unfold bootstrap.writeFactoriesYMLIfMissing, bind.
    fold factories. rewrite FilesFacts.exists_regular, Hreg. reflexivity.
  - unfold bootstrap.writeAppYMLIfMissing. fold app.
    apply TraceFacts.traced_bind; [apply FilesFacts.exists_traced|].
    intros [|]; [apply TraceFacts.traced_ret|].
    destruct (bootstrap.splitHostPort (bootstrap.MemcachedHost cfg) 11211)
      as [host port].
    apply TraceFacts.traced_bind; [|intros r; apply TraceFacts.traced_ret].
    eapply TraceFacts.traced_weaken; [|apply FilesFacts.writeFile_traced].
    intros c [->| ->]; [now left|right; eauto].
  - unfold bootstrap.writeFactoriesYMLIfMissing. fold factories.
    apply TraceFacts.traced_bind; [apply FilesFacts.exists_traced|].
    intros [|]; [apply TraceFacts.traced_ret|].
    destruct (bootstrap.splitHostPort (bootstrap.MemcachedHost cfg) 11211)
      as [host port].
    apply TraceFacts.traced_bind; [|intros r; apply TraceFacts.traced_ret].
    eapply TraceFacts.traced_weaken; [|apply FilesFacts.writeFile_traced].
    intros c [->| ->]; [now left|right; eauto].
Qed.

Lemma yml_kept_witness :
  bootstrap.writeAppYMLIfMissing sample.nothingYet sample.bootConfig
    (lexfs.start sample.configured)
  = (({| bootstrap.Written := [];
         bootstrap.Skipped := ["/data/apps/qubit/config/app.yml"] |}, None),
     lexfs.start sample.configured).
Proof.
  apply (proj1 (yml_kept_if_present sample.nothingYet sample.bootConfig
                  (lexfs.start sample.configured))).
  reflexivity.
Defined.

(** X9.  [writeProjectConfigurationShim] writes nothing when the data
    directory is the application directory.  Otherwise the one file it
    may write is [ProjectConfiguration.class.php] in the project
    configuration directory, and the literal after [require_once] in it is
    read by PHP as the path of the application's own
    [ProjectConfiguration.class.php], whatever bytes that path holds. *)
Theorem shim_requires_application_file {W : Type} `{OS W}
    (summary : bootstrap.Summary) (cfg : bootstrap.Config) :
  let target := path.Join (bootstrap.projectConfigDir cfg)
                  "ProjectConfiguration.class.php" in
  let source := path.JoinAll [ bootstrap.AtomDir cfg; "config";
                               "ProjectConfiguration.class.php" ] in
  (bootstrap.dataDir cfg = bootstrap.AtomDir cfg ->
   forall s, bootstrap.writeProjectConfigurationShim summary cfg s
             = ((summary, None), s))
  /\ traced (fun c =>
               c = CallMkdirAll (path.Dir target) 493
               \/ exists literal,
                    c = CallWriteFile target
                          (lines [ "<?php";
                                   "// Auto-generated by Valence; delegate to the app's config.";
                                   "require_once '" ++ literal ++ "';" ]) 420
                    /\ valence.phpSingleQuoted (literal ++ "';")
                       = Some (source, ";"))
            (bootstrap.writeProjectConfigurationShim summary cfg).
Proof.
  intros target source. split.
  - intros E s. unfold bootstrap.writeProjectConfigurationShim.
    rewrite E, streq_refl. reflexivity.
  - unfold bootstrap.writeProjectConfigurationShim.
    destruct (streq (bootstrap.dataDir cfg) (bootstrap.AtomDir cfg));
      [apply TraceFacts.traced_ret|].
    eapply TraceFacts.traced_weaken; [|apply FilesFacts.overwriteFile_traced].
    intros c [->| ->]; [now left|right].
    exists (bootstrap.phpPathEscape source). split; [reflexivity|].
    apply PhpFacts.phpSingleQuoted_escaped.
Qed.

Lemma shim_witness :
  bootstrap.writeProjectConfigurationShim sample.nothingYet sample.plainConfig
    (lexfs.start sample.fresh)
  = ((sample.nothingYet, None), lexfs.start sample.fresh).
Proof.
  apply (proj1 (shim_requires_application_file sample.nothingYet
                  sample.plainConfig) eq_refl).
Defined.

(** X25.  What [overwriteFile] records as written can be read back:
    when it returns no error, the target has been added to the written
    paths of the summary, the skipped paths are as they were, and reading
    the target gives the contents; when it returns an error the summary is
    as it was.  This holds in every file system in which a file written is
    read back. *)
Theorem overwriteFile_reads_back {W : Type} `{OS W} {laws : OSLaws W}
    (summary : bootstrap.Summary) (target contents : str) (s : state W) :
  let out := bootstrap.overwriteFile summary target contents s in
  (snd (fst out) = None ->
   bootstrap.Written (fst (fst out)) = bootstrap.Written summary ++ [target]
   /\ bootstrap.Skipped (fst (fst out)) = bootstrap.Skipped summary
   /\ os_ReadFile (world (snd out)) target = Ok contents)
  /\ (snd (fst out) <> None -> fst (fst out) = summary).
Proof.
  intros out. subst out.
  unfold bootstrap.overwriteFile, bootstrap.writeFile, bootstrap.ensureDir, bind.
  destruct (MkdirAll (path.Dir target) 493 s) as [[err|] s1]; cbv beta iota.
  - cbn [ret fst snd]. split; [discriminate|reflexivity].
  - unfold WriteFile, perform.
    destruct (os_WriteFile (world s1) target contents 420) as [w2 [err|]] eqn:Ew;
      cbn [ret fst snd world].
    + split; [discriminate|reflexivity].
    + split; [|congruence]. intros _.
      split; [reflexivity|]. split; [reflexivity|].
      apply (written_is_read _ _ _ _ _ Ew).
Qed.

Lemma overwriteFile_witness :
  os_ReadFile
    (world (snd (bootstrap.overwriteFile sample.nothingYet
                   "/data/config/search.yml"
                   (bootstrap.buildSearchYML sample.bootConfig)
                   (lexfs.start sample.fresh))))
    "/data/config/search.yml"
  = Ok (lines [ "all:"; "  server:"; "    host: elasticsearch";
                "    port: 9201"; [] ]).
Proof.
  apply (proj1 (@overwriteFile_reads_back _ _ LexfsFacts.lexLaws
                  sample.nothingYet "/data/config/search.yml"
                  (bootstrap.buildSearchYML sample.bootConfig)
                  (lexfs.start sample.fresh))).
  reflexivity.
Defined.


(** ** The archive builder: what it leaves out *)

Module ExcludeFacts.
Import strings path StringsFacts atomarchive.

(** Two paths that each start with an element and a separator. *)
Lemma HasPrefix_elem (x e a b : str) :
  forallb (fun c => negb (isSlash c)) x = true ->
  forallb (fun c => negb (isSlash c)) e = true ->
  HasPrefix (e ++ "/"%char :: a) (x ++ "/"%char :: b)
  = streq x e && HasPrefix a b.
Proof.
  revert e. induction x as [|c x IH]; intros e Hx He.
  - destruct e as [|d e]; [cbn; reflexivity|].
    cbn [forallb] in He. apply andb_true_iff in He as [Hd _].
    cbn [app HasPrefix streq]. unfold isSlash in Hd.
    apply negb_true_iff in Hd. now rewrite Hd.
  - cbn [forallb] in Hx. apply andb_true_iff in Hx as [Hc Hx].
    destruct e as [|d e].
    + cbn [app HasPrefix streq]. unfold isSlash in Hc.
      apply negb_true_iff in Hc. rewrite Ascii.eqb_sym. now rewrite Hc.
    + cbn [forallb] in He. apply andb_true_iff in He as [_ He].
      cbn [app HasPrefix streq]. rewrite (IH e Hx He).
      rewrite (Ascii.eqb_sym d c). now rewrite andb_assoc.
Qed.

Lemma streq_elem (x e a b : str) :
  forallb (fun c => negb (isSlash c)) x = true ->
  forallb (fun c => negb (isSlash c)) e = true ->
  streq (e ++ "/"%char :: a) (x ++ "/"%char :: b) = streq x e && streq a b.
Proof.
  revert e. induction x as [|c x IH]; intros e Hx He.
  - destruct e as [|d e]; [cbn; reflexivity|].
    cbn [forallb] in He. apply andb_true_iff in He as [Hd _].
    cbn [app streq]. unfold isSlash in Hd.
    apply negb_true_iff in Hd. now rewrite Hd.
  - cbn [forallb] in Hx. apply andb_true_iff in Hx as [Hc Hx].
    destruct e as [|d e].
    + cbn [app streq]. unfold isSlash in Hc.
      apply negb_true_iff in Hc. rewrite Ascii.eqb_sym. now rewrite Hc.
    + cbn [forallb] in He. apply andb_true_iff in He as [_ He].
      cbn [app streq]. rewrite (IH e Hx He).
      rewrite (Ascii.eqb_sym d c). now rewrite andb_assoc.
Qed.

(** An element does not reach past a separator. *)
Lemma HasPrefix_short (x e b : str) :
  forallb (fun c => negb (isSlash c)) e = true ->
  HasPrefix e (x ++ "/"%char :: b) = false.
Proof.
  revert e. induction x as [|c x IH]; intros e He.
  - destruct e as [|d e]; [reflexivity|].
    cbn [forallb] in He. apply andb_true_iff in He as [Hd _].
    cbn [app HasPrefix]. unfold isSlash in Hd.
    apply negb_true_iff in Hd. now rewrite Hd.
  - destruct e as [|d e]; [reflexivity|].
    cbn [forallb] in He. apply andb_true_iff in He as [_ He].
    cbn [app HasPrefix]. rewrite (IH e He). apply andb_false_r.
Qed.

Lemma streq_short (x e b : str) :
  forallb (fun c => negb (isSlash c)) e = true ->
  streq e (x ++ "/"%char :: b) = false.
Proof.
  revert e. induction x as [|c x IH]; intros e He.
  - destruct e as [|d e]; [reflexivity|].
    cbn [forallb] in He. apply andb_true_iff in He as [Hd _].
    cbn [app streq]. unfold isSlash in Hd.
    apply negb_true_iff in Hd. now rewrite Hd.
  - destruct e as [|d e]; [reflexivity|].
    cbn [forallb] in He. apply andb_true_iff in He as [_ He].
    cbn [app streq]. rewrite (IH e He). apply andb_false_r.
Qed.

Lemma streq_long (x e a : str) :
  forallb (fun c => negb (isSlash c)) x = true ->
  streq (e ++ "/"%char :: a) x = false.
Proof.
  revert x. induction e as [|d e IH]; intros x Hx.
  - destruct x as [|c x]; [reflexivity|].
    cbn [forallb] in Hx. apply andb_true_iff in Hx as [Hc _].
    cbn [app streq]. unfold isSlash in Hc.
    apply negb_true_iff in Hc. rewrite Ascii.eqb_sym. now rewrite Hc.
  - destruct x as [|c x]; [reflexivity|].
    cbn [forallb] in Hx. apply andb_true_iff in Hx as [_ Hx].
    cbn [app streq]. rewrite (IH x Hx). apply andb_false_r.
Qed.

Lemma streq_sym (a b : str) : streq a b = streq b a.
Proof.
  revert b. induction a as [|x a IH]; intros [|y b]; try reflexivity.
  cbn [streq]. now rewrite IH, Ascii.eqb_sym.
Qed.

Lemma elem_without_slash (e : str) :
  isElem e = true -> forallb (fun c => negb (isSlash c)) e = true.
Proof. destruct e; [discriminate|]. now unfold isElem. Qed.

Lemma joinElems_two (e e2 : str) (es : list str) :
  joinElems (e :: e2 :: es) = e ++ "/"%char :: joinElems (e2 :: es).
Proof. reflexivity. Qed.

(** One entry of the list: the path is the entry, or lies below it. *)
Lemma covered_components (xs : list str) :
  xs <> [] -> forallb isElem xs = true ->
  forall es, forallb isElem es = true ->
    streq (joinElems es) (joinElems xs)
    || HasPrefix (joinElems es) (joinElems xs ++ "/")
    = isPrefixOf xs es.
Proof.
  induction xs as [|x xs IH]; [congruence|]. intros _ Hxs es Hes.
  cbn [forallb] in Hxs. apply andb_true_iff in Hxs as [Hx Hxs].
  pose proof (elem_without_slash x Hx) as Nx.
  destruct xs as [|x2 xs].
  - change (joinElems [x]) with x.
    destruct es as [|e es].
    + destruct x; [discriminate|reflexivity].
    + cbn [forallb] in Hes. apply andb_true_iff in Hes as [He Hes].
      pose proof (elem_without_slash e He) as Ne.
      destruct es as [|e2 es].
      * change (joinElems [e]) with e.
        rewrite (HasPrefix_short x e [] Ne), orb_false_r.
        cbn [isPrefixOf]. now rewrite andb_true_r, streq_sym.
      * rewrite joinElems_two, (streq_long x e _ Nx).
        rewrite (HasPrefix_elem x e _ [] Nx Ne).
        cbn [isPrefixOf orb HasPrefix]. reflexivity.
  - rewrite joinElems_two.
    rewrite <- app_assoc.
    change (("/"%char :: joinElems (x2 :: xs)) ++ "/")
      with ("/"%char :: (joinElems (x2 :: xs) ++ "/")).
    destruct es as [|e es].
    + cbn [joinElems isPrefixOf]. destruct x; reflexivity.
    + cbn [forallb] in Hes. apply andb_true_iff in Hes as [He Hes].
      pose proof (elem_without_slash e He) as Ne.
      destruct es as [|e2 es].
      * change (joinElems [e]) with e.
        rewrite (streq_short x e _ Ne), (HasPrefix_short x e _ Ne).
        cbn [isPrefixOf]. now rewrite andb_false_r.
      * rewrite joinElems_two.
        rewrite (streq_elem x e _ _ Nx Ne), (HasPrefix_elem x e _ _ Nx Ne).
        rewrite <- andb_orb_distrib_r.
        rewrite (IH ltac:(discriminate) Hxs (e2 :: es) Hes).
        reflexivity.
Qed.

(** A path of elements does not end in a separator. *)
Lemma joinElems_last (es : list str) :
  forallb isElem es = true ->
  joinElems es = [] \/
  exists s c, joinElems es = s ++ [c] /\ isSlash c = false.
Proof.
  induction es as [|e es IH]; intros Hes; [now left|right].
  cbn [forallb] in Hes. apply andb_true_iff in Hes as [He Hes].
  destruct es as [|e2 es].
  - change (joinElems [e]) with e.
    pose proof (elem_without_slash e He) as Ne.
    destruct (rev e) as [|c r] eqn:Er.
    + apply (f_equal (@rev ascii)) in Er. rewrite rev_involutive in Er.
      subst e. discriminate.
    + apply (f_equal (@rev ascii)) in Er. rewrite rev_involutive in Er.
      cbn [rev] in Er. exists (rev r), c. split; [exact Er|].
      rewrite Er, forallb_app in Ne. apply andb_true_iff in Ne as [_ Ne].
      cbn [forallb] in Ne. rewrite andb_true_r in Ne.
      now apply negb_true_iff in Ne.
  - destruct (IH Hes) as [E|(s & c & E & Hc)].
    + destruct e2; [discriminate|]. destruct es; discriminate.
    + rewrite joinElems_two, E. exists (e ++ "/"%char :: s), c.
      split; [now rewrite <- app_assoc|exact Hc].
Qed.

Lemma TrimSuffix_joinElems (es : list str) :
  forallb isElem es = true ->
  TrimSuffix (joinElems es) "/" = joinElems es.
Proof.
  intros Hes. unfold TrimSuffix, HasSuffix.
  destruct (joinElems_last es Hes) as [->|(s & c & -> & Hc)]; [reflexivity|].
  rewrite rev_app_distr. cbn [rev app HasPrefix].
  unfold isSlash in Hc. now rewrite Hc.
Qed.

(** [TrimSuffix] with one byte takes that byte off the end, if it is
    there. *)
Lemma TrimSuffix_cases (s : str) (c : ascii) :
  TrimSuffix s [c] = s \/ s = TrimSuffix s [c] ++ [c].
Proof.
  unfold TrimSuffix, HasSuffix.
  destruct (rev s) as [|d r] eqn:Er; [now left|].
  apply (f_equal (@rev ascii)) in Er. rewrite rev_involutive in Er.
  cbn [rev] in Er. cbn [rev app HasPrefix].
  destruct (Ascii.eqb d c) eqn:Ed; [|now left].
  apply Ascii.eqb_eq in Ed. subst d s. right. cbn [andb].
  rewrite length_app. cbn [length].
  replace (length (rev r) + 1 - 1) with (length (rev r)) by lia.
  now rewrite firstn_app, Nat.sub_diag, firstn_all, firstn_O, app_nil_r.
Qed.

Lemma prefix_before_last (t e : str) (c : ascii) :
  HasPrefix (t ++ [c]) (e ++ [c]) = true ->
  t = e \/ HasPrefix t (e ++ [c]) = true.
Proof.
  revert t. induction e as [|x e IH]; intros t H.
  - destruct t as [|d t]; [now left|right].
    cbn [app HasPrefix] in H |- *. apply andb_true_iff in H as [H _].
    now rewrite H.
  - destruct t as [|d t].
    + cbn [app HasPrefix] in H. apply andb_true_iff in H as [_ H].
      destruct e; discriminate.
    + cbn [app HasPrefix] in H |- *. apply andb_true_iff in H as [Hd H].
      rewrite Hd. apply Ascii.eqb_eq in Hd. subst d.
      destruct (IH t H) as [->|Ht]; [now left|now right].
Qed.

(** What holds of a path for one entry holds of every path below it. *)
Lemma covered_below (dir name ex : str) :
  streq (TrimSuffix dir "/") ex || HasPrefix (TrimSuffix dir "/") (ex ++ "/")
  = true ->
  streq (TrimSuffix (dir ++ "/" ++ name) "/") ex
  || HasPrefix (TrimSuffix (dir ++ "/" ++ name) "/") (ex ++ "/") = true.
Proof.
  intros H.
  assert (Hd : HasPrefix (dir ++ "/") (ex ++ "/") = true).
  { apply orb_true_iff in H as [H|H].
    - apply streq_eq in H.
      destruct (TrimSuffix_cases dir "/") as [E|E].
      + rewrite <- E, H. apply HasPrefix_iff. exists []. now rewrite app_nil_r.
      + rewrite E, H. apply HasPrefix_iff. now exists "/".
    - destruct (TrimSuffix_cases dir "/") as [E|E].
      + rewrite E in H. now apply RegexpFacts.HasPrefix_app_l.
      + rewrite E, <- app_assoc. now apply RegexpFacts.HasPrefix_app_l. }
  assert (Hs : HasPrefix (dir ++ "/" ++ name) (ex ++ "/") = true)
    by (rewrite app_assoc; now apply RegexpFacts.HasPrefix_app_l).
  apply orb_true_iff.
  destruct (TrimSuffix_cases (dir ++ "/" ++ name) "/") as [E|E].
  - right. now rewrite E.
  - rewrite E in Hs.
    destruct (prefix_before_last _ _ _ Hs) as [->|Ht];
      [left; apply streq_refl|now right].
Qed.

End ExcludeFacts.

(** X10.  For a relative path given by its elements, [shouldExclude]
    holds exactly when the elements of one of the exclude entries are the
    first elements of the path: the entry itself and everything below it
    are left out, a name that merely starts with the text of an entry is
    not.  With the default list this leaves out [.git], [cache], [log] and
    [uploads] at the top and [uploads] under [web]. *)
Theorem shouldExclude_by_elements (es : list str) (xss : list (list str)) :
  forallb path.isElem es = true ->
  forallb (fun xs => negb (length xs =? 0) && forallb path.isElem xs) xss = true ->
  atomarchive.shouldExclude (path.joinElems es) (map path.joinElems xss)
  = existsb (fun xs => path.isPrefixOf xs es) xss
  /\ atomarchive.shouldExclude (path.joinElems es) atomarchive.defaultExcludes
     = existsb (fun xs => path.isPrefixOf xs es)
         [ [".git"]; ["cache"]; ["log"]; ["uploads"]; ["web"; "uploads"] ].
Proof.
  intros Hes.
  assert (Hgen : forall xss,
            forallb (fun xs => negb (length xs =? 0) && forallb path.isElem xs)
              xss = true ->
            atomarchive.shouldExclude (path.joinElems es)
              (map path.joinElems xss)
            = existsb (fun xs => path.isPrefixOf xs es) xss).
  { clear xss. induction xss as [|xs xss IH]; intros Hxss; [reflexivity|].
    cbn [forallb] in Hxss. apply andb_true_iff in Hxss as [Hxs Hxss].
    apply andb_true_iff in Hxs as [Hne Hxs].
    assert (Hxs0 : xs <> []) by (destruct xs; [discriminate|discriminate]).
    cbn [map atomarchive.shouldExclude existsb].
    rewrite (ExcludeFacts.TrimSuffix_joinElems es Hes),
      (ExcludeFacts.TrimSuffix_joinElems xs Hxs).
    rewrite <- (ExcludeFacts.covered_components xs Hxs0 Hxs es Hes).
    rewrite <- (IH Hxss).
    destruct (streq (path.joinElems es) (path.joinElems xs)); [reflexivity|].
    destruct (strings.HasPrefix (path.joinElems es) (path.joinElems xs ++ "/"));
      reflexivity. }
  intros Hxss. split; [now apply Hgen|].
  exact (Hgen [ [".git"]; ["cache"]; ["log"]; ["uploads"]; ["web"; "uploads"] ]
           eq_refl).
Qed.

Lemma shouldExclude_witness :
  atomarchive.shouldExclude "web/uploads/r/logo.png" atomarchive.defaultExcludes
  = true
  /\ atomarchive.shouldExclude "cachefiles/a.php" atomarchive.defaultExcludes
     = false.
Proof.
  split.
  - exact (proj2 (shouldExclude_by_elements ["web"; "uploads"; "r"; "logo.png"]
                    [] eq_refl eq_refl)).
  - exact (proj2 (shouldExclude_by_elements ["cachefiles"; "a.php"]
                    [] eq_refl eq_refl)).
Defined.

(** X11.  What [shouldExclude] leaves out, it leaves out with
    everything below: if it holds of a path, it holds of that path
    followed by a separator and any further text.  This is so for every
    path and every list, clean or not. *)
Theorem shouldExclude_covers_subtree (dir name : str) (excludes : list str) :
  atomarchive.shouldExclude dir excludes = true ->
  atomarchive.shouldExclude (dir ++ "/" ++ name) excludes = true.
Proof.
  induction excludes as [|exclude excludes IH]; [discriminate|].
  cbn [atomarchive.shouldExclude]. intros H.
  pose proof (ExcludeFacts.covered_below dir name
                (strings.TrimSuffix exclude "/")) as Hc.
  destruct (streq (strings.TrimSuffix (dir ++ "/" ++ name) "/")
              (strings.TrimSuffix exclude "/")) eqn:F1; [reflexivity|].
  destruct (strings.HasPrefix (strings.TrimSuffix (dir ++ "/" ++ name) "/")
              (strings.TrimSuffix exclude "/" ++ "/")) eqn:F2; [reflexivity|].
  destruct (streq (strings.TrimSuffix dir "/")
              (strings.TrimSuffix exclude "/")) eqn:E1;
    [discriminate (Hc eq_refl)|].
  destruct (strings.HasPrefix (strings.TrimSuffix dir "/")
              (strings.TrimSuffix exclude "/" ++ "/")) eqn:E2;
    [discriminate (Hc eq_refl)|].
  now apply IH.
Qed.

Lemma shouldExclude_subtree_witness :
  atomarchive.shouldExclude ("uploads/" ++ "/" ++ "r/x.jpg")
    atomarchive.defaultExcludes = true.
Proof.
  apply (shouldExclude_covers_subtree "uploads/" "r/x.jpg"
           atomarchive.defaultExcludes).
  reflexivity.
Defined.


(** ** The storage API *)

Module StorageFacts.
Import strings valence.

Section WithUnicode.
Context {U : Unicode}.

Lemma keepLocation_both (parentID query : str) (l : storageLocation) :
  keepLocation parentID query l
  = keepLocation parentID [] l && keepLocation [] query l.
Proof.
  unfold keepLocation. cbn [streq negb]. now rewrite andb_true_r.
Qed.

Lemma keepLocation_none (l : storageLocation) : keepLocation [] [] l = true.
Proof. reflexivity. Qed.

Lemma filter_all (A : Type) (f : A -> bool) (l : list A) :
  (forall x, f x = true) -> filter f l = l.
Proof.
  intros Hf. induction l as [|x l IH]; [reflexivity|].
  cbn [filter]. now rewrite Hf, IH.
Qed.

Lemma filter_filter (A : Type) (f g : A -> bool) (l : list A) :
  filter g (filter f l) = filter (fun x => f x && g x) l.
Proof.
  induction l as [|x l IH]; [reflexivity|].
  cbn [filter]. destruct (f x); cbn [filter andb]; now rewrite IH.
Qed.

(** With or without the shortcut for two empty criteria, the result is
    the list filtered. *)
Lemma filterStorageLocations_filter (locations : list storageLocation)
    (parentID query : str) :
  filterStorageLocations locations parentID query
  = filter (keepLocation parentID query) locations.
Proof.
  unfold filterStorageLocations.
  destruct (streq parentID []) eqn:Ep; [|reflexivity].
  destruct (streq query []) eqn:Eq; [|reflexivity].
  apply streq_eq in Ep, Eq. subst. cbn [andb].
  symmetry. apply filter_all. apply keepLocation_none.
Qed.

End WithUnicode.

End StorageFacts.

(** X12.  The two criteria of [filterStorageLocations] are independent:
    filtering by parent and then by query, or by query and then by parent,
    gives what filtering by both gives.  Every location returned for a
    parent that is not empty has that parent, so no top-level location is
    among them; every location returned for a query that is not empty
    holds the query in its lower-cased label. *)
Theorem filterStorageLocations_composes {U : Unicode}
    (locations : list valence.storageLocation) (parentID query : str) :
  valence.filterStorageLocations
    (valence.filterStorageLocations locations parentID []) [] query
  = valence.filterStorageLocations locations parentID query
  /\ valence.filterStorageLocations
       (valence.filterStorageLocations locations [] query) parentID []
     = valence.filterStorageLocations locations parentID query
  /\ (parentID <> [] ->
      Forall (fun l => valence.ParentID l = Some parentID)
        (valence.filterStorageLocations locations parentID query))
  /\ (query <> [] ->
      Forall (fun l => strings.Contains (strings.ToLower (valence.Label l)) query
                       = true)
        (valence.filterStorageLocations locations parentID query)).
Proof.
  rewrite !StorageFacts.filterStorageLocations_filter.
  rewrite !StorageFacts.filter_filter.
  split; [|split; [|split]].
  - apply filter_ext. intros l. symmetry. apply StorageFacts.keepLocation_both.
  - apply filter_ext. intros l.
    rewrite (StorageFacts.keepLocation_both parentID query). apply andb_comm.
  - intros Hp. apply Forall_forall. intros l Hin.
    apply filter_In in Hin as [_ Hk]. unfold valence.keepLocation in Hk.
    destruct (streq parentID []) eqn:E; [apply streq_eq in E; congruence|].
    cbn [negb] in Hk. apply andb_true_iff in Hk as [Hk _].
    destruct (valence.ParentID l) as [parent|]; [|discriminate].
    apply streq_eq in Hk. now subst.
  - intros Hq. apply Forall_forall. intros l Hin.
    apply filter_In in Hin as [_ Hk]. unfold valence.keepLocation in Hk.
    destruct (streq query []) eqn:E; [apply streq_eq in E; congruence|].
    cbn [negb] in Hk. now apply andb_true_iff in Hk as [_ Hk].
Qed.

Example shelves_of_range_a :
  map valence.ID
    (@valence.filterStorageLocations {| MapToLower := fun s => s |}
       valence.seedStorageLocations "loc_range_a" "shelf")
  = ["loc_shelf_3"; "loc_shelf_4"].
Proof. reflexivity. Qed.

(** X13.  [storageLocationsHandler] answers a request that is not a GET
    with 405 and [Allow: GET], before it looks at the token; a GET without
    the bearer token the environment asks for with 401; and only a GET
    that carries the token, or any GET when no token is set, with the
    seeded locations filtered by the trimmed [parent_id] and the trimmed,
    lower-cased [query].  So the locations are written for a GET that is
    authorised and for no other request.  The environment is only read. *)
Theorem locations_only_for_authorized_get {W : Type} `{OS W} {U : Unicode}
    (w : valence.ResponseWriter) (r : valence.Request)
    (values : list (str * str)) (s : state W) :
  let token :=
    strings.TrimSpace (os_Getenv (world s) "ATOM_VALENCE_INTERNAL_TOKEN") in
  let authorized :=
    streq token []
    || streq (strings.TrimSpace
                (valence.valueOf "Authorization" (valence.Header r)))
             ("Bearer " ++ token) in
  let get := streq (valence.Method r) "GET" in
  let answer :=
    valence.EncodedJSON
      {| valence.Locations :=
           valence.filterStorageLocations valence.seedStorageLocations
             (strings.TrimSpace (valence.valueOf "parent_id" values))
             (strings.ToLower
                (strings.TrimSpace (valence.valueOf "query" values))) |} in
  let out := valence.storageLocationsHandler w r values s in
  snd out = s
  /\ valence.rwWritten (fst out)
     = valence.rwWritten w
       ++ [ if negb get then valence.Plain ("method not allowed" ++ LF)
            else if authorized then answer
            else valence.Plain ("unauthorized" ++ LF) ]
  /\ (valence.rwStatus w = None ->
      valence.rwStatus (fst out)
      = Some (if negb get then 405 else if authorized then 200 else 401)%Z)
  /\ (get = false ->
      valence.valueOf "Allow" (valence.rwHeader (fst out)) = "GET")
  /\ (forall v, In (valence.EncodedJSON v) (valence.rwWritten (fst out)) ->
                In (valence.EncodedJSON v) (valence.rwWritten w)
                \/ (get = true /\ authorized = true)).
Proof.
  intros token authorized get answer out.
  assert (Hout : out
                 = (if negb get
                    then valence.httpError
                           (valence.headerSet "Allow" "GET" w)
                           "method not allowed" 405
                    else if authorized
                    then valence.rwWrite answer
                           (valence.headerSet "Content-Type" "application/json" w)
                    else valence.httpError w "unauthorized" 401, s)).
  { subst out. unfold valence.storageLocationsHandler. fold get.
    destruct (negb get); [reflexivity|].
    unfold valence.authorizeInternalAPI, bind, Getenv, query, ret.
    cbn [fst snd]. fold token. subst authorized.
    destruct (streq token []); [reflexivity|]. cbn [orb].
    destruct (streq _ ("Bearer " ++ token)); reflexivity. }
  rewrite Hout. cbn [fst snd].
  split; [reflexivity|]. split; [|split; [|split]].
  - destruct (negb get); [|destruct authorized];
      unfold valence.httpError, valence.rwWrite, valence.WriteHeader,
        valence.headerSet, valence.headerDel;
      cbn; destruct (valence.rwStatus w); reflexivity.
  - intros Hs.
    destruct (negb get); [|destruct authorized];
      unfold valence.httpError, valence.rwWrite, valence.WriteHeader,
        valence.headerSet, valence.headerDel;
      cbn; rewrite Hs; reflexivity.
  - intros Hg. rewrite Hg. cbn [negb].
    unfold valence.httpError, valence.rwWrite, valence.WriteHeader,
      valence.headerSet, valence.headerDel.
    cbn. destruct (valence.rwStatus w); reflexivity.
  - intros v Hin.
    destruct get; cbn [negb] in Hin.
    + destruct authorized; [now right|].
      left. unfold valence.httpError, valence.rwWrite, valence.WriteHeader,
        valence.headerSet, valence.headerDel in Hin.
      cbn in Hin. destruct (valence.rwStatus w); cbn in Hin;
        apply in_app_or in Hin as [Hin|[Hin|[]]]; (exact Hin || discriminate).
    + left. unfold valence.httpError, valence.rwWrite, valence.WriteHeader,
        valence.headerSet, valence.headerDel in Hin.
      cbn in Hin. destruct (valence.rwStatus w); cbn in Hin;
        apply in_app_or in Hin as [Hin|[Hin|[]]]; (exact Hin || discriminate).
Qed.


(** ** The PHP runtime: the extension directory *)

Module ExtensionFacts.
Import strings valence.

Section WithOS.
Context {W : Type} `{OS W} `{OSDirs W}.

Lemma extDirHasSo_query (dir : str) (s : state W) :
  snd (extDirHasSo dir s) = s.
Proof.
  unfold extDirHasSo, ReadDirEntries, bind, query, ret. cbn [fst snd].
  now destruct (os_ReadDirEntries (world s) dir).
Qed.

Lemma extDirHasSo_run (dir : str) (s : state W) :
  extDirHasSo dir s = (fst (extDirHasSo dir s), s).
Proof.
  rewrite <- (extDirHasSo_query dir s) at 3. now destruct (extDirHasSo dir s).
Qed.

(** The searches return nothing, or a directory with a shared object in
    it, and leave the state as it is. *)
Lemma firstSubdirWithSo_found (base : str) (entries : list DirEntry)
    (s : state W) :
  snd (firstSubdirWithSo base entries s) = s
  /\ (fst (firstSubdirWithSo base entries s) = []
      \/ fst (extDirHasSo (fst (firstSubdirWithSo base entries s)) s) = true).
Proof.
  induction entries as [|entry entries IH]; [split; [reflexivity|now left]|].
  cbn [firstSubdirWithSo]. destruct (negb (entryIsDir entry)); [exact IH|].
  unfold bind. rewrite extDirHasSo_run.
  destruct (fst (extDirHasSo (path.Join base (entryName entry)) s)) eqn:E;
    [|exact IH].
  split; [reflexivity|right; exact E].
Qed.

Lemma firstExtDirWithSo_found (base : str) (s : state W) :
  snd (firstExtDirWithSo base s) = s
  /\ (fst (firstExtDirWithSo base s) = []
      \/ fst (extDirHasSo (fst (firstExtDirWithSo base s)) s) = true).
Proof.
  unfold firstExtDirWithSo, bind. rewrite extDirHasSo_run.
  destruct (fst (extDirHasSo base s)) eqn:E;
    [split; [reflexivity|right; exact E]|].
  unfold ReadDirEntries, query. cbn [fst snd].
  destruct (os_ReadDirEntries (world s) base) as [entries|err];
    [apply firstSubdirWithSo_found|split; [reflexivity|now left]].
Qed.

Lemma firstBaseWithSo_found (bases : list str) (s : state W) :
  snd (firstBaseWithSo bases s) = s
  /\ (fst (firstBaseWithSo bases s) = []
      \/ fst (extDirHasSo (fst (firstBaseWithSo bases s)) s) = true).
Proof.
  induction bases as [|base bases IH]; [split; [reflexivity|now left]|].
  cbn [firstBaseWithSo]. unfold bind.
  destruct (firstExtDirWithSo_found base s) as [Hs Hf].
  destruct (firstExtDirWithSo base s) as [dir s1]. cbn [fst snd] in Hs, Hf.
  subst s1. destruct (streq dir []) eqn:Ed; cbn [negb]; [exact IH|].
  split; [reflexivity|]. cbn [fst]. destruct Hf as [->|Hf]; [discriminate|].
  now right.
Qed.

End WithOS.

End ExtensionFacts.

(** X14.  [detectExtensionDir] returns the empty string or a directory
    that holds, at that moment, an entry that is no directory and whose
    name ends in [.so]; the directory named by [PHP_EXTENSION_DIR],
    trimmed, is returned whenever it is such a directory, before any of
    the built-in locations is looked at.  The search only reads. *)
Theorem detectExtensionDir_has_shared_object {W : Type} `{OS W} `{OSDirs W}
    (s : state W) :
  let dir := strings.TrimSpace (os_Getenv (world s) "PHP_EXTENSION_DIR") in
  let out := valence.detectExtensionDir s in
  snd out = s
  /\ (fst out = [] \/ fst (valence.extDirHasSo (fst out) s) = true)
  /\ (dir <> [] -> fst (valence.extDirHasSo dir s) = true -> fst out = dir).
Proof.
  intros dir out. subst out.
  unfold valence.detectExtensionDir, bind, Getenv, query. cbn [fst snd].
  fold dir.
  destruct (streq dir []) eqn:Ed; cbn [negb].
  - unfold ret at 1. cbn [fst snd].
    destruct (ExtensionFacts.firstBaseWithSo_found
                [ "/usr/local/lib/php/extensions"; "/lib/php/extensions";
                  "/usr/lib/php/extensions" ] s) as [Hs Hf].
    split; [exact Hs|]. split; [exact Hf|].
    intros Hne. apply streq_eq in Ed. congruence.
  - rewrite ExtensionFacts.extDirHasSo_run.
    destruct (fst (valence.extDirHasSo dir s)) eqn:E.
    + split; [reflexivity|]. split; [now right|reflexivity].
    + destruct (ExtensionFacts.firstBaseWithSo_found
                  [ "/usr/local/lib/php/extensions"; "/lib/php/extensions";
                    "/usr/lib/php/extensions" ] s) as [Hs Hf].
      split; [exact Hs|]. split; [exact Hf|]. discriminate.
Qed.

Example extension_dir_found :
  valence.detectExtensionDir (lexfs.start sample.withExtensions)
  = ("/usr/local/lib/php/extensions/no-debug-zts-20230831",
     lexfs.start sample.withExtensions).
Proof. reflexivity. Qed.


(** ** The dependency gate: waiting *)

Module WaitFacts.
Import strings valence valence.gate.

Section Observed.
Context {W : Type} `{Net W}.

(** An observation of the world that gains the address with every dial
    and is left alone by sleep. *)
Variable dials : W -> list str.
Hypothesis dials_dial :
  forall w network address timeout,
    dials (fst (net_DialTimeout w network address timeout))
    = dials w ++ [address].
Hypothesis dials_sleep : forall w d, dials (time_Sleep w d) = dials w.



End Observed.



End WaitFacts.





Example dependencies_answer_in_turn :
  let out := @valence.gate.waitForDependencies _ _ _ sample.noURLs
               (wired.start sample.services [false; true; true]) in
  fst out = None
  /\ wired.dialed (world (snd out))
     = ["percona:3306"; "percona:3306"; "elasticsearch:9200"]
  /\ wired.slept (world (snd out)) = 2000000000%Z.
Proof. vm_compute. repeat split. Qed.


(** ** Routing: what is served, what is denied, what PHP is told *)

Module ServeFacts.
Import strings path regexp valence PathFacts StringsFacts NormalizerFacts
  RegexpFacts RoutingFacts.

(** A relative path made of ordinary elements is clean. *)
Lemma Clean_names (es : list str) :
  es <> [] -> forallb isName es = true ->
  Clean (joinElems es) = joinElems es /\ IsAbs (joinElems es) = false.
Proof.
  intros Hne Hes.
  assert (Ha : IsAbs (joinElems es) = false).
  { destruct es as [|e es]; [congruence|].
    cbn [forallb] in Hes. apply andb_true_iff in Hes as [He _].
    apply isName_elem in He. rewrite joinElems_cons.
    destruct e as [|c e]; [discriminate|].
    change ((c :: e) ++ _) with (c :: (e ++ match es with
                                              | [] => []
                                              | _ :: _ => "/"%char :: joinElems es
                                              end)).
    rewrite IsAbs_cons. unfold isElem in He. cbn [forallb] in He.
    apply andb_true_iff in He as [Hc _]. now apply negb_true_iff in Hc. }
  split; [|exact Ha].
  destruct (Clean_spec (joinElems es)) as [-> _].
  unfold stackOf. rewrite Ha, elems_joinElems by (apply names_elems, Hes).
  rewrite reduce_names by exact Hes. rewrite app_nil_r.
  unfold render. rewrite rev_involutive.
  destruct (rev es) eqn:Er; [|reflexivity].
  apply (f_equal (@rev str)) in Er. rewrite rev_involutive in Er. now subst.
Qed.

Lemma Contains_tail (c : ascii) (s sub : str) :
  Contains (c :: s) sub = false -> Contains s sub = false.
Proof. apply Contains_cons. Qed.

Lemma Contains_prefix (s sub : str) :
  Contains s sub = false -> HasPrefix s sub = false.
Proof.
  destruct s; cbn [Contains]; intros H; apply orb_false_iff in H; tauto.
Qed.

(** The candidate under a root for a normal path that names something
    lies within that root. *)
Lemma candidate_within (dir q : str) :
  normal q -> q <> "/" ->
  within dir (Join dir (TrimPrefix q "/")) = true.
Proof.
  intros (es & Hes & -> & Hc) Hq.
  assert (Hne : es <> []) by (intros ->; now apply Hq).
  change (TrimPrefix ("/"%char :: joinElems es) "/") with (joinElems es).
  destruct (Clean_names es Hne Hes) as [Ec Ha].
  rewrite <- Ec. apply within_Join; rewrite Ec; [exact Ha|].
  apply Contains_prefix, (Contains_tail "/"), Hc.
Qed.

End ServeFacts.

(** X17.  The path [atomHandler.ServeHTTP] decides to serve from disk
    is, whatever path the request carries, one that [os.Stat] reports as
    an existing file that is no directory, and it lies lexically within
    the application root or, when a data directory is configured, within
    the data directory: it is one of these roots followed by ordinary
    elements only.  Where a link on that path leads is not looked at. *)
Theorem static_served_from_roots {W : Type} `{OS W} (w : W)
    (h : valence.atomHandler) (r : valence.Request) (assetPath : str) :
  valence.route (snd (valence.ServeHTTP w h r)) = valence.serveStatic assetPath ->
  valence.regular w assetPath = true
  /\ (path.within (valence.h_phpRoot h) assetPath = true
      \/ (valence.h_atomDataDir h <> []
          /\ path.within (valence.h_atomDataDir h) assetPath = true)).
Proof.
  unfold valence.ServeHTTP. cbn [snd].
  set (q := valence.normalizePath (valence.URLPath r)).
  pose proof (NormalizerFacts.normalizePath_normal (valence.URLPath r)) as Hn.
  fold q in Hn. unfold valence.decideRoute.
  destruct (regexp.MatchString valence.privatePathRe q); [discriminate|].
  destruct (regexp.MatchString valence.uploadsConfRe q); [discriminate|].
  destruct (regexp.MatchString valence.phpEntryRe q); [discriminate|].
  destruct (valence.matchesStatic q) eqn:Es.
  - assert (Hq : q <> "/") by (intros E; rewrite E in Es; discriminate).
    destruct (valence.staticAssetPath w h q) as [p [|]] eqn:Ep; [|discriminate].
    cbn [valence.route]. intros [= ->].
    unfold valence.staticAssetPath in Ep.
    apply RoutingFacts.firstRegular_found in Ep as (before & after & E & _ & Hr).
    split; [exact Hr|].
    assert (Hin : In assetPath (valence.staticCandidates h q))
      by (rewrite E; apply in_or_app; right; now left).
    unfold valence.staticCandidates in Hin. apply in_app_or in Hin as [Hin|Hin].
    + destruct (streq (valence.h_atomDataDir h) []) eqn:Ed; cbn [negb andb] in Hin;
        [destruct Hin|].
      destruct (regexp.MatchString valence.downloadAssetRe q); [|destruct Hin].
      destruct Hin as [<-|[]]. right. split.
      * intros E0. rewrite E0 in Ed. discriminate.
      * now apply ServeFacts.candidate_within.
    + destruct Hin as [<-|[]]. left. now apply ServeFacts.candidate_within.
  - destruct (regexp.MatchString valence.uploadsAssetRe q); [discriminate|].
    destruct (valence.existsOnDisk w h q); discriminate.
Qed.

Lemma static_served_witness :
  valence.regular sample.foreign "/data/downloads/guide.pdf" = true
  /\ (path.within "/app/atom" "/data/downloads/guide.pdf" = true
      \/ ("/data" <> []
          /\ path.within "/data" "/data/downloads/guide.pdf" = true)).
Proof.
  apply (static_served_from_roots sample.foreign sample.handlerAtom
           (sample.get "/index.php/../downloads//guide.pdf")).
  reflexivity.
Defined.

(** X18.  Every request is dispatched with a normal path: rooted, made
    of ordinary elements, without two dots in a row.  When the decision is
    the front controller, the request built for the runtime names
    [/index.php], its [SCRIPT_FILENAME] is the configured front
    controller, and its [PATH_INFO] is that normal path, so a legacy
    prefix and every [.] and [..] of the original path are gone before PHP
    sees it. *)
Theorem front_controller_gets_normal_path {W : Type} `{OS W} (w : W)
    (h : valence.atomHandler) (r : valence.Request) :
  let dispatched := fst (valence.ServeHTTP w h r) in
  valence.normal (valence.URLPath dispatched)
  /\ forall phpRoot frontController,
       valence.route (snd (valence.ServeHTTP w h r))
       = valence.fallback phpRoot frontController ->
       let '(request, env) :=
         valence.frontControllerRequest phpRoot frontController dispatched in
       valence.URLPath request = "/index.php"
       /\ valence.Method request = valence.Method r
       /\ valence.Body request = valence.Body r
       /\ valence.valueOf "SCRIPT_FILENAME" env = valence.h_frontController h
       /\ valence.valueOf "SCRIPT_NAME" env = "/index.php"
       /\ valence.valueOf "PATH_INFO" env
          = valence.normalizePath (valence.URLPath r).
Proof.
  intros dispatched. subst dispatched. unfold valence.ServeHTTP. cbn [fst snd].
  split; [apply NormalizerFacts.normalizePath_normal|].
  intros phpRoot frontController.
  set (q := valence.normalizePath (valence.URLPath r)).
  unfold valence.decideRoute.
  destruct (regexp.MatchString valence.privatePathRe q); [discriminate|].
  destruct (regexp.MatchString valence.uploadsConfRe q); [discriminate|].
  destruct (regexp.MatchString valence.phpEntryRe q);
    [intros [= <- <-]; repeat split|].
  destruct (valence.matchesStatic q).
  - destruct (valence.staticAssetPath w h q) as [p [|]]; discriminate.
  - destruct (regexp.MatchString valence.uploadsAssetRe q);
      [intros [= <- <-]; repeat split|].
    destruct (valence.existsOnDisk w h q); [discriminate|].
    intros [= <- <-]; repeat split.
Qed.

Example legacy_entry_point_is_rewritten :
  let '(dispatched, decision) :=
    valence.ServeHTTP sample.foreign sample.handlerAtom
      (sample.post "/qubit_dev.php/a/./b/../informationobject/browse") in
  valence.label decision = "front_controller"
  /\ snd (valence.frontControllerRequest "/app/atom" "/app/atom/index.php"
            dispatched)
     = [ ("SCRIPT_FILENAME", "/app/atom/index.php");
         ("SCRIPT_NAME", "/index.php");
         ("PATH_INFO", "/a/informationobject/browse") ].
Proof. vm_compute. split; reflexivity. Qed.

Module DenyFacts.
Import strings regexp valence RegexpFacts.

(** [.*] matches every text without a line feed. *)
Lemma matches_any (x rest : str) :
  without newline x = true -> matches (Star AnyNotNL) x rest.
Proof.
  revert rest. induction x as [|c x IH]; intros rest Hx; [constructor|].
  rewrite TextFacts.without_cons in Hx. apply andb_true_iff in Hx as [Hc Hx].
  change (c :: x) with ([c] ++ x). apply MStarS; [|now apply IH].
  constructor. intros ->. now rewrite Ascii.eqb_refl in Hc.
Qed.

Lemma uploadsConf_matches (x rest : str) :
  without newline x = true ->
  MatchString uploadsConfRe ("/uploads/r/" ++ x ++ "/conf/" ++ rest) = true.
Proof.
  intros Hx. unfold MatchString.
  replace ("/uploads/r/" ++ x ++ "/conf/" ++ rest)
    with (("/uploads/r/" ++ x ++ "/conf/" ++ []) ++ rest)
    by (rewrite <- !app_assoc; reflexivity).
  apply matchPrefix_complete. unfold uploadsConfRe. cbn [cat].
  apply MSeq; [apply matches_Lit_refl|].
  apply MSeq; [now apply matches_any|].
  apply MSeq; [apply matches_Lit_refl|constructor].
Qed.

Lemma private_matches (q : str) :
  MatchString privatePathRe q = HasPrefix q "/private/".
Proof.
  destruct (MatchString privatePathRe q) eqn:E.
  - symmetry. now apply MatchString_Lit.
  - destruct (HasPrefix q "/private/") eqn:Ep; [|reflexivity].
    apply StringsFacts.HasPrefix_iff in Ep as [t ->].
    unfold MatchString, privatePathRe in E.
    rewrite (matchPrefix_complete _ _ t (matches_Lit_refl "/private/" t)) in E.
    discriminate.
Qed.

End DenyFacts.

(** X19.  The two deny rules come before every other rule and do not
    look at the disk.  A path is answered as [deny_private], with the
    not-found handler, exactly when it starts with [/private/]; and a path
    that has [/conf/] somewhere below [/uploads/r/], with no line feed in
    between, is answered as [deny_uploads_conf] with the forbidden
    handler, also when a file of a static family is there. *)
Theorem deny_rules_come_first {W : Type} `{OS W} (w : W)
    (h : valence.atomHandler) (r : valence.Request) (reqPath : str) :
  (valence.label (valence.decideRoute w h r reqPath) = "deny_private"
   <-> strings.HasPrefix reqPath "/private/" = true)
  /\ (strings.HasPrefix reqPath "/private/" = true ->
      valence.route (valence.decideRoute w h r reqPath)
      = valence.NotFoundHandler)
  /\ (forall x rest,
        strings.without regexp.newline x = true ->
        valence.decideRoute w h r ("/uploads/r/" ++ x ++ "/conf/" ++ rest)
        = {| valence.label := "deny_uploads_conf";
             valence.route := valence.forbiddenHandler |}).
Proof.
  split; [|split].
  - unfold valence.decideRoute. rewrite DenyFacts.private_matches.
    destruct (strings.HasPrefix reqPath "/private/"); [now split|].
    split; [|discriminate].
    destruct (regexp.MatchString valence.uploadsConfRe reqPath); [discriminate|].
    destruct (regexp.MatchString valence.phpEntryRe reqPath); [discriminate|].
    destruct (valence.matchesStatic reqPath).
    + destruct (valence.staticAssetPath w h reqPath) as [p [|]]; discriminate.
    + destruct (regexp.MatchString valence.uploadsAssetRe reqPath);
        [discriminate|].
      destruct (valence.existsOnDisk w h reqPath); discriminate.
  - intros Hp. unfold valence.decideRoute.
    now rewrite DenyFacts.private_matches, Hp.
  - intros x rest Hx. unfold valence.decideRoute.
    rewrite DenyFacts.private_matches.
    change (strings.HasPrefix ("/uploads/r/" ++ x ++ "/conf/" ++ rest) "/private/")
      with false.
    now rewrite (DenyFacts.uploadsConf_matches x rest Hx).
Qed.

Lemma deny_rules_witness :
  valence.decideRoute sample.foreign sample.handlerAtom
    (sample.get "/uploads/r/repo/conf/logo.png")
    "/uploads/r/repo/conf/logo.png"
  = {| valence.label := "deny_uploads_conf";
       valence.route := valence.forbiddenHandler |}.
Proof.
  apply (proj2 (proj2 (deny_rules_come_first sample.foreign sample.handlerAtom
                         (sample.get "/uploads/r/repo/conf/logo.png")
                         "/uploads/r/repo/conf/logo.png"))
           "repo" "logo.png").
  reflexivity.
Defined.


(** ** The materialiser and the boot: what they touch *)

Module TouchFacts.
Import strings path atomembed TraceFacts PathFacts.

Section WithOS.
Context {W : Type} `{OS W}.

Lemma traced_and (A : Type) (P Q : syscall -> Prop) (m : M W A) :
  traced P m -> traced Q m -> traced (fun c => P c /\ Q c) m.
Proof.
  intros Hp Hq s.
  destruct (Hp s) as (n1 & E1 & F1). destruct (Hq s) as (n2 & E2 & F2).
  rewrite E1 in E2. apply app_inv_head in E2. subst n2.
  exists n1. split; [exact E1|]. apply Forall_forall. intros c Hc.
  rewrite Forall_forall in F1, F2. auto.
Qed.

(** The extraction makes directories, links and files, and removes
    nothing. *)
Lemma extractEntry_keeps (target : str) (e : Entry) :
  traced (fun c => forall p, c <> CallRemoveAll p) (extractEntry target e).
Proof.
  unfold extractEntry, writeRegular, MkdirAll, OpenFile, Write, Close, Symlink.
  destruct (streq (Name (hdr e)) []); [apply traced_ret|].
  destruct (HasPrefix (Clean (Name (hdr e))) ".." || IsAbs (Clean (Name (hdr e))));
    [apply traced_ret|].
  destruct (Typeflag (hdr e)); try apply traced_ret;
    repeat first
      [ apply traced_ret
      | apply traced_bind; [|intros ?]
      | apply traced_perform; discriminate
      | match goal with
        | |- traced _ (match ?x with _ => _ end) => destruct x
        | |- traced _ (if ?x then _ else _) => destruct x
        end ].
Qed.

Lemma extractArchive_keeps (a : Archive) (target : str) :
  traced (fun c => forall p, c <> CallRemoveAll p) (extractArchive a target).
Proof.
  unfold extractArchive.
  destruct (negb (ArchiveAvailable a)); [apply traced_ret|].
  apply traced_bind; [apply traced_perform; discriminate|].
  intros [err|]; [apply traced_ret|].
  destruct (gzipErr a); [apply traced_ret|].
  induction (tarEntries a) as [|e es IH]; simpl; [apply traced_ret|].
  apply traced_bind; [apply extractEntry_keeps|].
  intros [err|]; [apply traced_ret|exact IH].
Qed.

Lemma marker_within (target : str) :
  within target (Join target markerFile) = true.
Proof. apply (within_Join target markerFile); reflexivity. Qed.

Lemma extractAndMark_touches (a : Archive) (target : str) (force : bool) :
  traced (fun c => contained target c
                   /\ forall p, c = CallRemoveAll p -> force = true /\ p = target)
         (extractAndMark a target).
Proof.
  unfold extractAndMark. apply traced_bind.
  - eapply traced_weaken;
      [|apply (traced_and _ _ _ _
                 (AtomembedFacts.extractArchive_contained a target)
                 (extractArchive_keeps a target))].
    intros c [Hc Hk]. split; [exact Hc|]. intros p E. now destruct (Hk p).
  - intros [err|]; [apply traced_ret|].
    apply traced_bind; [|intros [err|]; apply traced_ret].
    apply traced_perform. split; [|discriminate].
    intros p [= <-]. apply marker_within.
Qed.

Lemma markerMatches_traced (P : syscall -> Prop) (a : Archive) (target : str) :
  traced P (markerMatches a target).
Proof.
  unfold markerMatches, ReadFile. apply traced_bind; [apply traced_query|].
  intros [contents|err]; apply traced_ret.
Qed.

Lemma dirEmpty_traced (P : syscall -> Prop) (target : str) :
  traced P (dirEmpty target).
Proof.
  unfold dirEmpty, ReadDir. apply traced_bind; [apply traced_query|].
  intros [entries|err]; apply traced_ret.
Qed.

End WithOS.

End TouchFacts.

(** X20.  Whatever the archive holds and whatever is on disk, every
    path [EnsureExtracted] hands to a call that creates or writes a file
    or a link, the marker's included, lies lexically within the target
    (where a link on that path leads is not looked at), and the one path
    it ever asks to remove is the target itself, and only when [force]
    is set. *)
Theorem EnsureExtracted_stays_in_target {W : Type} `{OS W}
    (a : atomembed.Archive) (target : str) (force : bool) :
  traced (fun c =>
            (forall p, writesFileAt c = Some p -> path.within target p = true)
            /\ (forall p, c = CallRemoveAll p -> force = true /\ p = target))
         (atomembed.EnsureExtracted a target force).
Proof.
  unfold atomembed.EnsureExtracted.
  destruct (streq (strings.TrimSpace target) []); [apply TraceFacts.traced_ret|].
  apply TraceFacts.traced_bind; [apply TraceFacts.traced_query|].
  intros [info|err].
  - destruct (negb (IsDir info)); [apply TraceFacts.traced_ret|].
    apply TraceFacts.traced_bind; [apply TouchFacts.markerMatches_traced|].
    intros [|]; [apply TraceFacts.traced_ret|].
    destruct force.
    + apply TraceFacts.traced_bind.
      * apply TraceFacts.traced_perform. split; [discriminate|].
        now intros p [= <-].
      * intros [err|]; [apply TraceFacts.traced_ret|].
        apply TouchFacts.extractAndMark_touches.
    + apply TraceFacts.traced_bind; [apply TouchFacts.dirEmpty_traced|].
      intros [|]; [|apply TraceFacts.traced_ret].
      apply TouchFacts.extractAndMark_touches.
  - destruct (negb (errors.IsNotExist err)); [apply TraceFacts.traced_ret|].
    apply TouchFacts.extractAndMark_touches.
Qed.

Example forced_extraction_calls :
  calls (snd (atomembed.EnsureExtracted sample.snapshotB "/app/atom" true
                (lexfs.start sample.foreign)))
  = [ CallRemoveAll "/app/atom";
      CallMkdirAll "/app/atom" 493;
      CallMkdirAll "/app/atom" 493;
      CallOpenFile "/app/atom/index.php" 420;
      CallWrite "/app/atom/index.php" "<?php echo 2;";
      CallClose "/app/atom/index.php";
      CallMkdirAll "/app/atom/downloads" 493;
      CallOpenFile "/app/atom/downloads/guide.pdf" 420;
      CallWrite "/app/atom/downloads/guide.pdf" "%PDF";
      CallClose "/app/atom/downloads/guide.pdf";
      CallWriteFile "/app/atom/.valence-atom-version" sample.digestB 420 ].
Proof. vm_compute. reflexivity. Qed.

(** X21.  [EnsureExtracted] returns at once, with no call issued and
    the state as it was, in four cases: the target is blank (an error);
    the target exists and is no directory (an error); the target cannot
    be examined for a reason other than its absence (that error); and the
    marker in the target, white space at its ends aside, is the digest of
    the archive.  In the last case it reports that nothing was extracted
    and no error, also when [force] is set. *)
Theorem EnsureExtracted_leaves_alone {W : Type} `{OS W}
    (a : atomembed.Archive) (target : str) (force : bool) (s : state W) :
  (strings.TrimSpace target = [] ->
   atomembed.EnsureExtracted a target force s
   = ((false, Some (errors.New "atom root path is empty")), s))
  /\ (strings.TrimSpace target <> [] ->
      (os_Stat (world s) target = Ok {| IsDir := false |} ->
       atomembed.EnsureExtracted a target force s
       = ((false, Some (errors.New "atom root exists and is not a directory")),
          s))
      /\ (forall err,
            os_Stat (world s) target = Err err ->
            errors.IsNotExist err = false ->
            atomembed.EnsureExtracted a target force s = ((false, Some err), s))
      /\ (forall contents,
            os_Stat (world s) target = Ok {| IsDir := true |} ->
            os_ReadFile (world s) (path.Join target atomembed.markerFile)
            = Ok contents ->
            strings.TrimSpace contents = atomembed.ArchiveHash a ->
            atomembed.EnsureExtracted a target force s = ((false, None), s))).
Proof.
  rewrite EnsureFacts.EnsureExtracted_unfold. split.
  - intros ->. reflexivity.
  - intros Hb.
    destruct (streq_spec (strings.TrimSpace target) []) as [E|_]; [contradiction|].
    split; [|split].
    + intros ->. reflexivity.
    + intros err -> ->. reflexivity.
    + intros contents -> Hr Hm. cbn [IsDir negb].
      unfold atomembed.markerMatches, bind, ReadFile, query, ret. cbn [fst snd].
      rewrite Hr, Hm. cbn [fst]. now rewrite streq_refl.
Qed.

Module BootFacts.
Import strings path valence.

Section WithOS.
Context {W : Type} `{OS W}.

Lemma envOrDefault_run (key def : str) (s : state W) :
  envOrDefault key def s
  = (match TrimSpace (os_Getenv (world s) key) with
     | [] => def
     | c :: v => c :: v
     end, s).
Proof.
  unfold envOrDefault, bind, Getenv, query, ret. cbn [fst snd].
  now destruct (TrimSpace (os_Getenv (world s) key)).
Qed.

Lemma Abs_query (p : str) (s : state W) : snd (Abs p s) = s.
Proof.
  unfold Abs. destruct (IsAbs p); [reflexivity|].
  unfold bind, Getwd, query, ret. cbn [fst snd].
  now destruct (os_Getwd (world s)).
Qed.

(** The root [resolveAtomRoot] returns is a directory in the state it
    leaves. *)
Lemma resolveAtomRoot_directory (a : atomembed.Archive) (s : state W)
    (abs : str) :
  fst (resolveAtomRoot a s) = Ok abs ->
  os_Stat (world (snd (resolveAtomRoot a s))) abs = Ok {| IsDir := true |}.
Proof.
  unfold resolveAtomRoot, bind, Getenv, query. cbn [fst snd].
  destruct (TrimSpace (os_Getenv (world s) "VALENCE_ATOM_SRC_DIR")) as [|c root];
    [discriminate|].
  destruct (Abs (c :: root) s) as [[abs0|err] s1]; cbv beta iota;
    [|discriminate].
  destruct (ensureAtomRoot a abs0 s1) as [[err|] s2]; cbv beta iota;
    [discriminate|].
  unfold Stat, query, ret. cbn [fst snd].
  destruct (os_Stat (world s2) abs0) as [info|err] eqn:Es; cbv beta iota;
    [|discriminate].
  destruct (IsDir info) eqn:Ed; cbn [fst snd]; [|discriminate].
  intros [= <-]. rewrite Es. f_equal.
  now apply EnsureFacts.isDir_eta.
Qed.

Lemma resolveAtomRoot_blank (a : atomembed.Archive) (s : state W) :
  TrimSpace (os_Getenv (world s) "VALENCE_ATOM_SRC_DIR") = [] ->
  resolveAtomRoot a s = (Err (errors.New "VALENCE_ATOM_SRC_DIR is required"), s).
Proof.
  intros E. unfold resolveAtomRoot, bind, Getenv, query. cbn [fst snd].
  now rewrite E.
Qed.

End WithOS.

End BootFacts.

(** X22.  A configuration [loadConfig] returns holds: an address that
    is the trimmed [VALENCE_ADDR], or [:8080] when that is unset or blank,
    and so is never empty; an application root that is a directory in the
    state [loadConfig] leaves; and a front controller that is [index.php]
    in that root and is there an existing file that is no directory. *)
Theorem loadConfig_result {W : Type} `{OS W} (a : atomembed.Archive)
    (s : state W) (cfg : valence.config) :
  fst (valence.loadConfig a s) = Ok cfg ->
  let w' := world (snd (valence.loadConfig a s)) in
  valence.addr cfg
  = match strings.TrimSpace (os_Getenv (world s) "VALENCE_ADDR") with
    | [] => ":8080"
    | c :: v => c :: v
    end
  /\ valence.addr cfg <> []
  /\ os_Stat w' (valence.phpRoot cfg) = Ok {| IsDir := true |}
  /\ valence.frontController cfg = path.Join (valence.phpRoot cfg) "index.php"
  /\ valence.regular w' (valence.frontController cfg) = true.
Proof.
  intros Hfst w'. subst w'.
  destruct (valence.loadConfig a s) as [r sf] eqn:E. cbn [fst snd] in *.
  subst r. revert E.
  unfold valence.loadConfig. unfold bind at 1.
  rewrite BootFacts.envOrDefault_run.
  unfold bind at 1.
  pose proof (BootFacts.resolveAtomRoot_directory a s) as Hdir.
  destruct (valence.resolveAtomRoot a s) as [[absRoot|err] s1];
    [|discriminate].
  cbn [fst snd] in Hdir. specialize (Hdir absRoot eq_refl).
  unfold bind at 1. unfold Getenv at 1, query at 1. cbn [fst snd].
  set (dataDir := match strings.TrimSpace (os_Getenv (world s1) "ATOM_DATA_DIR")
                  with [] => _ | _ :: _ => _ end).
  unfold bind at 1.
  assert (Hd : snd (dataDir s1) = s1).
  { subst dataDir.
    destruct (strings.TrimSpace (os_Getenv (world s1) "ATOM_DATA_DIR"))
      as [|c dir]; [reflexivity|].
    unfold bind. pose proof (BootFacts.Abs_query (c :: dir) s1) as Ha.
    destruct (Abs (c :: dir) s1) as [[abs|err] s2]; cbn [snd] in Ha |- *;
      exact Ha. }
  destruct (dataDir s1) as [atomDataDir s2]. cbn [snd] in Hd. subst s2.
  unfold bind, Stat, query, ret. cbn [fst snd].
  unfold valence.regular.
  destruct (os_Stat (world s1) (path.Join absRoot "index.php")) as [info|err]
    eqn:Es; [|discriminate].
  destruct (negb (IsDir info)) eqn:Ed; [|discriminate].
  intros [= <- <-]. cbn [valence.addr valence.phpRoot valence.frontController].
  split; [reflexivity|]. split.
  - destruct (strings.TrimSpace (os_Getenv (world s) "VALENCE_ADDR"));
      discriminate.
  - split; [exact Hdir|]. split; [reflexivity|]. now rewrite Es.
Qed.

Lemma loadConfig_witness :
  valence.addr
    {| valence.addr := ":8080"; valence.phpRoot := "/app/atom";
       valence.frontController := "/app/atom/index.php";
       valence.atomDataDir := "/data" |} <> []
  /\ os_Stat
       (world (snd (valence.loadConfig sample.snapshotB
                      (lexfs.start sample.foreign))))
       "/app/atom"
     = Ok {| IsDir := true |}.
Proof.
  assert (E : fst (valence.loadConfig sample.snapshotB
                     (lexfs.start sample.foreign))
              = Ok {| valence.addr := ":8080"; valence.phpRoot := "/app/atom";
                      valence.frontController := "/app/atom/index.php";
                      valence.atomDataDir := "/data" |})
    by (vm_compute; reflexivity).
  destruct (loadConfig_result sample.snapshotB (lexfs.start sample.foreign) _ E)
    as (_ & Ha & Hd & _).
  split; [exact Ha|exact Hd].
Defined.

(** X23.  Without [VALENCE_ATOM_SRC_DIR], unset or blank, [run] ends
    with a configuration error that says the variable is required.  It
    has then issued no call, run no boot stage and opened no listener,
    and the state is as it was. *)
Theorem run_requires_source_dir {W : Type} `{OS W} `{valence.Stages W}
    (a : atomembed.Archive) (s : state W) :
  strings.TrimSpace (os_Getenv (world s) "VALENCE_ATOM_SRC_DIR") = [] ->
  valence.run a s
  = (valence.Aborted
       (Wrapped "config error"
          (errors.New "VALENCE_ATOM_SRC_DIR is required")), s).
Proof.
  intros E. unfold valence.run, valence.loadConfig. unfold bind at 1.
  unfold bind at 1. rewrite BootFacts.envOrDefault_run.
  unfold bind at 1. now rewrite (BootFacts.resolveAtomRoot_blank a s E).
Qed.

Lemma run_requires_witness :
  valence.run sample.snapshotA (lexfs.start sample.withExtensions)
  = (valence.Aborted
       (Wrapped "config error"
          (errors.New "VALENCE_ATOM_SRC_DIR is required")),
     lexfs.start sample.withExtensions).
Proof.
  apply (run_requires_source_dir sample.snapshotA
           (lexfs.start sample.withExtensions)).
  reflexivity.
Defined.

Module PermFacts.
Import strings path atomembed TraceFacts.

Lemma Perm_bits (mode : Z) : (0 <= Perm mode < 512)%Z.
Proof.
  unfold Perm. change 511%Z with (Z.ones 9).
  rewrite Z.land_ones by lia. apply Z.mod_pos_bound. lia.
Qed.

Section WithOS.
Context {W : Type} `{OS W}.

Lemma extractEntry_perms (target : str) (e : Entry) :
  traced (fun c => forall p perm,
                     c = CallMkdirAll p perm \/ c = CallOpenFile p perm ->
                     (0 <= perm < 512)%Z)
         (extractEntry target e).
Proof.
  assert (Hdir : forall p, forall q perm,
             CallMkdirAll p 493 = CallMkdirAll q perm
             \/ CallMkdirAll p 493 = CallOpenFile q perm ->
             (0 <= perm < 512)%Z)
    by (intros p q perm [[= _ <-]|[=]]; lia).
  assert (Hmode : forall p m, forall q perm,
             CallMkdirAll p (Perm m) = CallMkdirAll q perm
             \/ CallMkdirAll p (Perm m) = CallOpenFile q perm ->
             (0 <= perm < 512)%Z)
    by (intros p m q perm [[= _ <-]|[=]]; apply Perm_bits).
  assert (Hopen : forall p m, forall q perm,
             CallOpenFile p (Perm m) = CallMkdirAll q perm
             \/ CallOpenFile p (Perm m) = CallOpenFile q perm ->
             (0 <= perm < 512)%Z)
    by (intros p m q perm [[=]|[= _ <-]]; apply Perm_bits).
  assert (Hother : forall c,
             (forall q perm, c <> CallMkdirAll q perm) ->
             (forall q perm, c <> CallOpenFile q perm) ->
             forall q perm,
               c = CallMkdirAll q perm \/ c = CallOpenFile q perm ->
               (0 <= perm < 512)%Z)
    by (intros c H1 H2 q perm [E|E]; [now destruct (H1 q perm)
                                     |now destruct (H2 q perm)]).
  unfold extractEntry, writeRegular, MkdirAll, OpenFile, Write, Close, Symlink.
  destruct (streq (Name (hdr e)) []); [apply traced_ret|].
  destruct (HasPrefix (Clean (Name (hdr e))) ".." || IsAbs (Clean (Name (hdr e))));
    [apply traced_ret|].
  destruct (Typeflag (hdr e)); try apply traced_ret;
    repeat first
      [ apply traced_ret
      | apply traced_bind; [|intros ?]
      | apply traced_perform;
        first [ apply Hdir | apply Hmode | apply Hopen
              | apply Hother; discriminate ]
      | match goal with
        | |- traced _ (match ?x with _ => _ end) => destruct x
        | |- traced _ (if ?x then _ else _) => destruct x
        end ].
Qed.

End WithOS.

End PermFacts.

(** X24.  Every directory [extractArchive] makes and every file it
    opens gets permission bits only: the mode it passes lies between 0 and
    0777, whatever mode the entry's header carries, so no entry of the
    archive yields a set-user-id, set-group-id or sticky file. *)
Theorem extractArchive_permission_bits {W : Type} `{OS W}
    (a : atomembed.Archive) (target : str) :
  traced (fun c => forall p perm,
                     c = CallMkdirAll p perm \/ c = CallOpenFile p perm ->
                     (0 <= perm < 512)%Z)
         (atomembed.extractArchive a target).
Proof.
  unfold atomembed.extractArchive.
  destruct (negb (atomembed.ArchiveAvailable a)); [apply TraceFacts.traced_ret|].
  apply TraceFacts.traced_bind.
  - apply TraceFacts.traced_perform. intros p perm [[= _ <-]|[=]]. lia.
  - intros [err|]; [apply TraceFacts.traced_ret|].
    destruct (atomembed.gzipErr a); [apply TraceFacts.traced_ret|].
    induction (atomembed.tarEntries a) as [|e es IH]; simpl;
      [apply TraceFacts.traced_ret|].
    apply TraceFacts.traced_bind; [apply PermFacts.extractEntry_perms|].
    intros [err|]; [apply TraceFacts.traced_ret|exact IH].
Qed.

Example setuid_is_dropped :
  calls (snd (atomembed.extractArchive
                {| atomembed.nonEmpty := true;
                   atomembed.sha256hex := sample.digestA;
                   atomembed.gzipErr := None;
                   atomembed.tarEntries :=
                     [ {| atomembed.hdr :=
                            {| atomembed.Name := "bin/tool";
                               atomembed.Typeflag := atomembed.TypeReg;
                               atomembed.Linkname := [];
                               atomembed.Mode := 2541 |};
                          atomembed.body := "#!";
                          atomembed.bodyErr := None |} ];
                   atomembed.tarEnd := None |}
                "/app/atom" (lexfs.start sample.fresh)))
  = [ CallMkdirAll "/app/atom" 493;
      CallMkdirAll "/app/atom/bin" 493;
      CallOpenFile "/app/atom/bin/tool" 493;
      CallWrite "/app/atom/bin/tool" "#!";
      CallClose "/app/atom/bin/tool" ].
Proof. vm_compute. reflexivity. Qed.
